(* ===== verification/_CoqProject ===== *)
-Q . S2P
Prelude.v
GoStrings.v
Strconv.v
FloatText.v
GoSort.v
Values.v
ApiMachinery.v
Resolver.v
Metric.v
TextParse.v
Family.v
Store.v
Writer.v
Types.v
DeepCopy.v
Builder.v
Decode.v
Events.v
Memory.v
Clients.v
Fake.v
FakeWatch.v
Informers.v
Heap.v
Workqueue.v
Delaying.v
Controller.v
Probe.v
Server.v
Instrument.v
Mux.v
System.v
Locking.v
Reflector.v
Race.v
MapRace.v
Pipeline.v
Replacement.v
Deployment.v
Exposition.v
Options.v
Tuning.v
Main.v
Lifecycle.v
