(* ===== verification/Prelude.v ===== *)
(** * crdmetrics: a verification development

    crdmetrics is a Kubernetes controller that turns custom resources into
    Prometheus metrics.  A managed resource ([CRDMetricsResource]) carries a
    YAML configuration: a list of stores, each with the kind of objects it
    watches, families of metrics, and the queries that give the labels and the
    values.  An informer queues the changes of managed resources; workers
    handle them by building or dropping stores; the reflector of each store
    adds, updates and deletes objects in it; and the main server writes the
    stores out at every scrape.  This development models that program and
    proves what makes it correct, along with the places where it is not.

    ** The files, and the code they model

    Foundations:
    - [Prelude] (this file): results, panics, the state monad [M] and its total
      correctness [wp], strings as bytes, and the unspecified iteration order
      of maps ([MapRange]).
    - [GoStrings], [Strconv], [FloatText], [GoSort]: what the program uses of the
      packages [strings], [regexp], [utf8], [strconv] and [sort]; [FloatText]
      shows that a printed number is parsed.  [sort.Slice] is a
      class with its documented laws ([SortSlice]): it permutes and sorts.
    - [Values]: dynamic values, unstructured objects, their accessors.
    - [ApiMachinery] ([k8s.io/apimachinery]): the errors of the API server, the
      events of a watch, and the server's validation of list options.

    Metrics:
    - [Resolver] ([pkg/resolver]): the path resolver and the CEL resolver; the
      CEL library is the class [CEL].
    - [Metric] ([internal/metric.go]): one sample line, and a parser of it.
    - [TextParse] ([prometheus/common/expfmt/text_parse.go]): the parser of the
      text format, which is what reads a scrape; it is vendored with the program.
    - [Family] ([internal/family.go]): the text of a family for an object.
    - [Store] ([internal/store.go]): the store and its operations.
    - [Writer] ([internal/writer.go]): the exposition of a list of stores, over
      a writer that may fail ([IOWriter]).

    Managed resources:
    - [Types] ([pkg/apis/crdmetrics]): the resource as a value, [Status.Set].
    - [DeepCopy] ([zz_generated.deepcopy.go]): the resource in memory, on a heap
      of cells, and every generated deep copy.
    - [Memory]: [Status.Set] and the labels of [updateMetadata] on that heap.
    - [Builder] ([internal/builder.go], [internal/config.go]): the world of the
      controller (heap of stores, reflectors, map from resources to stores)
      and the building of stores.
    - [Decode] ([internal/config.go], [yaml.v3]): the decoding of a document into
      the configuration.
    - [Events] ([internal/events.go]): the handler of an event, over an API
      server ([API], with its laws in [APILaws] and [Reliable]).

    Clients ([pkg/generated]):
    - [Clients]: the scheme, the clientset, the requests of the typed client and
      their paths ([RESTServer]), the listers.
    - [Fake]: the fake clientset over its object tracker; [FakeWatch] adds the
      watchers of the tracker and their channels.
    - [Informers]: the shared informer factory as a transition system.

    The controller:
    - [Workqueue] ([client-go/util/workqueue], as [NewController] sets it up);
      [Delaying] has its delaying queue with the heap ([Heap],
      [container/heap]), the channel and the goroutine it is made of.
    - [Controller] ([internal/controller.go]): informer handlers, keys, workers.
    - [Probe] ([internal/probe.go]), [Server] ([internal/server.go]): the
      probes, the routes, and the metrics handler over the world.
    - [Instrument]: the metrics handler under [promhttp]'s instrumentation.
    - [Mux]: the dispatch of requests to the routes of the two servers.
    - [System]: workers and reflectors as a transition system on the world.
    - [Locking]: the mutexes of the stores, and the accesses of the reflectors
      and of the scrapes to the stores, one by one.
    - [Reflector] ([client-go/tools/cache/reflector.go], as [buildStore] sets it
      up): the loops of a reflector against a cluster that changes.
    - [Race]: the accesses of the workers to the map of stores, one by one;
      [MapRace]: the same, with scrapes, under the checks of the Go runtime.
    - [Pipeline]: informer events, queue, workers, reflectors and scrapes
      together, from the report of a resource to its exposition;
      [Replacement]: what an update leaves of the old stores; [Deployment]: the
      pipeline with the reflectors of [Reflector], down to the objects of the
      cluster; [Exposition]: what the parser of [TextParse] makes of a scrape.
    - [Options] ([internal/options.go]), [Tuning], [Main] ([main.go],
      [pkg/signals], [Controller.Run]): flags and environment, the settings of
      the runtime, signals, the endings of the process.
    - [Lifecycle] ([NewController], [Controller.Run]): start, synchronization,
      workers, servers and shutdown as a transition system.

    ** How state and operations correspond

    A Go function that may panic returns an [outcome]; one that also changes
    shared state is a computation in [M]; an error is a [result] or an option.
    A store pointer is a location of the heap in [World], so the map of the
    controller and a reflector share the store they point to.  Families and
    metrics are only reachable from their store, so the label slices that
    [Add] and [rawFrom] append to in place are returned as a new store.  A
    deletion from the map does not touch the heap.  Managed resources are
    values in most files; that this is sound, because the handler only writes
    to deep copies, is what [DeepCopy] and [Memory] show, on a heap where a
    pointer is a location, a slice an array with a length, and a map a cell.
    An informer of the factory is a location of its own heap.  Integers are
    [Z] where they can be negative or have a width, [nat] for lengths and
    indices; floating-point numbers are exact binary64 values with their
    rounding written out ([Strconv]).

    Time and concurrency are sequences of steps.  [System] and [Pipeline] take a
    piece of a handler, or the handling of an item, as a step; [Race] takes each
    access to the map; [Locking] each access to a mutex or a store; [Delaying]
    each receive of the goroutine of the queue; [Informers] and [Lifecycle] take each access of a
    goroutine to what it shares; [Reflector] takes a request, an answer, or an
    event of a watch.  Timers and contexts fire at any time.

    ** What is proved

    - Text: a sample that is written reads back with all its labels and its
      value ([Metric]); the text parser returns the families of a whole scrape,
      when names and help texts need no escaping, if no family comes twice and
      every sample has valid and distinct label names and valid values, and
      rejects the scrape otherwise, as it does from the second event of an
      object with inherited labels on ([Exposition]); every line of a family is
      well formed and does not depend on iteration order or on the sort, when its
      keys are distinct ([Family]); scrapes differ at most in the order of the objects of a
      family, and stop at the first failed write ([Writer]).
    - Functional correctness: [rawFrom], [Add], [build], [Status.Set], the two
      resolvers, [handleEvent] on a server that answers, [Read], the keys of
      the queue, the lister and the informer of managed resources, each against
      a specification.
    - Errors: whatever the server answers, the handler and the worker end without
      a panic but for a configuration with a null item, and the stores change as
      the event says or not at all ([Events], [Controller]).
    - Configurations: decoding is type correct, complete on the configurations
      the program's tags can write, and leaves [build] safe exactly when no
      item is null ([Decode]).
    - Memory: deep copies are equal and separate ([DeepCopy]); the writes of the
      handler touch only them ([Memory]).
    - Invariants and safety: stores stay well formed over any run; in every
      reachable world of [System] a scrape cannot panic, and with a key for
      every label value nothing panics in any reachable state of [Pipeline];
      the queue never hands out an item twice and loses none; the controller's
      own writes are not queued; an informer is never run twice ([Informers]);
      nothing runs before the caches have synced ([Lifecycle]); workers on
      distinct resources do not disturb each other ([Race]).
    - Reflectors: while a watch is open its store mirrors the cluster, and from
      any state a reflector comes to show every object; but an object deleted
      between two watches stays for ever, and under --try-no-cache every watch
      is invalid and the stores stay empty ([Reflector]).  A scrape shows the
      objects of the cluster under the stores configured for them
      ([Deployment]).
    - The map of stores: workers and scrapes can find each other in it, and the
      runtime then ends the process; runs without that are runs of [Race]
      ([MapRace]).
    - Locks: the operations of the reflectors and the scrapes are atomic and
      never in a deadlock; but a client that stops reading blocks the stores it
      is being sent ([Locking]).
    - Refinement: [rawFrom] and [writeAllTo] refine their printed
      specifications, a store refines the set of its objects, an event refines
      steps of [System]; the delaying queue is, step by step, a queue with a
      multiset of items that wait for their times, so its retries are neither
      lost, early nor made up ([Delaying]); the typed client over its paths
      is the server that the handler is proved against, and for the handler's
      writes so is the fake clientset ([Fake]), whose watches miss nothing
      ([FakeWatch]).
    - The servers: the instrumentation changes no response ([Instrument]);
      requests reach the routes of their paths after at most one redirection
      ([Mux]).
    - The process: every option has a value of its type after [Read]
      ([Options]); GOMAXPROCS is at least one and GOMEMLIMIT at most the
      memory limit ([Tuning]).
    - Progress: [Run], its polls of the caches apart, and the factory's [Shutdown] return once their contexts
      have ended; a worker empties the queue; a reported resource is scraped,
      and after an update only its new stores are ([Replacement]).
    - Defects, as theorems about the code as it is: labels accumulate at every
      event, a missing label key panics, a null item of a configuration ends
      the process, integers in maps are dropped, deleted resources keep their
      stores, reflectors never stop and write every object again at each new
      watch, two events of one resource can lose a
      store, an event that meets a conflict is dropped, help texts are not
      escaped and families of one name in two stores not grouped, which the text
      parser rejects, a query with a null result gives no label, requests are
      dropped at the shutdown, and a flag set to its default is overridden by
      the environment.

    ** Bounds and fuel

    [digits_fuel] bounds the digits of an integer by its binary logarithm;
    [shortest_from] tries the at most 18 digits a binary64 number needs;
    [parse_labels] has the length of its input, one label being at least one
    byte; [poll_rounds] is the sixty intervals of the metadata poll, of which
    one is used ([updateMetadata_one_round]); [process_items] has the number of
    queued items, shown to be enough in [worker_drains]; sifting an item up or
    down a heap has more rounds than the heap has levels ([Heap]); the loops of
    [TextParse] have one round more than the bytes left, and never use them up
    ([TextToMetricFamilies_ends]).  No other recursion has fuel.

    ** What is not modelled

    Logging, profiling, the event broadcaster and the telemetry registry; what
    the control groups of the system hold; the transports and the discovery
    client; the delays of a reflector and the pages of a list, which it never
    asks for; the inside of a running informer, whose operations come in any
    order, as do those of the reflectors in [System]; the YAML parser,
    which makes the document that [Decode] starts from, with its aliases and
    merge keys expanded and its tags resolved; summaries and histograms in
    [TextParse], which the program never writes, and the line numbers of its
    errors; the time zones that times refer to, which are constants; the delays of the token bucket of the queue, and its
    [ShutDownWithDrain], which the program never calls; the Go memory model
    beyond the check of the runtime for concurrent accesses to a map ([MapRace]):
    what the runtime does not notice is taken for atomic.  [ToLower] and
    [ToUpper] change ASCII letters only: their callers in the program pass ASCII,
    and the parser compares what it upper-cases to ASCII words. *)
From stdpp Require Export base tactics list strings gmap sorting.
From Stdlib Require Export ZArith Lia.
From Stdlib Require Export Ascii.
From Stdlib Require String.

(** ** Results, panics and stateful computations *)

(** A Go call that returns [(value, error)] is a [result]: [Ok v] when the
    error is nil, [Err e] otherwise. *)
Inductive result (E A : Type) : Type :=
| Ok (a : A)
| Err (e : E).
Arguments Ok {E A} _.
Arguments Err {E A} _.

(** The run-time panics that the modelled code can raise. *)
Inductive panic : Type :=
| IndexOutOfRange (index : Z) (length : nat)
| NilDereference
| CloseOfClosedChannel
| PanicError (err : string).

(** What a call that may panic comes to. *)
Inductive outcome (A : Type) : Type :=
| Done (a : A)
| Panicked (p : panic).
Arguments Done {A} _.
Arguments Panicked {A} _.

#[global] Instance outcome_ret : MRet outcome := λ A a, Done a.
#[global] Instance outcome_bind : MBind outcome := λ A B k m,
  match m with
  | Done a => k a
  | Panicked p => Panicked p
  end.

(** [s[i]] of a Go slice. *)
Definition index {A} (l : list A) (i : nat) : outcome A :=
  match l !! i with
  | Some a => Done a
  | None => Panicked (IndexOutOfRange (Z.of_nat i) (length l))
  end.

Lemma index_Done `{Inhabited A} (l : list A) i : i < length l → index l i = Done (l !!! i).
Proof.
  intros Hi. unfold index. apply lookup_lt_is_Some in Hi as [x Hx].
  by rewrite Hx, (list_lookup_total_correct _ _ _ Hx).
Qed.

(** Taking an item out of a list without repetitions. *)
Lemma NoDup_delete {A} (l : list A) i x :
  NoDup l → l !! i = Some x → NoDup (delete i l) ∧ ∀ y, y ∈ delete i l ↔ y ∈ l ∧ y ≠ x.
Proof.
  intros Hnd Hp%delete_Permutation. rewrite Hp in Hnd. apply NoDup_cons in Hnd as [Hx Hnd].
  split; [done|]. intros y.
  assert (y ∈ l ↔ y ∈ x :: delete i l) as -> by by rewrite <- Hp.
  rewrite elem_of_cons. naive_solver.
Qed.

(** A computation over the state [S] that may panic; the state reached is
    kept also when it panics. *)
Definition M (S A : Type) : Type := S → outcome A * S.

#[global] Instance M_ret {S} : MRet (M S) := λ A a s, (Done a, s).
#[global] Instance M_bind {S} : MBind (M S) := λ A B k m s,
  match m s with
  | (Done a, s') => k a s'
  | (Panicked p, s') => (Panicked p, s')
  end.

Definition get {S} : M S S := λ s, (Done s, s).
Definition put {S} (s : S) : M S unit := λ _, (Done tt, s).
Definition modify {S} (f : S → S) : M S unit := λ s, (Done tt, f s).
Definition lift {S A} (o : outcome A) : M S A := λ s, (o, s).

(** *** Total correctness

    [wp m Q s]: run from [s], [m] does not panic and its value and final state
    satisfy [Q]. *)
Definition wp {S A} (m : M S A) (Q : A → S → Prop) (s : S) : Prop :=
  match m s with
  | (Done a, s') => Q a s'
  | (Panicked _, _) => False
  end.

Section wp.
Context {S : Type}.

Lemma wp_ret {A} (a : A) (Q : A → S → Prop) s : Q a s → wp (mret a) Q s.
Proof. done. Qed.

Lemma wp_bind {A B} (m : M S A) (k : A → M S B) (Q : B → S → Prop) s :
  wp m (λ a s', wp (k a) Q s') s → wp (m ≫= k) Q s.
Proof.
  unfold wp, mbind, M_bind. by destruct (m s) as [[a|p] s'].
Qed.

Lemma wp_mono {A} (m : M S A) (P Q : A → S → Prop) s :
  wp m P s → (∀ a s', P a s' → Q a s') → wp m Q s.
Proof. unfold wp. destruct (m s) as [[a|p] s']; eauto. Qed.

Lemma wp_and {A} (m : M S A) (P Q : A → S → Prop) s :
  wp m P s → wp m Q s → wp m (λ a s', P a s' ∧ Q a s') s.
Proof. unfold wp. destruct (m s) as [[a|p] s']; eauto. Qed.

Lemma wp_modify (f : S → S) (Q : unit → S → Prop) s : Q tt (f s) → wp (modify f) Q s.
Proof. done. Qed.

Lemma wp_lift {A} (o : outcome A) a (Q : A → S → Prop) s :
  o = Done a → Q a s → wp (lift o) Q s.
Proof. by intros ->. Qed.

Lemma wp_run {A} (m : M S A) (Q : A → S → Prop) s :
  wp m Q s → ∃ a s', m s = (Done a, s') ∧ Q a s'.
Proof. unfold wp. destruct (m s) as [[a|p] s']; [eauto|done]. Qed.

(** [ends m Q R s]: run from [s], [m] ends as [Q] says, or panics as [R] says. *)
Definition ends {A} (m : M S A) (Q : A → S → Prop) (R : panic → S → Prop) (s : S) : Prop :=
  match m s with
  | (Done a, s') => Q a s'
  | (Panicked p, s') => R p s'
  end.

Lemma wp_ends {A} (m : M S A) (Q : A → S → Prop) R s : wp m Q s → ends m Q R s.
Proof. unfold wp, ends. by destruct (m s) as [[a|p] s']. Qed.

Lemma ends_wp {A} (m : M S A) (Q : A → S → Prop) R s :
  ends m Q R s → (∀ p s', ¬ R p s') → wp m Q s.
Proof. unfold wp, ends. destruct (m s) as [[a|p] s']; [done|]. intros HR Hno. by apply Hno in HR. Qed.

Lemma ends_bind {A B} (m : M S A) (k : A → M S B) (P : A → S → Prop) (Q : B → S → Prop) R s :
  wp m P s → (∀ a s', P a s' → ends (k a) Q R s') → ends (m ≫= k) Q R s.
Proof.
  unfold wp, ends, mbind, M_bind. destruct (m s) as [[a|p] s']; [|done]. intros HP Hk. by apply Hk.
Qed.

Lemma ends_mono {A} (m : M S A) (P Q : A → S → Prop) (R T : panic → S → Prop) s :
  ends m P R s → (∀ a s', P a s' → Q a s') → (∀ p s', R p s' → T p s') → ends m Q T s.
Proof. unfold ends. destruct (m s) as [[a|p] s']; eauto. Qed.
End wp.

(** Steps through a computation with the rules above. *)
Ltac wp_step :=
  match goal with
  | |- wp (mbind _ _) _ _ => apply wp_bind
  | |- wp (mret _) _ _ => apply wp_ret
  | |- wp (modify _) _ _ => apply wp_modify
  end.

(** ** Strings as byte sequences

    A Go string is its bytes; [string] of the Standard Library with one
    [ascii] per byte. *)

Definition byte (c : ascii) : N := N_of_ascii c.

Definition in_range (lo hi : N) (c : ascii) : bool :=
  (lo <=? byte c)%N && (byte c <=? hi)%N.

Fixpoint string_map (f : ascii → ascii) (s : string) : string :=
  match s with
  | EmptyString => EmptyString
  | String c s => String (f c) (string_map f s)
  end.

Fixpoint string_flat_map (f : ascii → string) (s : string) : string :=
  match s with
  | EmptyString => EmptyString
  | String c s => f c +:+ string_flat_map f s
  end.

Fixpoint string_forallb (p : ascii → bool) (s : string) : bool :=
  match s with
  | EmptyString => true
  | String c s => p c && string_forallb p s
  end.

Definition string_concat (l : list string) : string := foldr String.append "" l.

Definition char (c : ascii) : string := String c EmptyString.

Lemma append_nil_r (s : string) : s +:+ "" = s.
Proof. induction s as [|c s IH]; [done|]. by rewrite <- IH at 2. Qed.

Lemma append_cons (c : ascii) (s t : string) : String c s +:+ t = String c (s +:+ t).
Proof. done. Qed.

Lemma append_nil_l (s : string) : "" +:+ s = s.
Proof. done. Qed.

Lemma append_assoc (s t u : string) : (s +:+ t) +:+ u = s +:+ (t +:+ u).
Proof. induction s as [|c s IH]; [done|]. by rewrite !append_cons, IH. Qed.

Lemma length_append (s t : string) :
  Strings.String.length (s +:+ t) = Strings.String.length s + Strings.String.length t.
Proof. induction s as [|c s IH]; [done|]. rewrite append_cons; simpl; lia. Qed.

Lemma append_inj_l (s t u : string) : s +:+ t = s +:+ u → t = u.
Proof. apply String.app_inj. Qed.

Lemma string_concat_app (l k : list string) :
  string_concat (l ++ k) = string_concat l +:+ string_concat k.
Proof.
  induction l as [|s l IH]; [done|].
  unfold string_concat in *; simpl. by rewrite IH, append_assoc.
Qed.

Lemma string_concat_cons (s : string) (l : list string) :
  string_concat (s :: l) = s +:+ string_concat l.
Proof. done. Qed.

Lemma string_forallb_app p (s t : string) :
  string_forallb p (s +:+ t) = string_forallb p s && string_forallb p t.
Proof.
  induction s as [|c s IH]; [done|]. rewrite append_cons; simpl.
  by rewrite IH, andb_assoc.
Qed.

Lemma string_forallb_impl (p q : ascii → bool) (s : string) :
  (∀ c, p c = true → q c = true) →
  string_forallb p s = true → string_forallb q s = true.
Proof.
  intros Hpq. induction s as [|c s IH]; [done|]; simpl.
  rewrite !andb_true_iff. naive_solver.
Qed.

Lemma string_forallb_map p f (s : string) :
  string_forallb p (string_map f s) = string_forallb (λ c, p (f c)) s.
Proof. induction s as [|c s IH]; [done|]; simpl. by rewrite IH. Qed.

Lemma string_flat_map_app f (s t : string) :
  string_flat_map f (s +:+ t) = string_flat_map f s +:+ string_flat_map f t.
Proof.
  induction s as [|c s IH]; [done|]. rewrite append_cons; simpl.
  by rewrite IH, append_assoc.
Qed.

(** A property of all the bytes follows from checking the 256 of them. *)
Lemma all_ascii (P : ascii → bool) :
  forallb (λ n, P (ascii_of_nat n)) (seq 0 256) = true → ∀ c, P c = true.
Proof.
  intros H c. rewrite <- (ascii_nat_embedding c).
  rewrite forallb_forall in H. apply H, in_seq.
  pose proof (nat_ascii_bounded c). lia.
Qed.

Create Rewrite HintDb go_str.
#[export] Hint Rewrite append_nil_r append_nil_l append_cons append_assoc
  string_concat_app string_concat_cons string_forallb_app string_flat_map_app
  length_append : go_str.

(** ** Map iteration

    The order in which [range] visits a Go map is unspecified, and differs
    from one execution of the statement to the next.  The class gives the
    order at each execution, identified by its [site]; nothing is known of it
    but that every entry is visited once.  Results are proved for every
    instance; the one declared here is used to evaluate examples. *)
Class MapRange : Type := {
  range {A} (site : list nat) (m : gmap string A) : list (string * A);
  range_perm {A} (site : list nat) (m : gmap string A) : range site m ≡ₚ map_to_list m;
}.

#[export] Instance canonical_range : MapRange := {|
  range A _ m := map_to_list m;
  range_perm A _ m := Permutation_refl (map_to_list m);
|}.
