(* ===== verification/GoStrings.v ===== *)
(** * The parts of [strings], [regexp] and [utf8] that the program uses

    Strings are byte sequences.  Modelled here: [utf8.DecodeRuneInString] as
    far as its width goes, [utf8.ValidString], the replacement of the regular expression [\W] by
    an underscore, the expression that finds the revision in the version
    banner, [strings.ToLower] and [strings.ToUpper] on the ASCII strings they
    are given, [strings.Split] and [strings.ReplaceAll] on one-byte
    separators, and the byte-to-string [strings.Replacer] of the label value
    escapes. *)
From S2P Require Import Prelude.

(** ** Character classes *)

(** [[0-9A-Za-z_]], the class [\w]. *)
Definition is_word (c : ascii) : bool :=
  in_range 48 57 c || in_range 65 90 c || in_range 97 122 c || (byte c =? 95)%N.

(** [[0-9a-z_]], what is left of [\w] after [strings.ToLower]. *)
Definition is_lower_word (c : ascii) : bool :=
  in_range 48 57 c || in_range 97 122 c || (byte c =? 95)%N.

(** [[\t\n\f\r ]], the class [\s] of Go regular expressions. *)
Definition is_space (c : ascii) : bool :=
  (byte c =? 9)%N || (byte c =? 10)%N || (byte c =? 12)%N || (byte c =? 13)%N
  || (byte c =? 32)%N.

Definition is_ascii (c : ascii) : bool := (byte c <? 128)%N.

Definition to_lower (c : ascii) : ascii :=
  if in_range 65 90 c then ascii_of_N (byte c + 32) else c.

Definition to_upper (c : ascii) : ascii :=
  if in_range 97 122 c then ascii_of_N (byte c - 32) else c.

(** [strings.ToLower] and [strings.ToUpper] on a string of ASCII bytes (their
    fast path); the callers below only pass such strings. *)
Definition ToLower (s : string) : string := string_map to_lower s.
Definition ToUpper (s : string) : string := string_map to_upper s.

(** ** Runes *)

(** The number of bytes of the rune at the front of [String c s], as
    [utf8.DecodeRuneInString] returns it: an invalid encoding is the rune
    [RuneError] of width 1. *)
Definition is_cont (lo hi : N) (c : option ascii) : bool :=
  match c with
  | Some c => in_range lo hi c
  | None => false
  end.

Definition rune_width (c : ascii) (s : string) : nat :=
  let c1 := Strings.String.get 0 s in
  let c2 := Strings.String.get 1 s in
  let c3 := Strings.String.get 2 s in
  let two lo hi := if is_cont lo hi c1 then 2 else 1 in
  let three lo hi := if is_cont lo hi c1 && is_cont 128 191 c2 then 3 else 1 in
  let four lo hi :=
    if is_cont lo hi c1 && is_cont 128 191 c2 && is_cont 128 191 c3
    then 4 else 1 in
  if in_range 194 223 c then two 128%N 191%N
  else if in_range 224 224 c then three 160%N 191%N
  else if in_range 225 236 c then three 128%N 191%N
  else if in_range 237 237 c then three 128%N 159%N
  else if in_range 238 239 c then three 128%N 191%N
  else if in_range 240 240 c then four 144%N 191%N
  else if in_range 241 243 c then four 128%N 191%N
  else if in_range 244 244 c then four 128%N 143%N
  else 1.

(** [utf8.ValidString]: each rune that is not one ASCII byte has its full width;
    [skip] bytes of the current rune are still to be passed. *)
Fixpoint ValidString_from (skip : nat) (s : string) : bool :=
  match s with
  | EmptyString => true
  | String c s' =>
    match skip with
    | S k => ValidString_from k s'
    | O =>
      (is_ascii c || (2 <=? rune_width c s')%nat) && ValidString_from (rune_width c s' - 1) s'
    end
  end.

Definition ValidString (s : string) : bool := ValidString_from 0 s.

(** [regexp.MustCompile(`\W`).ReplaceAllString(s, "_")]: every rune that is
    not a word character becomes one underscore; [skip] bytes of the current
    rune are still to be dropped. *)
Fixpoint replace_nonword_from (skip : nat) (s : string) : string :=
  match s with
  | EmptyString => EmptyString
  | String c s' =>
    match skip with
    | S k => replace_nonword_from k s'
    | O =>
      if is_word c then String c (replace_nonword_from 0 s')
      else String "_" (replace_nonword_from (rune_width c s' - 1) s')
    end
  end.

Definition replace_nonword (s : string) : string := replace_nonword_from 0 s.

(** ** Splitting and replacing *)

(** [strings.ReplaceAll(s, old, new)] for one-byte [old] and [new]. *)
Definition ReplaceAll (s : string) (old new : ascii) : string :=
  string_map (λ c, if decide (c = old) then new else c) s.

(** [strings.Split(s, sep)] for a one-byte separator: never empty. *)
Fixpoint Split (s : string) (sep : ascii) : list string :=
  match s with
  | EmptyString => [EmptyString]
  | String c s =>
    if decide (c = sep) then EmptyString :: Split s sep
    else match Split s sep with
         | [] => [char c]
         | p :: ps => String c p :: ps
         end
  end.

(** [strings.Count(s, sep)] for a one-byte separator. *)
Fixpoint Count (s : string) (sep : ascii) : nat :=
  match s with
  | EmptyString => 0
  | String c s => (if decide (c = sep) then 1 else 0) + Count s sep
  end.

(** [strings.Join(l, sep)] for a one-byte separator. *)
Fixpoint Join (l : list string) (sep : ascii) : string :=
  match l with
  | [] => EmptyString
  | [s] => s
  | s :: l => s +:+ String sep (Join l sep)
  end.

(** [strings.NewReplacer] with one-byte old strings is a byte replacer: each
    byte is looked up once, and the output is not scanned again. *)
Definition Replace (table : ascii → option string) (s : string) : string :=
  string_flat_map (λ c, default (char c) (table c)) s.

(** ** [regexp.MustCompile(`revision:\s*(\S+)\)`).FindStringSubmatch] *)

Fixpoint drop_prefix (p s : string) : option string :=
  match p, s with
  | EmptyString, _ => Some s
  | String a p, String b s => if decide (a = b) then drop_prefix p s else None
  | String _ _, EmptyString => None
  end.

Fixpoint drop_spaces (s : string) : string :=
  match s with
  | String c s' => if is_space c then drop_spaces s' else s
  | EmptyString => EmptyString
  end.

(** The longest run of non-space bytes at the front. *)
Fixpoint take_nonspace (s : string) : string :=
  match s with
  | String c s' => if is_space c then EmptyString else String c (take_nonspace s')
  | EmptyString => EmptyString
  end.

(** What precedes the last closing parenthesis. *)
Fixpoint before_last_paren (s : string) : option string :=
  match s with
  | EmptyString => None
  | String c s' =>
    match before_last_paren s' with
    | Some p => Some (String c p)
    | None => if decide (c = ")"%char) then Some EmptyString else None
    end
  end.

(** The match at the front of [s], if there is one: the greedy [\S+] gives
    back bytes until a closing parenthesis follows it, and captures at least
    one byte. *)
Definition revision_here (s : string) : option string :=
  match drop_prefix "revision:" s with
  | None => None
  | Some s =>
    match before_last_paren (take_nonspace (drop_spaces s)) with
    | Some (String c p) => Some (String c p)
    | _ => None
    end
  end.

(** The capture of the leftmost match. *)
Fixpoint find_revision (s : string) : option string :=
  match revision_here s with
  | Some r => Some r
  | None =>
    match s with
    | EmptyString => None
    | String _ s => find_revision s
    end
  end.

(** ** Lemmas *)

Lemma is_lower_word_to_lower c : is_word c = true → is_lower_word (to_lower c) = true.
Proof.
  assert (implb (is_word c) (is_lower_word (to_lower c)) = true) as H.
  { revert c. apply all_ascii. vm_compute. done. }
  intros Hc. by rewrite Hc in H.
Qed.

Lemma is_word_ascii c : is_word c = true → is_ascii c = true.
Proof.
  assert (implb (is_word c) (is_ascii c) = true) as H.
  { revert c. apply all_ascii. vm_compute. done. }
  intros Hc. by rewrite Hc in H.
Qed.

Lemma replace_nonword_from_word k s :
  string_forallb is_word (replace_nonword_from k s) = true.
Proof.
  revert k. induction s as [|c s IH]; intros k; [done|]. simpl.
  destruct k as [|k]; [|apply IH].
  destruct (is_word c) eqn:Hc; simpl; rewrite IH; [by rewrite Hc|done].
Qed.

(** The result of the replacement is made of ASCII word characters, so
    [ToLower] gets an ASCII string. *)
Lemma replace_nonword_word s : string_forallb is_word (replace_nonword s) = true.
Proof. apply replace_nonword_from_word. Qed.

Lemma replace_nonword_id s : string_forallb is_word s = true → replace_nonword s = s.
Proof.
  unfold replace_nonword. induction s as [|c s IH]; [done|]; simpl.
  intros [Hc Hs]%andb_true_iff. by rewrite Hc, IH.
Qed.

Lemma Split_nonempty s sep : Split s sep ≠ [].
Proof. destruct s as [|c s]; simpl; [done|]. by repeat case_match. Qed.

Lemma length_Split s sep : length (Split s sep) = S (Count s sep).
Proof.
  induction s as [|c s IH]; [done|]; simpl.
  pose proof (Split_nonempty s sep).
  case_decide; simpl; [by rewrite IH|].
  by destruct (Split s sep); simpl in *; [done|].
Qed.

(** [Join] undoes [Split]. *)
Lemma Join_Split s sep : Join (Split s sep) sep = s.
Proof.
  induction s as [|c s IH]; [done|]; simpl.
  pose proof (Split_nonempty s sep) as Hne.
  case_decide as Hc.
  - subst. destruct (Split s sep) as [|p ps] eqn:E; [done|].
    change (String sep (Join (p :: ps) sep) = String sep s). by rewrite IH.
  - destruct (Split s sep) as [|p ps]; [done|].
    destruct ps as [|q qs]; simpl in *; by rewrite <- IH.
Qed.

Lemma Split_no_sep s sep : Count s sep = 0 → Split s sep = [s].
Proof.
  induction s as [|c s IH]; [done|]; simpl.
  case_decide; [lia|]. intros Hn. rewrite IH; [done|lia].
Qed.

Lemma Count_app s t sep : Count (s +:+ t) sep = Count s sep + Count t sep.
Proof. induction s as [|c s IH]; [done|]. rewrite append_cons; simpl. lia. Qed.

Lemma Split_app_sep s t sep :
  Count s sep = 0 → Split (s +:+ String sep t) sep = s :: Split t sep.
Proof.
  induction s as [|c s IH]; rewrite ?append_cons; simpl; [by rewrite decide_True|].
  case_decide; [lia|].
  intros Hn. rewrite IH; [done|lia].
Qed.

(** [Split] undoes [Join] on parts without the separator. *)
Lemma Split_Join l sep :
  l ≠ [] → Forall (λ s, Count s sep = 0) l → Split (Join l sep) sep = l.
Proof.
  intros Hne Hl. induction Hl as [|s l Hs Hl IH]; [done|].
  destruct l as [|t l]; simpl; [by apply Split_no_sep|].
  rewrite Split_app_sep by done. f_equal. by apply IH.
Qed.

Lemma Split_cons_sep s sep : Split (String sep s) sep = "" :: Split s sep.
Proof. simpl. by rewrite decide_True. Qed.

#[export] Hint Rewrite Count_app : go_str.
