(* ===== verification/Strconv.v ===== *)
(** * The parts of [strconv] and [fmt] that handle numbers

    [ParseFloat(s, 64)] is modelled in full: the special values, decimal and
    hexadecimal literals, underscores, and the correctly rounded conversion to
    binary64 (round to nearest, ties to even) with its range error.
    [FormatF6] is the verb [%f] of [fmt.Fprintf] (six decimals of the exact
    value, ties to even), [FormatG] the verb [%v] on a [float64] (the shortest
    decimal that reads back), and [Itoa] is decimal integer printing. *)
From S2P Require Import Prelude GoStrings.

Open Scope Z_scope.

(** ** binary64 values *)

(** [Finite neg m e] is [±m·2^e]; [wf_float] says which [m] and [e] a binary64
    has. *)
Inductive float64 : Type :=
| Finite (neg : bool) (m e : Z)
| Inf (neg : bool)
| NaN.

Definition min_exp : Z := -1074.
Definition max_exp : Z := 971.

Definition wf_float (f : float64) : bool :=
  match f with
  | Finite _ m e =>
    (min_exp <=? e) && (e <=? max_exp) && (0 <=? m) && (m <? 2 ^ 53)
    && ((2 ^ 52 <=? m) || (e =? min_exp))
  | Inf _ | NaN => true
  end.

(** ** Rounding *)

(** The integer nearest to [n / d], ties to even, for [0 <= n] and [0 < d]. *)
Definition div_even (n d : Z) : Z :=
  let q := n / d in
  match 2 * (n mod d) ?= d with
  | Lt => q
  | Gt => q + 1
  | Eq => if Z.even q then q else q + 1
  end.

(** [n / (d·2^e)] as a fraction of integers. *)
Definition scale2 (n d e : Z) : Z * Z :=
  if 0 <=? e then (n, d * 2 ^ e) else (n * 2 ^ (- e), d).

(** The [k] with [2^k <= n / d < 2^(k+1)]. *)
Definition floor_log2 (n d : Z) : Z :=
  let k := Z.log2 n - Z.log2 d in
  let '(a, b) := scale2 n d k in
  if a <? b then k - 1 else k.

(** The binary64 nearest to the positive rational [n / d]; [None] when it
    overflows. *)
Definition round_ratio (neg : bool) (n d : Z) : option float64 :=
  let e := Z.max (floor_log2 n d - 52) min_exp in
  let '(a, b) := scale2 n d e in
  let q := div_even a b in
  let '(m, e) := if q =? 2 ^ 53 then (2 ^ 52, e + 1) else (q, e) in
  if max_exp <? e then None else Some (Finite neg m e).

(** ** [readFloat] *)

Inductive num_error : Type := ErrSyntax | ErrRange.

Definition digit_value (c : ascii) : Z := Z.of_N (byte c) - 48.
Definition is_digit (c : ascii) : bool := in_range 48 57 c.

(** [lower(c) = c | 0x20]. *)
Definition lower (c : ascii) : ascii := ascii_of_N (N.lor (byte c) 32).

Definition is_hex_letter (c : ascii) : bool := in_range 97 102 (lower c).

Record mantissa : Type := Mantissa {
  mant : Z;
  nd : Z;
  dp : Z;
  sawdot : bool;
  sawdigits : bool;
  underscores : bool;
}.

Definition mantissa0 : mantissa := Mantissa 0 0 0 false false false.

(** One character of the digit loop of [readFloat]; [None] leaves the loop.
    The mantissa keeps every digit: the bounded one of the source, with its
    [trunc] flag, rounds to the same value. *)
Definition mantissa_step (hex : bool) (c : ascii) (st : mantissa) : option mantissa :=
  let base := if hex then 16 else 10 in
  if decide (c = "_"%char) then
    Some (Mantissa (mant st) (nd st) (dp st) (sawdot st) (sawdigits st) true)
  else if decide (c = "."%char) then
    if sawdot st then None
    else Some (Mantissa (mant st) (nd st) (nd st) true (sawdigits st) (underscores st))
  else if is_digit c then
    if bool_decide (c = "0"%char) && (nd st =? 0) then
      Some (Mantissa (mant st) (nd st) (dp st - 1) (sawdot st) true (underscores st))
    else
      Some (Mantissa (mant st * base + digit_value c) (nd st + 1) (dp st)
              (sawdot st) true (underscores st))
  else if hex && is_hex_letter c then
    Some (Mantissa (mant st * base + (Z.of_N (byte (lower c)) - 87)) (nd st + 1)
            (dp st) (sawdot st) true (underscores st))
  else None.

Fixpoint read_mantissa (hex : bool) (s : string) (st : mantissa) : mantissa * string :=
  match s with
  | EmptyString => (st, s)
  | String c s' =>
    match mantissa_step hex c st with
    | Some st => read_mantissa hex s' st
    | None => (st, s)
    end
  end.

(** The digits of the exponent, saturating above [10000] as in the source. *)
Fixpoint read_exp_digits (s : string) (e : Z) (us : bool) : Z * bool * string :=
  match s with
  | EmptyString => (e, us, s)
  | String c s' =>
    if decide (c = "_"%char) then read_exp_digits s' e true
    else if is_digit c then
      read_exp_digits s' (if e <? 10000 then e * 10 + digit_value c else e) us
    else (e, us, s)
  end.

(** The optional exponent: [None] is a syntax error. *)
Definition read_exponent (hex : bool) (s : string) : option (Z * bool * string) :=
  match s with
  | String c s' =>
    if decide (lower c = (if hex then "p" else "e")%char) then
      let '(esign, s') :=
        match s' with
        | String "+" t => (1, t)
        | String "-" t => (-1, t)
        | _ => (1, s')
        end in
      match s' with
      | String d _ =>
        if is_digit d then
          let '(e, us, rest) := read_exp_digits s' 0 false in
          Some (e * esign, us, rest)
        else None
      | EmptyString => None
      end
    else if hex then None else Some (0, false, s)
  | EmptyString => if hex then None else Some (0, false, s)
  end.

Inductive under_state : Type := UStart | UDigit | UUnder | UOther.

Fixpoint underscore_loop (hex : bool) (s : string) (i : under_state) : bool :=
  match s with
  | EmptyString => match i with UUnder => false | _ => true end
  | String c s =>
    if is_digit c || (hex && is_hex_letter c) then underscore_loop hex s UDigit
    else if decide (c = "_"%char) then
      match i with UDigit => underscore_loop hex s UUnder | _ => false end
    else match i with UUnder => false | _ => underscore_loop hex s UOther end
  end.

Definition drop_sign (s : string) : string :=
  match s with
  | String "+" t | String "-" t => t
  | _ => s
  end.

Definition is_negative (s : string) : bool :=
  match s with
  | String "-" _ => true
  | _ => false
  end.

(** [underscoreOK]. *)
Definition underscoreOK (s : string) : bool :=
  match drop_sign s with
  | String "0" (String c t) as s' =>
    if decide (lower c = "x"%char) then underscore_loop true t UDigit
    else if bool_decide (lower c = "b"%char) || bool_decide (lower c = "o"%char)
    then underscore_loop false t UDigit
    else underscore_loop false s' UStart
  | s' => underscore_loop false s' UStart
  end.

(** A literal read to its end: its sign, base, digits and exponents. *)
Record literal : Type := Literal {
  lit_neg : bool;
  lit_hex : bool;
  lit_mant : Z;
  lit_nd : Z;
  lit_dp : Z;
}.

Definition readFloat (s : string) : option literal :=
  let neg := is_negative s in
  let t := drop_sign s in
  let '(hex, t) :=
    match t with
    | String "0" (String x (String _ _ as u)) =>
      if decide (lower x = "x"%char) then (true, u) else (false, t)
    | _ => (false, t)
    end in
  let '(st, t) := read_mantissa hex t mantissa0 in
  if sawdigits st then
    let dp0 := if sawdot st then dp st else nd st in
    let dp1 := if hex then dp0 * 4 else dp0 in
    match read_exponent hex t with
    | Some (e, us, EmptyString) =>
      if (underscores st || us) && negb (underscoreOK s) then None
      else Some (Literal neg hex (mant st) (nd st) (dp1 + e))
    | _ => None
    end
  else None.

(** ** [ParseFloat] *)

(** The value of a literal: [m·10^(dp-nd)] or [m·2^(dp-4·nd)].  The decimal
    cut-offs are those of [decimal.floatBits]; they keep the powers small. *)
Definition literal_value (l : literal) : result num_error float64 :=
  let neg := lit_neg l in
  if lit_mant l =? 0 then Ok (Finite neg 0 min_exp)
  else if lit_hex l then
    let k := lit_dp l - 4 * lit_nd l in
    let '(n, d) := scale2 (lit_mant l) 1 (- k) in
    match round_ratio neg n d with
    | Some f => Ok f
    | None => Err ErrRange
    end
  else if 310 <? lit_dp l then Err ErrRange
  else if lit_dp l <? -330 then Ok (Finite neg 0 min_exp)
  else
    let k := lit_dp l - lit_nd l in
    let '(n, d) := if 0 <=? k then (lit_mant l * 10 ^ k, 1) else (lit_mant l, 10 ^ (- k)) in
    match round_ratio neg n d with
    | Some f => Ok f
    | None => Err ErrRange
    end.

(** [special]: infinities and NaN, whatever the case of their letters.  A
    prefix that is not the whole string is a syntax error of [ParseFloat]. *)
Definition special (s : string) : option float64 :=
  let t := ToLower (drop_sign s) in
  if bool_decide (t = "inf") || bool_decide (t = "infinity") then Some (Inf (is_negative s))
  else if bool_decide (ToLower s = "nan") then Some NaN
  else None.

Definition ParseFloat (s : string) : result num_error float64 :=
  match special s with
  | Some f => Ok f
  | None =>
    match readFloat s with
    | Some l => literal_value l
    | None => Err ErrSyntax
    end
  end.

(** ** Printing *)

Definition digit_char (n : Z) : ascii := ascii_of_N (Z.to_N (48 + n)).

(** The decimal digits of [n], without leading zeros, given enough fuel. *)
Fixpoint digits (fuel : nat) (n : Z) : string :=
  match fuel with
  | O => EmptyString
  | S fuel =>
    if n <? 10 then char (digit_char n)
    else digits fuel (n / 10) +:+ char (digit_char (n mod 10))
  end.

Definition digits_fuel (n : Z) : nat := S (Z.to_nat (Z.log2 n)).

(** [strconv.Itoa], and [%d] or [%v] on any integer type. *)
Definition Itoa (n : Z) : string :=
  if n <? 0 then "-" +:+ digits (digits_fuel (- n)) (- n)
  else digits (digits_fuel n) n.

(** Exactly [k] digits of [n], with leading zeros. *)
Fixpoint pad_digits (k : nat) (n : Z) : string :=
  match k with
  | O => EmptyString
  | S k => pad_digits k (n / 10) +:+ char (digit_char (n mod 10))
  end.

Definition sign_string (neg : bool) : string := if neg then "-" else "".

(** [fmt.Sprintf("%f", f)]. *)
Definition FormatF6 (f : float64) : string :=
  match f with
  | NaN => "NaN"
  | Inf neg => (if neg then "-" else "+") +:+ "Inf"
  | Finite neg m e =>
    let '(n, d) := scale2 (m * 10 ^ 6) 1 (- e) in
    let N := div_even n d in
    sign_string neg +:+ Itoa (N / 10 ^ 6) +:+ "." +:+ pad_digits 6 (N mod 10 ^ 6)
  end.

(** ** Shortest printing *)

(** [m·2^e / 10^k] as a fraction of integers. *)
Definition over_pow10 (m e k : Z) : Z * Z :=
  let '(n, d) := scale2 m 1 (- e) in
  if 0 <=? k then (n, d * 10 ^ k) else (n * 10 ^ (- k), d).

(** The least [dp >= start] with [m·2^e < 10^dp]. *)
Fixpoint decimal_point_from (fuel : nat) (m e dp : Z) : Z :=
  let '(n, d) := over_pow10 m e dp in
  match fuel with
  | O => dp
  | S fuel => if n <? d then dp else decimal_point_from fuel m e (dp + 1)
  end.

(** Three decimal places are enough from the estimate by [log10 2]. *)
Definition decimal_point (m e : Z) : Z :=
  decimal_point_from 4 m e ((Z.log2 m + e) * 30103 / 100000 - 1).

(** [roundShortest]: the shortest decimal between the halfway points to the
    neighbours of [m·2^e], with [k] digits tried so far; the result is
    [N·10^(dp-k)]. *)
Fixpoint shortest_from (fuel : nat) (m e dp k : Z) : Z * Z :=
  let lo := if (2 ^ 52 <? m) || (e =? min_exp) then 4 * m - 2 else 4 * m - 1 in
  let hi := 4 * m + 2 in
  let inclusive := Z.even m in
  let '(x, d) := over_pow10 (4 * m) (e - 2) (dp - k) in
  let '(l, _) := over_pow10 lo (e - 2) (dp - k) in
  let '(h, _) := over_pow10 hi (e - 2) (dp - k) in
  let q := x / d in
  let okdown := (l <? q * d) || (inclusive && (l =? q * d)) in
  let okup := ((q + 1) * d <? h) || (inclusive && ((q + 1) * d =? h)) in
  match fuel with
  | O => (q, k)
  | S fuel =>
    if okdown && okup then (div_even x d, k)
    else if okdown then (q, k)
    else if okup then (q + 1, k)
    else shortest_from fuel m e dp (k + 1)
  end.

Fixpoint strip_zeros (fuel : nat) (n : Z) : Z :=
  match fuel with
  | O => n
  | S fuel => if n mod 10 =? 0 then strip_zeros fuel (n / 10) else n
  end.

Definition zeros (k : Z) : string := string_concat (repeat "0" (Z.to_nat k)).

(** [fmtE] and [fmtF] on the digits [ds] with the decimal point at [dp]. *)
Definition fmtE (ds : string) (dp : Z) : string :=
  let e := dp - 1 in
  let mantissa :=
    match ds with
    | String c EmptyString => ds
    | String c r => String c ("." +:+ r)
    | EmptyString => "0"
    end in
  let a := Z.abs e in
  mantissa +:+ "e" +:+ (if e <? 0 then "-" else "+")
  +:+ (if a <? 10 then "0" else "") +:+ Itoa a.

Definition fmtF (ds : string) (dp : Z) : string :=
  let n := Z.of_nat (Strings.String.length ds) in
  if dp <=? 0 then "0." +:+ zeros (- dp) +:+ ds
  else if n <=? dp then ds +:+ zeros (dp - n)
  else Strings.String.substring 0 (Z.to_nat dp) ds +:+ "."
       +:+ Strings.String.substring (Z.to_nat dp) (Z.to_nat (n - dp)) ds.

(** [fmt.Sprintf("%v", f)]: the verb [%g] with the shortest precision. *)
Definition FormatG (f : float64) : string :=
  match f with
  | NaN => "NaN"
  | Inf neg => (if neg then "-" else "+") +:+ "Inf"
  | Finite neg m e =>
    sign_string neg +:+
    (if m =? 0 then "0"
     else
       let dp := decimal_point m e in
       let '(N, k) := shortest_from 18 m e dp 0 in
       let ds := Itoa N in
       let dp' := Z.of_nat (Strings.String.length ds) - k + dp in
       let ds := Itoa (strip_zeros 20 N) in
       if (dp' - 1 <? -4) || (6 <=? dp' - 1) then fmtE ds dp' else fmtF ds dp')
  end.

(** ** Lemmas: rounding *)

Lemma div_even_nearest n d :
  0 <= n → 0 < d → 2 * Z.abs (n - d * div_even n d) <= d ∧ 0 <= div_even n d.
Proof.
  intros Hn Hd. unfold div_even.
  pose proof (Z.div_mod n d ltac:(lia)) as Hdm.
  pose proof (Z.mod_pos_bound n d Hd) as Hm.
  pose proof (Z.div_pos n d Hn Hd).
  destruct (Z.compare_spec (2 * (n mod d)) d); [case_match| |]; split; nia.
Qed.

Lemma div_even_exact q d : 0 < d → div_even (q * d) d = q.
Proof.
  intros Hd. unfold div_even.
  rewrite Z.mod_mul, Z.div_mul by lia.
  destruct (Z.compare_spec (2 * 0) d); [lia|done|lia].
Qed.

Lemma div_even_1 n : div_even n 1 = n.
Proof. rewrite <- (div_even_exact n 1) at 2 by lia. by rewrite Z.mul_1_r. Qed.

Lemma div_even_le n d b : 0 < d → n <= b * d → div_even n d <= b.
Proof.
  intros Hd Hb. unfold div_even.
  pose proof (Z.div_mod n d ltac:(lia)) as Hdm.
  pose proof (Z.mod_pos_bound n d Hd) as Hm.
  destruct (Z.compare_spec (2 * (n mod d)) d); [case_match| |]; nia.
Qed.

Lemma div_even_ge n d b : 0 < d → b * d <= n → b <= div_even n d.
Proof.
  intros Hd Hb. unfold div_even.
  pose proof (Z.div_mod n d ltac:(lia)) as Hdm.
  pose proof (Z.mod_pos_bound n d Hd) as Hm.
  destruct (Z.compare_spec (2 * (n mod d)) d); [case_match| |]; nia.
Qed.

Lemma scale2_pos n d e a b :
  0 < n → 0 < d → scale2 n d e = (a, b) → 0 < a ∧ 0 < b.
Proof.
  unfold scale2. intros Hn Hd. case_match eqn:He; intros [= <- <-]; split; try done.
  - apply Z.mul_pos_pos; [done|]. apply Z.pow_pos_nonneg; lia.
  - apply Z.mul_pos_pos; [done|]. apply Z.pow_pos_nonneg; lia.
Qed.

Lemma scale2_max n d e :
  scale2 n d e = (n * 2 ^ Z.max (- e) 0, d * 2 ^ Z.max e 0).
Proof.
  unfold scale2. destruct (Z.leb_spec 0 e).
  - rewrite Z.max_r, Z.max_l by lia. f_equal. lia.
  - rewrite Z.max_l, Z.max_r by lia. f_equal. lia.
Qed.

(** Lowering the exponent by [j] multiplies the fraction by [2^j]. *)
Lemma scale2_lower n d e j a b a' b' :
  0 <= j → scale2 n d e = (a, b) → scale2 n d (e - j) = (a', b') →
  a' * b = 2 ^ j * a * b'.
Proof.
  intros Hj. rewrite !scale2_max. intros [= <- <-] [= <- <-].
  assert (2 ^ Z.max (- (e - j)) 0 * 2 ^ Z.max e 0 =
          2 ^ j * 2 ^ Z.max (- e) 0 * 2 ^ Z.max (e - j) 0) as E.
  { rewrite <- !Z.pow_add_r by lia. f_equal. lia. }
  transitivity (n * d * (2 ^ Z.max (- (e - j)) 0 * 2 ^ Z.max e 0)); [ring|].
  rewrite E. ring.
Qed.

Lemma log2_ratio n d a b :
  0 < n → 0 < d → scale2 n d (Z.log2 n - Z.log2 d) = (a, b) →
  b < 2 * a ∧ a < 2 * b.
Proof.
  intros Hn Hd. pose proof (Z.log2_spec n Hn) as [Hn1 Hn2].
  pose proof (Z.log2_spec d Hd) as [Hd1 Hd2].
  pose proof (Z.log2_nonneg n). pose proof (Z.log2_nonneg d).
  rewrite Z.pow_succ_r in Hn2, Hd2 by done.
  unfold scale2. destruct (Z.leb_spec 0 (Z.log2 n - Z.log2 d)) as [H'|H']; intros [= <- <-].
  - assert (2 ^ Z.log2 n = 2 ^ Z.log2 d * 2 ^ (Z.log2 n - Z.log2 d)) as E.
    { rewrite <- Z.pow_add_r by lia. f_equal. lia. }
    pose proof (Z.pow_pos_nonneg 2 (Z.log2 n - Z.log2 d) ltac:(lia) ltac:(lia)). nia.
  - assert (2 ^ Z.log2 d = 2 ^ Z.log2 n * 2 ^ (- (Z.log2 n - Z.log2 d))) as E.
    { rewrite <- Z.pow_add_r by lia. f_equal. lia. }
    pose proof (Z.pow_pos_nonneg 2 (- (Z.log2 n - Z.log2 d)) ltac:(lia) ltac:(lia)). nia.
Qed.

(** [floor_log2] is the binary exponent: [1 <= n / (d·2^k) < 2]. *)
Lemma floor_log2_spec n d a b :
  0 < n → 0 < d → scale2 n d (floor_log2 n d) = (a, b) → b <= a ∧ a < 2 * b.
Proof.
  intros Hn Hd. unfold floor_log2.
  destruct (scale2 n d (Z.log2 n - Z.log2 d)) as [a0 b0] eqn:E0.
  pose proof (log2_ratio _ _ _ _ Hn Hd E0) as [H1 H2].
  pose proof (scale2_pos _ _ _ _ _ Hn Hd E0) as [Ha0 Hb0].
  destruct (Z.ltb_spec a0 b0); intros E.
  - pose proof (scale2_pos _ _ _ _ _ Hn Hd E) as [Ha Hb].
    pose proof (scale2_lower _ _ _ 1 _ _ _ _ ltac:(lia) E0 E) as Hab.
    change (2 ^ 1) with 2 in Hab. nia.
  - rewrite E0 in E. injection E as <- <-. lia.
Qed.

Lemma floor_log2_int n : 0 < n → floor_log2 n 1 = Z.log2 n.
Proof.
  intros Hn. unfold floor_log2. change (Z.log2 1) with 0. rewrite Z.sub_0_r.
  unfold scale2. pose proof (Z.log2_nonneg n).
  destruct (Z.leb_spec 0 (Z.log2 n)); [|lia].
  pose proof (Z.log2_spec n Hn) as [? _].
  destruct (Z.ltb_spec n (1 * 2 ^ Z.log2 n)); lia.
Qed.

Lemma ratio_bounds a b c x y :
  0 < y → 0 < b → 0 < c → a * y = c * x * b → y <= x → x < 2 * y →
  c * b <= a ∧ a < 2 * c * b.
Proof.
  intros Hy Hb Hc E H1 H2. assert (0 < c * b) by nia. split.
  - apply (Z.mul_le_mono_pos_r _ _ y Hy). rewrite E.
    replace (c * x * b) with (c * b * x) by ring. nia.
  - apply (Z.mul_lt_mono_pos_r y _ _ Hy). rewrite E.
    replace (c * x * b) with (c * b * x) by ring.
    replace (2 * c * b * y) with (c * b * (2 * y)) by ring. nia.
Qed.

(** The significand before rounding lies below [2^53], and above [2^52] when
    the exponent is not the least one. *)
Lemma significand_bounds n d a b :
  0 < n → 0 < d →
  let e := Z.max (floor_log2 n d - 52) min_exp in
  scale2 n d e = (a, b) →
  a < 2 ^ 53 * b ∧ (2 ^ 52 * b <= a ∨ e = min_exp).
Proof.
  intros Hn Hd e E. set (k := floor_log2 n d) in *.
  destruct (scale2 n d k) as [ak bk] eqn:Ek.
  pose proof (floor_log2_spec _ _ _ _ Hn Hd Ek) as [Hk1 Hk2].
  pose proof (scale2_pos _ _ _ _ _ Hn Hd Ek) as [Hak Hbk].
  pose proof (scale2_pos _ _ _ _ _ Hn Hd E) as [Ha Hb].
  destruct (Z.le_gt_cases (k - 52) min_exp) as [H|H].
  - assert (e = min_exp) as He by lia. split; [|by right].
    destruct (scale2 n d (k - 52)) as [a' b'] eqn:E'.
    pose proof (scale2_pos _ _ _ _ _ Hn Hd E') as [Ha' Hb'].
    pose proof (scale2_lower _ _ _ 52 _ _ _ _ ltac:(lia) Ek E') as H1.
    replace (k - 52) with (e - (e - (k - 52))) in E' by lia.
    pose proof (scale2_lower _ _ _ (e - (k - 52)) _ _ _ _ ltac:(lia) E E') as H2.
    pose proof (ratio_bounds _ _ (2 ^ 52) _ _ Hbk Hb' ltac:(lia) H1 Hk1 Hk2) as [_ Hlt].
    change (2 * 2 ^ 52) with (2 ^ 53) in Hlt.
    apply (Z.mul_lt_mono_pos_r b' _ _ Hb').
    pose proof (Z.pow_pos_nonneg 2 (e - (k - 52)) ltac:(lia) ltac:(lia)).
    set (c := 2 ^ (e - (k - 52))) in *. apply Z.le_lt_trans with (c * a * b'); [nia|].
    rewrite <- H2. replace (2 ^ 53 * b * b') with (2 ^ 53 * b' * b) by ring. nia.
  - assert (e = k - 52) as He by lia. rewrite He in E.
    pose proof (scale2_lower _ _ _ 52 _ _ _ _ ltac:(lia) Ek E) as H1.
    pose proof (ratio_bounds _ _ (2 ^ 52) _ _ Hbk Hb ltac:(lia) H1 Hk1 Hk2) as [? ?].
    split; [|left]; lia.
Qed.

(** A rounded value is a binary64. *)
Lemma round_ratio_wf neg n d f :
  0 < n → 0 < d → round_ratio neg n d = Some f → wf_float f = true.
Proof.
  intros Hn Hd. unfold round_ratio.
  destruct (scale2 n d _) as [a b] eqn:E.
  pose proof (scale2_pos _ _ _ _ _ Hn Hd E) as [Ha Hb].
  pose proof (significand_bounds _ _ _ _ Hn Hd E) as [Hlt Hge].
  set (e := Z.max _ _) in *. assert (min_exp <= e) by (unfold e; lia).
  assert (div_even a b <= 2 ^ 53) by (apply div_even_le; lia).
  assert (0 <= div_even a b) by (apply div_even_nearest; lia).
  assert (2 ^ 52 <= div_even a b ∨ e = min_exp) as Hq.
  { destruct Hge; [left; by apply div_even_ge|by right]. }
  unfold wf_float, max_exp.
  destruct (Z.eqb_spec (div_even a b) (2 ^ 53));
    (case_match eqn:Hm; [done|]); intros [= <-];
    rewrite !andb_true_iff, orb_true_iff; lia.
Qed.

(** It is nearest to the exact value: at its own exponent, it is off by at
    most half a unit of the significand. *)
Lemma round_ratio_nearest neg n d m e a b :
  0 < n → 0 < d → round_ratio neg n d = Some (Finite neg m e) →
  scale2 n d e = (a, b) → 2 * Z.abs (a - m * b) <= b.
Proof.
  intros Hn Hd. unfold round_ratio.
  destruct (scale2 n d _) as [a0 b0] eqn:E.
  pose proof (scale2_pos _ _ _ _ _ Hn Hd E) as [Ha Hb].
  pose proof (div_even_nearest a0 b0 ltac:(lia) Hb) as [Hnear _].
  destruct (Z.eqb_spec (div_even a0 b0) (2 ^ 53)) as [Hq|Hq];
    (case_match; [done|]); intros [= <- <-] E'.
  - set (e0 := Z.max _ _) in *. replace e0 with (e0 + 1 - 1) in E by lia.
    pose proof (scale2_lower _ _ _ 1 _ _ _ _ ltac:(lia) E' E) as H'.
    pose proof (scale2_pos _ _ _ _ _ Hn Hd E') as [Ha' Hb'].
    rewrite Hq in Hnear. nia.
  - rewrite E in E'. injection E' as <- <-. lia.
Qed.

(** Integers up to [2^53] are binary64 values. *)
Lemma round_ratio_int neg n :
  0 < n <= 2 ^ 53 →
  ∃ m e, round_ratio neg n 1 = Some (Finite neg m e) ∧
         e <= 1 ∧ m * 2 ^ Z.max e 0 = n * 2 ^ Z.max (- e) 0.
Proof.
  intros [Hn Hle]. unfold round_ratio. rewrite floor_log2_int by done.
  assert (Z.log2 n <= 53) as Hl.
  { apply Z.le_trans with (Z.log2 (2 ^ 53)); [by apply Z.log2_le_mono|done]. }
  pose proof (Z.log2_nonneg n).
  rewrite Z.max_l by (unfold min_exp; lia). unfold scale2.
  destruct (Z.leb_spec 0 (Z.log2 n - 52)) as [Hk|Hk].
  - assert (Z.log2 n = 52 ∨ Z.log2 n = 53) as [E|E] by lia; rewrite E.
    + pose proof (Z.log2_spec n Hn) as [H1 H2]. rewrite E in H1, H2.
      change (div_even n (1 * 2 ^ (52 - 52))) with (div_even n 1).
      rewrite div_even_1.
      destruct (Z.eqb_spec n (2 ^ 53)); [lia|].
      exists n, 0. done.
    + assert (n = 2 ^ 53) as ->.
      { pose proof (Z.log2_spec n Hn) as [H1 _]. rewrite E in H1. lia. }
      exists (2 ^ 52), 1. done.
  - rewrite div_even_1.
    assert (n * 2 ^ (- (Z.log2 n - 52)) < 2 ^ 53) as Hlt.
    { pose proof (Z.log2_spec n Hn) as [_ H2].
      replace (2 ^ 53) with (2 ^ Z.succ (Z.log2 n) * 2 ^ (- (Z.log2 n - 52))).
      - apply Z.mul_lt_mono_pos_r; [apply Z.pow_pos_nonneg; lia|done].
      - rewrite <- Z.pow_add_r by lia. f_equal. lia. }
    destruct (Z.eqb_spec (n * 2 ^ (- (Z.log2 n - 52))) (2 ^ 53)) as [Heq|_]; [lia|].
    destruct (Z.ltb_spec max_exp (Z.log2 n - 52)); [unfold max_exp in *; lia|].
    eexists _, _. split; [done|]. split; [lia|].
    rewrite Z.max_r, Z.max_l by lia. rewrite Z.mul_1_r. done.
Qed.

(** ** Lemmas: digits *)

Ltac digit_cases d H :=
  let H' := fresh in
  assert (d = 0 ∨ d = 1 ∨ d = 2 ∨ d = 3 ∨ d = 4 ∨
          d = 5 ∨ d = 6 ∨ d = 7 ∨ d = 8 ∨ d = 9) as H' by lia;
  destruct_or? H'; subst d.

Lemma is_digit_char d : 0 <= d < 10 → is_digit (digit_char d) = true.
Proof. intros H. by digit_cases d H. Qed.

Lemma digits_eq fuel n :
  digits (S fuel) n =
    if n <? 10 then char (digit_char n)
    else digits fuel (n / 10) +:+ char (digit_char (n mod 10)).
Proof. done. Qed.

Lemma digits_fuel_div fuel n :
  10 <= n → (digits_fuel n <= S fuel)%nat → (digits_fuel (n / 10) <= fuel)%nat.
Proof.
  unfold digits_fuel. intros Hn Hf.
  assert (Z.log2 (n / 10) < Z.log2 n); [|pose proof (Z.log2_nonneg (n / 10)); lia].
  assert (0 < n / 10) as H10 by (apply Z.div_str_pos; lia).
  pose proof (Z.log2_spec _ H10) as [H1 _].
  pose proof (Z.log2_spec n ltac:(lia)) as [_ H2].
  apply (Z.pow_lt_mono_r_iff 2); [lia|apply Z.log2_nonneg|].
  rewrite Z.pow_succ_r in H2 by apply Z.log2_nonneg.
  pose proof (Z.mul_div_le n 10 ltac:(lia)). lia.
Qed.

(** Induction on the printed digits of a non-negative integer. *)
Lemma digits_ind (P : Z → string → Prop) :
  (∀ d, 0 <= d < 10 → P d (char (digit_char d))) →
  (∀ n s, 10 <= n → P (n / 10) s → P n (s +:+ char (digit_char (n mod 10)))) →
  ∀ fuel n, 0 <= n → (digits_fuel n <= fuel)%nat → P n (digits fuel n).
Proof.
  intros Hd Hs fuel. induction fuel as [|fuel IH]; intros n Hn Hf.
  - unfold digits_fuel in Hf. lia.
  - rewrite digits_eq. destruct (Z.ltb_spec n 10); [apply Hd; lia|].
    apply Hs; [done|]. apply IH; [apply Z.div_pos; lia|].
    by apply digits_fuel_div.
Qed.

Lemma digits_forallb n :
  0 <= n → string_forallb is_digit (digits (digits_fuel n) n) = true.
Proof.
  intros Hn. apply (digits_ind (λ _ s, string_forallb is_digit s = true)); try done.
  - intros d Hd. simpl. by rewrite is_digit_char.
  - intros k s Hk IH. rewrite string_forallb_app, IH. simpl.
    rewrite is_digit_char; [done|]. by apply Z.mod_pos_bound.
Qed.

Lemma digits_head n :
  0 < n → ∃ d r, 0 < d < 10 ∧ digits (digits_fuel n) n = String (digit_char d) r.
Proof.
  intros Hn.
  assert (0 < n → ∃ d r, 0 < d < 10 ∧ digits (digits_fuel n) n = String (digit_char d) r);
    [|auto].
  apply (digits_ind (λ n s, 0 < n → ∃ d r, 0 < d < 10 ∧ s = String (digit_char d) r));
    [| |lia|done].
  - intros d Hd Hpos. exists d, "". split; [lia|done].
  - intros k s Hk IH _. destruct IH as (d & r & Hd & ->).
    + apply Z.div_str_pos. lia.
    + eexists d, _. split; [done|]. by rewrite append_cons.
Qed.

Lemma mantissa_step_digit d st :
  0 <= d < 10 → (d ≠ 0 ∨ nd st ≠ 0) →
  mantissa_step false (digit_char d) st =
    Some (Mantissa (mant st * 10 + d) (nd st + 1) (dp st) (sawdot st) true (underscores st)).
Proof.
  intros Hd Hne. unfold mantissa_step.
  digit_cases d Hd; simpl; try done.
  destruct Hne as [?|Hne]; [done|].
  destruct (Z.eqb_spec (nd st) 0); [done|]. done.
Qed.

(** Reading back printed digits. *)
Lemma read_digits n t :
  0 < n →
  ∃ k, 1 <= k ∧ 10 ^ (k - 1) <= n ∧
    read_mantissa false (digits (digits_fuel n) n +:+ t) mantissa0 =
    read_mantissa false t (Mantissa n k 0 false true false).
Proof.
  intros Hn.
  cut (0 < n → ∀ t, ∃ k, 1 <= k ∧ 10 ^ (k - 1) <= n ∧
    read_mantissa false (digits (digits_fuel n) n +:+ t) mantissa0 =
    read_mantissa false t (Mantissa n k 0 false true false)); [by auto|].
  apply (digits_ind (λ n s, 0 < n → ∀ t, ∃ k, 1 <= k ∧ 10 ^ (k - 1) <= n ∧
    read_mantissa false (s +:+ t) mantissa0 =
    read_mantissa false t (Mantissa n k 0 false true false))); [| |lia|done].
  - intros d Hd Hpos u. exists 1. split; [lia|]. split; [lia|].
    unfold char. rewrite append_cons, append_nil_l. simpl.
    rewrite mantissa_step_digit; [done|done|left; lia].
  - intros m s Hm IH _ u.
    destruct (IH ltac:(apply Z.div_str_pos; lia) (char (digit_char (m mod 10)) +:+ u))
      as (k & Hk1 & Hk2 & Heq).
    exists (k + 1). split; [lia|].
    pose proof (Z.div_mod m 10 ltac:(lia)) as Hdm.
    pose proof (Z.mod_pos_bound m 10 ltac:(lia)) as Hmod. split.
    + replace (k + 1 - 1) with (Z.succ (k - 1)) by lia.
      rewrite Z.pow_succ_r by lia. lia.
    + rewrite append_assoc, Heq. unfold char. rewrite append_cons, append_nil_l.
      simpl. rewrite mantissa_step_digit; simpl; [|done|right; lia].
      f_equal. f_equal. lia.
Qed.

(** ** Lemmas: parsing and printing integers *)

Lemma special_digit d r (neg : bool) :
  0 < d < 10 → special (sign_string neg +:+ String (digit_char d) r) = None.
Proof.
  intros Hd. unfold special.
  destruct neg; digit_cases d Hd; try lia; rewrite !bool_decide_eq_false_2; done.
Qed.

Lemma drop_sign_signed d r (neg : bool) :
  0 < d < 10 → drop_sign (sign_string neg +:+ String (digit_char d) r) = String (digit_char d) r
  ∧ is_negative (sign_string neg +:+ String (digit_char d) r) = neg.
Proof.
  intros Hd. destruct neg; [done|].
  simpl; rewrite append_nil_l. digit_cases d Hd; done.
Qed.

Lemma readFloat_digits n (neg : bool) :
  0 < n →
  ∃ k, 1 <= k ∧ 10 ^ (k - 1) <= n ∧
    readFloat (sign_string neg +:+ digits (digits_fuel n) n) = Some (Literal neg false n k k).
Proof.
  intros Hn. destruct (read_digits n "" Hn) as (k & Hk1 & Hk2 & Hread).
  exists k. split; [done|]. split; [done|].
  destruct (digits_head n Hn) as (d & r & Hd & Heq).
  rewrite append_nil_r in Hread. rewrite Heq in Hread |- *.
  destruct (drop_sign_signed d r neg Hd) as [Hdrop Hneg].
  unfold readFloat. rewrite Hdrop, Hneg.
  assert ((match String (digit_char d) r with
    | String "0" (String x (String _ _ as u)) =>
      if decide (lower x = "x"%char) then (true, u) else (false, String (digit_char d) r)
    | _ => (false, String (digit_char d) r)
    end) = (false, String (digit_char d) r)) as ->.
  { digit_cases d Hd; try lia; done. }
  cbv beta iota. rewrite Hread. simpl. by rewrite Z.add_0_r.
Qed.

Lemma FormatF6_int neg m e n :
  0 <= n → e <= 1 → 0 <= m → m * 2 ^ Z.max e 0 = n * 2 ^ Z.max (- e) 0 →
  FormatF6 (Finite neg m e) = sign_string neg +:+ Itoa n +:+ ".000000".
Proof.
  intros Hn He Hm E. unfold FormatF6. rewrite scale2_max.
  assert (m * 10 ^ 6 * 2 ^ Z.max (- - e) 0 = (n * 10 ^ 6) * (1 * 2 ^ Z.max (- e) 0)) as ->.
  { rewrite Z.opp_involutive, Z.mul_1_l.
    transitivity (m * 2 ^ Z.max e 0 * 10 ^ 6); [ring|]. rewrite E. ring. }
  rewrite div_even_exact by (rewrite Z.mul_1_l; apply Z.pow_pos_nonneg; lia).
  rewrite Z.div_mul, Z.mod_mul by lia. done.
Qed.

Lemma pow10_le_16 k n : 1 <= k → 10 ^ (k - 1) <= n → n <= 2 ^ 53 → k <= 16.
Proof.
  intros Hk Hn Hle. apply Znot_gt_le. intros Hgt.
  assert (10 ^ 16 <= 10 ^ (k - 1)) by (apply Z.pow_le_mono_r; lia). lia.
Qed.

(** An integer of at most 53 bits is parsed and printed exactly. *)
Lemma ParseFloat_Itoa n :
  Z.abs n <= 2 ^ 53 →
  ∃ f, ParseFloat (Itoa n) = Ok f ∧ FormatF6 f = Itoa n +:+ ".000000".
Proof.
  intros Hn. destruct (Z.eq_dec n 0) as [->|Hne].
  { eexists. by split; [vm_compute|]. }
  set (neg := n <? 0). set (a := Z.abs n).
  assert (Itoa n = sign_string neg +:+ digits (digits_fuel a) a) as HI.
  { unfold Itoa, neg, a. destruct (Z.ltb_spec n 0).
    - by rewrite Z.abs_neq by lia.
    - by rewrite Z.abs_eq by lia. }
  assert (0 < a) as Ha by (unfold a; lia).
  destruct (readFloat_digits a neg Ha) as (k & Hk1 & Hk2 & Hread).
  pose proof (pow10_le_16 k a Hk1 Hk2 Hn) as Hk.
  destruct (round_ratio_int neg a ltac:(lia)) as (m & e & Hr & He & Hv).
  exists (Finite neg m e). split.
  - unfold ParseFloat. rewrite HI.
    destruct (digits_head a Ha) as (d & r & Hd & Heq).
    rewrite Heq, special_digit, <- Heq, Hread by done.
    unfold literal_value; cbn [lit_neg lit_hex lit_mant lit_nd lit_dp].
    destruct (Z.eqb_spec a 0); [lia|].
    destruct (Z.ltb_spec 310 k); [lia|]. destruct (Z.ltb_spec k (-330)); [lia|].
    rewrite Z.sub_diag. simpl. rewrite Z.mul_1_r. by rewrite Hr.
  - assert (0 <= m).
    { pose proof (Z.pow_pos_nonneg 2 (Z.max e 0) ltac:(lia) ltac:(lia)).
      pose proof (Z.pow_pos_nonneg 2 (Z.max (- e) 0) ltac:(lia) ltac:(lia)). nia. }
    rewrite (FormatF6_int neg m e a) by (lia || done).
    rewrite HI. unfold Itoa. destruct (Z.ltb_spec a 0); [lia|].
    by rewrite append_assoc.
Qed.


(** ** Lemmas: printed natural numbers are distinct *)

Fixpoint digits_value (acc : Z) (s : string) : Z :=
  match s with
  | EmptyString => acc
  | String c s => digits_value (acc * 10 + (Z.of_N (byte c) - 48)) s
  end.

Lemma digits_value_app acc s t :
  digits_value acc (s +:+ t) = digits_value (digits_value acc s) t.
Proof. revert acc. induction s as [|c s IH]; intros acc; [done|]. apply IH. Qed.

Lemma digits_value_digits n : 0 <= n → digits_value 0 (digits (digits_fuel n) n) = n.
Proof.
  intros Hn. apply (digits_ind (λ n s, digits_value 0 s = n)); [| |done|done].
  - intros d Hd. by digit_cases d Hd.
  - intros m s Hm IH. rewrite digits_value_app, IH.
    pose proof (Z.div_mod m 10 ltac:(lia)) as Hdm.
    pose proof (Z.mod_pos_bound m 10 ltac:(lia)) as Hmod.
    generalize dependent (m mod 10). intros d Hdm Hmod.
    rewrite Hdm at 2. digit_cases d Hmod; simpl; lia.
Qed.

Lemma Itoa_inj n m : 0 <= n → 0 <= m → Itoa n = Itoa m → n = m.
Proof.
  intros Hn Hm. unfold Itoa.
  destruct (Z.ltb_spec n 0); [lia|]. destruct (Z.ltb_spec m 0); [lia|].
  intros Heq%(f_equal (digits_value 0)).
  by rewrite !digits_value_digits in Heq.
Qed.

(** ** Lemmas: the alphabet of printed numbers *)

(** The characters of a printed sample value. *)
Definition value_char (c : ascii) : bool :=
  is_digit c || bool_decide (c ∈ ["+"; "-"; "."; "I"; "n"; "f"; "N"; "a"]%char).

Lemma is_digit_value_char c : is_digit c = true → value_char c = true.
Proof. unfold value_char. by intros ->. Qed.

Lemma Itoa_value_chars n : string_forallb value_char (Itoa n) = true.
Proof.
  unfold Itoa. case_match eqn:Hn; rewrite ?string_forallb_app; simpl;
    apply (string_forallb_impl is_digit); auto using is_digit_value_char;
    apply digits_forallb; lia.
Qed.

Lemma pad_digits_value_chars k n : string_forallb value_char (pad_digits k n) = true.
Proof.
  revert n. induction k as [|k IH]; intros n; [done|]; simpl.
  rewrite string_forallb_app, IH; simpl.
  by rewrite is_digit_value_char by (apply is_digit_char, Z.mod_pos_bound; lia).
Qed.

Lemma FormatF6_value_chars f : string_forallb value_char (FormatF6 f) = true.
Proof.
  destruct f as [neg m e|neg|]; [|by destruct neg|done].
  unfold FormatF6. destruct (scale2 _ _ _).
  rewrite !string_forallb_app, Itoa_value_chars, pad_digits_value_chars.
  by destruct neg.
Qed.

Close Scope Z_scope.
