(* ===== verification/FloatText.v ===== *)
(** * Printed numbers read back ([strconv], [fmt])

    The number that [ParseFloat] returns is a binary64, and the six decimals
    that [FormatF6] prints of one are a number that [ParseFloat] reads: neither
    a syntax nor a range error. *)
From S2P Require Import Prelude GoStrings Strconv.

Open Scope Z_scope.

(** ** The range *)

(** The greatest binary64. *)
Definition max_float : Z := (2 ^ 53 - 1) * 2 ^ 971.

Lemma round_ratio_some neg n d :
  0 < n → 0 < d → n <= max_float * d → ∃ f, round_ratio neg n d = Some f.
Proof.
  intros Hn Hd Hle. unfold round_ratio.
  assert (floor_log2 n d <= 1023) as Hk.
  { apply Znot_gt_le. intros Hgt. destruct (scale2 n d (floor_log2 n d)) as [a b] eqn:E.
    pose proof (floor_log2_spec _ _ _ _ Hn Hd E) as [Hba _].
    unfold scale2 in E. destruct (Z.leb_spec 0 (floor_log2 n d)); [|lia]. injection E as <- <-.
    assert (2 ^ 1024 <= 2 ^ floor_log2 n d) by (apply Z.pow_le_mono_r; lia).
    assert (max_float < 2 ^ 1024) by done. nia. }
  set (e := Z.max (floor_log2 n d - 52) min_exp).
  assert (e <= 971) as He by (unfold e, min_exp; lia).
  destruct (scale2 n d e) as [a b] eqn:E.
  destruct (Z.eqb_spec (div_even a b) (2 ^ 53)) as [Hq|Hq].
  - destruct (Z.ltb_spec max_exp (e + 1)) as [Hm|]; [|by eexists].
    assert (e = 971) as He' by (unfold max_exp in *; lia). rewrite He' in E.
    change (scale2 n d 971) with (n, d * 2 ^ 971) in E. injection E as <- <-.
    assert (div_even n (d * 2 ^ 971) <= 2 ^ 53 - 1); [|lia].
    apply div_even_le; unfold max_float in Hle; [|lia]. apply Z.mul_pos_pos; [lia|done].
  - destruct (Z.ltb_spec max_exp e) as [Hm|]; [|by eexists]. unfold max_exp in *. lia.
Qed.

(** ** What is parsed is a binary64 *)

Lemma digit_value_pos c : is_digit c = true → 0 <= digit_value c.
Proof.
  unfold is_digit, in_range, digit_value. rewrite andb_true_iff, !N.leb_le. lia.
Qed.

Lemma mantissa_step_pos hex c st st' :
  0 <= mant st → mantissa_step hex c st = Some st' → 0 <= mant st'.
Proof.
  unfold mantissa_step. intros Hm.
  destruct (decide _); [by intros [= <-]|]. destruct (decide _).
  { destruct (sawdot st); [done|]. by intros [= <-]. }
  destruct (is_digit c) eqn:Hd.
  { pose proof (digit_value_pos _ Hd). destruct (_ && _); intros [= <-]; simpl; [done|].
    destruct hex; lia. }
  destruct (hex && is_hex_letter c) eqn:Hh; [|done]. intros [= <-].
  apply andb_true_iff in Hh as [-> Hh]. unfold is_hex_letter, in_range in Hh.
  rewrite andb_true_iff, !N.leb_le in Hh. simpl. lia.
Qed.

Lemma read_mantissa_pos hex s st : 0 <= mant st → 0 <= mant (read_mantissa hex s st).1.
Proof.
  revert st. induction s as [|c s IH]; intros st Hm; [done|]. simpl.
  destruct (mantissa_step hex c st) as [st'|] eqn:E; [|done].
  by eapply IH, mantissa_step_pos.
Qed.

Lemma readFloat_pos s l : readFloat s = Some l → 0 <= lit_mant l.
Proof.
  unfold readFloat. cbv zeta. match goal with |- (let (_, _) := ?x in _) = _ → _ => destruct x as [hex t] end.
  pose proof (read_mantissa_pos hex t mantissa0 ltac:(done)) as Hm.
  destruct (read_mantissa hex t mantissa0) as [st t']. simpl in Hm.
  destruct (sawdigits st); [|done].
  destruct (read_exponent hex t') as [[[e us] r]|]; [|done]. destruct r; [|done].
  destruct (_ && _); [done|]. by intros [= <-].
Qed.

Lemma literal_value_wf l f : 0 <= lit_mant l → literal_value l = Ok f → wf_float f = true.
Proof.
  intros Hm. unfold literal_value. destruct (Z.eqb_spec (lit_mant l) 0) as [|Hne]; [by intros [= <-]|].
  destruct (lit_hex l).
  { destruct (scale2 _ _ _) as [n d] eqn:E. apply scale2_pos in E as [Hn Hd]; [|lia|lia].
    destruct (round_ratio _ n d) eqn:Hr; [|done]. intros [= <-]. exact (round_ratio_wf _ _ _ _ Hn Hd Hr). }
  destruct (310 <? lit_dp l); [done|]. destruct (lit_dp l <? -330); [by intros [= <-]|].
  destruct (Z.leb_spec 0 (lit_dp l - lit_nd l)); destruct (round_ratio _ _ _) eqn:Hr; try done;
    intros [= <-]; (eapply round_ratio_wf; [| |exact Hr]); try lia.
Qed.

Lemma ParseFloat_wf s f : ParseFloat s = Ok f → wf_float f = true.
Proof.
  unfold ParseFloat, special. destruct (_ || _); [by intros [= <-]|].
  destruct (bool_decide _); [by intros [= <-]|].
  destruct (readFloat s) as [l|] eqn:Hl; [|done]. by eapply literal_value_wf, readFloat_pos.
Qed.

(** ** Digits *)

(** A run of digits: each is counted in [nd], or as a leading zero in [dp]. *)
Lemma read_digit_string s t st :
  string_forallb is_digit s = true → 0 <= nd st → (nd st = 0 → mant st = 0) →
  ∃ k z, 0 <= k ∧ 0 <= z ∧ k + z = Z.of_nat (Strings.String.length s) ∧
    (nd st + k = 0 → digits_value (mant st) s = 0) ∧
    read_mantissa false (s +:+ t) st =
    read_mantissa false t (Mantissa (digits_value (mant st) s) (nd st + k) (dp st - z) (sawdot st)
      (match s with EmptyString => sawdigits st | _ => true end) (underscores st)).
Proof.
  revert st. induction s as [|c s IH]; intros st Hs Hnn Hst.
  { exists 0, 0. rewrite append_nil_l, !Z.add_0_r, Z.sub_0_r. split_and!; try done. by destruct st. }
  simpl in Hs. apply andb_true_iff in Hs as [Hc Hs]. rewrite append_cons. cbn [read_mantissa].
  assert (mantissa_step false c st = Some
    (if bool_decide (c = "0"%char) && (nd st =? 0) then
       Mantissa (mant st) (nd st) (dp st - 1) (sawdot st) true (underscores st)
     else Mantissa (mant st * 10 + digit_value c) (nd st + 1) (dp st) (sawdot st) true (underscores st))) as ->.
  { unfold mantissa_step. destruct (decide (c = "_"%char)) as [->|]; [done|].
    destruct (decide (c = "."%char)) as [->|]; [done|]. rewrite Hc. by destruct (_ && _). }
  destruct (bool_decide (c = "0"%char) && (nd st =? 0)) eqn:Hz.
  - apply andb_true_iff in Hz as [->%bool_decide_eq_true Hnd%Z.eqb_eq].
    destruct (IH (Mantissa (mant st) (nd st) (dp st - 1) (sawdot st) true (underscores st)) Hs Hnn Hst)
      as (k & z & Hk & Hz & Hl & Hv & Heq). rewrite Heq. simpl in *.
    exists k, (z + 1). rewrite (Hst Hnd) in Hv |- *. change (0 * 10 + _) with 0.
    split_and!; try lia. f_equal. destruct s; f_equal; lia.
  - destruct (IH (Mantissa (mant st * 10 + digit_value c) (nd st + 1) (dp st) (sawdot st) true (underscores st)) Hs)
      as (k & z & Hk & Hz' & Hl & Hv & Heq); simpl in *; [lia|lia|].
    rewrite Heq. exists (k + 1), z. split_and!; try lia. f_equal. destruct s; f_equal; lia.
Qed.

Lemma pad_digits_digits k n : string_forallb is_digit (pad_digits k n) = true.
Proof.
  revert n. induction k as [|k IH]; intros n; [done|]. simpl.
  rewrite string_forallb_app, IH. simpl. rewrite is_digit_char; [done|]. by apply Z.mod_pos_bound.
Qed.

Lemma length_pad_digits k n : Strings.String.length (pad_digits k n) = k.
Proof.
  revert n. induction k as [|k IH]; intros n; [done|]. simpl. rewrite length_append, IH. simpl. lia.
Qed.

Lemma digit_value_char d : 0 <= d < 10 → Z.of_N (byte (digit_char d)) - 48 = d.
Proof. intros H. by digit_cases d H. Qed.

Lemma digits_value_pad acc k n :
  0 <= n < 10 ^ Z.of_nat k → digits_value acc (pad_digits k n) = acc * 10 ^ Z.of_nat k + n.
Proof.
  revert n. induction k as [|k IH]; intros n Hn.
  { change (10 ^ Z.of_nat 0) with 1 in *. simpl. lia. }
  rewrite Nat2Z.inj_succ, Z.pow_succ_r in * by lia. cbn [pad_digits]. rewrite digits_value_app, IH.
  - unfold char. cbn [digits_value]. rewrite digit_value_char by by apply Z.mod_pos_bound.
    pose proof (Z.div_mod n 10 ltac:(lia)). lia.
  - split; [apply Z.div_pos; lia|]. apply Z.div_lt_upper_bound; lia.
Qed.

Lemma length_digits n :
  0 < n → 10 ^ (Z.of_nat (Strings.String.length (digits (digits_fuel n) n)) - 1) <= n.
Proof.
  intros Hn.
  cut (0 < n → 0 < Z.of_nat (Strings.String.length (digits (digits_fuel n) n)) ∧
    10 ^ (Z.of_nat (Strings.String.length (digits (digits_fuel n) n)) - 1) <= n); [tauto|].
  apply (digits_ind (λ n s, 0 < n → 0 < Z.of_nat (Strings.String.length s) ∧
    10 ^ (Z.of_nat (Strings.String.length s) - 1) <= n)); [| |lia|done].
  - intros d Hd Hpos. simpl. lia.
  - intros m s Hm IH _. destruct IH as [Hl IH]; [apply Z.div_str_pos; lia|].
    rewrite length_append. simpl. rewrite Nat2Z.inj_add. split; [lia|].
    replace (Z.of_nat (Strings.String.length s) + Z.of_nat 1 - 1)
      with (Z.succ (Z.of_nat (Strings.String.length s) - 1)) by lia.
    rewrite Z.pow_succ_r by lia. pose proof (Z.mul_div_le m 10 ltac:(lia)). lia.
Qed.

Lemma digits_first n :
  0 <= n → ∃ d r, 0 <= d < 10 ∧ digits (digits_fuel n) n = String (digit_char d) r ∧ (d = 0 → r = "").
Proof.
  intros Hn. destruct (Z.eq_dec n 0) as [->|].
  - by exists 0, "".
  - destruct (digits_head n ltac:(lia)) as (d & r & Hd & ->). exists d, r. split_and!; [lia|lia|done|lia].
Qed.

(** ** What is printed reads back *)

(** A decimal [q.r] with six decimals: the value is [q·10^6 + r] over [10^6]. *)
Lemma readFloat_fixed (neg : bool) q r :
  0 <= q → 0 <= r < 10 ^ 6 →
  ∃ nd dp, readFloat (sign_string neg +:+ Itoa q +:+ "." +:+ pad_digits 6 r) =
      Some (Literal neg false (q * 10 ^ 6 + r) nd dp) ∧
    dp - nd = -6 ∧ -6 <= dp <= Z.of_nat (Strings.String.length (digits (digits_fuel q) q)).
Proof.
  intros Hq Hr. unfold Itoa. destruct (Z.ltb_spec q 0); [lia|].
  pose proof (pad_digits_digits 6 r) as Hp. pose proof (length_pad_digits 6 r) as Hlp.
  pose proof (digits_value_pad q 6 r Hr) as Hvp. change (10 ^ Z.of_nat 6) with (10 ^ 6) in Hvp.
  pose proof (digits_value_digits q Hq) as Hvq. pose proof (digits_forallb q Hq) as Hfq.
  destruct (digits_first q Hq) as (d & s & Hd & Heq & Hs).
  generalize dependent (pad_digits 6 r). intros P Hp Hlp Hvp.
  generalize dependent (digits (digits_fuel q) q). intros D Hvq Hfq Heq.
  destruct (read_digit_string D (String "." P) mantissa0) as (k & z & Hk & Hz & Hl & Hv & Hread); [done..|].
  destruct (read_digit_string P "" (Mantissa q k k true (match D with EmptyString => false | _ => true end) false))
    as (k' & z' & Hk' & Hz' & Hl' & Hv' & Hread'); [exact Hp|exact Hk| |].
  { simpl in *. intros ->. by rewrite <- Hvq, Hv. }
  simpl in Hread, Hread', Hv. rewrite Hvq in Hread, Hv. rewrite append_nil_r, Hvp in Hread'. rewrite Hlp in Hl'.
  exists (k + k'), (k - z'). split; [|lia].
  assert (drop_sign (sign_string neg +:+ D +:+ String "." P) = D +:+ String "." P ∧
    is_negative (sign_string neg +:+ D +:+ String "." P) = neg) as [Hdrop Hneg].
  { rewrite Heq. destruct neg; [done|]. by digit_cases d Hd. }
  change ("." +:+ P) with (String "." P).
  unfold readFloat. cbv zeta. rewrite Hdrop, Hneg.
  match goal with |- (let (_, _) := ?x in _) = _ => assert (x = (false, D +:+ String "." P)) as -> end.
  { rewrite Heq, append_cons. digit_cases d Hd; try done. rewrite Hs, append_nil_l by done. by destruct P. }
  rewrite Hread. cbn -[Z.mul Z.add]. rewrite !Z.add_0_l, Hread'. rewrite Heq. destruct P; simpl; f_equal; f_equal; lia.
Qed.

Lemma special_fixed (neg : bool) q t :
  0 <= q → special (sign_string neg +:+ Itoa q +:+ t) = None.
Proof.
  intros Hq. unfold Itoa. destruct (Z.ltb_spec q 0); [lia|].
  destruct (digits_first q Hq) as (d & s & Hd & -> & _). rewrite append_cons. unfold special.
  destruct neg; digit_cases d Hd; rewrite !bool_decide_eq_false_2; done.
Qed.

Lemma pow2_le_pow10 q : 0 < q → q <= max_float → Z.of_nat (Strings.String.length (digits (digits_fuel q) q)) <= 309.
Proof.
  intros Hq Hle. pose proof (length_digits q Hq) as Hl. apply Znot_gt_le. intros Hgt.
  assert (10 ^ 309 <= 10 ^ (Z.of_nat (Strings.String.length (digits (digits_fuel q) q)) - 1))
    by (apply Z.pow_le_mono_r; lia).
  assert (max_float < 10 ^ 309) by done. lia.
Qed.

Lemma FormatF6_parses f : wf_float f = true → ∃ f', ParseFloat (FormatF6 f) = Ok f'.
Proof.
  destruct f as [neg m e|neg|]; [|by destruct neg; eexists|by eexists].
  unfold wf_float. rewrite !andb_true_iff, !Z.leb_le, Z.ltb_lt.
  intros [[[[He1 He2] Hm1] Hm2] _]. unfold FormatF6.
  destruct (scale2 (m * 10 ^ 6) 1 (- e)) as [n d] eqn:E.
  assert (0 <= div_even n d <= max_float * 10 ^ 6) as [HN0 HN].
  { rewrite scale2_max in E. injection E as <- <-. rewrite Z.opp_involutive, Z.mul_1_l.
    assert (0 < 2 ^ Z.max (- e) 0) by (apply Z.pow_pos_nonneg; lia).
    assert (0 < 2 ^ Z.max e 0 <= 2 ^ 971) as [H2 H971].
    { split; [apply Z.pow_pos_nonneg; lia|apply Z.pow_le_mono_r; [lia|]]. unfold max_exp in *. lia. }
    split; [apply div_even_nearest; nia|]. apply div_even_le; [done|].
    unfold max_float. assert (m * 2 ^ Z.max e 0 <= (2 ^ 53 - 1) * 2 ^ 971) by nia. nia. }
  generalize dependent (div_even n d). intros N HN0 HN.
  pose proof (Z.mod_pos_bound N (10 ^ 6) ltac:(done)) as Hr.
  pose proof (Z.div_pos N (10 ^ 6) HN0 ltac:(done)) as Hq.
  destruct (readFloat_fixed neg _ _ Hq Hr) as (nd & dp & Hread & Hnd & Hdp).
  unfold ParseFloat. rewrite special_fixed, Hread by done.
  assert (N / 10 ^ 6 * 10 ^ 6 + N mod 10 ^ 6 = N) as -> by (pose proof (Z.div_mod N (10 ^ 6) ltac:(done)); lia).
  unfold literal_value; cbn [lit_neg lit_hex lit_mant lit_nd lit_dp].
  destruct (Z.eqb_spec N 0); [by eexists|].
  assert (dp <= 310).
  { destruct (Z.eq_dec (N / 10 ^ 6) 0) as [H0|].
    - rewrite H0 in Hdp. change (Strings.String.length _) with 1%nat in Hdp. lia.
    - assert (N / 10 ^ 6 <= max_float) by (apply Z.div_le_upper_bound; lia).
      pose proof (pow2_le_pow10 (N / 10 ^ 6) ltac:(lia) ltac:(done)). lia. }
  destruct (Z.ltb_spec 310 dp); [lia|]. destruct (Z.ltb_spec dp (-330)); [lia|].
  rewrite Hnd. change (0 <=? -6) with false. cbv iota. change (- -6) with 6.
  destruct (round_ratio_some neg N (10 ^ 6)) as [f ->]; [lia|done|done|by eexists].
Qed.

Close Scope Z_scope.
