(* ===== verification/GoSort.v ===== *)
(** * [sort.Slice] and the order of strings

    [sort.Slice] promises a permutation that is sorted with respect to [less]
    when [less] is a transitive ordering, and nothing about the order of equal
    elements.  That contract is the class [SortSlice]; the users of the sort
    are verified against it.  The instance is the insertion sort that
    [sort.Slice] runs on slices of at most twelve elements. *)
From S2P Require Import Prelude.

(** ** The contract *)

(** What the documentation asks of [less]. *)
Record strict_weak {A} (less : A → A → bool) : Prop := {
  less_irrefl x : less x x = false;
  less_trans x y z : less x y = true → less y z = true → less x z = true;
  notless_trans x y z : less x y = false → less y z = false → less x z = false;
}.

Class SortSlice : Type := {
  sort_slice {A} (less : A → A → bool) (l : list A) : list A;
  sort_slice_perm {A} (less : A → A → bool) (l : list A) : sort_slice less l ≡ₚ l;
  sort_slice_sorted {A} (less : A → A → bool) (l : list A) :
    strict_weak less → Sorted (λ x y, less y x = false) (sort_slice less l);
}.

(** ** Insertion sort *)

(** Moving [x] left past the elements it is less than; the prefix is kept
    reversed. *)
Fixpoint insert_rev {A} (less : A → A → bool) (x : A) (l : list A) : list A :=
  match l with
  | [] => [x]
  | y :: l => if less x y then y :: insert_rev less x l else x :: y :: l
  end.

Definition insertion_sort {A} (less : A → A → bool) (l : list A) : list A :=
  rev (foldl (λ acc x, insert_rev less x acc) [] l).

(** ** Strings *)

(** [a < b] on Go strings: bytewise lexicographic order. *)
Definition string_ltb (a b : string) : bool := Strings.String.ltb a b.

(** The order of [sortLabelset]: shorter keys first, then [<]. *)
Definition shortlex (a b : string) : bool :=
  if Strings.String.length a =? Strings.String.length b then string_ltb a b
  else Strings.String.length a <? Strings.String.length b.

(** ** Lemmas: insertion sort *)

Lemma insert_rev_perm {A} (less : A → A → bool) x l : insert_rev less x l ≡ₚ x :: l.
Proof.
  induction l as [|y l IH]; [done|]; simpl. case_match; [|done].
  rewrite IH. apply Permutation_swap.
Qed.

Lemma insertion_sort_perm {A} (less : A → A → bool) (l : list A) :
  insertion_sort less l ≡ₚ l.
Proof.
  unfold insertion_sort. rewrite <- Permutation_rev.
  assert (∀ acc, foldl (λ acc x, insert_rev less x acc) acc l ≡ₚ acc ++ l) as H;
    [|by apply H].
  induction l as [|x l IH]; intros acc; simpl; [by rewrite app_nil_r|].
  rewrite IH, insert_rev_perm. apply Permutation_middle.
Qed.

Section insertion.
Context {A : Type} (less : A → A → bool) (Hless : strict_weak less).

Lemma less_asym x y : less x y = true → less y x = false.
Proof.
  intros H. destruct (less y x) eqn:E; [|done].
  pose proof (less_trans _ Hless _ _ _ H E) as Hxx.
  by rewrite (less_irrefl _ Hless) in Hxx.
Qed.

(** The reversed prefix is sorted from the greatest down. *)
Lemma insert_rev_sorted x l :
  Sorted (λ a b, less a b = false) l → Sorted (λ a b, less a b = false) (insert_rev less x l).
Proof.
  induction 1 as [|y l Hl IH Hhd]; simpl; [by repeat constructor|].
  destruct (less x y) eqn:E; [|by repeat constructor].
  constructor; [done|].
  destruct Hhd as [|z l Hz]; simpl; [constructor; by apply less_asym|].
  case_match; constructor; [done|by apply less_asym].
Qed.

Lemma foldl_insert_sorted l acc :
  Sorted (λ a b, less a b = false) acc →
  Sorted (λ a b, less a b = false) (foldl (λ acc x, insert_rev less x acc) acc l).
Proof.
  revert acc. induction l as [|x l IH]; intros acc Hacc; simpl; [done|].
  by apply IH, insert_rev_sorted.
Qed.

Lemma Sorted_snoc (R : A → A → Prop) l x y :
  Sorted R (l ++ [x]) → R x y → Sorted R (l ++ [x; y]).
Proof.
  induction l as [|z l IH]; simpl; intros Hs Hr; [by repeat constructor|].
  apply Sorted_inv in Hs as [Hs Hhd]. constructor; [by apply IH|].
  destruct l; simpl in *; apply HdRel_inv in Hhd; by constructor.
Qed.

Lemma Sorted_rev (R : A → A → Prop) l :
  Sorted R l → Sorted (λ a b, R b a) (rev l).
Proof.
  induction l as [|x l IH]; intros Hs; simpl; [done|].
  apply Sorted_inv in Hs as [Hs Hhd]. specialize (IH Hs).
  destruct l as [|y l]; simpl in *; [by repeat constructor|].
  apply HdRel_inv in Hhd. rewrite <- app_assoc. simpl. by apply Sorted_snoc.
Qed.

Lemma insertion_sort_sorted l :
  Sorted (λ x y, less y x = false) (insertion_sort less l).
Proof. apply Sorted_rev, foldl_insert_sorted. constructor. Qed.
End insertion.

#[export] Instance insertion_SortSlice : SortSlice := {|
  sort_slice A := insertion_sort;
  sort_slice_perm A := insertion_sort_perm;
  sort_slice_sorted A less l H := insertion_sort_sorted less H l;
|}.

(** ** Lemmas: the order of strings *)

Lemma string_ltb_leb a b : string_ltb a b = negb (Strings.String.leb b a).
Proof.
  unfold string_ltb, Strings.String.ltb, Strings.String.leb.
  rewrite (Strings.String.compare_antisym b a).
  by destruct (Strings.String.compare a b).
Qed.

Lemma string_ltb_false a b : string_ltb a b = false ↔ String.le b a.
Proof.
  rewrite string_ltb_leb. unfold String.le.
  destruct (Strings.String.leb b a); simpl; naive_solver.
Qed.

Lemma string_ltb_true a b : string_ltb a b = true ↔ String.le a b ∧ a ≠ b.
Proof.
  rewrite <- not_false_iff_true, string_ltb_false. split.
  - intros Hn. destruct (total String.le a b) as [Hab|Hba]; [|done].
    split; [done|]. by intros ->.
  - intros [Hab Hne] Hba. apply Hne. by apply (anti_symm String.le).
Qed.

Lemma string_ltb_strict_weak : strict_weak string_ltb.
Proof.
  split.
  - intros x. by apply string_ltb_false.
  - intros x y z. rewrite !string_ltb_true. intros [Hxy Hne] [Hyz _]. split.
    + by transitivity y.
    + intros ->. apply Hne. by apply (anti_symm String.le).
  - intros x y z. rewrite !string_ltb_false. intros ??. by transitivity y.
Qed.

Lemma shortlex_false a b :
  shortlex a b = false ↔
  Strings.String.length b < Strings.String.length a ∨
  Strings.String.length a = Strings.String.length b ∧ String.le b a.
Proof.
  unfold shortlex. destruct (Nat.eqb_spec (Strings.String.length a) (Strings.String.length b)).
  - rewrite string_ltb_false. split; [by right|]. intros [?|[_ ?]]; [lia|done].
  - rewrite Nat.ltb_ge. split; [left; lia|]. intros [?|[? _]]; lia.
Qed.

Lemma shortlex_true a b :
  shortlex a b = true ↔
  Strings.String.length a < Strings.String.length b ∨
  Strings.String.length a = Strings.String.length b ∧ String.le a b ∧ a ≠ b.
Proof.
  unfold shortlex. destruct (Nat.eqb_spec (Strings.String.length a) (Strings.String.length b)).
  - rewrite string_ltb_true. split; [by right|]. intros [?|[_ ?]]; [lia|done].
  - rewrite Nat.ltb_lt. split; [left; lia|]. intros [?|[? _]]; lia.
Qed.

Lemma shortlex_strict_weak : strict_weak shortlex.
Proof.
  split.
  - intros x. apply shortlex_false. by right.
  - intros x y z. rewrite !shortlex_true.
    intros [?|(?&?&Hne)] [?|(?&?&_)]; [left; lia..|]. right.
    split; [lia|]. split; [by transitivity y|].
    intros ->. apply Hne. by apply (anti_symm String.le).
  - intros x y z. rewrite !shortlex_false.
    intros [?|[??]] [?|[??]]; [left; lia..|]. right.
    split; [lia|]. by transitivity y.
Qed.

(** Two keys that are not ordered either way are equal. *)
Lemma shortlex_total a b : shortlex a b = false → shortlex b a = false → a = b.
Proof.
  rewrite !shortlex_false. intros [?|[? ?]] [?|[? ?]]; [lia..|].
  by apply (anti_symm String.le).
Qed.

Lemma strict_weak_map {A B} (f : A → B) (less : B → B → bool) :
  strict_weak less → strict_weak (λ x y, less (f x) (f y)).
Proof.
  intros [H1 H2 H3]. split; eauto.
Qed.

(** ** Lemmas: sorting by distinct keys is deterministic *)

Section by_key.
Context `{!SortSlice} {A : Type} (key : A → string).

Let less (x y : A) : bool := shortlex (key x) (key y).
Let le (x y : A) : Prop := less y x = false.

Lemma sort_by_key_sorted l : StronglySorted le (sort_slice less l).
Proof.
  apply Sorted_StronglySorted.
  - intros x y z Hxy Hyz. unfold le, less in *.
    by apply (notless_trans _ shortlex_strict_weak _ (key y)).
  - apply sort_slice_sorted. apply (strict_weak_map key), shortlex_strict_weak.
Qed.

Lemma sorted_by_key_unique l k :
  NoDup (key <$> l) → l ≡ₚ k → StronglySorted le l → StronglySorted le k → l = k.
Proof.
  revert k. induction l as [|x l IH]; intros k Hnd Hp Hl Hk.
  { by apply Permutation_nil in Hp. }
  destruct k as [|y k].
  { by apply Permutation_sym, Permutation_nil in Hp. }
  assert (x = y) as <-.
  { apply StronglySorted_inv in Hl as [_ Hlx], Hk as [_ Hky].
    rewrite Forall_forall in Hlx. rewrite Forall_forall in Hky.
    assert (x ∈ y :: k) as Hx by (rewrite <- Hp; by left).
    assert (y ∈ x :: l) as Hy by (rewrite Hp; by left).
    apply elem_of_cons in Hx as [?|Hx]; [done|].
    apply elem_of_cons in Hy as [?|Hy]; [done|].
    assert (key x = key y) as Hk'.
    { apply shortlex_total; [by apply Hky|by apply Hlx]. }
    simpl in Hnd. apply NoDup_cons in Hnd as [Hnin _].
    destruct Hnin. rewrite Hk'. by apply list_elem_of_fmap_2. }
  f_equal. simpl in Hnd. apply NoDup_cons in Hnd as [_ Hnd].
  apply StronglySorted_inv in Hl as [Hl _], Hk as [Hk _].
  apply IH; try done. by apply Permutation_cons_inv in Hp.
Qed.

End by_key.

(** Any two implementations of the sort agree on distinct keys. *)
Lemma sort_by_key_perm (S1 S2 : SortSlice) {A} (key : A → string) l k :
  NoDup (key <$> l) → l ≡ₚ k →
  @sort_slice S1 A (λ x y, shortlex (key x) (key y)) l =
  @sort_slice S2 A (λ x y, shortlex (key x) (key y)) k.
Proof.
  intros Hnd Hp. apply (sorted_by_key_unique key); try apply sort_by_key_sorted.
  - by rewrite sort_slice_perm.
  - by rewrite !sort_slice_perm.
Qed.
