(* ===== verification/Values.v ===== *)
(** * Dynamic Go values and unstructured objects

    [any] is the [interface{}] of the program: the values an unstructured
    object decodes to and the values a CEL evaluation returns.  A
    [map[string]interface{}] is an association list with distinct keys, looked
    up by key.  The accessors of [unstructured.Unstructured] are those of the
    vendored apimachinery. *)
From S2P Require Import Prelude GoStrings Strconv GoSort.

(** ** Values *)

(** The dynamic types that the program tells apart.  [Opaque] is a value of
    any other type, with what [%v] prints for it. *)
#[local] Unset Elimination Schemes.
Inductive any : Type :=
| Nil
| Bool (b : bool)
| Str (s : string)
| Int (n : Z)
| Int64 (n : Z)
| Uint (n : Z)
| Uint64 (n : Z)
| Float64 (f : float64)
| Slice (l : list any)
| Map (m : list (string * any))
| Opaque (repr : string).
#[local] Set Elimination Schemes.

(** [m[key]]. *)
Fixpoint map_get {A} (key : string) (m : list (string * A)) : option A :=
  match m with
  | [] => None
  | (k, v) :: m => if decide (k = key) then Some v else map_get key m
  end.

(** ** [fmt.Sprintf("%v", v)] *)

(** [internal/fmtsort] orders the keys of a printed map; keys are distinct. *)
Definition sort_entries (l : list (string * string)) : list (string * string) :=
  insertion_sort (λ a b, string_ltb a.1 b.1) l.

Fixpoint format_v (v : any) : string :=
  match v with
  | Nil => "<nil>"
  | Bool true => "true"
  | Bool false => "false"
  | Str s => s
  | Int n | Int64 n | Uint n | Uint64 n => Itoa n
  | Float64 f => FormatG f
  | Slice l => "[" +:+ Join (map format_v l) " " +:+ "]"
  | Map m =>
    let entries := map (λ '(k, v), (k, format_v v)) m in
    "map[" +:+ Join (map (λ '(k, s), k +:+ ":" +:+ s) (sort_entries entries)) " " +:+ "]"
  | Opaque repr => repr
  end.

(** ** [NestedFieldNoCopy] and the accessors built on it *)

(** The error of a path that goes through a value that is not a map: the
    path so far and the value. *)
Inductive nested_error : Type :=
| AccessorError (path : list string) (val : any).

Fixpoint nested_from (path : list string) (val : any) (fields : list string)
    : any * bool * option nested_error :=
  match fields with
  | [] => (val, true, None)
  | field :: fields =>
    match val with
    | Nil => (Nil, false, None)
    | Map m =>
      match map_get field m with
      | Some v => nested_from (path ++ [field]) v fields
      | None => (Nil, false, None)
      end
    | _ => (Nil, false, Some (AccessorError (path ++ [field]) val))
    end
  end.

Definition object : Type := list (string * any).

Definition NestedFieldNoCopy (obj : object) (fields : list string)
    : any * bool * option nested_error :=
  nested_from [] (Map obj) fields.

(** [getNestedString]: the empty string when the field is missing or is not a
    string. *)
Definition getNestedString (obj : object) (fields : list string) : string :=
  match NestedFieldNoCopy obj fields with
  | (Str s, true, None) => s
  | _ => ""
  end.

Definition GetUID (obj : object) : string := getNestedString obj ["metadata"; "uid"].
Definition GetAPIVersion (obj : object) : string := getNestedString obj ["apiVersion"].
Definition GetKind (obj : object) : string := getNestedString obj ["kind"].

Record GroupVersionKind : Type := GVK {
  gvk_Group : string;
  gvk_Version : string;
  gvk_Kind : string;
}.

Record GroupVersionResource : Type := GVR {
  gvr_Group : string;
  gvr_Version : string;
  gvr_Resource : string;
}.

#[export] Instance GroupVersionKind_eq_dec : EqDecision GroupVersionKind.
Proof. solve_decision. Defined.

#[export] Instance GroupVersionResource_eq_dec : EqDecision GroupVersionResource.
Proof. solve_decision. Defined.

(** [schema.ParseGroupVersion]; [None] is its error. *)
Definition ParseGroupVersion (gv : string) : option (string * string) :=
  if bool_decide (gv = "") || bool_decide (gv = "/") then Some ("", "")
  else
    match Split gv "/" with
    | [v] => Some ("", v)
    | [g; v] => Some (g, v)
    | _ => None
    end.

Definition object_gvk (obj : object) : GroupVersionKind :=
  match ParseGroupVersion (GetAPIVersion obj) with
  | Some (g, v) => GVK g v (GetKind obj)
  | None => GVK "" "" ""
  end.

(** ** Lemmas *)

(** A traversal that does not find its field found no value, whether or not it
    failed; a failed one never found it. *)
Lemma nested_from_error path val fields v found e :
  nested_from path val fields = (v, found, Some e) → found = false.
Proof.
  revert path val. induction fields as [|f fs IH]; intros path val; simpl; [done|].
  destruct val as [| | | | | | | | |m|]; try (by intros [= _ <- _]); try done.
  destruct (map_get f m); [apply IH|done].
Qed.

Lemma NestedFieldNoCopy_error obj fields v found e :
  NestedFieldNoCopy obj fields = (v, found, Some e) → found = false.
Proof. apply nested_from_error. Qed.

Lemma map_get_elem {A} k (m : list (string * A)) v :
  map_get k m = Some v → (k, v) ∈ m.
Proof.
  induction m as [|[k' v'] m IH]; simpl; [done|].
  case_decide as Hk; [intros [= ->]; subst; by left|].
  intros ?. right. auto.
Qed.

Lemma map_get_None {A} k (m : list (string * A)) : map_get k m = None ↔ k ∉ m.*1.
Proof.
  induction m as [|[k' v'] m IH]; simpl; [set_solver|].
  rewrite not_elem_of_cons. case_decide; naive_solver.
Qed.

Example format_map :
  format_v (Map [("job", Str "crdmetrics"); ("foo", Str "1"); ("bar", Int64 2)]) =
  "map[bar:2 foo:1 job:crdmetrics]".
Proof. reflexivity. Qed.
