(* ===== verification/ApiMachinery.v ===== *)
(** * Errors, watch events and list options ([vendor/k8s.io/apimachinery])

    What the client libraries of the program agree on with an API server: the
    errors of a request, as far as [api/errors] tells them apart; the events of
    a watch ([watch]); and the options of a list or a watch, with the defaults
    that a server gives them and the rules that it checks ([internalversion]
    and [internalversion/validation]). *)
From S2P Require Import Prelude GoStrings Strconv GoSort Values.

(** ** Errors *)

(** A cause of a [metav1.Status]. *)
Record StatusCause : Type := {
  cause_Type : string;
  cause_Message : string;
}.

(** The error of a request: a status of the server, a connection that was
    refused, an object that is not a status, or anything else.  Wrapping
    with [%w] does not matter to the functions below, which unwrap, except for
    [isTooLargeResourceVersionError]. *)
Inductive client_error : Type :=
| StatusError (code : Z) (reason message : string) (causes : list StatusCause)
| ConnectionRefused
| UnexpectedObject
| OtherError (message : string).

Definition knownReasons : list string :=
  ["Unauthorized"; "Forbidden"; "NotFound"; "AlreadyExists"; "Conflict"; "Gone"; "Invalid";
   "ServerTimeout"; "Timeout"; "TooManyRequests"; "BadRequest"; "MethodNotAllowed";
   "NotAcceptable"; "RequestEntityTooLarge"; "UnsupportedMediaType"; "InternalError";
   "Expired"; "ServiceUnavailable"].

Definition reasonAndCodeForError (err : client_error) : string * Z :=
  match err with
  | StatusError code reason _ _ => (reason, code)
  | _ => ("", 0%Z)
  end.

Definition ReasonForError (err : client_error) : string := (reasonAndCodeForError err).1.

(** The shape of [IsGone] and [IsInternalError]: the reason, or the code when
    the reason is not a known one. *)
Definition is_reason (name : string) (status : Z) (err : client_error) : bool :=
  let '(reason, code) := reasonAndCodeForError err in
  bool_decide (reason = name) ||
  (negb (bool_decide (reason ∈ knownReasons)) && bool_decide (code = status)).

Definition IsGone : client_error → bool := is_reason "Gone" 410.
Definition IsInternalError : client_error → bool := is_reason "InternalError" 500.
Definition IsResourceExpired (err : client_error) : bool :=
  bool_decide (ReasonForError err = "Expired").

Definition IsTooManyRequests (err : client_error) : bool :=
  let '(reason, code) := reasonAndCodeForError err in
  bool_decide (reason = "TooManyRequests") || bool_decide (code = 429%Z).

Definition HasStatusCause (name : string) (err : client_error) : bool :=
  match err with
  | StatusError _ _ _ causes => existsb (λ c, bool_decide (cause_Type c = name)) causes
  | _ => false
  end.

(** [utilnet.IsConnectionRefused]. *)
Definition IsConnectionRefused (err : client_error) : bool :=
  match err with ConnectionRefused => true | _ => false end.

(** ** Watch events *)

(** What an event carries: an unstructured object, a status, or an object of
    another type. *)
Inductive event_object : Type :=
| Unstructured (o : object)
| StatusObject (code : Z) (reason message : string) (causes : list StatusCause)
| OtherObject.

Record Event : Type := MkEvent {
  ev_Type : string;
  ev_Object : event_object;
}.

Definition Added : string := "ADDED".
Definition Modified : string := "MODIFIED".
Definition Deleted : string := "DELETED".
Definition Bookmark : string := "BOOKMARK".
Definition Error : string := "ERROR".

(** [apierrors.FromObject]; an unstructured object is converted when it is a
    status, which the decoder of the dynamic client has done already. *)
Definition FromObject (obj : event_object) : client_error :=
  match obj with
  | StatusObject code reason message causes => StatusError code reason message causes
  | Unstructured _ | OtherObject => UnexpectedObject
  end.

(** ** List options, at the server *)

(** [internalversion.ListOptions], without the fields that the defaults and
    the rules do not look at. *)
Record InternalListOptions : Type := MkInternal {
  io_Watch : bool;
  io_ResourceVersion : string;
  io_ResourceVersionMatch : string;
  io_Continue : string;
  io_SendInitialEvents : option bool;
}.

Definition ResourceVersionMatchNotOlderThan : string := "NotOlderThan".
Definition ResourceVersionMatchExact : string := "Exact".

(** [SetListOptionsDefaults]. *)
Definition SetListOptionsDefaults (isWatchListFeatureEnabled : bool) (o : InternalListOptions)
    : InternalListOptions :=
  if negb isWatchListFeatureEnabled then o
  else if bool_decide (io_SendInitialEvents o ≠ None) ||
          bool_decide (io_ResourceVersionMatch o ≠ "") then o
  else if io_Watch o &&
          (bool_decide (io_ResourceVersion o = "") || bool_decide (io_ResourceVersion o = "0"))
  then MkInternal (io_Watch o) (io_ResourceVersion o) ResourceVersionMatchNotOlderThan
         (io_Continue o) (Some true)
  else o.

(** A word in double quotes. *)
Definition quoted (s : string) : string :=
  String.String "034" (s +:+ String.String "034" EmptyString).

(** An error of the validation: the field, and the detail or the value. *)
Inductive field_error : Type :=
| Forbidden (field detail : string)
| NotSupported (field value : string).

Definition error_if (b : bool) (e : field_error) : list field_error := if b then [e] else [].

Definition validateWatchOptions (isWatchListFeatureEnabled : bool) (o : InternalListOptions)
    : list field_error :=
  let match_ := io_ResourceVersionMatch o in
  (if io_SendInitialEvents o then
     error_if (bool_decide (match_ ≠ ResourceVersionMatchNotOlderThan))
       (Forbidden "resourceVersionMatch"
          "sendInitialEvents requires setting resourceVersionMatch to NotOlderThan") ++
     error_if (negb isWatchListFeatureEnabled)
       (Forbidden "sendInitialEvents"
          "sendInitialEvents is forbidden for watch unless the WatchList feature gate is enabled")
   else []) ++
  (if decide (match_ = "") then [] else
     error_if (bool_decide (io_SendInitialEvents o = None))
       (Forbidden "resourceVersionMatch"
          "resourceVersionMatch is forbidden for watch unless sendInitialEvents is provided") ++
     error_if (bool_decide (match_ ≠ ResourceVersionMatchNotOlderThan))
       (NotSupported "resourceVersionMatch" match_) ++
     error_if (bool_decide (io_Continue o ≠ ""))
       (Forbidden "resourceVersionMatch"
          "resourceVersionMatch is forbidden when continue is provided")).

Definition ValidateListOptions (isWatchListFeatureEnabled : bool) (o : InternalListOptions)
    : list field_error :=
  if io_Watch o then validateWatchOptions isWatchListFeatureEnabled o
  else
    let match_ := io_ResourceVersionMatch o in
    (if decide (match_ = "") then [] else
       error_if (bool_decide (io_ResourceVersion o = ""))
         (Forbidden "resourceVersionMatch"
            "resourceVersionMatch is forbidden unless resourceVersion is provided") ++
       error_if (bool_decide (io_Continue o ≠ ""))
         (Forbidden "resourceVersionMatch"
            "resourceVersionMatch is forbidden when continue is provided") ++
       error_if (bool_decide (match_ ≠ ResourceVersionMatchExact) &&
                 bool_decide (match_ ≠ ResourceVersionMatchNotOlderThan))
         (NotSupported "resourceVersionMatch" match_) ++
       error_if (bool_decide (match_ = ResourceVersionMatchExact) &&
                 bool_decide (io_ResourceVersion o = "0"))
         (Forbidden "resourceVersionMatch"
            ("resourceVersionMatch " +:+ quoted "exact" +:+ " is forbidden for resourceVersion " +:+ quoted "0"))) ++
    error_if (bool_decide (io_SendInitialEvents o ≠ None))
      (Forbidden "sendInitialEvents" "sendInitialEvents is forbidden for list").

(** What a server makes of a request: its defaults, then its rules. *)
Definition admitted (isWatchListFeatureEnabled : bool) (o : InternalListOptions)
    : list field_error :=
  ValidateListOptions isWatchListFeatureEnabled
    (SetListOptionsDefaults isWatchListFeatureEnabled o).
