(* ===== verification/Resolver.v ===== *)
(** * Resolvers ([pkg/resolver])

    A resolver evaluates a query against an unstructured object and returns a
    map: [{query: value}] for a value that is not composite, the entries of a
    composite one.  [UnstructuredResolver] follows dotted paths;
    [CELResolver] runs the CEL library, which is a parameter here. *)
From S2P Require Import Prelude GoStrings Strconv GoSort Values.

(** ** The interface *)

Record Resolver : Type := {
  Resolve : string → object → gmap string string;
}.

(** What the callers fall back to: the query as its own value. *)
Definition unresolved (query : string) : gmap string string := {[query := query]}.

(** ** [unstructured.go] *)

Module Unstructured.
Definition Resolve (query : string) (obj : object) : gmap string string :=
  let '(resolvedI, found, err) := NestedFieldNoCopy obj (Split query ".") in
  if negb found then {[query := query]}
  else match err with
       | Some _ => {[query := query]}
       | None => {[query := format_v resolvedI]}
       end.
End Unstructured.

Definition NewUnstructuredResolver : Resolver := {| Resolve := Unstructured.Resolve |}.

(** ** [cel.go] *)

(** The CEL library: environments, parsed queries and programs are abstract,
    an evaluation returns the type and the native value of its result. *)
Inductive cel_type : Type :=
| BoolType | DoubleType | IntType | StringType | UintType
| MapType | ListType
| OtherType (name : string).

Record ref_Val : Type := RefVal {
  val_Type : cel_type;
  val_Value : any;
}.

Class CEL : Type := {
  cel_Env : Type;
  cel_Ast : Type;
  cel_Prog : Type;
  cel_NewEnv : result string cel_Env;
  cel_Parse : cel_Env → string → result string cel_Ast;
  cel_Program : cel_Env → cel_Ast → Z → (string → Z) → result string cel_Prog;
  cel_Eval : cel_Prog → list (string * any) → result string ref_Val;
}.

Module Cel.
(** [CallCost]: a [uint64]; the map of custom costs is empty. *)
Definition CallCost (function : string) : Z :=
  let estimatedCost := 1%Z in
  let customFunctionsCosts : gmap string Z := ∅ in
  ((estimatedCost + default 0%Z (customFunctionsCosts !! function)) mod 2 ^ 64)%Z.

Definition costLimit : Z := 1000000.

(** [case string, int, uint, float64, bool] of the type switches. *)
Definition is_primitive (v : any) : bool :=
  match v with
  | Str _ | Int _ | Uint _ | Float64 _ | Bool _ => true
  | _ => false
  end.

(** [resolveList]: [None] is the nil map of a failed cast. *)
Definition resolveList (out : ref_Val) : option (gmap string string) :=
  match val_Value out with
  | Slice outList =>
    Some (foldl (λ m '(i, v),
              if is_primitive v then <[Itoa (Z.of_nat i) := format_v v]> m else m)
            ∅ (imap pair outList))
  | _ => None
  end.

(** [resolveMap]. *)
Definition resolveMap (out : ref_Val) : option (gmap string string) :=
  match val_Value out with
  | Map outMap =>
    Some (foldl (λ m '(k, v), if is_primitive v then <[k := format_v v]> m else m)
            ∅ outMap)
  | _ => None
  end.

Section resolve.
Context `{!CEL}.

Definition Resolve (query : string) (obj : object) : gmap string string :=
  match cel_NewEnv with
  | Err _ => {[query := query]}
  | Ok env =>
    match cel_Parse env query with
    | Err _ => {[query := query]}
    | Ok ast =>
      match cel_Program env ast costLimit CallCost with
      | Err _ => {[query := query]}
      | Ok program =>
        match cel_Eval program [("o", Map obj)] with
        | Err _ => {[query := query]}
        | Ok out =>
          let m :=
            match val_Type out with
            | BoolType | DoubleType | IntType | StringType | UintType =>
              Some {[query := format_v (val_Value out)]}
            | MapType => resolveMap out
            | ListType => resolveList out
            | OtherType _ => Some ∅
            end in
          match m with
          | Some m => m
          | None => {[query := query]}
          end
        end
      end
    end
  end.
End resolve.
End Cel.

Definition NewCELResolver `{!CEL} : Resolver := {| Resolve := Cel.Resolve |}.

(** A small library for examples: a query is a path that starts at the variable
    [o], and a result has the type of its value. *)
Module PathCEL.
Definition type_of (v : any) : cel_type :=
  match v with
  | Bool _ => BoolType
  | Str _ => StringType
  | Int _ | Int64 _ => IntType
  | Uint _ | Uint64 _ => UintType
  | Float64 _ => DoubleType
  | Slice _ => ListType
  | Map _ => MapType
  | Nil => OtherType "null_type"
  | Opaque _ => OtherType "opaque"
  end.

#[export] Instance path_CEL : CEL := {|
  cel_Env := unit;
  cel_Ast := list string;
  cel_Prog := list string;
  cel_NewEnv := Ok tt;
  cel_Parse _ query :=
    match Split query "." with
    | "o" :: fields => Ok fields
    | _ => Err "undeclared reference"
    end;
  cel_Program _ ast _ _ := Ok ast;
  cel_Eval fields env :=
    match env with
    | [("o", Map o)] =>
      match NestedFieldNoCopy o fields with
      | (v, true, _) => Ok (RefVal (type_of v) v)
      | _ => Err "no such key"
      end
    | _ => Err "no such attribute"
    end;
|}.
End PathCEL.

(** ** Lemmas *)

Lemma unstructured_resolve_found query obj v :
  NestedFieldNoCopy obj (Split query ".") = (v, true, None) →
  Unstructured.Resolve query obj = {[query := format_v v]}.
Proof. unfold Unstructured.Resolve. by intros ->. Qed.

Lemma unstructured_resolve_missing query obj v e :
  NestedFieldNoCopy obj (Split query ".") = (v, false, e) →
  Unstructured.Resolve query obj = unresolved query.
Proof. unfold Unstructured.Resolve. by intros ->. Qed.

(** The path resolver only ever binds the query itself. *)
Lemma unstructured_resolve_singleton query obj :
  ∃ v, Unstructured.Resolve query obj = {[query := v]}.
Proof.
  unfold Unstructured.Resolve. destruct (NestedFieldNoCopy _ _) as [[v found] err].
  destruct found, err; simpl; eauto.
Qed.

Lemma foldl_primitives_lookup m (acc : gmap string string) k :
  NoDup m.*1 →
  foldl (λ m '(k, v), if Cel.is_primitive v then <[k := format_v v]> m else m) acc m !! k =
  match map_get k m with
  | Some v => if Cel.is_primitive v then Some (format_v v) else acc !! k
  | None => acc !! k
  end.
Proof.
  revert acc. induction m as [|[k' v] m IH]; intros acc; simpl; [done|].
  intros [Hnin Hnd]%NoDup_cons. rewrite IH by done.
  case_decide as Hk.
  - subst. apply map_get_None in Hnin. rewrite Hnin.
    destruct (Cel.is_primitive v); [apply lookup_insert_eq|done].
  - destruct (map_get k m) as [v'|], (Cel.is_primitive v); try done;
      rewrite lookup_insert_ne by done; done.
Qed.

(** The map keeps exactly the entries whose value is one of the five types of
    the switch. *)
Lemma resolveMap_lookup out m k :
  val_Value out = Map m → NoDup m.*1 →
  ∃ r, Cel.resolveMap out = Some r ∧
    r !! k = (v ← map_get k m; if Cel.is_primitive v then Some (format_v v) else None).
Proof.
  intros Hv Hnd. unfold Cel.resolveMap. rewrite Hv. eexists. split; [done|].
  rewrite foldl_primitives_lookup by done.
  by destruct (map_get k m).
Qed.

Lemma foldl_list_lookup l (acc : gmap string string) n j :
  (∀ i, n <= i → acc !! Itoa (Z.of_nat i) = None) → n <= j →
  foldl (λ m '(i, v),
      if Cel.is_primitive v then <[Itoa (Z.of_nat i) := format_v v]> m else m)
    acc (imap (λ i v, (n + i, v)) l) !! Itoa (Z.of_nat j) =
  (v ← l !! (j - n); if Cel.is_primitive v then Some (format_v v) else None).
Proof.
  revert acc n. induction l as [|v l IH]; intros acc n Hacc Hj; simpl; [by apply Hacc|].
  rewrite Nat.add_0_r.
  rewrite (imap_ext _ (λ i v, (S n + i, v))) by (intros; simpl; f_equal; lia).
  assert (∀ i, n ≠ i → Itoa (Z.of_nat n) ≠ Itoa (Z.of_nat i)) as Hinj.
  { intros i Hi Heq. apply Itoa_inj in Heq; lia. }
  destruct (decide (n = j)) as [<-|Hne].
  - rewrite Nat.sub_diag. clear IH.
    assert (∀ k l (acc' : gmap string string), n < k →
      foldl (λ m '(i, v),
          if Cel.is_primitive v then <[Itoa (Z.of_nat i) := format_v v]> m else m)
        acc' (imap (λ i v, (k + i, v)) l) !! Itoa (Z.of_nat n) = acc' !! Itoa (Z.of_nat n))
      as Hframe.
    { clear - Hinj. intros k l. revert k. induction l as [|v l IH]; intros k acc' Hk; [done|].
      simpl. rewrite (imap_ext _ (λ i v, (S k + i, v))) by (intros; simpl; f_equal; lia).
      rewrite IH, Nat.add_0_r by lia. destruct (Cel.is_primitive v); [|done].
      rewrite lookup_insert_ne; [done|]. apply not_eq_sym, Hinj. lia. }
    rewrite Hframe by lia. simpl. destruct (Cel.is_primitive v); [apply lookup_insert_eq|].
    by apply Hacc.
  - rewrite IH; [|..]; [by replace (j - n) with (S (j - S n)) by lia| |lia].
    intros i Hi. destruct (Cel.is_primitive v); [|apply Hacc; lia].
    rewrite lookup_insert_ne; [apply Hacc; lia|]. apply Hinj. lia.
Qed.

Lemma foldl_list_keys l (acc : gmap string string) k :
  (∀ x, acc !! k = Some x → ∃ j, k = Itoa (Z.of_nat j)) →
  ∀ x, foldl (λ m '(i, v),
      if Cel.is_primitive v then <[Itoa (Z.of_nat i) := format_v v]> m else m) acc l !! k = Some x →
    ∃ j, k = Itoa (Z.of_nat j).
Proof.
  revert acc. induction l as [|[i v] l IH]; intros acc Hacc x; simpl; [apply Hacc|].
  apply IH. intros y. destruct (Cel.is_primitive v); [|apply Hacc].
  destruct (decide (k = Itoa (Z.of_nat i))) as [->|Hk]; [by exists i|].
  rewrite lookup_insert_ne by done. apply Hacc.
Qed.

(** The list keeps, under its index, every element of the five types, and
    nothing else. *)
Lemma resolveList_lookup out l k x :
  val_Value out = Slice l →
  ∃ r, Cel.resolveList out = Some r ∧
    (r !! k = Some x ↔
     ∃ j v, k = Itoa (Z.of_nat j) ∧ l !! j = Some v ∧ Cel.is_primitive v = true ∧ x = format_v v).
Proof.
  intros Hv. unfold Cel.resolveList. rewrite Hv. eexists. split; [done|].
  assert (∀ j, foldl (λ m '(i, v),
      if Cel.is_primitive v then <[Itoa (Z.of_nat i) := format_v v]> m else m)
      (∅ : gmap string string) (imap pair l) !! Itoa (Z.of_nat j) =
    (v ← l !! j; if Cel.is_primitive v then Some (format_v v) else None)) as Hat.
  { intros j. rewrite (imap_ext _ (λ i v, (0 + i, v))) by done.
    rewrite foldl_list_lookup; [by rewrite Nat.sub_0_r|intros; apply lookup_empty|lia]. }
  split.
  - intros Hx. destruct (λ Hacc, foldl_list_keys (imap pair l) ∅ k Hacc x Hx) as [j ->].
    { intros y. by rewrite lookup_empty. }
    rewrite Hat in Hx. destruct (l !! j) as [v|] eqn:Hj; [|done]. simpl in Hx.
    destruct (Cel.is_primitive v) eqn:Hp; [|done]. injection Hx as <-. by exists j, v.
  - intros (j & v & -> & Hj & Hp & ->). rewrite Hat, Hj. simpl. by rewrite Hp.
Qed.

(** ** Properties *)

(** What a path of fields leads to: nothing when a field is missing or is
    looked up in a value that is not a map. *)
Fixpoint follow (v : any) (fields : list string) : option any :=
  match fields with
  | [] => Some v
  | field :: fields =>
    match v with
    | Map m => v ← map_get field m; follow v fields
    | _ => None
    end
  end.

Lemma nested_from_follow path v fields :
  match follow v fields with
  | Some w => nested_from path v fields = (w, true, None)
  | None => ∃ w e, nested_from path v fields = (w, false, e)
  end.
Proof.
  revert path v. induction fields as [|f fields IH]; intros path v; simpl; [done|].
  destruct v as [| | | | | | | | |m|]; try by eexists _, _.
  destruct (map_get f m) as [v'|]; simpl; [apply IH|by eexists _, _].
Qed.

(** The path resolver is total, and a query that joins field names with
    dots resolves to the one label [query: value], the value printed with
    [%v], when the fields lead to a value of the object, and to
    [query: query] when they do not (a missing field, or a field of something
    that is not a map). *)
Lemma unstructured_resolve_path obj fields :
  fields ≠ [] → Forall (λ f, Count f "." = 0) fields →
  Unstructured.Resolve (Join fields ".") obj =
  {[Join fields "." :=
      match follow (Map obj) fields with
      | Some v => format_v v
      | None => Join fields "."
      end]}.
Proof.
  intros Hne Hdots. unfold Unstructured.Resolve, NestedFieldNoCopy.
  rewrite Split_Join by done. pose proof (nested_from_follow [] (Map obj) fields) as Hf.
  destruct (follow _ _) as [v|]; [by rewrite Hf|]. by destruct Hf as (w & e & ->).
Qed.

Section cel_properties.
Context `{!CEL}.

(** The evaluation of a query comes to a value. *)
Definition evaluates (query : string) (obj : object) (out : ref_Val) : Prop :=
  ∃ env ast program,
    cel_NewEnv = Ok env ∧ cel_Parse env query = Ok ast ∧
    cel_Program env ast Cel.costLimit Cel.CallCost = Ok program ∧
    cel_Eval program [("o", Map obj)] = Ok out.

(** C38: The CEL resolver, on a query that evaluates: a scalar result is the one
    label [query: value]; a map or a list gives one label per entry whose
    dynamic type is string, int, uint, float64 or bool, under its key or its
    index, and no label for an entry of any other type ([int64], the type of
    the integers of a decoded JSON object, among them), nor any other label; a
    map or a list whose native value has another Go type is the query as its
    own value; and a result of any other type (null, bytes, a timestamp) gives
    no label at all, although the interface of resolvers asks for one pair for
    each value that is not composite. *)
Theorem cel_resolve_evaluates query obj out :
  evaluates query obj out →
  match val_Type out, val_Value out with
  | (BoolType | DoubleType | IntType | StringType | UintType), v =>
    Cel.Resolve query obj = {[query := format_v v]}
  | MapType, Map m =>
    NoDup m.*1 → ∀ k, Cel.Resolve query obj !! k =
      (v ← map_get k m; if Cel.is_primitive v then Some (format_v v) else None)
  | ListType, Slice l =>
    ∀ k x, Cel.Resolve query obj !! k = Some x ↔
      ∃ j v, k = Itoa (Z.of_nat j) ∧ l !! j = Some v ∧ Cel.is_primitive v = true ∧ x = format_v v
  | (MapType | ListType), _ => Cel.Resolve query obj = unresolved query
  | OtherType _, _ => Cel.Resolve query obj = ∅
  end.
Proof.
  intros (env & ast & program & Henv & Hast & Hprog & Heval).
  assert (Cel.Resolve query obj =
    match (match val_Type out with
           | BoolType | DoubleType | IntType | StringType | UintType =>
             Some {[query := format_v (val_Value out)]}
           | MapType => Cel.resolveMap out
           | ListType => Cel.resolveList out
           | OtherType _ => Some ∅
           end) with Some m => m | None => unresolved query end) as ->.
  { unfold Cel.Resolve. by rewrite Henv, Hast, Hprog, Heval. }
  destruct (val_Type out); try done; destruct (val_Value out) as [| | | | | | | |l|m|] eqn:Hv;
    try (unfold Cel.resolveMap, Cel.resolveList; by rewrite Hv).
  - intros Hnd k. by destruct (resolveMap_lookup out m k Hv Hnd) as (r & -> & Hr).
  - intros k x. by destruct (resolveList_lookup out l k x Hv) as (r & -> & Hr).
Qed.

(** A query that does not evaluate, because the environment, the parse, the
    program or the evaluation fails, is its own value, as for the path
    resolver. *)
Lemma cel_resolve_fails query obj :
  (¬ ∃ out, evaluates query obj out) → Cel.Resolve query obj = unresolved query.
Proof.
  intros Hno. unfold Cel.Resolve, unresolved.
  destruct cel_NewEnv as [env|] eqn:Henv; [|done].
  destruct (cel_Parse env query) as [ast|] eqn:Hast; [|done].
  destruct (cel_Program _ _ _ _) as [program|] eqn:Hprog; [|done].
  destruct (cel_Eval _ _) as [out|] eqn:Heval; [|done].
  destruct Hno. exists out. by exists env, ast, program.
Qed.
End cel_properties.

(** ** Witnesses *)

Section witnesses.
Import PathCEL.

Definition sample : object :=
  [("spec", Map [("replicas", Int64 3); ("paused", Bool false); ("strategy", Str "Recreate");
                ("selector", Nil); ("args", Slice [Str "run"])])].

Lemma unstructured_resolve_path_witness :
  Unstructured.Resolve (Join ["spec"; "replicas"] ".") sample = {["spec.replicas" := "3"]}.
Proof.
  apply (unstructured_resolve_path sample ["spec"; "replicas"]); [discriminate|].
  repeat constructor.
Defined.

(** The integer of the map is lost, though alone it resolves. *)
Lemma cel_resolve_evaluates_witness :
  Cel.Resolve "o.spec" sample !! "replicas" = None ∧
  Cel.Resolve "o.spec" sample !! "paused" = Some "false" ∧
  Cel.Resolve "o.spec.replicas" sample = {["o.spec.replicas" := "3"]} ∧
  Cel.Resolve "o.spec.selector" sample = ∅ ∧
  (∀ x, Cel.Resolve "o.spec.args" sample !! "0" = Some x ↔ x = "run").
Proof.
  set (spec := [("replicas", Int64 3); ("paused", Bool false); ("strategy", Str "Recreate");
                ("selector", Nil); ("args", Slice [Str "run"])]).
  assert (evaluates "o.spec" sample (RefVal MapType (Map spec))) as Hmap.
  { exists tt, ["spec"], ["spec"]. repeat split. }
  assert (evaluates "o.spec.replicas" sample (RefVal IntType (Int64 3))) as Hint.
  { exists tt, ["spec"; "replicas"], ["spec"; "replicas"]. repeat split. }
  assert (evaluates "o.spec.selector" sample (RefVal (OtherType "null_type") Nil)) as Hnull.
  { exists tt, ["spec"; "selector"], ["spec"; "selector"]. repeat split. }
  assert (evaluates "o.spec.args" sample (RefVal ListType (Slice [Str "run"]))) as Hlist.
  { exists tt, ["spec"; "args"], ["spec"; "args"]. repeat split. }
  assert (NoDup spec.*1) as Hnd by (apply (bool_decide_unpack _); vm_compute; exact I).
  split; [|split; [|split; [|split]]].
  - exact (cel_resolve_evaluates _ _ _ Hmap Hnd "replicas").
  - exact (cel_resolve_evaluates _ _ _ Hmap Hnd "paused").
  - exact (cel_resolve_evaluates _ _ _ Hint).
  - exact (cel_resolve_evaluates _ _ _ Hnull).
  - intros x. rewrite (cel_resolve_evaluates _ _ _ Hlist "0" x). split.
    + intros (j & v & Hk & Hj & _ & ->). apply (Itoa_inj 0) in Hk; [|lia..].
      assert (j = 0) as -> by lia. by injection Hj as <-.
    + intros ->. by exists 0, (Str "run").
Defined.

Lemma cel_resolve_fails_witness : Cel.Resolve "spec" sample = unresolved "spec".
Proof.
  apply cel_resolve_fails. intros (out & env & ast & program & _ & Hast & _).
  discriminate Hast.
Defined.
End witnesses.
