(* ===== verification/Metric.v ===== *)
(** * Metrics ([internal/metric.go])

    [writeMetricTo] writes one sample in the text exposition format: the
    sorted labels followed by the group, version and kind of the object, with
    escaped values, then the value printed with [%f].  The contract is a
    parser of the format, [parse_sample], which reads back what was written. *)
From S2P Require Import Prelude GoStrings Strconv GoSort Values.

(** ** Definitions *)

Definition dquote : ascii := "034"%char.
Definition newline : ascii := "010"%char.
Definition backslash : ascii := "\"%char.

(** [ResolverType] is a string type; see [Family] for its constants. *)
Record MetricType : Type := {
  metric_LabelKeys : list string;
  metric_LabelValues : list string;
  metric_Value : string;
  metric_Resolver : string;
}.

Inductive metric_error : Type :=
| LabelLengthMismatch (keys values : list string)
| ParseValueError (value : string) (err : num_error).

(** [labelset{keys[i], values[i]}] for the indices of [keys]. *)
Definition label_at (keys values : list string) (i : nat) : outcome (string * string) :=
  k ← index keys i; v ← index values i; mret (k, v).

Definition zip_labels (keys values : list string) : outcome (list (string * string)) :=
  mapM (label_at keys values) (seq 0 (length keys)).

(** The table of [strings.NewReplacer]. *)
Definition escape_table (c : ascii) : option string :=
  if decide (c = backslash) then Some (String backslash (char backslash))
  else if decide (c = newline) then Some (String backslash "n")
  else if decide (c = dquote) then Some (String backslash (char dquote))
  else None.

Definition escape (s : string) : string := Replace escape_table s.

(** The loop over the labels, with [separator] starting as given. *)
Fixpoint write_labels (separator : ascii) (l : list (string * string)) : string :=
  match l with
  | [] => ""
  | (k, v) :: l =>
    String separator (k +:+ "=" +:+ char dquote +:+ escape v +:+ char dquote
                      +:+ write_labels "," l)
  end.

Section metric.
Context `{!SortSlice}.

(** [sortLabelset]; values beyond the keys stay where they are. *)
Definition sortLabelset (keys values : list string) : outcome (list string * list string) :=
  labelsets ← zip_labels keys values;
  let sorted := sort_slice (λ a b, shortlex a.1 b.1) labelsets in
  mret (sorted.*1, sorted.*2 ++ drop (length sorted) values).

(** [writeMetricTo]: the contents of the builder after the call, and its
    error.  A [strings.Builder] never fails a write. *)
Definition writeMetricTo (writer g v k resolvedValue : string)
    (resolvedLabelKeys resolvedLabelValues : list string)
    : outcome (string * option metric_error) :=
  if negb (length resolvedLabelKeys =? length resolvedLabelValues) then
    mret (writer, Some (LabelLengthMismatch resolvedLabelKeys resolvedLabelValues))
  else
    '(keys, values) ← sortLabelset resolvedLabelKeys resolvedLabelValues;
    let keys := keys ++ ["group"; "version"; "kind"] in
    let values := values ++ [g; v; k] in
    writer ← (if 0 <? length keys then
                labels ← zip_labels keys values;
                mret (writer +:+ write_labels "{" labels +:+ "}")
              else mret writer);
    let writer := writer +:+ " " in
    match ParseFloat resolvedValue with
    | Err e => mret (writer, Some (ParseValueError resolvedValue e))
    | Ok f => mret (writer +:+ FormatF6 f +:+ char newline, None)
    end.
End metric.

(** ** The format: a parser of one sample line *)

(** What precedes the first [c] and what follows it. *)
Fixpoint cut (c : ascii) (s : string) : option (string * string) :=
  match s with
  | EmptyString => None
  | String d s =>
    if decide (d = c) then Some (EmptyString, s)
    else match cut c s with
         | Some (p, r) => Some (String d p, r)
         | None => None
         end
  end.

(** A quoted label value after its opening quote: the value and the rest. *)
Fixpoint unquote (s : string) : option (string * string) :=
  match s with
  | EmptyString => None
  | String c s =>
    if decide (c = dquote) then Some (EmptyString, s)
    else if decide (c = backslash) then
      match s with
      | EmptyString => None
      | String d s =>
        let c := if decide (d = "n"%char) then newline else d in
        match unquote s with
        | Some (v, r) => Some (String c v, r)
        | None => None
        end
      end
    else if decide (c = newline) then None
    else match unquote s with
         | Some (v, r) => Some (String c v, r)
         | None => None
         end
  end.

Fixpoint parse_labels (fuel : nat) (s : string) : option (list (string * string) * string) :=
  match fuel with
  | O => None
  | S fuel =>
    '(k, s) ← cut "=" s;
    match s with
    | String q s =>
      if decide (q = dquote) then
        '(v, s) ← unquote s;
        match s with
        | String "," s => '(l, s) ← parse_labels fuel s; Some ((k, v) :: l, s)
        | String "}" s => Some ([(k, v)], s)
        | _ => None
        end
      else None
    | EmptyString => None
    end
  end.

(** The name, the labels and the value of a line. *)
Definition parse_sample (s : string) : option (string * list (string * string) * string) :=
  '(name, s) ← cut "{" s;
  '(labels, s) ← parse_labels (Strings.String.length s) s;
  match s with
  | String " " s =>
    '(value, s) ← cut newline s;
    match s with
    | EmptyString => Some (name, labels, value)
    | String _ _ => None
    end
  | _ => None
  end.

(** ** Lemmas: zipping and sorting *)

Lemma label_at_middle pk pv k v keys values :
  length pk = length pv →
  label_at (pk ++ k :: keys) (pv ++ v :: values) (length pk) = Done (k, v).
Proof.
  intros Hp. unfold label_at, index.
  by rewrite !list_lookup_middle by done.
Qed.

Lemma zip_labels_from pk pv keys values :
  length pk = length pv → length keys <= length values →
  mapM (label_at (pk ++ keys) (pv ++ values))
    (seq (length pk) (length keys)) = Done (zip keys values).
Proof.
  revert pk pv values. induction keys as [|k keys IH]; intros pk pv values Hp Hl; [done|].
  destruct values as [|v values]; simpl in Hl; [lia|]. simpl.
  rewrite label_at_middle by done. simpl.
  specialize (IH (pk ++ [k]) (pv ++ [v]) values).
  rewrite !length_app, <- !app_assoc, Nat.add_1_r in IH. simpl in IH.
  rewrite IH by lia. done.
Qed.

Lemma zip_labels_Done keys values :
  length keys <= length values → zip_labels keys values = Done (zip keys values).
Proof. by apply (zip_labels_from [] []). Qed.

Lemma fst_zip_eq {A B} (l : list A) (k : list B) : length l = length k → (zip l k).*1 = l.
Proof. intros H. apply fst_zip. lia. Qed.

Lemma snd_zip_eq {A B} (l : list A) (k : list B) : length l = length k → (zip l k).*2 = k.
Proof. intros H. apply snd_zip. lia. Qed.

Section sort_lemmas.
Context `{!SortSlice}.

(** The labels as they are written: sorted by [shortlex] on the keys. *)
Definition sorted_labels (keys values : list string) : list (string * string) :=
  sort_slice (λ a b, shortlex a.1 b.1) (zip keys values).

Lemma sortLabelset_Done keys values :
  length keys = length values →
  sortLabelset keys values =
  Done ((sorted_labels keys values).*1, (sorted_labels keys values).*2).
Proof.
  intros Hl. unfold sortLabelset. rewrite zip_labels_Done by lia. simpl.
  fold (sorted_labels keys values).
  assert (length (sorted_labels keys values) = length values) as ->.
  { unfold sorted_labels. rewrite (Permutation_length (sort_slice_perm _ _)).
    rewrite length_zip. lia. }
  by rewrite drop_all, app_nil_r.
Qed.

Lemma sorted_labels_perm keys values : sorted_labels keys values ≡ₚ zip keys values.
Proof. apply sort_slice_perm. Qed.

(** Pairs are moved together: which value goes with which key is preserved. *)
Lemma sorted_labels_keys_perm keys values :
  length keys = length values → (sorted_labels keys values).*1 ≡ₚ keys.
Proof.
  intros Hl. rewrite sorted_labels_perm. by rewrite fst_zip_eq.
Qed.
End sort_lemmas.

(** ** Lemmas: reading back what was written *)

Definition lacks (c : ascii) (s : string) : bool :=
  string_forallb (λ d, negb (bool_decide (d = c))) s.

Lemma cut_app c s r : lacks c s = true → cut c (s +:+ String c r) = Some (s, r).
Proof.
  unfold lacks. induction s as [|d s IH]; rewrite ?append_cons, ?append_nil_l; simpl.
  - intros _. by rewrite decide_True.
  - intros [Hd Hs]%andb_true_iff. apply negb_true_iff, bool_decide_eq_false in Hd.
    rewrite decide_False by done. by rewrite IH.
Qed.

Lemma escape_cons c s :
  escape (String c s) = default (char c) (escape_table c) +:+ escape s.
Proof. done. Qed.

(** Unquoting undoes escaping. *)
Lemma unquote_escape v r : unquote (escape v +:+ String dquote r) = Some (v, r).
Proof.
  induction v as [|c v IH]; [done|]. rewrite escape_cons.
  unfold escape_table. repeat case_decide; subst; simpl; unfold char;
    rewrite ?append_cons, ?append_nil_l; simpl.
  - by rewrite IH.
  - by rewrite IH.
  - by rewrite IH.
  - rewrite !decide_False by done. by rewrite IH.
Qed.

(** An escaped value stays on its line. *)
Lemma escape_one_line v : lacks newline (escape v) = true.
Proof.
  unfold lacks. induction v as [|c v IH]; [done|].
  rewrite escape_cons, string_forallb_app, IH, andb_true_r. unfold escape_table.
  repeat case_decide; subst; try done. simpl.
  by rewrite bool_decide_eq_false_2.
Qed.

Lemma escape_inj v w : escape v = escape w → v = w.
Proof.
  intros H. pose proof (unquote_escape v "") as Hv.
  rewrite H, unquote_escape in Hv. congruence.
Qed.

Lemma parse_write_labels l r fuel sep :
  Forall (λ kv : string * string, lacks "=" kv.1 = true) l → l ≠ [] → length l <= fuel →
  ∃ s, write_labels sep l +:+ String "}" r = String sep s ∧
       parse_labels fuel s = Some (l, r).
Proof.
  revert fuel sep. induction l as [|[k v] l IH]; intros fuel sep Hl Hne Hf; [done|].
  apply Forall_cons in Hl as [Hk Hl]. destruct fuel as [|fuel]; simpl in Hf; [lia|].
  simpl. rewrite append_cons. eexists. split; [done|].
  unfold char. rewrite !append_assoc, !append_cons, !append_nil_l. simpl.
  rewrite cut_app by done. simpl.
  rewrite unquote_escape. simpl.
  destruct l as [|kv l]; [done|].
  destruct (IH fuel ","%char Hl ltac:(done) ltac:(simpl in *; lia)) as (s & Hs & Hp).
  rewrite Hs. by rewrite Hp.
Qed.

Lemma write_labels_length l sep : length l <= Strings.String.length (write_labels sep l).
Proof.
  revert sep. induction l as [|[k v] l IH]; intros sep; simpl; [lia|].
  rewrite !length_append. specialize (IH ","%char). lia.
Qed.

(** The line that carries [labels] and [value]. *)
Definition sample_line (name : string) (labels : list (string * string)) (value : string)
    : string :=
  name +:+ write_labels "{" labels +:+ "}" +:+ " " +:+ value +:+ char newline.

Lemma parse_sample_line name labels value :
  lacks "{" name = true → lacks newline value = true →
  Forall (λ kv : string * string, lacks "=" kv.1 = true) labels → labels ≠ [] →
  parse_sample (sample_line name labels value) = Some (name, labels, value).
Proof.
  intros Hn Hv Hl Hne. unfold sample_line, parse_sample.
  set (r := " " +:+ value +:+ char newline).
  change ("}" +:+ r) with (String "}" r).
  destruct (write_labels "{" labels) as [|c w] eqn:Hw.
  { destruct labels as [|[k v] labels]; [done|]. by inversion Hw. }
  assert (c = "{"%char) as ->.
  { destruct labels as [|[k v] labels]; [done|]. by inversion Hw. }
  rewrite append_cons, cut_app by done. simpl.
  pose proof (write_labels_length labels "{") as Hlen. rewrite Hw in Hlen. simpl in Hlen.
  destruct (parse_write_labels labels r (Strings.String.length (w +:+ String "}" r)) "{"
              Hl Hne) as (s & Hs & Hp).
  { rewrite length_append. simpl. lia. }
  rewrite Hw, append_cons in Hs. injection Hs as Hs. rewrite Hs in Hp |- *.
  rewrite Hp. simpl. change (char newline) with (String newline "").
  by rewrite append_nil_l, cut_app by done.
Qed.

(** ** Lemmas: [writeMetricTo] *)

Section write_lemmas.
Context `{!SortSlice}.

(** Every label that a line carries: the sorted ones, then group, version and
    kind. *)
Definition written_labels (g v k : string) (keys values : list string)
    : list (string * string) :=
  sorted_labels keys values ++ [("group", g); ("version", v); ("kind", k)].

Lemma written_labels_zip g v k keys values :
  zip ((sorted_labels keys values).*1 ++ ["group"; "version"; "kind"])
      ((sorted_labels keys values).*2 ++ [g; v; k])
  = written_labels g v k keys values.
Proof.
  unfold written_labels. rewrite zip_with_app by by rewrite !length_fmap.
  by rewrite zip_fst_snd.
Qed.

(** The whole behaviour: the length check, the labels, then the value or the
    error of its parse after a partial line. *)
Lemma writeMetricTo_spec w g v k val keys values :
  writeMetricTo w g v k val keys values =
  Done
    (if decide (length keys = length values) then
       let line := write_labels "{" (written_labels g v k keys values) +:+ "}" +:+ " " in
       match ParseFloat val with
       | Ok f => (w +:+ line +:+ FormatF6 f +:+ char newline, None)
       | Err e => (w +:+ line, Some (ParseValueError val e))
       end
     else (w, Some (LabelLengthMismatch keys values))).
Proof.
  unfold writeMetricTo. case_decide as Hl.
  - rewrite (proj2 (Nat.eqb_eq _ _) Hl). simpl.
    rewrite sortLabelset_Done by done. simpl.
    rewrite length_app. simpl. rewrite Nat.add_comm. simpl.
    rewrite zip_labels_Done by (rewrite !length_app, !length_fmap; simpl; lia).
    simpl. rewrite written_labels_zip.
    destruct (ParseFloat val); by rewrite !append_assoc.
  - rewrite (proj2 (Nat.eqb_neq _ _) Hl). done.
Qed.

Lemma written_labels_lacks_eq g v k keys values :
  length keys = length values →
  Forall (λ key, lacks "=" key = true) keys →
  Forall (λ kv : string * string, lacks "=" kv.1 = true) (written_labels g v k keys values).
Proof.
  intros Hl Hk. unfold written_labels. apply Forall_app. split; [|by repeat constructor].
  rewrite sorted_labels_perm.
  apply (Forall_fmap fst (λ key, lacks "=" key = true)). by rewrite fst_zip_eq.
Qed.

Lemma lower_word_lacks c s :
  is_lower_word c = false → string_forallb is_lower_word s = true → lacks c s = true.
Proof.
  intros Hc. apply string_forallb_impl. intros d Hd.
  apply negb_true_iff, bool_decide_eq_false. intros ->. congruence.
Qed.

Lemma FormatF6_no_newline f : lacks newline (FormatF6 f) = true.
Proof.
  apply (string_forallb_impl value_char); [|apply FormatF6_value_chars].
  intros c Hc. apply negb_true_iff, bool_decide_eq_false. by intros ->.
Qed.

End write_lemmas.

(** With distinct keys, the written labels depend only on the set of labels,
    whatever the implementation of the sort. *)
Lemma written_labels_perm (S1 S2 : SortSlice) g v k keys values keys' values' :
  length keys = length values → NoDup keys →
  zip keys values ≡ₚ zip keys' values' →
  @written_labels S1 g v k keys values = @written_labels S2 g v k keys' values'.
Proof.
  intros Hl Hnd Hp. unfold written_labels, sorted_labels. f_equal.
  apply (sort_by_key_perm _ _ fst); [|done]. by rewrite fst_zip_eq.
Qed.

(** ** Properties *)

Section properties.
Context `{!SortSlice}.

(** C7: A sample that [writeMetricTo] writes without an error reads back, under
    the grammar of the exposition format, as the metric name, the given labels
    (each value with its key, escaping undone), sorted by length and then by
    name, followed by the group, version and kind of the object, and the [%f]
    rendering of the parsed value.  It holds for arbitrary label values,
    quotes, backslashes and newlines included. *)
Theorem writeMetricTo_roundtrip name g v k value keys values x :
  length keys = length values →
  lacks "{" name = true →
  Forall (λ key, lacks "=" key = true) keys →
  ParseFloat value = Ok x →
  ∃ line labels,
    writeMetricTo name g v k value keys values = Done (line, None) ∧
    parse_sample line =
      Some (name, labels ++ [("group", g); ("version", v); ("kind", k)], FormatF6 x) ∧
    labels ≡ₚ zip keys values ∧
    StronglySorted (λ a b, shortlex b.1 a.1 = false) labels.
Proof.
  intros Hl Hname Hkeys Hx.
  exists (sample_line name (written_labels g v k keys values) (FormatF6 x)),
    (sorted_labels keys values).
  split; [|split; [|split]].
  - rewrite writeMetricTo_spec, decide_True, Hx by done. simpl.
    unfold sample_line. by rewrite !append_assoc.
  - apply parse_sample_line; [done|apply FormatF6_no_newline| |].
    + by apply written_labels_lacks_eq.
    + unfold written_labels. by destruct (sorted_labels keys values).
  - apply sorted_labels_perm.
  - apply (sort_by_key_sorted fst).
Qed.

(** An integer value of at most 53 bits is exposed exactly: the value field
    of the line is the integer followed by six zero decimals. *)
Lemma writeMetricTo_integer w g v k n keys values :
  (Z.abs n <= 2 ^ 53)%Z →
  length keys = length values →
  writeMetricTo w g v k (Itoa n) keys values =
  Done (w +:+ write_labels "{" (written_labels g v k keys values) +:+ "} "
          +:+ Itoa n +:+ ".000000" +:+ char newline, None).
Proof.
  intros Hn Hl. destruct (ParseFloat_Itoa n Hn) as (f & Hf & Hp).
  rewrite writeMetricTo_spec, decide_True, Hf, Hp by done. simpl.
  by rewrite !append_assoc.
Qed.

(** [writeMetricTo] never panics, and its error is decided by its
    arguments: a mismatch of the numbers of keys and values is reported before
    anything is written; a value that is not a number is reported after the
    labels are written; there is no other error. *)
Lemma writeMetricTo_errors w g v k value keys values :
  ∃ text err,
    writeMetricTo w g v k value keys values = Done (w +:+ text, err) ∧
    match err with
    | None => length keys = length values ∧ ∃ x, ParseFloat value = Ok x
    | Some (LabelLengthMismatch ks vs) =>
      text = "" ∧ ks = keys ∧ vs = values ∧ length keys ≠ length values
    | Some (ParseValueError val e) =>
      val = value ∧ ParseFloat value = Err e ∧ length keys = length values ∧
      text = write_labels "{" (written_labels g v k keys values) +:+ "} "
    end.
Proof.
  rewrite writeMetricTo_spec. case_decide as Hl; simpl.
  - destruct (ParseFloat value) as [x|e] eqn:Hx.
    + eexists _, None. split; [done|eauto].
    + eexists _, (Some (ParseValueError value e)). by split_and!.
  - exists "", (Some (LabelLengthMismatch keys values)). by rewrite append_nil_r.
Qed.
End properties.

(** With distinct label keys, the output of [writeMetricTo] does not depend
    on the order in which the labels were resolved nor on the (unstable) sort
    that orders them. *)
Lemma writeMetricTo_order_independent (S1 S2 : SortSlice) w g v k value keys values
    keys' values' :
  length keys = length values → length keys' = length values' → NoDup keys →
  zip keys values ≡ₚ zip keys' values' →
  @writeMetricTo S1 w g v k value keys values = @writeMetricTo S2 w g v k value keys' values'.
Proof.
  intros Hl Hl' Hnd Hp. rewrite !writeMetricTo_spec, !decide_True by done.
  by rewrite (written_labels_perm S1 S2 g v k keys values keys' values').
Qed.

(** ** Witnesses *)

Definition tricky_value : string :=
  "a" +:+ char dquote +:+ char backslash +:+ char newline +:+ "}".

Lemma writeMetricTo_roundtrip_witness :
  ∃ line labels,
    writeMetricTo "kube_customresource_up" "g" "v1" "K" "0x10p0" ["node"; "id"]
      ["n1"; tricky_value] = Done (line, None) ∧
    parse_sample line =
      Some ("kube_customresource_up",
            labels ++ [("group", "g"); ("version", "v1"); ("kind", "K")],
            FormatF6 (Finite false 4503599627370496 (-48))) ∧
    labels ≡ₚ [("node", "n1"); ("id", tricky_value)] ∧
    StronglySorted (λ a b, shortlex b.1 a.1 = false) labels.
Proof.
  apply (writeMetricTo_roundtrip "kube_customresource_up" "g" "v1" "K" "0x10p0").
  all: repeat constructor.
Defined.

Lemma writeMetricTo_integer_witness :
  writeMetricTo "up" "g" "v1" "K" (Itoa (-9007199254740992)) ["a"] ["b"] =
  Done ("up" +:+ write_labels "{" (written_labels "g" "v1" "K" ["a"] ["b"]) +:+ "} "
          +:+ Itoa (-9007199254740992) +:+ ".000000" +:+ char newline, None).
Proof. apply writeMetricTo_integer; [vm_compute; discriminate|reflexivity]. Defined.

Lemma writeMetricTo_order_independent_witness :
  writeMetricTo "up" "g" "v1" "K" "1" ["a"; "b"] ["x"; "y"] =
  writeMetricTo "up" "g" "v1" "K" "1" ["b"; "a"] ["y"; "x"].
Proof.
  apply writeMetricTo_order_independent; [reflexivity..|by apply NoDup_ListNoDup; repeat constructor; set_solver|].
  simpl. apply Permutation_swap.
Defined.
