(* ===== verification/TextParse.v ===== *)
(** * The parser of the text format ([vendor/.../prometheus/common/expfmt])

    [TextParser] of [text_parse.go], which reads an exposition byte by byte
    into metric families.  Each of its state functions and readers is a
    function here: the byte just read ([p.currentByte]) and the rest of the
    buffer are arguments, the token is a result, and the families read so far
    are passed along.  The end of the buffer is an error, except at the start of
    a line; an error carries no line number.  Families of the type summary or
    histogram, which the program never writes, are not modelled: their type
    line ends the parse with [NotModelled].  The type of a family is compared in
    upper case for its ASCII letters only. *)
From S2P Require Import Prelude GoStrings Strconv Metric.

(** ** Families ([client_model]) *)

Inductive MetricTypeValue : Type := COUNTER | GAUGE | SUMMARY | UNTYPED | HISTOGRAM | GAUGE_HISTOGRAM.

(** [dto.MetricType_value]. *)
Definition MetricType_value (s : string) : option MetricTypeValue :=
  if decide (s = "COUNTER") then Some COUNTER
  else if decide (s = "GAUGE") then Some GAUGE
  else if decide (s = "SUMMARY") then Some SUMMARY
  else if decide (s = "UNTYPED") then Some UNTYPED
  else if decide (s = "HISTOGRAM") then Some HISTOGRAM
  else if decide (s = "GAUGE_HISTOGRAM") then Some GAUGE_HISTOGRAM
  else None.

(** The field of a [dto.Metric] that is set. *)
Inductive metric_value : Type :=
| Counter (value : float64)
| Gauge (value : float64)
| Untyped (value : float64).

Record Metric : Type := MkMetric {
  m_Label : list (string * string);
  m_Value : option metric_value;
  m_TimestampMs : option Z;
}.

Record MetricFamily : Type := MkFamily {
  mf_Name : string;
  mf_Help : option string;
  mf_Type : option MetricTypeValue;
  mf_Metric : list Metric;
}.

Abbreviation families := (gmap string MetricFamily).

(** ** Errors *)

Inductive parse_error : Type :=
| UnexpectedEnd
| InvalidNameInComment
| InvalidMetricName
| InvalidLabelName (metric : string)
| ReservedLabelName
| ExpectedEquals (found : ascii)
| DuplicateLabelNames (metric : string)
| ExpectedQuote (found : ascii)
| InvalidEscape (found : ascii)
| UnescapedNewline
| InvalidLabelValue (value : string)
| UnexpectedEndOfLabelValue (value : string)
| ExpectedFloat (found : string)
| ExpectedInteger (found : string)
| SpuriousString (found : string)
| SecondHelp (metric : string)
| SecondType (metric : string)
| UnknownType (found : string)
| NotModelled
| OutOfFuel.

#[export] Instance parse_ret : MRet (result parse_error) := λ A a, Ok a.
#[export] Instance parse_bind : MBind (result parse_error) := λ A B k m,
  match m with
  | Ok a => k a
  | Err e => Err e
  end.

(** ** Character classes *)

Definition isValidLabelNameStart (b : ascii) : bool :=
  in_range 97 122 b || in_range 65 90 b || (byte b =? 95)%N.

Definition isValidLabelNameContinuation (b : ascii) : bool :=
  isValidLabelNameStart b || in_range 48 57 b.

Definition isValidMetricNameStart (b : ascii) : bool :=
  isValidLabelNameStart b || (byte b =? 58)%N.

Definition isValidMetricNameContinuation (b : ascii) : bool :=
  isValidLabelNameContinuation b || (byte b =? 58)%N.

Definition isBlankOrTab (b : ascii) : bool := (byte b =? 32)%N || (byte b =? 9)%N.

(** ** Readers *)

(** [skipBlankTab]: the next byte that is not blank, and the rest. *)
Fixpoint skipBlankTab (s : string) : result parse_error (ascii * string) :=
  match s with
  | EmptyString => Err UnexpectedEnd
  | String b s => if isBlankOrTab b then skipBlankTab s else Ok (b, s)
  end.

Definition skipBlankTabIfCurrentBlankTab (b : ascii) (s : string)
    : result parse_error (ascii * string) :=
  if isBlankOrTab b then skipBlankTab s else Ok (b, s).

(** The bytes from the current one on that are in a class, then the first that
    is not, and the rest. *)
Fixpoint readTokenWhile (p : ascii → bool) (b : ascii) (s : string)
    : result parse_error (string * (ascii * string)) :=
  if p b then
    match s with
    | EmptyString => Err UnexpectedEnd
    | String b' s => '(token, r) ← readTokenWhile p b' s; mret (String b token, r)
    end
  else mret ("", (b, s)).

Definition readTokenUntilWhitespace : ascii → string → result parse_error (string * (ascii * string)) :=
  readTokenWhile (λ b, negb (isBlankOrTab b || bool_decide (b = newline))).

(** [readTokenUntilNewline]: the rest of the line; the newline is read. *)
Fixpoint readTokenUntilNewline (recognizeEscapeSequence escaped : bool) (b : ascii) (s : string)
    : result parse_error (string * string) :=
  let next (escaped : bool) (written : string) :=
    match s with
    | EmptyString => Err UnexpectedEnd
    | String b s =>
      '(token, r) ← readTokenUntilNewline recognizeEscapeSequence escaped b s;
      mret (written +:+ token, r)
    end in
  if recognizeEscapeSequence && escaped then
    if decide (b = backslash) then next false (char b)
    else if decide (b = "n"%char) then next false (char newline)
    else Err (InvalidEscape b)
  else if decide (b = newline) then mret ("", s)
  else if decide (b = backslash) then next true ""
  else next escaped (char b).

(** The loop of [readTokenAsMetricName] and [readTokenAsLabelName], once the
    first byte was found to start a name. *)
Fixpoint readName (continuation : ascii → bool) (b : ascii) (s : string)
    : result parse_error (string * (ascii * string)) :=
  match s with
  | EmptyString => Err UnexpectedEnd
  | String b' s =>
    if continuation b' then
      '(token, r) ← readName continuation b' s; mret (String b token, r)
    else mret (char b, (b', s))
  end.

Definition readTokenAsMetricName (b : ascii) (s : string)
    : result parse_error (string * (ascii * string)) :=
  if isValidMetricNameStart b then readName isValidMetricNameContinuation b s
  else mret ("", (b, s)).

Definition readTokenAsLabelName (b : ascii) (s : string)
    : result parse_error (string * (ascii * string)) :=
  if isValidLabelNameStart b then readName isValidLabelNameContinuation b s
  else mret ("", (b, s)).

(** [readTokenAsLabelValue]: the value, and what follows its closing quote. *)
Fixpoint readTokenAsLabelValue (escaped : bool) (s : string) : result parse_error (string * string) :=
  match s with
  | EmptyString => Err UnexpectedEnd
  | String b s =>
    let next (escaped : bool) (written : string) :=
      '(token, r) ← readTokenAsLabelValue escaped s; mret (written +:+ token, r) in
    if escaped then
      if decide (b = dquote ∨ b = backslash) then next false (char b)
      else if decide (b = "n"%char) then next false (char newline)
      else Err (InvalidEscape b)
    else if decide (b = dquote) then mret ("", s)
    else if decide (b = newline) then Err UnescapedNewline
    else if decide (b = backslash) then next true ""
    else next false (char b)
  end.

(** [parseFloat]. *)
Definition parseFloat (s : string) : result num_error float64 :=
  if string_forallb (λ b, negb (bool_decide (b ∈ ["p"; "P"; "_"]%char))) s then ParseFloat s
  else Err ErrSyntax.

(** [strconv.ParseInt(s, 10, 64)]. *)
Definition ParseInt (s : string) : option Z :=
  let digits := drop_sign s in
  let n := digits_value 0 digits in
  if bool_decide (digits = "") || negb (string_forallb is_digit digits) then None
  else if is_negative s then (if (2 ^ 63 <? n)%Z then None else Some (- n)%Z)
  else if (2 ^ 63 <=? n)%Z then None else Some n.

(** ** The families read so far *)

(** [setOrCreateCurrentMF]. *)
Definition setOrCreateCurrentMF (name : string) (mfs : families) : MetricFamily * families :=
  match mfs !! name with
  | Some mf => (mf, mfs)
  | None => let mf := MkFamily name None None [] in (mf, <[name := mf]> mfs)
  end.

Definition set_Help (help : string) (mf : MetricFamily) : MetricFamily :=
  MkFamily (mf_Name mf) (Some help) (mf_Type mf) (mf_Metric mf).

Definition set_Type (t : MetricTypeValue) (mf : MetricFamily) : MetricFamily :=
  MkFamily (mf_Name mf) (mf_Help mf) (Some t) (mf_Metric mf).

Definition add_Metric (m : Metric) (mf : MetricFamily) : MetricFamily :=
  MkFamily (mf_Name mf) (mf_Help mf) (mf_Type mf) (mf_Metric mf ++ [m]).

(** The value of a sample, in the field of its type; none for a type that the
    switch does not know. *)
Definition typed_value (t : MetricTypeValue) (value : float64) : option metric_value :=
  match t with
  | COUNTER => Some (Counter value)
  | GAUGE => Some (Gauge value)
  | UNTYPED => Some (Untyped value)
  | _ => None
  end.

(** ** Lines

    What follows the byte that starts a line: the families after it, and the
    rest of the buffer or the error. *)
Definition line_result : Type := families * result parse_error string.

Definition fail (e : parse_error) (mfs : families) : line_result := (mfs, Err e).

(** [readingHelp] and [readingType], at the first byte of the text. *)
Definition readingHelp (mf : MetricFamily) (mfs : families) (b : ascii) (s : string) : line_result :=
  match mf_Help mf with
  | Some _ => fail (SecondHelp (mf_Name mf)) mfs
  | None =>
    match readTokenUntilNewline true false b s with
    | Err e => fail e mfs
    | Ok (token, s) => (<[mf_Name mf := set_Help token mf]> mfs, Ok s)
    end
  end.

Definition readingType (mf : MetricFamily) (mfs : families) (b : ascii) (s : string) : line_result :=
  match mf_Type mf with
  | Some _ => fail (SecondType (mf_Name mf)) mfs
  | None =>
    match readTokenUntilNewline false false b s with
    | Err e => fail e mfs
    | Ok (token, s) =>
      match MetricType_value (ToUpper token) with
      | None => fail (UnknownType token) mfs
      | Some (SUMMARY | HISTOGRAM) => fail NotModelled mfs
      | Some t => (<[mf_Name mf := set_Type t mf]> mfs, Ok s)
      end
    end
  end.

(** [startComment]: the next byte is after the number sign. *)
Definition startComment (mfs : families) (s : string) : line_result :=
  match skipBlankTab s with
  | Err e => fail e mfs
  | Ok (b, s) =>
    if decide (b = newline) then (mfs, Ok s)
    else match readTokenUntilWhitespace b s with
    | Err e => fail e mfs
    | Ok (keyword, (b, s)) =>
      if decide (b = newline) then (mfs, Ok s)
      else if negb (bool_decide (keyword = "HELP") || bool_decide (keyword = "TYPE")) then
        match readTokenWhile (λ b, negb (bool_decide (b = newline))) b s with
        | Err e => fail e mfs
        | Ok (_, (_, s)) => (mfs, Ok s)
        end
      else match (skipBlankTab s ≫= λ '(b, s), readTokenAsMetricName b s) with
      | Err e => fail e mfs
      | Ok (name, (b, s)) =>
        if decide (b = newline) then (mfs, Ok s)
        else if negb (isBlankOrTab b) then fail InvalidNameInComment mfs
        else
          let '(mf, mfs) := setOrCreateCurrentMF name mfs in
          match skipBlankTab s with
          | Err e => fail e mfs
          | Ok (b, s) =>
            if decide (b = newline) then (mfs, Ok s)
            else if decide (keyword = "HELP") then readingHelp mf mfs b s
            else readingType mf mfs b s
          end
      end
    end
  end.

(** [startLabelName] and [startLabelValue], after the brace or a comma, with
    the labels read so far: all the labels, and the first byte of the value. *)
Fixpoint startLabelName (fuel : nat) (metric : string) (labels : list (string * string)) (s : string)
    : result parse_error (list (string * string) * (ascii * string)) :=
  match fuel with
  | O => Err OutOfFuel
  | S fuel =>
    '(b, s) ← skipBlankTab s;
    if decide (b = "}"%char) then r ← skipBlankTab s; mret (labels, r)
    else
      '(name, (b, s)) ← readTokenAsLabelName b s;
      if decide (name = "") then Err (InvalidLabelName metric)
      else if decide (name = "__name__") then Err ReservedLabelName
      else
        '(b, s) ← skipBlankTabIfCurrentBlankTab b s;
        if negb (bool_decide (b = "="%char)) then Err (ExpectedEquals b)
        else if negb (bool_decide (NoDup (labels.*1 ++ [name]))) then Err (DuplicateLabelNames metric)
        else
          '(b, s) ← skipBlankTab s;
          if negb (bool_decide (b = dquote)) then Err (ExpectedQuote b)
          else
            '(value, s) ← readTokenAsLabelValue false s;
            if negb (ValidString value) then Err (InvalidLabelValue value)
            else
              '(b, s) ← skipBlankTab s;
              let labels := labels ++ [(name, value)] in
              if decide (b = ","%char) then startLabelName fuel metric labels s
              else if decide (b = "}"%char) then r ← skipBlankTab s; mret (labels, r)
              else Err (UnexpectedEndOfLabelValue value)
  end.

(** [startTimestamp]. *)
Definition startTimestamp (s : string) : result parse_error (Z * string) :=
  '(b, s) ← skipBlankTab s;
  '(token, (b, s)) ← readTokenUntilWhitespace b s;
  match ParseInt token with
  | None => Err (ExpectedInteger token)
  | Some timestamp =>
    '(token, s) ← readTokenUntilNewline false false b s;
    if decide (token = "") then mret (timestamp, s) else Err (SpuriousString token)
  end.

(** [readingValue]: the metric is in its family before its value is read. *)
Definition readingValue (mf : MetricFamily) (mfs : families) (t : MetricTypeValue)
    (labels : list (string * string)) (b : ascii) (s : string) : line_result :=
  let with_metric value timestamp :=
    <[mf_Name mf := add_Metric (MkMetric labels value timestamp) mf]> mfs in
  match readTokenUntilWhitespace b s with
  | Err e => fail e (with_metric None None)
  | Ok (token, (b, s)) =>
    match parseFloat token with
    | Err _ => fail (ExpectedFloat token) (with_metric None None)
    | Ok value =>
      if decide (b = newline) then (with_metric (typed_value t value) None, Ok s)
      else match startTimestamp s with
      | Err e => fail e (with_metric (typed_value t value) None)
      | Ok (timestamp, s) => (with_metric (typed_value t value) (Some timestamp), Ok s)
      end
    end
  end.

(** [readingMetricName] and [readingLabels], at the first byte of the name. *)
Definition readingMetricName (mfs : families) (b : ascii) (s : string) : line_result :=
  match readTokenAsMetricName b s with
  | Err e => fail e mfs
  | Ok (name, (b, s)) =>
    if decide (name = "") then fail InvalidMetricName mfs
    else
      let '(mf, mfs) := setOrCreateCurrentMF name mfs in
      let t := default UNTYPED (mf_Type mf) in
      let mf := set_Type t mf in
      let mfs := <[mf_Name mf := mf]> mfs in
      match skipBlankTabIfCurrentBlankTab b s with
      | Err e => fail e mfs
      | Ok (b, s) =>
        if decide (b = "{"%char) then
          match startLabelName (S (Strings.String.length s)) name [] s with
          | Err e => fail e mfs
          | Ok (labels, (b, s)) => readingValue mf mfs t labels b s
          end
        else readingValue mf mfs t [] b s
      end
  end.

(** [startOfLine], at the first byte that is not blank. *)
Definition startOfLine (mfs : families) (b : ascii) (s : string) : line_result :=
  if decide (b = "#"%char) then startComment mfs s
  else if decide (b = newline) then (mfs, Ok s)
  else readingMetricName mfs b s.

(** The loop over the state functions, line by line. *)
Fixpoint parse_lines (fuel : nat) (mfs : families) (s : string) : families * option parse_error :=
  match fuel with
  | O => (mfs, Some OutOfFuel)
  | S fuel =>
    match skipBlankTab s with
    | Err _ => (mfs, None)
    | Ok (b, s) =>
      match startOfLine mfs b s with
      | (mfs, Ok s) => parse_lines fuel mfs s
      | (mfs, Err e) => (mfs, Some e)
      end
    end
  end.

(** [TextToMetricFamilies]: the families that have metrics, and the error. *)
Definition TextToMetricFamilies (s : string) : families * option parse_error :=
  let '(mfs, err) := parse_lines (S (Strings.String.length s)) ∅ s in
  (filter (λ nf, mf_Metric nf.2 ≠ []) mfs, err).

(** ** Lemmas: the parser ends

    Every reader leaves less of the buffer, and the fuel of the two loops is
    never used up. *)
Abbreviation len := Strings.String.length.

(** What a reader leaves is shorter than [n]; and no error is [OutOfFuel]. *)
Definition leaves {A} (m : result parse_error A) (rest : A → string) (n : nat) : Prop :=
  match m with
  | Ok a => len (rest a) < n
  | Err e => e ≠ OutOfFuel
  end.

Lemma leaves_bind {A B} (m : result parse_error A) (k : A → result parse_error B) f g n n' :
  leaves m f n → (∀ a, len (f a) < n → leaves (k a) g n') → leaves (m ≫= k) g n'.
Proof. unfold leaves at 1, mbind, parse_bind. destruct m as [a|e]; [auto|done]. Qed.

Lemma leaves_mono {A} (m : result parse_error A) f n n' : leaves m f n → n <= n' → leaves m f n'.
Proof. unfold leaves. destruct m; [lia|done]. Qed.

Ltac leaves_step H := eapply leaves_bind; [apply H|]; simpl; intros.

Lemma skipBlankTab_leaves s : leaves (skipBlankTab s) snd (len s).
Proof.
  induction s as [|b s IH]; [done|]. simpl. destruct (isBlankOrTab b); [|simpl; lia].
  eapply leaves_mono; [exact IH|lia].
Qed.

Lemma skipIfCurrent_leaves b s : leaves (skipBlankTabIfCurrentBlankTab b s) snd (S (len s)).
Proof.
  unfold skipBlankTabIfCurrentBlankTab. destruct (isBlankOrTab b); [|simpl; lia].
  eapply leaves_mono; [apply skipBlankTab_leaves|lia].
Qed.

Lemma readTokenWhile_leaves p b s : leaves (readTokenWhile p b s) (snd ∘ snd) (S (len s)).
Proof.
  revert b. induction s as [|b' s IH]; intros b; simpl; destruct (p b); try done; simpl; try lia.
  leaves_step IH. destruct a as [token r]. simpl in *. lia.
Qed.

Lemma readTokenUntilNewline_leaves rec escaped b s :
  leaves (readTokenUntilNewline rec escaped b s) snd (S (len s)).
Proof.
  revert escaped b. induction s as [|b' s IH]; intros escaped b; simpl;
    repeat case_match; try done; try (simpl; lia);
    (leaves_step IH; case_match; simpl in *; lia).
Qed.

Lemma readName_leaves p b s : leaves (readName p b s) (snd ∘ snd) (len s).
Proof.
  revert b. induction s as [|b' s IH]; intros b; simpl; [done|].
  destruct (p b'); [|simpl; lia]. leaves_step IH. case_match. simpl in *. lia.
Qed.

Lemma readTokenAsMetricName_leaves b s : leaves (readTokenAsMetricName b s) (snd ∘ snd) (S (len s)).
Proof.
  unfold readTokenAsMetricName. destruct (isValidMetricNameStart b); [|simpl; lia].
  eapply leaves_mono; [apply readName_leaves|lia].
Qed.

Lemma readTokenAsLabelName_leaves b s : leaves (readTokenAsLabelName b s) (snd ∘ snd) (S (len s)).
Proof.
  unfold readTokenAsLabelName. destruct (isValidLabelNameStart b); [|simpl; lia].
  eapply leaves_mono; [apply readName_leaves|lia].
Qed.

Lemma readTokenAsLabelValue_leaves escaped s : leaves (readTokenAsLabelValue escaped s) snd (len s).
Proof.
  revert escaped. induction s as [|b s IH]; intros escaped; simpl; [done|].
  repeat case_match; try done; try (simpl; lia);
    (leaves_step IH; case_match; simpl in *; lia).
Qed.

Lemma startLabelName_leaves fuel metric labels s :
  len s < fuel → leaves (startLabelName fuel metric labels s) (snd ∘ snd) (len s).
Proof.
  revert labels s. induction fuel as [|fuel IH]; intros labels s Hf; [lia|]. simpl.
  assert (∀ (l : list (string * string)) s,
    leaves (r ← skipBlankTab s; mret (l, r)) (snd ∘ snd) (len s)) as Hend.
  { intros l s'. leaves_step skipBlankTab_leaves. done. }
  leaves_step skipBlankTab_leaves. destruct a as [b s1]. simpl in *.
  case_decide; [eapply leaves_mono; [apply Hend|lia]|].
  leaves_step readTokenAsLabelName_leaves. destruct a as [name [b2 s2]]. simpl in *.
  case_decide; [done|]. case_decide; [done|].
  leaves_step skipIfCurrent_leaves. destruct a as [b3 s3]. simpl in *.
  case_match; [done|]. case_match; [done|].
  leaves_step skipBlankTab_leaves. destruct a as [b4 s4]. simpl in *. case_match; [done|].
  leaves_step readTokenAsLabelValue_leaves. destruct a as [value s5]. simpl in *. case_match; [done|].
  leaves_step skipBlankTab_leaves. destruct a as [b6 s6]. simpl in *.
  destruct (decide (b6 = ","%char)); [eapply leaves_mono; [apply IH; lia|lia]|].
  destruct (decide (b6 = "}"%char)); [eapply leaves_mono; [apply Hend|lia]|done].
Qed.

Lemma startTimestamp_leaves s : leaves (startTimestamp s) snd (len s).
Proof.
  unfold startTimestamp. leaves_step skipBlankTab_leaves. destruct a as [b s1]. simpl in *.
  leaves_step readTokenWhile_leaves. destruct a as [token [b2 s2]]. simpl in *.
  case_match; [|done].
  leaves_step readTokenUntilNewline_leaves. destruct a as [token' s3]. simpl in *.
  case_decide; [simpl; lia|done].
Qed.

Lemma readingValue_leaves mf mfs t labels b s :
  leaves (readingValue mf mfs t labels b s).2 id (S (len s)).
Proof.
  unfold readingValue. pose proof (readTokenWhile_leaves (λ b, negb (isBlankOrTab b || bool_decide (b = newline))) b s) as H1.
  fold readTokenUntilWhitespace in H1.
  destruct (readTokenUntilWhitespace b s) as [[token [b2 s2]]|e]; [|done]. simpl in H1.
  destruct (parseFloat token); [|done]. case_decide; [simpl; lia|].
  pose proof (startTimestamp_leaves s2) as H2. destruct (startTimestamp s2) as [[t' s3]|e]; [|done].
  simpl in *. lia.
Qed.

Lemma readingHelp_leaves mf mfs b s : leaves (readingHelp mf mfs b s).2 id (S (len s)).
Proof.
  unfold readingHelp. destruct (mf_Help mf); [done|].
  pose proof (readTokenUntilNewline_leaves true false b s) as H1.
  destruct (readTokenUntilNewline true false b s) as [[token s1]|]; exact H1.
Qed.

Lemma readingType_leaves mf mfs b s : leaves (readingType mf mfs b s).2 id (S (len s)).
Proof.
  unfold readingType. destruct (mf_Type mf); [done|].
  pose proof (readTokenUntilNewline_leaves false false b s) as H1.
  destruct (readTokenUntilNewline false false b s) as [[token s1]|]; [|exact H1].
  by destruct (MetricType_value _) as [[]|].
Qed.

Lemma startComment_leaves mfs s : leaves (startComment mfs s).2 id (S (len s)).
Proof.
  unfold startComment. pose proof (skipBlankTab_leaves s) as H1.
  destruct (skipBlankTab s) as [[b s1]|]; [|exact H1]. simpl in H1. destruct (decide (b = newline)); [simpl; lia|].
  pose proof (readTokenWhile_leaves (λ b, negb (isBlankOrTab b || bool_decide (b = newline))) b s1) as H2.
  fold readTokenUntilWhitespace in H2.
  destruct (readTokenUntilWhitespace b s1) as [[keyword [b2 s2]]|]; [|exact H2]. simpl in H2.
  destruct (decide (b2 = newline)); [simpl; lia|]. destruct (negb _).
  { pose proof (readTokenWhile_leaves (λ b, negb (bool_decide (b = newline))) b2 s2) as H5.
    destruct (readTokenWhile _ b2 s2) as [[token [b3 s3]]|]; [|exact H5]. simpl in *. lia. }
  assert (leaves (skipBlankTab s2 ≫= λ '(b, s), readTokenAsMetricName b s) (snd ∘ snd) (len s2)) as H5.
  { leaves_step skipBlankTab_leaves. destruct a as [b3 s3].
    eapply leaves_mono; [apply readTokenAsMetricName_leaves|]. simpl in *. lia. }
  destruct (skipBlankTab s2 ≫= _) as [[name [b3 s3]]|]; [|exact H5]. simpl in H5.
  destruct (decide (b3 = newline)); [simpl; lia|]. destruct (negb (isBlankOrTab b3)); [done|].
  destruct (setOrCreateCurrentMF name mfs) as [mf mfs'].
  pose proof (skipBlankTab_leaves s3) as H9.
  destruct (skipBlankTab s3) as [[b4 s4]|]; [|exact H9]. simpl in H9.
  destruct (decide (b4 = newline)); [simpl; lia|]. destruct (decide (keyword = "HELP")).
  - eapply leaves_mono; [apply readingHelp_leaves|lia].
  - eapply leaves_mono; [apply readingType_leaves|lia].
Qed.

Lemma readingMetricName_leaves mfs b s : leaves (readingMetricName mfs b s).2 id (S (len s)).
Proof.
  unfold readingMetricName. pose proof (readTokenAsMetricName_leaves b s) as H1.
  destruct (readTokenAsMetricName b s) as [[name [b2 s2]]|]; [|exact H1]. simpl in H1.
  destruct (decide (name = "")); [done|]. destruct (setOrCreateCurrentMF name mfs) as [mf mfs'].
  pose proof (skipIfCurrent_leaves b2 s2) as H2.
  destruct (skipBlankTabIfCurrentBlankTab b2 s2) as [[b3 s3]|]; [|exact H2]. simpl in H2. destruct (decide (b3 = "{"%char)).
  - pose proof (startLabelName_leaves (S (len s3)) name [] s3 (Nat.lt_succ_diag_r _)) as H5.
    destruct (startLabelName _ name [] s3) as [[labels [b4 s4]]|]; [|exact H5]. simpl in H5.
    eapply leaves_mono; [apply readingValue_leaves|lia].
  - eapply leaves_mono; [apply readingValue_leaves|lia].
Qed.

Lemma startOfLine_leaves mfs b s : leaves (startOfLine mfs b s).2 id (S (len s)).
Proof.
  unfold startOfLine. destruct (decide (b = "#"%char)); [apply startComment_leaves|].
  destruct (decide (b = newline)); [simpl; lia|apply readingMetricName_leaves].
Qed.

(** The fuel does not matter, when there is enough. *)
Lemma parse_lines_fuel n m mfs s : len s < n → len s < m → parse_lines n mfs s = parse_lines m mfs s.
Proof.
  revert m mfs s. induction n as [|n IH]; intros [|m] mfs s Hn Hm; try lia. simpl.
  pose proof (skipBlankTab_leaves s) as H1. destruct (skipBlankTab s) as [[b s1]|]; [|done].
  pose proof (startOfLine_leaves mfs b s1) as H2. destruct (startOfLine mfs b s1) as [mfs' [s2|e]]; [|done].
  simpl in *. apply IH; lia.
Qed.

(** The rest of a text, from the start of a line. *)
Definition parse (mfs : families) (s : string) : families * option parse_error :=
  parse_lines (S (len s)) mfs s.

Lemma parse_unfold mfs s :
  parse mfs s =
  match skipBlankTab s with
  | Err _ => (mfs, None)
  | Ok (b, s) =>
    match startOfLine mfs b s with
    | (mfs, Ok s) => parse mfs s
    | (mfs, Err e) => (mfs, Some e)
    end
  end.
Proof.
  unfold parse at 1. cbn [parse_lines].
  pose proof (skipBlankTab_leaves s) as H1. destruct (skipBlankTab s) as [[b s1]|]; [|done].
  pose proof (startOfLine_leaves mfs b s1) as H2. destruct (startOfLine mfs b s1) as [mfs' [s2|e]]; [|done].
  simpl in *. apply parse_lines_fuel; lia.
Qed.

(** The parser ends: an error is one of the text. *)
Lemma TextToMetricFamilies_ends s : (TextToMetricFamilies s).2 ≠ Some OutOfFuel.
Proof.
  unfold TextToMetricFamilies. fold (parse ∅ s).
  assert (∀ n mfs s, len s < n → (parse mfs s).2 ≠ Some OutOfFuel) as Hgo.
  { clear s. intros n. induction n as [|n IH]; intros mfs s Hn; [lia|]. rewrite parse_unfold.
    pose proof (skipBlankTab_leaves s) as H1. destruct (skipBlankTab s) as [[b s1]|]; [|done].
    pose proof (startOfLine_leaves mfs b s1) as H2.
    destruct (startOfLine mfs b s1) as [mfs' [s2|e]]; simpl in *; [apply IH; lia|congruence]. }
  specialize (Hgo _ ∅ s (Nat.lt_succ_diag_r _)). by destruct (parse ∅ s).
Qed.

(** ** Lemmas: reading tokens *)

Lemma readTokenWhile_app p b s d rest :
  string_forallb p (String b s) = true → p d = false →
  readTokenWhile p b (s +:+ String d rest) = Ok (String b s, (d, rest)).
Proof.
  intros Hs Hd. revert b Hs. induction s as [|b' s IH]; intros b Hs; simpl in Hs;
    apply andb_true_iff in Hs as [Hb Hs].
  - rewrite append_nil_l. simpl. rewrite Hb. by destruct rest; simpl; rewrite Hd.
  - rewrite append_cons. cbn [readTokenWhile]. by rewrite Hb, IH.
Qed.

Lemma readName_app p b s d rest :
  string_forallb p s = true → p d = false →
  readName p b (s +:+ String d rest) = Ok (String b s, (d, rest)).
Proof.
  intros Hs Hd. revert b Hs. induction s as [|b' s IH]; intros b Hs.
  - rewrite append_nil_l. simpl. by rewrite Hd.
  - simpl in Hs. apply andb_true_iff in Hs as [Hb Hs]. rewrite append_cons. simpl. by rewrite Hb, IH.
Qed.

(** A name as the parser wants it. *)
Definition metric_name (name : string) : bool :=
  match name with
  | EmptyString => false
  | String b s => isValidMetricNameStart b && string_forallb isValidMetricNameContinuation s
  end.

Lemma readTokenAsMetricName_app b s d rest :
  metric_name (String b s) = true → isValidMetricNameContinuation d = false →
  readTokenAsMetricName b (s +:+ String d rest) = Ok (String b s, (d, rest)).
Proof.
  unfold metric_name, readTokenAsMetricName. intros [-> Hs]%andb_true_iff Hd. by apply readName_app.
Qed.

(** A text without a newline or a backslash stands for itself. *)
Definition plain (s : string) : bool := lacks newline s && lacks backslash s.

Lemma readTokenUntilNewline_plain rec b s rest :
  plain (String b s) = true →
  readTokenUntilNewline rec false b (s +:+ String newline rest) = Ok (String b s, rest).
Proof.
  unfold plain, lacks. revert b. induction s as [|b' s IH]; intros b Hp; simpl in Hp;
    rewrite ?andb_true_iff, ?negb_true_iff, ?bool_decide_eq_false in Hp;
    destruct Hp as [[Hn Hns] [Hb Hbs]].
  - rewrite append_nil_l. simpl. rewrite andb_false_r, !decide_False by done.
    by destruct rest; simpl; rewrite ?andb_false_r.
  - rewrite append_cons. cbn [readTokenUntilNewline]. rewrite andb_false_r, !decide_False by done.
    rewrite IH; [done|]. simpl. by rewrite !andb_true_iff, !negb_true_iff, !bool_decide_eq_false.
Qed.

Lemma skipBlankTab_nonblank b s : isBlankOrTab b = false → skipBlankTab (String b s) = Ok (b, s).
Proof. intros Hb. simpl. by rewrite Hb. Qed.

(** What is left of a help text: the blanks before it are lost. *)
Fixpoint docstring (help : string) : string :=
  match help with
  | EmptyString => ""
  | String b s => if isBlankOrTab b then docstring s else help
  end.

Lemma docstring_plain help : plain help = true → plain (docstring help) = true.
Proof.
  unfold plain, lacks. induction help as [|b s IH]; [done|]. simpl. destruct (isBlankOrTab b); [|done].
  intros [[_ H1]%andb_true_iff [_ H2]%andb_true_iff]%andb_true_iff. apply IH. by rewrite H1, H2.
Qed.

Lemma skipBlankTab_docstring help rest :
  skipBlankTab (help +:+ String newline rest) =
  match docstring help with
  | EmptyString => Ok (newline, rest)
  | String b s => Ok (b, s +:+ String newline rest)
  end.
Proof.
  induction help as [|b s IH]; [done|]. rewrite append_cons. simpl.
  by destruct (isBlankOrTab b).
Qed.

Lemma readTokenAsLabelValue_escape v rest :
  readTokenAsLabelValue false (escape v +:+ String dquote rest) = Ok (v, rest).
Proof.
  induction v as [|c v IH]; [done|]. rewrite escape_cons.
  unfold escape_table. destruct (decide (c = backslash)) as [->|Hb];
    [|destruct (decide (c = newline)) as [->|Hn]; [|destruct (decide (c = dquote)) as [->|Hq]]];
    simpl; unfold char; rewrite ?append_cons, ?append_nil_l; simpl.
  - by rewrite IH.
  - by rewrite IH.
  - by rewrite IH.
  - rewrite !decide_False by done. by rewrite IH.
Qed.

(** ** Lemmas: the lines of a family *)

Lemma parse_line mfs b s :
  isBlankOrTab b = false →
  parse mfs (String b s) =
  match startOfLine mfs b s with
  | (mfs, Ok s) => parse mfs s
  | (mfs, Err e) => (mfs, Some e)
  end.
Proof. intros Hb. by rewrite parse_unfold, skipBlankTab_nonblank. Qed.

Lemma comment_name name rest :
  metric_name name = true →
  (skipBlankTab (name +:+ String " " rest) ≫= λ '(b, s), readTokenAsMetricName b s) =
  Ok (name, (" "%char, rest)).
Proof.
  destruct name as [|b s]; [done|]. intros Hn. rewrite append_cons, skipBlankTab_nonblank.
  - by apply readTokenAsMetricName_app.
  - apply andb_true_iff in Hn as [Hb _]. revert Hb.
    unfold isValidMetricNameStart, isValidLabelNameStart, isBlankOrTab, in_range.
    rewrite !orb_true_iff, !andb_true_iff, orb_false_iff, !N.eqb_neq, !N.leb_le, !N.eqb_eq. lia.
Qed.

(** What follows the name in the line of a help or of a type. *)
Definition comment_text (keyword : string) (mf : MetricFamily) (mfs : families) (t : string) : line_result :=
  match skipBlankTab t with
  | Err e => fail e mfs
  | Ok (b, s) =>
    if decide (b = newline) then (mfs, Ok s)
    else if decide (keyword = "HELP") then readingHelp mf mfs b s
    else readingType mf mfs b s
  end.

Lemma startComment_name keyword mfs name t :
  keyword = "HELP" ∨ keyword = "TYPE" → metric_name name = true →
  startComment mfs (" " +:+ keyword +:+ " " +:+ name +:+ String " " t) =
  comment_text keyword (setOrCreateCurrentMF name mfs).1 (setOrCreateCurrentMF name mfs).2 t.
Proof.
  intros Hk Hn. unfold startComment, comment_text.
  assert (∃ k, (∃ s, skipBlankTab (" " +:+ keyword +:+ " " +:+ name +:+ String " " t) = Ok (k, s) ∧ k ≠ newline ∧
    readTokenUntilWhitespace k s = Ok (keyword, (" "%char, name +:+ String " " t)))) as (k & s & -> & Hk' & Hr).
  { destruct Hk as [-> | ->]; eexists _, _; (split; [reflexivity|]); (split; [done|]).
    - by apply (readTokenWhile_app _ "H" "ELP").
    - by apply (readTokenWhile_app _ "T" "YPE"). }
  rewrite decide_False by done. rewrite Hr, decide_False by done.
  assert (negb (bool_decide (keyword = "HELP") || bool_decide (keyword = "TYPE")) = false) as ->.
  { by destruct Hk as [-> | ->]. }
  rewrite comment_name by done. rewrite decide_False by done. simpl.
  by destruct (setOrCreateCurrentMF name mfs).
Qed.

(** The line of the help of a family: a text of blanks is none. *)
Lemma startComment_help mfs name help rest :
  metric_name name = true → plain help = true →
  startComment mfs (" HELP " +:+ name +:+ String " " (help +:+ String newline rest)) =
  let '(mf, mfs) := setOrCreateCurrentMF name mfs in
  if decide (docstring help = "") then (mfs, Ok rest)
  else match mf_Help mf with
       | Some _ => fail (SecondHelp (mf_Name mf)) mfs
       | None => (<[mf_Name mf := set_Help (docstring help) mf]> mfs, Ok rest)
       end.
Proof.
  intros Hn Hh. pose proof (startComment_name "HELP" mfs name (help +:+ String newline rest)) as Hc.
  etransitivity; [apply Hc; eauto|]. clear Hc. destruct (setOrCreateCurrentMF name mfs) as [mf mfs'].
  unfold comment_text. rewrite skipBlankTab_docstring. pose proof (docstring_plain _ Hh) as Hd.
  destruct (docstring help) as [|b s]; [done|]. simpl.
  assert (b ≠ newline) as Hb. { intros ->. by unfold plain in Hd. }
  rewrite decide_False by done. unfold readingHelp. destruct (mf_Help mf); [done|].
  by rewrite readTokenUntilNewline_plain.
Qed.

(** The line of the type of a family that is a gauge. *)
Lemma startComment_gauge mfs name rest :
  metric_name name = true →
  startComment mfs (" TYPE " +:+ name +:+ String " " ("gauge" +:+ String newline rest)) =
  let '(mf, mfs) := setOrCreateCurrentMF name mfs in
  match mf_Type mf with
  | Some _ => fail (SecondType (mf_Name mf)) mfs
  | None => (<[mf_Name mf := set_Type GAUGE mf]> mfs, Ok rest)
  end.
Proof.
  intros Hn. pose proof (startComment_name "TYPE" mfs name ("gauge" +:+ String newline rest)) as Hc.
  etransitivity; [apply Hc; eauto|]. clear Hc. destruct (setOrCreateCurrentMF name mfs) as [mf mfs'].
  unfold comment_text. change ("gauge" +:+ ?t) with (String "g" ("auge" +:+ t)).
  rewrite skipBlankTab_nonblank, decide_False by done. simpl.
  unfold readingType. destruct (mf_Type mf); [done|].
  by rewrite readTokenUntilNewline_plain.
Qed.

(** ** Lemmas: the line of a sample *)

Definition label_name (name : string) : bool :=
  match name with
  | EmptyString => false
  | String b s => isValidLabelNameStart b && string_forallb isValidLabelNameContinuation s
  end.

(** The labels of a sample that the parser accepts. *)
Definition well_labelled (labels : list (string * string)) : Prop :=
  Forall (λ kv : string * string,
    label_name kv.1 = true ∧ kv.1 ≠ "__name__" ∧ ValidString kv.2 = true) labels ∧
  NoDup labels.*1.

#[export] Instance well_labelled_dec labels : Decision (well_labelled labels).
Proof. unfold well_labelled. apply _. Defined.

(** The error of the first label that it does not accept, after those in [acc]. *)
Definition check_label (metric : string) (acc : list (string * string)) (kv : string * string)
    : option parse_error :=
  if negb (label_name kv.1) then Some (InvalidLabelName metric)
  else if decide (kv.1 = "__name__") then Some ReservedLabelName
  else if negb (bool_decide (NoDup (acc.*1 ++ [kv.1]))) then Some (DuplicateLabelNames metric)
  else if negb (ValidString kv.2) then Some (InvalidLabelValue kv.2)
  else None.

Fixpoint check_labels (metric : string) (acc labels : list (string * string)) : option parse_error :=
  match labels with
  | [] => None
  | kv :: labels =>
    match check_label metric acc kv with
    | Some e => Some e
    | None => check_labels metric (acc ++ [kv]) labels
    end
  end.

Lemma check_labels_None metric acc labels :
  NoDup acc.*1 →
  check_labels metric acc labels = None ↔
  Forall (λ kv : string * string,
    label_name kv.1 = true ∧ kv.1 ≠ "__name__" ∧ ValidString kv.2 = true) labels ∧
  NoDup (acc ++ labels).*1.
Proof.
  revert acc. induction labels as [|kv labels IH]; intros acc Hacc; simpl.
  { rewrite app_nil_r. split; [by auto|done]. }
  rewrite (cons_middle kv acc labels), (assoc_L (++)), Forall_cons. unfold check_label.
  destruct (label_name kv.1); simpl; [|by split; [|intros [[[? _] _] _]]].
  destruct (decide (kv.1 = "__name__")); [by split; [|intros [[(_ & ? & _) _] _]]|].
  case_bool_decide as Hnd; simpl.
  - destruct (ValidString kv.2); simpl; [|by split; [|intros [[(_ & _ & ?) _] _]]].
    rewrite IH by by rewrite fmap_app. split; [intros [? ?]|intros [[_ ?] ?]]; by split_and!.
  - split; [done|]. intros [_ H]. destruct Hnd.
    rewrite !fmap_app in H. by apply NoDup_app in H as [H _].
Qed.

Lemma lower_word_continuation c : is_lower_word c = true → isValidLabelNameContinuation c = true.
Proof.
  assert (implb (is_lower_word c) (isValidLabelNameContinuation c) = true) as H.
  { revert c. apply all_ascii. vm_compute. done. }
  intros Hc. by rewrite Hc in H.
Qed.

Lemma continuation_not_blank c :
  isValidLabelNameContinuation c = true → isBlankOrTab c = false ∧ c ≠ "}"%char.
Proof.
  assert (implb (isValidLabelNameContinuation c) (negb (isBlankOrTab c) && negb (bool_decide (c = "}"%char))) = true) as H.
  { revert c. apply all_ascii. vm_compute. done. }
  intros Hc. rewrite Hc in H. apply andb_true_iff in H as [?%negb_true_iff Hn].
  by apply negb_true_iff, bool_decide_eq_false in Hn.
Qed.

(** One label: what is read before its value ends. *)
Lemma startLabelName_label fuel metric acc k v t :
  string_forallb is_lower_word k = true →
  startLabelName (S fuel) metric acc (k +:+ "=" +:+ char dquote +:+ escape v +:+ char dquote +:+ t) =
  match check_label metric acc (k, v) with
  | Some e => Err e
  | None =>
    '(b, s) ← skipBlankTab t;
    let labels := acc ++ [(k, v)] in
    if decide (b = ","%char) then startLabelName fuel metric labels s
    else if decide (b = "}"%char) then r ← skipBlankTab s; mret (labels, r)
    else Err (UnexpectedEndOfLabelValue v)
  end.
Proof.
  intros Hk. unfold char. rewrite !append_cons, !append_nil_l.
  apply (string_forallb_impl _ isValidLabelNameContinuation) in Hk; [|exact lower_word_continuation].
  change ("=" +:+ ?s) with (String "=" s). unfold check_label. cbn [startLabelName fst snd].
  destruct k as [|b k]; [done|].
  apply andb_true_iff in Hk as [Hb Hk]. change (string_forallb isValidLabelNameContinuation k = true) in Hk.
  destruct (continuation_not_blank _ Hb) as [Hbl Hbr].
  rewrite append_cons, skipBlankTab_nonblank by done. cbn [mbind parse_bind label_name].
  rewrite decide_False by done. unfold readTokenAsLabelName.
  destruct (isValidLabelNameStart b); [|done]. rewrite andb_true_l.
  rewrite readName_app by done. rewrite Hk. cbn [negb mbind parse_bind].
  rewrite decide_False by done. destruct (decide (String b k = "__name__")); [done|].
  simpl. case_bool_decide; [|done]. simpl. rewrite readTokenAsLabelValue_escape. simpl.
  by destruct (ValidString v).
Qed.

Lemma startLabelName_labels fuel metric acc sep labels b rest s :
  write_labels sep labels +:+ String "}" (String " " (String b rest)) = String sep s →
  labels ≠ [] → length labels <= fuel →
  Forall (λ kv : string * string, string_forallb is_lower_word kv.1 = true) labels →
  isBlankOrTab b = false →
  startLabelName fuel metric acc s =
  match check_labels metric acc labels with
  | Some e => Err e
  | None => Ok (acc ++ labels, (b, rest))
  end.
Proof.
  intros Hs Hne Hf Hl Hb. revert fuel acc sep s Hs Hne Hf.
  induction Hl as [|[k v] labels Hk Hl IH]; intros fuel acc sep s Hs Hne Hf; [done|].
  destruct fuel as [|fuel]; simpl in Hf; [lia|]. simpl in Hs.
  rewrite append_cons, !append_assoc in Hs. injection Hs as <-.
  rewrite startLabelName_label by done. simpl. destruct (check_label metric acc (k, v)); [done|].
  destruct labels as [|kv labels].
  - simpl. by rewrite Hb.
  - destruct (write_labels "," (kv :: labels) +:+ String "}" (String " " (String b rest))) as [|c s] eqn:E.
    { by destruct kv. }
    assert (c = ","%char) as -> by (destruct kv; by injection E).
    simpl. rewrite (IH fuel (acc ++ [(k, v)]) ","%char s E) by (done || simpl in *; lia).
    by rewrite <- (assoc_L (++)).
Qed.

Lemma value_char_facts c :
  value_char c = true →
  negb (isBlankOrTab c || bool_decide (c = newline)) = true ∧ c ≠ "{"%char ∧
  negb (bool_decide (c ∈ ["p"; "P"; "_"]%char)) = true.
Proof.
  assert (implb (value_char c) (negb (isBlankOrTab c || bool_decide (c = newline)) &&
    (negb (bool_decide (c = "{"%char)) && negb (bool_decide (c ∈ ["p"; "P"; "_"]%char)))) = true) as H.
  { revert c. apply all_ascii. vm_compute. done. }
  intros Hc. rewrite Hc in H. apply andb_true_iff in H as [? [Hb ?]%andb_true_iff].
  by apply negb_true_iff, bool_decide_eq_false in Hb.
Qed.

Lemma readingValue_sample mf mfs t labels b value f rest :
  string_forallb value_char (String b value) = true → ParseFloat (String b value) = Ok f →
  readingValue mf mfs t labels b (value +:+ String newline rest) =
  (<[mf_Name mf := add_Metric (MkMetric labels (typed_value t f) None) mf]> mfs, Ok rest).
Proof.
  intros Hv Hf. unfold readingValue, readTokenUntilWhitespace. rewrite readTokenWhile_app; [|clear Hf|done].
  - unfold parseFloat. rewrite Hf, (string_forallb_impl value_char); [|intros c Hc; by apply value_char_facts|done].
    by rewrite decide_True.
  - apply (string_forallb_impl value_char); [|done]. intros c Hc. by apply value_char_facts.
Qed.

Lemma metric_name_start b s :
  metric_name (String b s) = true → isBlankOrTab b = false ∧ b ≠ "#"%char ∧ b ≠ newline.
Proof.
  intros [Hb _]%andb_true_iff.
  assert (implb (isValidMetricNameStart b) (negb (isBlankOrTab b) &&
    (negb (bool_decide (b = "#"%char)) && negb (bool_decide (b = newline)))) = true) as H.
  { clear Hb. revert b. apply all_ascii. vm_compute. done. }
  rewrite Hb in H. apply andb_true_iff in H as [?%negb_true_iff [H1 H2]%andb_true_iff].
  by apply negb_true_iff, bool_decide_eq_false in H1, H2.
Qed.

(** The line of a sample, when its family is a gauge. *)
Lemma parse_gauge_sample mfs name mf labels value f rest :
  metric_name name = true →
  mfs !! name = Some mf → mf_Name mf = name → mf_Type mf = Some GAUGE →
  labels ≠ [] → Forall (λ kv : string * string, string_forallb is_lower_word kv.1 = true) labels →
  value ≠ "" → string_forallb value_char value = true → ParseFloat value = Ok f →
  parse mfs (sample_line name labels value +:+ rest) =
  match check_labels name [] labels with
  | Some e => (mfs, Some e)
  | None => parse (<[name := add_Metric (MkMetric labels (Some (Gauge f)) None) mf]> mfs) rest
  end.
Proof.
  intros Hn Hmf Hname Htype Hne Hl Hv0 Hv Hf. unfold sample_line.
  destruct name as [|b name]; [done|]. destruct value as [|b' value]; [done|].
  destruct (metric_name_start _ _ Hn) as (Hb & Hb1 & Hb2).
  rewrite !append_assoc, !append_cons, append_nil_l. change (char newline +:+ rest) with (String newline rest).
  rewrite append_nil_l, parse_line by done. unfold startOfLine. rewrite !decide_False by done.
  destruct (write_labels "{" labels +:+ String "}" (String " " (String b' (value +:+ String newline rest))))
    as [|c s] eqn:Hw. { by destruct labels as [|[k v] labels]. }
  assert (c = "{"%char) as ->. { destruct labels as [|[k v] labels]; [done|]. by injection Hw. }
  unfold readingMetricName. rewrite readTokenAsMetricName_app, decide_False by done.
  unfold setOrCreateCurrentMF. rewrite Hmf, Htype.
  change (default UNTYPED (Some GAUGE)) with GAUGE. cbv zeta.
  assert (set_Type GAUGE mf = mf) as -> by (destruct mf; simpl in *; by subst).
  assert (<[mf_Name mf := mf]> mfs = mfs) as -> by (rewrite Hname; by apply insert_id).
  unfold skipBlankTabIfCurrentBlankTab. change (isBlankOrTab "{") with false. cbv iota.
  rewrite decide_True by done.
  pose proof (proj1 (andb_true_iff _ _) Hv) as [Hb' _]. apply value_char_facts in Hb' as (Hb' & _).
  apply negb_true_iff, orb_false_iff in Hb' as [Hb' _].
  rewrite (startLabelName_labels _ _ [] _ labels _ _ _ Hw Hne); [|  |done|done].
  - destruct (check_labels (String b name) [] labels); [done|].
    rewrite readingValue_sample with (f := f) by done. by rewrite Hname.
  - assert (len (write_labels "{" labels +:+ String "}" (String " " (String b' (value +:+ String newline rest)))) = S (len s)) as Hlen
      by by rewrite Hw. rewrite length_append in Hlen. pose proof (write_labels_length labels "{"). lia.
Qed.
