(* ===== verification/Family.v ===== *)
(** * Metric families ([internal/family.go])

    [rawFrom] turns an object into the text of a family: for each metric it
    inherits the labels and the resolver of the family, resolves the labels
    and the value, and writes one line, or nothing when a step fails.  The
    inherited labels are appended to the metric itself, so [rawFrom] also
    returns the family it leaves behind. *)
From S2P Require Import Prelude GoStrings Strconv GoSort Values Resolver Metric.

(** ** Definitions *)

Definition metricTypeGauge : string := "gauge".
Definition kubeCustomResourcePrefix : string := "kube_customresource_".

(** [ResolverType] and its constants. *)
Definition ResolverTypeCEL : string := "cel".
Definition ResolverTypeUnstructured : string := "unstructured".
Definition ResolverTypeNone : string := "".

(** The metrics are pointers: a null item of the configuration is [None]. *)
Record FamilyType : Type := {
  fam_Name : string;
  fam_Help : string;
  fam_t : string;
  fam_Metrics : list (option MetricType);
  fam_Resolver : string;
  fam_LabelKeys : list string;
  fam_LabelValues : list string;
}.

Definition set_Metrics (ms : list (option MetricType)) (f : FamilyType) : FamilyType := {|
  fam_Name := fam_Name f; fam_Help := fam_Help f; fam_t := fam_t f;
  fam_Metrics := ms; fam_Resolver := fam_Resolver f;
  fam_LabelKeys := fam_LabelKeys f; fam_LabelValues := fam_LabelValues f;
|}.

Definition set_t (t : string) (f : FamilyType) : FamilyType := {|
  fam_Name := fam_Name f; fam_Help := fam_Help f; fam_t := t;
  fam_Metrics := fam_Metrics f; fam_Resolver := fam_Resolver f;
  fam_LabelKeys := fam_LabelKeys f; fam_LabelValues := fam_LabelValues f;
|}.

(** [strings.ToLower(regexp.MustCompile(`\W`).ReplaceAllString(key, "_"))]. *)
Definition sanitize (key : string) : string := ToLower (replace_nonword key).

(** The inner loop, over the entries of a composite labelset. *)
Fixpoint expand_labels (LabelKeys : list string) (i : nat) (entries : list (string * string))
    (keys values : list string) : outcome (list string * list string) :=
  match entries with
  | [] => mret (keys, values)
  | (k, v) :: entries =>
    let values := values ++ [v] in
    key ← index LabelKeys i;
    expand_labels LabelKeys i entries (keys ++ [sanitize (key +:+ k)]) values
  end.

(** [f.resolver]: [None] is its error, an unknown resolver. *)
Definition family_resolver `{!CEL} (f : FamilyType) (inheritedResolver : string)
    : option Resolver :=
  let inheritedResolver :=
    if decide (inheritedResolver = ResolverTypeNone) then fam_Resolver f
    else inheritedResolver in
  if decide (inheritedResolver = ResolverTypeNone) then Some NewCELResolver
  else if decide (inheritedResolver = ResolverTypeCEL) then Some NewCELResolver
  else if decide (inheritedResolver = ResolverTypeUnstructured)
  then Some NewUnstructuredResolver
  else None.

(** The label keys and values of a metric after it inherits the family's. *)
Definition inherit_labels (f : FamilyType) (m : MetricType) : MetricType := {|
  metric_LabelKeys := metric_LabelKeys m ++ fam_LabelKeys f;
  metric_LabelValues := metric_LabelValues m ++ fam_LabelValues f;
  metric_Value := metric_Value m;
  metric_Resolver := metric_Resolver m;
|}.

(** [buildHeaders]: the header, and the family with its type set. *)
Definition buildHeaders (f : FamilyType) : string * FamilyType :=
  let header :=
    "# HELP " +:+ kubeCustomResourcePrefix +:+ fam_Name f +:+ " " +:+ fam_Help f
    +:+ char newline in
  let header := header +:+ "# TYPE " +:+ kubeCustomResourcePrefix +:+ fam_Name f +:+ " " in
  let f := set_t metricTypeGauge f in
  (header +:+ fam_t f, f).

Section family.
Context `{!SortSlice} `{!MapRange} `{!CEL}.

(** The loop over the label values. *)
Fixpoint resolve_labels (r : Resolver) (obj : object) (site : list nat)
    (LabelKeys : list string) (i : nat) (queries : list string)
    (keys values : list string) : outcome (list string * list string) :=
  match queries with
  | [] => mret (keys, values)
  | query :: queries =>
    let resolvedLabelset := Resolve r query obj in
    match resolvedLabelset !! query with
    | Some value =>
      let values := values ++ [value] in
      key ← index LabelKeys i;
      resolve_labels r obj site LabelKeys (S i) queries (keys ++ [sanitize key]) values
    | None =>
      '(keys, values) ←
        expand_labels LabelKeys i (range (site ++ [i]) resolvedLabelset) keys values;
      resolve_labels r obj site LabelKeys (S i) queries keys values
    end
  end.

(** One iteration of the loop over the metrics: what it adds to the text of
    the family (nothing on [continue]) and the metric it leaves. *)
Definition raw_metric (f : FamilyType) (obj : object) (site : list nat) (metric : MetricType)
    : outcome (string * MetricType) :=
  let metric := inherit_labels f metric in
  match family_resolver f (metric_Resolver metric) with
  | None => mret ("", metric)
  | Some r =>
    '(keys, values) ←
      resolve_labels r obj site (metric_LabelKeys metric) 0 (metric_LabelValues metric) [] [];
    match Resolve r (metric_Value metric) obj !! metric_Value metric with
    | None => mret ("", metric)
    | Some resolvedValue =>
      let gvk := object_gvk obj in
      '(text, err) ←
        writeMetricTo (kubeCustomResourcePrefix +:+ fam_Name f)
          (gvk_Group gvk) (gvk_Version gvk) (gvk_Kind gvk) resolvedValue keys values;
      match err with
      | Some _ => mret ("", metric)
      | None => mret (text, metric)
      end
    end
  end.

Fixpoint raw_metrics (f : FamilyType) (obj : object) (site : list nat) (j : nat)
    (metrics : list (option MetricType)) : outcome (string * list (option MetricType)) :=
  match metrics with
  | [] => mret ("", [])
  | None :: _ => Panicked NilDereference
  | Some metric :: metrics =>
    '(text, metric) ← raw_metric f obj (site ++ [j]) metric;
    '(texts, metrics) ← raw_metrics f obj site (S j) metrics;
    mret (text +:+ texts, Some metric :: metrics)
  end.

(** [rawFrom]. *)
Definition rawFrom (f : FamilyType) (obj : object) (site : list nat)
    : outcome (string * FamilyType) :=
  '(text, metrics) ← raw_metrics f obj site 0 (fam_Metrics f);
  mret (text, set_Metrics metrics f).
End family.

(** ** What a family prints *)

Section spec.
Context `{!SortSlice} `{!MapRange} `{!CEL}.

(** The labels that one query contributes: its value under the sanitized key,
    or one label per entry, its key prefixed by the sanitized key. *)
Definition query_labels (r : Resolver) (obj : object) (site : list nat) (key : string)
    (i : nat) (query : string) : list (string * string) :=
  match Resolve r query obj !! query with
  | Some value => [(sanitize key, value)]
  | None => (λ kv, (sanitize (key +:+ kv.1), kv.2)) <$> range (site ++ [i]) (Resolve r query obj)
  end.

Fixpoint labels_of (r : Resolver) (obj : object) (site : list nat)
    (LabelKeys : list string) (i : nat) (queries : list string) : list (string * string) :=
  match queries with
  | [] => []
  | query :: queries =>
    query_labels r obj site (LabelKeys !!! i) i query
    ++ labels_of r obj site LabelKeys (S i) queries
  end.

(** The line of a metric, empty when the metric is skipped. *)
Definition metric_line (f : FamilyType) (obj : object) (site : list nat) (m : MetricType)
    : string :=
  let m := inherit_labels f m in
  match family_resolver f (metric_Resolver m) with
  | None => ""
  | Some r =>
    match Resolve r (metric_Value m) obj !! metric_Value m with
    | None => ""
    | Some value =>
      match ParseFloat value with
      | Err _ => ""
      | Ok x =>
        let labels := labels_of r obj site (metric_LabelKeys m) 0 (metric_LabelValues m) in
        let gvk := object_gvk obj in
        sample_line (kubeCustomResourcePrefix +:+ fam_Name f)
          (written_labels (gvk_Group gvk) (gvk_Version gvk) (gvk_Kind gvk)
             labels.*1 labels.*2)
          (FormatF6 x)
      end
    end
  end.

Definition family_text (f : FamilyType) (obj : object) (site : list nat) : string :=
  string_concat (imap (λ j, from_option (metric_line f obj (site ++ [j])) "") (fam_Metrics f)).

(** The metrics after they inherit the labels of their family. *)
Definition inherit_all (f : FamilyType) : list (option MetricType) :=
  (λ m : option MetricType, inherit_labels f <$> m) <$> fam_Metrics f.

(** The metric is not null, and is as [P] says. *)
Definition is_metric (P : MetricType → Prop) (m : option MetricType) : Prop :=
  match m with
  | Some m => P m
  | None => False
  end.

#[global] Instance is_metric_dec P `{!∀ m, Decision (P m)} m : Decision (is_metric P m).
Proof. destruct m; simpl; apply _. Defined.

(** Every label value of the metric has a label key. *)
Definition keys_cover (f : FamilyType) (m : MetricType) : Prop :=
  length (metric_LabelValues m) + length (fam_LabelValues f)
  <= length (metric_LabelKeys m) + length (fam_LabelKeys f).

(** No metric is null, and all their label values have a key. *)
Definition family_ok (f : FamilyType) : Prop :=
  Forall (is_metric (keys_cover f)) (fam_Metrics f).

#[global] Instance keys_cover_dec f m : Decision (keys_cover f m).
Proof. unfold keys_cover. apply _. Defined.

(** ** Lemmas: labels *)

Lemma expand_labels_Done LabelKeys i entries keys values :
  i < length LabelKeys →
  expand_labels LabelKeys i entries keys values =
  Done (keys ++ ((λ kv, sanitize (LabelKeys !!! i +:+ kv.1)) <$> entries),
        values ++ entries.*2).
Proof.
  intros Hi. revert keys values.
  induction entries as [|[k v] entries IH]; intros keys values; simpl.
  - by rewrite !app_nil_r.
  - rewrite index_Done by done. simpl. rewrite IH. by rewrite <- !app_assoc.
Qed.

Lemma resolve_labels_Done r obj site LabelKeys i queries keys values :
  i + length queries <= length LabelKeys →
  resolve_labels r obj site LabelKeys i queries keys values =
  Done (keys ++ (labels_of r obj site LabelKeys i queries).*1,
        values ++ (labels_of r obj site LabelKeys i queries).*2).
Proof.
  revert i keys values. induction queries as [|query queries IH]; intros i keys values Hl; simpl.
  { by rewrite !app_nil_r. }
  simpl in Hl. unfold query_labels. destruct (_ !! query) as [value|]; simpl.
  - rewrite index_Done by lia. simpl. rewrite IH by lia. by rewrite <- !app_assoc.
  - rewrite expand_labels_Done by lia. simpl. rewrite IH by lia.
    rewrite !fmap_app, <- !list_fmap_compose, !app_assoc. done.
Qed.

(** The keys and the values are appended in step: whatever the configuration,
    the two slices have the same length. *)
Lemma expand_labels_length LabelKeys i entries keys values keys' values' :
  length keys = length values →
  expand_labels LabelKeys i entries keys values = Done (keys', values') →
  length keys' = length values'.
Proof.
  revert keys values. induction entries as [|[k v] entries IH]; intros keys values Hl; simpl.
  - by intros [= <- <-].
  - destruct (index LabelKeys i); simpl; [|done].
    apply IH. rewrite !length_app. simpl. lia.
Qed.

Lemma resolve_labels_length r obj site LabelKeys i queries keys values keys' values' :
  length keys = length values →
  resolve_labels r obj site LabelKeys i queries keys values = Done (keys', values') →
  length keys' = length values'.
Proof.
  revert i keys values. induction queries as [|query queries IH];
    intros i keys values Hl; simpl.
  - by intros [= <- <-].
  - destruct (_ !! query).
    + destruct (index LabelKeys i); simpl; [|done].
      apply IH. rewrite !length_app. simpl. lia.
    + destruct (expand_labels _ _ _ _ _) as [[ks vs]|] eqn:He; simpl; [|done].
      apply IH. by eapply expand_labels_length.
Qed.

Lemma sanitize_lower_word key : string_forallb is_lower_word (sanitize key) = true.
Proof.
  unfold sanitize, ToLower. rewrite string_forallb_map.
  apply (string_forallb_impl is_word); [apply is_lower_word_to_lower|].
  apply replace_nonword_word.
Qed.

Lemma labels_of_lower_word r obj site LabelKeys i queries :
  Forall (λ key, string_forallb is_lower_word key = true)
    (labels_of r obj site LabelKeys i queries).*1.
Proof.
  revert i. induction queries as [|query queries IH]; intros i; simpl; [constructor|].
  rewrite fmap_app. apply Forall_app. split; [|apply IH].
  unfold query_labels. destruct (_ !! query); simpl.
  - repeat constructor. apply sanitize_lower_word.
  - rewrite <- list_fmap_compose. apply Forall_fmap, Forall_true.
    intros kv. apply sanitize_lower_word.
Qed.

(** Sorting the labels and appending the three of the object keeps that. *)
Lemma written_labels_lower_word g v k labels :
  Forall (λ key, string_forallb is_lower_word key = true) labels.*1 →
  Forall (λ kv, string_forallb is_lower_word kv.1 = true)
    (written_labels g v k labels.*1 labels.*2).
Proof.
  intros Hl. unfold written_labels. apply Forall_app. split; [|by repeat constructor].
  rewrite sorted_labels_perm, zip_fst_snd.
  by apply (Forall_fmap fst (λ key, string_forallb is_lower_word key = true)).
Qed.

(** ** Lemmas: [rawFrom] prints the text of the family *)

Lemma length_labels_of {A B} (l : list (A * B)) : length l.*1 = length l.*2.
Proof. by rewrite !length_fmap. Qed.

Lemma raw_metric_Done f obj site m :
  keys_cover f m →
  raw_metric f obj site m = Done (metric_line f obj site m, inherit_labels f m).
Proof.
  intros Hc. unfold raw_metric, metric_line. cbv zeta.
  destruct (family_resolver f _) as [r|]; [|done].
  rewrite resolve_labels_Done by (simpl; rewrite !length_app; apply Hc). simpl.
  destruct (_ !! metric_Value m) as [value|]; [|done].
  rewrite writeMetricTo_spec. simpl. rewrite decide_True by apply length_labels_of.
  destruct (ParseFloat value); simpl; [|done].
  unfold sample_line. by rewrite !append_assoc.
Qed.

Lemma raw_metrics_Done f obj site j metrics :
  Forall (is_metric (keys_cover f)) metrics →
  raw_metrics f obj site j metrics =
  Done (string_concat (imap (λ j', from_option (metric_line f obj (site ++ [j + j'])) "") metrics),
        (λ m : option MetricType, inherit_labels f <$> m) <$> metrics).
Proof.
  intros Hc. revert j. induction Hc as [|[m|] metrics Hm _ IH]; intros j; [done| |done]. simpl.
  rewrite raw_metric_Done by done. simpl. rewrite IH. simpl. rewrite Nat.add_0_r.
  rewrite (imap_ext _ ((λ j', from_option (metric_line f obj (site ++ [j + j'])) "") ∘ S)
             metrics); [done|].
  intros j' m' _. simpl. by rewrite Nat.add_succ_r.
Qed.

Lemma rawFrom_Done f obj site :
  family_ok f →
  rawFrom f obj site =
  Done (family_text f obj site, set_Metrics (inherit_all f) f).
Proof. intros Hok. unfold rawFrom. by rewrite raw_metrics_Done. Qed.
End spec.

(** ** Lemmas: panics and iteration orders *)

Section panics.
Context `{!SortSlice} `{!MapRange} `{!CEL}.

(** The path resolver resolves every query to one value, so each query needs
    its own key. *)
Lemma resolve_labels_needs_keys obj site LabelKeys i queries keys values res :
  resolve_labels NewUnstructuredResolver obj site LabelKeys i queries keys values = Done res →
  queries = [] ∨ i + length queries <= length LabelKeys.
Proof.
  revert i keys values. induction queries as [|query queries IH]; intros i keys values; simpl.
  { by left. }
  destruct (unstructured_resolve_singleton query obj) as [v ->].
  rewrite lookup_singleton_eq. unfold index.
  destruct (LabelKeys !! i) as [key|] eqn:Hk; simpl; [|done].
  apply lookup_lt_Some in Hk. intros [->|?]%IH; simpl; right; lia.
Qed.

Lemma raw_metrics_covered f obj site j metrics res :
  (∀ m, Some m ∈ metrics →
     family_resolver f (metric_Resolver m) = Some NewUnstructuredResolver) →
  raw_metrics f obj site j metrics = Done res →
  Forall (is_metric (keys_cover f)) metrics.
Proof.
  revert j res. induction metrics as [|[m|] metrics IH]; intros j res Hr; [done| |done].
  assert (Hm := Hr m (list_elem_of_here _ _)). simpl.
  destruct (raw_metric f obj _ m) as [[t m']|] eqn:Hraw; simpl; [|done].
  destruct (raw_metrics f obj site (S j) metrics) as [r|] eqn:Hms; simpl; [|done].
  intros _. constructor; [simpl|apply (IH (S j) r); [|done]; intros ??; by apply Hr, list_elem_of_further].
  unfold raw_metric in Hraw. simpl in Hraw. rewrite Hm in Hraw.
  destruct (resolve_labels _ _ _ _ _ _ _ _) as [res'|] eqn:Hres; [|done].
  apply resolve_labels_needs_keys in Hres. unfold keys_cover.
  rewrite !length_app in Hres. destruct Hres as [Hnil|?]; [|lia].
  apply (f_equal length) in Hnil. rewrite length_app in Hnil. simpl in Hnil. lia.
Qed.
End panics.

Lemma query_labels_perm (R1 R2 : MapRange) r obj site1 site2 key i query :
  @query_labels R1 r obj site1 key i query ≡ₚ @query_labels R2 r obj site2 key i query.
Proof. unfold query_labels. case_match; [done|]. by rewrite !range_perm. Qed.

Lemma labels_of_perm (R1 R2 : MapRange) r obj site1 site2 LabelKeys i queries :
  @labels_of R1 r obj site1 LabelKeys i queries ≡ₚ @labels_of R2 r obj site2 LabelKeys i queries.
Proof.
  revert i. induction queries as [|query queries IH]; intros i; simpl; [done|].
  by rewrite (query_labels_perm R1 R2 r obj site1 site2), IH.
Qed.

(** ** Properties *)

Section properties.
Context `{!SortSlice} `{!MapRange} `{!CEL}.

(** C9: When no metric is null and every label value has a key, [rawFrom]
    never panics, prints exactly the text of the family (for each metric whose resolver is known and
    whose value resolves to a number, one line with its inherited labels
    resolved; nothing for the others), and leaves the family with the inherited
    labels appended to each metric. *)
Theorem rawFrom_refines f obj site :
  family_ok f →
  rawFrom f obj site =
  Done (family_text f obj site, set_Metrics (inherit_all f) f).
Proof. apply rawFrom_Done. Qed.

(** C36: With the path resolver, [rawFrom] completes exactly when no metric
    is null and every label value has a key: otherwise it panics, with a nil
    dereference or with the index [metric.LabelKeys[i]] out of range, on every
    object. *)
Theorem rawFrom_total_iff f obj site :
  (∀ m, Some m ∈ fam_Metrics f →
     family_resolver f (metric_Resolver m) = Some NewUnstructuredResolver) →
  (∃ res, rawFrom f obj site = Done res) ↔ family_ok f.
Proof.
  intros Hr. split.
  - intros [res Hres]. unfold rawFrom in Hres.
    destruct (raw_metrics _ _ _ _ _) as [r|] eqn:Hms; [|done].
    by apply (raw_metrics_covered _ _ _ _ _ _ Hr Hms).
  - intros Hok. rewrite rawFrom_Done by done. eauto.
Qed.

(** The resolved keys and values of a metric always have the same length,
    whatever the configuration, the resolver and the object, so the length
    check of [writeMetricTo] never fires there: the only error left is a value
    that does not parse. *)
Lemma resolved_labels_match r obj site LabelKeys queries keys values name g v k value
    text err :
  resolve_labels r obj site LabelKeys 0 queries [] [] = Done (keys, values) →
  writeMetricTo name g v k value keys values = Done (text, Some err) →
  ∃ e, ParseFloat value = Err e ∧ err = ParseValueError value e.
Proof.
  intros Hres. rewrite writeMetricTo_spec, decide_True by by eapply resolve_labels_length.
  destruct (ParseFloat value) as [x|e]; [done|]. intros [= _ <-]. eauto.
Qed.

(** Every line that a family prints is a well-formed sample: it reads back
    as the name of the family with its prefix and labels whose keys are all
    made of lower-case letters, digits and underscores (the sanitized keys of
    the configuration and the three that are appended). *)
Lemma family_lines_wf f obj site m :
  lacks "{" (fam_Name f) = true →
  metric_line f obj site m = "" ∨
  ∃ labels value,
    parse_sample (metric_line f obj site m) =
      Some (kubeCustomResourcePrefix +:+ fam_Name f, labels, value) ∧
    Forall (λ kv, string_forallb is_lower_word kv.1 = true) labels.
Proof.
  intros Hname. unfold metric_line. cbv zeta.
  destruct (family_resolver f _) as [r|]; [|by left].
  destruct (_ !! metric_Value _) as [value|]; [|by left].
  destruct (ParseFloat value) as [x|]; [|by left]. right.
  set (labels := labels_of _ _ _ _ _ _).
  set (gvk := object_gvk obj).
  assert (Forall (λ kv, string_forallb is_lower_word kv.1 = true)
            (written_labels (gvk_Group gvk) (gvk_Version gvk) (gvk_Kind gvk)
               labels.*1 labels.*2)) as Hw.
  { apply written_labels_lower_word, labels_of_lower_word. }
  eexists _, _. split; [|exact Hw].
  apply parse_sample_line; [|apply FormatF6_no_newline| |].
  - unfold lacks in *. by rewrite string_forallb_app, Hname.
  - apply (Forall_impl _ _ _ Hw). intros kv. by apply lower_word_lacks.
  - unfold written_labels. by destruct (sorted_labels _ _).
Qed.

(** The resolver of a metric is the first that is set among its own, its
    family's and CEL; a name that is neither empty, [cel] nor [unstructured]
    is an error, for which the metric is skipped. *)
Lemma family_resolver_precedence f inherited :
  let name := if decide (inherited = "") then fam_Resolver f else inherited in
  (name = "" ∨ name = "cel" → family_resolver f inherited = Some NewCELResolver) ∧
  (name = "unstructured" → family_resolver f inherited = Some NewUnstructuredResolver) ∧
  (name ∉ [""; "cel"; "unstructured"] → family_resolver f inherited = None ∧
     ∀ obj site m, metric_Resolver m = inherited → metric_line f obj site m = "").
Proof.
  intros name. unfold family_resolver, ResolverTypeNone, ResolverTypeCEL,
    ResolverTypeUnstructured. fold name. split; [|split].
  - intros [->| ->]; reflexivity.
  - intros ->. reflexivity.
  - rewrite !not_elem_of_cons. intros (Hn1 & Hn2 & Hn3 & _). rewrite !decide_False by done.
    split; [done|]. intros obj site m Hm. unfold metric_line, family_resolver. simpl.
    rewrite Hm. fold name. unfold ResolverTypeNone, ResolverTypeCEL, ResolverTypeUnstructured.
    fold name. by rewrite !decide_False.
Qed.
End properties.

(** The line of a metric whose resolved label keys are distinct does not
    depend on the order in which Go ranges over the resolved maps, nor on the
    sort: the exposition is deterministic. *)
Lemma metric_line_deterministic (S1 S2 : SortSlice) (R1 R2 : MapRange) (C : CEL)
    f obj site1 site2 m :
  (∀ r, family_resolver f (metric_Resolver m) = Some r →
    NoDup (@labels_of R1 r obj site1 (metric_LabelKeys (inherit_labels f m)) 0
             (metric_LabelValues (inherit_labels f m))).*1) →
  @metric_line S1 R1 C f obj site1 m = @metric_line S2 R2 C f obj site2 m.
Proof.
  intros Hnd. unfold metric_line. cbv zeta. simpl metric_Resolver.
  destruct (family_resolver f _) as [r|]; [|done]. specialize (Hnd r eq_refl).
  destruct (_ !! metric_Value _) as [value|]; [|done].
  destruct (ParseFloat value) as [x|]; [|done]. f_equal.
  apply written_labels_perm; [apply length_labels_of|done|].
  rewrite !zip_fst_snd. apply labels_of_perm.
Qed.

(** ** Witnesses *)

Module Example.
Import PathCEL.

Definition deployment : object :=
  [("apiVersion", Str "apps/v1"); ("kind", Str "Deployment");
   ("metadata", Map [("name", Str "web"); ("uid", Str "u1")]);
   ("spec", Map [("replicas", Int64 3);
                 ("selector", Map [("tier", Str "front"); ("app", Str "web")])])].

Definition replicas : MetricType := {|
  metric_LabelKeys := ["Name"]; metric_LabelValues := ["metadata.name"];
  metric_Value := "spec.replicas"; metric_Resolver := "" |}.

Definition selected : MetricType := {|
  metric_LabelKeys := ["sel-"]; metric_LabelValues := ["o.spec.selector"];
  metric_Value := "o.spec.replicas"; metric_Resolver := "cel" |}.

Definition family : FamilyType := {|
  fam_Name := "replicas"; fam_Help := "Replicas."; fam_t := "gauge";
  fam_Metrics := [Some replicas; Some selected]; fam_Resolver := "unstructured";
  fam_LabelKeys := ["cluster"]; fam_LabelValues := ["c1"] |}.

(** A family with a label value too many. *)
Definition uncovered : FamilyType := {|
  fam_Name := "replicas"; fam_Help := "Replicas."; fam_t := "gauge";
  fam_Metrics := [Some replicas]; fam_Resolver := "unstructured";
  fam_LabelKeys := []; fam_LabelValues := ["c1"] |}.

Definition first_line : string :=
  "kube_customresource_replicas{name=" +:+ char dquote +:+ "web" +:+ char dquote
  +:+ ",cluster=" +:+ char dquote +:+ "c1" +:+ char dquote
  +:+ ",group=" +:+ char dquote +:+ "apps" +:+ char dquote
  +:+ ",version=" +:+ char dquote +:+ "v1" +:+ char dquote
  +:+ ",kind=" +:+ char dquote +:+ "Deployment" +:+ char dquote
  +:+ "} 3.000000" +:+ char newline.

(** A map with a key equal to the query that leads to it. *)
Definition colliding : object := [("x", Map [("o.x", Str "1"); ("b", Str "2")])].

Example first_line_text : metric_line family deployment [] replicas = first_line.
Proof. vm_compute. reflexivity. Qed.
End Example.

Section witnesses.
Import PathCEL Example.

(** A composite value with a key equal to its own query is taken for a
    scalar: the query resolves to two entries, but the metric gets the one
    label of the colliding entry, and the other is lost. *)
Lemma composite_key_collision :
  Cel.Resolve "o.x" colliding = {["o.x" := "1"; "b" := "2"]} ∧
  query_labels NewCELResolver colliding [] "Key" 0 "o.x" = [("key", "1")].
Proof. split; [apply (bool_decide_unpack _)|]; vm_compute; [exact I|reflexivity]. Qed.

Lemma rawFrom_refines_witness :
  rawFrom family deployment [] =
  Done (family_text family deployment [],
        set_Metrics (inherit_all family) family).
Proof. apply rawFrom_refines. vm_compute. repeat constructor. Defined.

Lemma rawFrom_total_iff_witness : ¬ ∃ res, rawFrom uncovered deployment [] = Done res.
Proof.
  intros H. apply (rawFrom_total_iff uncovered deployment []) in H.
  - apply Forall_cons in H as [H _]. unfold keys_cover in H. simpl in H. lia.
  - intros m Hm. apply list_elem_of_singleton in Hm as [= ->]. reflexivity.
Defined.

Lemma resolved_labels_match_witness :
  ∃ e, ParseFloat "many" = Err e ∧
       ParseValueError "many" ErrSyntax = ParseValueError "many" e.
Proof.
  apply (resolved_labels_match NewUnstructuredResolver deployment [] ["Name"] ["metadata.name"]
           ["name"] ["web"] "up" "apps" "v1" "Deployment" "many"
           ("up" +:+ write_labels "{" (written_labels "apps" "v1" "Deployment" ["name"] ["web"])
              +:+ "} ")).
  - vm_compute. reflexivity.
  - vm_compute. reflexivity.
Defined.

Lemma family_lines_wf_witness :
  metric_line family deployment [] selected = "" ∨
  ∃ labels value,
    parse_sample (metric_line family deployment [] selected) =
      Some (kubeCustomResourcePrefix +:+ fam_Name family, labels, value) ∧
    Forall (λ kv, string_forallb is_lower_word kv.1 = true) labels.
Proof. apply family_lines_wf. reflexivity. Defined.

Lemma family_resolver_precedence_witness :
  family_resolver family "cel" = Some NewCELResolver ∧
  family_resolver family "" = Some NewUnstructuredResolver ∧
  family_resolver family "jq" = None.
Proof.
  split; [|split].
  - apply (family_resolver_precedence family "cel"). by right.
  - apply (family_resolver_precedence family ""). reflexivity.
  - apply (family_resolver_precedence family "jq").
    apply (bool_decide_unpack _). vm_compute. exact I.
Defined.

(** The iteration order that reverses the one of [canonical_range]. *)
Definition reversed_range : MapRange.
Proof.
  refine {| range A _ m := reverse (map_to_list m) |}.
  intros A site m. apply reverse_Permutation.
Defined.

Lemma metric_line_deterministic_witness :
  @metric_line _ canonical_range _ family deployment [0] selected =
  @metric_line _ reversed_range _ family deployment [1] selected.
Proof.
  apply metric_line_deterministic. intros r [= <-].
  apply (bool_decide_unpack _). vm_compute. exact I.
Defined.
End witnesses.
