(* ===== verification/Store.v ===== *)
(** * Stores ([internal/store.go])

    A store keeps, for each object of a custom resource, the text of every
    metric family, and is fed by a reflector through [Add], [Update],
    [Delete] and [Replace].  Its mutex makes each operation atomic; the
    operations are modelled as functions on the whole store.  [Add] mutates
    the families it prints: they inherit the resolver and the labels of the
    store at every call. *)
From S2P Require Import Prelude GoStrings Strconv GoSort Values Resolver Metric Family.

(** ** Data *)

Record StoreType : Type := {
  store_metrics : gmap string (list string);
  store_headers : list string;
  store_Group : string;
  store_Version : string;
  store_Kind : string;
  store_ResourceName : string;
  store_Selectors_Label : string;
  store_Selectors_Field : string;
  store_Families : list FamilyType;
  store_Resolver : string;
  store_LabelKeys : list string;
  store_LabelValues : list string;
}.

Definition set_store (metrics : gmap string (list string)) (families : list FamilyType)
    (s : StoreType) : StoreType := {|
  store_metrics := metrics;
  store_headers := store_headers s;
  store_Group := store_Group s;
  store_Version := store_Version s;
  store_Kind := store_Kind s;
  store_ResourceName := store_ResourceName s;
  store_Selectors_Label := store_Selectors_Label s;
  store_Selectors_Field := store_Selectors_Field s;
  store_Families := families;
  store_Resolver := store_Resolver s;
  store_LabelKeys := store_LabelKeys s;
  store_LabelValues := store_LabelValues s;
|}.

(** The objects a reflector delivers, [interface{}] in the code:
    [ToUnstructured] is that of [runtime.DefaultUnstructuredConverter] and
    [AccessorUID] is [meta.Accessor] followed by [GetUID]; both may fail. *)
Class KubeObject (Obj : Type) : Type := {
  ToUnstructured : Obj → result string object;
  AccessorUID : Obj → result string string;
}.

(** What holds of the objects that convert. *)
Class KubeObjectLaws (Obj : Type) `{!KubeObject Obj} : Prop := {
  accessor_uid (o : Obj) obj : ToUnstructured o = Ok obj → AccessorUID o = Ok (GetUID obj);
}.

(** An unstructured object is delivered as itself. *)
#[export] Instance object_KubeObject : KubeObject object := {|
  ToUnstructured := Ok;
  AccessorUID obj := Ok (GetUID obj);
|}.

#[export] Instance object_KubeObjectLaws : KubeObjectLaws object.
Proof. constructor. by intros o obj [= <-]. Qed.

(** [newStore]. *)
Definition newStore (headers : list string) (families : list FamilyType)
    (resolver : string) (labelKeys labelValues : list string) : StoreType := {|
  store_metrics := ∅;
  store_headers := headers;
  store_Group := ""; store_Version := ""; store_Kind := ""; store_ResourceName := "";
  store_Selectors_Label := ""; store_Selectors_Field := "";
  store_Families := families;
  store_Resolver := resolver;
  store_LabelKeys := labelKeys;
  store_LabelValues := labelValues;
|}.

(** What a family inherits from its store at each [Add]. *)
Definition inherit_store (s : StoreType) (f : FamilyType) : FamilyType := {|
  fam_Name := fam_Name f;
  fam_Help := fam_Help f;
  fam_t := fam_t f;
  fam_Metrics := fam_Metrics f;
  fam_Resolver :=
    if decide (fam_Resolver f = ResolverTypeNone) then store_Resolver s else fam_Resolver f;
  fam_LabelKeys := fam_LabelKeys f ++ store_LabelKeys s;
  fam_LabelValues := fam_LabelValues f ++ store_LabelValues s;
|}.

(** ** Operations *)

Section store.
Context `{!SortSlice} `{!MapRange} `{!CEL}.

(** The loop of [Add] over the families: [familyMetrics] and the families as
    it leaves them. *)
Fixpoint add_families (s : StoreType) (obj : object) (site : list nat) (i : nat)
    (families : list FamilyType) : outcome (list string * list FamilyType) :=
  match families with
  | [] => mret ([], [])
  | f :: families =>
    let f := inherit_store s f in
    '(text, f) ← rawFrom f obj (site ++ [i]);
    '(texts, families) ← add_families s obj site (S i) families;
    mret (text :: texts, f :: families)
  end.

Section objects.
Context {Obj : Type} `{!KubeObject Obj}.

Definition Add (site : list nat) (objectI : Obj) (s : StoreType)
    : outcome (result string unit * StoreType) :=
  match ToUnstructured objectI with
  | Err e => mret (Err ("error converting object interface to unstructured: " +:+ e), s)
  | Ok obj =>
    '(familyMetrics, families) ← add_families s obj site 0 (store_Families s);
    mret (Ok tt, set_store (<[GetUID obj := familyMetrics]> (store_metrics s)) families s)
  end.

Definition Update (site : list nat) (objectI : Obj) (s : StoreType)
    : outcome (result string unit * StoreType) :=
  Add site objectI s.

Definition Delete (objectI : Obj) (s : StoreType) : result string unit * StoreType :=
  match AccessorUID objectI with
  | Err e => (Err ("error casting object interface: " +:+ e), s)
  | Ok uid => (Ok tt, set_store (delete uid (store_metrics s)) (store_Families s) s)
  end.

(** [Replace] keeps the contents, and the read accessors return nothing. *)
Definition Replace (objects : list Obj) (resourceVersion : string) (s : StoreType)
    : result string unit * StoreType :=
  (Ok tt, s).

Definition Resync (s : StoreType) : result string unit * StoreType := (Ok tt, s).

Definition List (s : StoreType) : list Obj := [].

Definition ListKeys (s : StoreType) : list string := [].

Definition Get (_ : Obj) (s : StoreType) : option Obj * bool * result string unit :=
  (None, false, Ok tt).

Definition GetByKey (_ : string) (s : StoreType) : option Obj * bool * result string unit :=
  (None, false, Ok tt).

(** What a reflector does to its store. *)
Inductive store_op : Type :=
| OpAdd (o : Obj)
| OpUpdate (o : Obj)
| OpDelete (o : Obj)
| OpReplace (l : list Obj) (resourceVersion : string)
| OpResync.

Definition store_apply (site : list nat) (op : store_op) (s : StoreType)
    : outcome (result string unit * StoreType) :=
  match op with
  | OpAdd o => Add site o s
  | OpUpdate o => Update site o s
  | OpDelete o => mret (Delete o s)
  | OpReplace l rv => mret (Replace l rv s)
  | OpResync => mret (Resync s)
  end.

(** A run of the reflector: the operations in order, each at its own site. *)
Fixpoint store_run (n : nat) (ops : list store_op) (s : StoreType) : outcome StoreType :=
  match ops with
  | [] => mret s
  | op :: ops =>
    '(_, s) ← store_apply [n] op s;
    store_run (S n) ops s
  end.
End objects.
End store.

Arguments store_op Obj : clear implicits.

(** ** What [Add] does to the families *)

(** A family after one [Add]. *)
Definition grow (s : StoreType) (f : FamilyType) : FamilyType :=
  let f := inherit_store s f in
  set_Metrics (inherit_all f) f.

(** [xs] once, then twice, ... up to [n] times, each after [ys]. *)
Definition accumulated {A} (ys xs : list A) (n : nat) : list A :=
  concat ((λ a, ys ++ concat (replicate a xs)) <$> seq 1 n).

(** Each level of the configuration gives a key to every one of its values, and
    no metric is null. *)
Definition family_covered (f : FamilyType) : Prop :=
  length (fam_LabelValues f) <= length (fam_LabelKeys f) ∧
  Forall (is_metric (λ m, length (metric_LabelValues m) <= length (metric_LabelKeys m)))
    (fam_Metrics f).

Definition store_covered (s : StoreType) : Prop :=
  length (store_LabelValues s) <= length (store_LabelKeys s) ∧
  Forall family_covered (store_Families s).

(** One header and, for each object, one text per family. *)
Definition store_wf (s : StoreType) : Prop :=
  length (store_headers s) = length (store_Families s) ∧
  map_Forall (λ _ texts, length texts = length (store_headers s)) (store_metrics s).

#[global] Instance family_covered_dec f : Decision (family_covered f).
Proof. unfold family_covered. apply _. Defined.
#[global] Instance store_covered_dec s : Decision (store_covered s).
Proof. unfold store_covered. apply _. Defined.
#[global] Instance store_wf_dec s : Decision (store_wf s).
Proof. unfold store_wf. apply _. Defined.

(** ** Lemmas: shape *)

Section shape.
Context `{!SortSlice} `{!MapRange} `{!CEL}.

Lemma raw_metric_leaves f obj site m text m' :
  raw_metric f obj site m = Done (text, m') → m' = inherit_labels f m.
Proof.
  unfold raw_metric. destruct (family_resolver f _) as [r|]; [|by intros [= _ <-]].
  destruct (resolve_labels _ _ _ _ _ _ _ _) as [[keys values]|]; simpl; [|done].
  destruct (_ !! metric_Value m); [|by intros [= _ <-]].
  rewrite writeMetricTo_spec. simpl. repeat case_match; by intros [= _ <-].
Qed.

Lemma raw_metrics_leaves f obj site j metrics text metrics' :
  raw_metrics f obj site j metrics = Done (text, metrics') →
  metrics' = (λ m : option MetricType, inherit_labels f <$> m) <$> metrics.
Proof.
  revert j text metrics'. induction metrics as [|[m|] metrics IH]; intros j text metrics'; simpl; [| |done].
  { by intros [= _ <-]. }
  destruct (raw_metric f obj _ m) as [[t m']|] eqn:Hm; simpl; [|done].
  destruct (raw_metrics f obj site (S j) metrics) as [[ts ms]|] eqn:Hms; simpl; [|done].
  intros [= _ <-]. apply raw_metric_leaves in Hm as ->. by apply IH in Hms as ->.
Qed.

Lemma rawFrom_leaves f obj site text f' :
  rawFrom f obj site = Done (text, f') →
  f' = set_Metrics (inherit_all f) f.
Proof.
  unfold rawFrom. destruct (raw_metrics _ _ _ _ _) as [[t ms]|] eqn:Hms; simpl; [|done].
  intros [= _ <-]. by apply raw_metrics_leaves in Hms as ->.
Qed.

Lemma add_families_leaves s obj site i families texts families' :
  add_families s obj site i families = Done (texts, families') →
  length texts = length families ∧ families' = grow s <$> families.
Proof.
  revert i texts families'.
  induction families as [|f families IH]; intros i texts families'; simpl.
  { by intros [= <- <-]. }
  destruct (rawFrom _ _ _) as [[t f']|] eqn:Hf; simpl; [|done].
  destruct (add_families _ _ _ _ _) as [[ts fs]|] eqn:Hfs; simpl; [|done].
  intros [= <- <-]. apply rawFrom_leaves in Hf as ->.
  apply IH in Hfs as [<- ->]. done.
Qed.

Lemma family_covered_ok f : family_covered f → family_ok f.
Proof.
  intros [Hf Hm]. unfold family_ok. apply (Forall_impl _ _ _ Hm).
  intros [m|] ?; [|done]. simpl in *. unfold keys_cover. lia.
Qed.

Lemma inherit_store_covered s f :
  length (store_LabelValues s) <= length (store_LabelKeys s) →
  family_covered f → family_covered (inherit_store s f).
Proof.
  intros Hs [Hf Hm]. split; simpl; [rewrite !length_app; lia|done].
Qed.

Lemma grow_covered s f :
  length (store_LabelValues s) <= length (store_LabelKeys s) →
  family_covered f → family_covered (grow s f).
Proof.
  intros Hs Hf. destruct (inherit_store_covered s f Hs Hf) as [Hf' Hm].
  split; [done|]. simpl. apply Forall_fmap, (Forall_impl _ _ _ Hm).
  intros [m|] ?; [|done]. simpl in *. rewrite !length_app in *. lia.
Qed.

Lemma add_families_Done s obj site i families :
  length (store_LabelValues s) <= length (store_LabelKeys s) →
  Forall family_covered families →
  add_families s obj site i families =
  Done (imap (λ i', λ f, family_text (inherit_store s f) obj (site ++ [i + i'])) families,
        grow s <$> families).
Proof.
  intros Hs Hf. revert i. induction Hf as [|f families Hf _ IH]; intros i; [done|]. simpl.
  rewrite rawFrom_Done by by apply family_covered_ok, inherit_store_covered.
  simpl. rewrite IH. simpl. rewrite Nat.add_0_r.
  rewrite (imap_ext _ ((λ i', λ f, family_text (inherit_store s f) obj (site ++ [i + i'])) ∘ S)
             families); [done|].
  intros i' f' _. simpl. by rewrite Nat.add_succ_r.
Qed.
End shape.

(** ** Lemmas: growth *)

Lemma concat_replicate_S {A} n (l : list A) :
  concat (replicate (S n) l) = concat (replicate n l) ++ l.
Proof. rewrite replicate_S_end, concat_app. simpl. by rewrite app_nil_r. Qed.

Lemma accumulated_S {A} (ys xs : list A) n :
  accumulated ys xs (S n) = accumulated ys xs n ++ (ys ++ concat (replicate (S n) xs)).
Proof.
  unfold accumulated. rewrite seq_S, fmap_app, concat_app. simpl. by rewrite app_nil_r.
Qed.

Lemma accumulated_length {A} (ys xs : list A) n :
  2 * length (accumulated ys xs n) = 2 * n * length ys + n * (n + 1) * length xs.
Proof.
  induction n as [|n IH]; [done|].
  rewrite accumulated_S, !length_app, length_concat, fmap_replicate, sum_list_replicate. nia.
Qed.

(** A family, and a metric of it, after [n] calls of [Add]. *)
Lemma grow_iter_family s n f :
  let f' := Nat.iter n (grow s) f in
  fam_LabelKeys f' = fam_LabelKeys f ++ concat (replicate n (store_LabelKeys s)) ∧
  fam_LabelValues f' = fam_LabelValues f ++ concat (replicate n (store_LabelValues s)).
Proof.
  induction n as [|n [IHk IHv]]; [by rewrite !app_nil_r|].
  rewrite !concat_replicate_S, !app_assoc. simpl. by rewrite IHk, IHv.
Qed.

Lemma grow_iter_metric s n f j m :
  fam_Metrics f !! j = Some (Some m) →
  ∃ m', fam_Metrics (Nat.iter n (grow s) f) !! j = Some (Some m') ∧
    metric_LabelKeys m' =
      metric_LabelKeys m ++ accumulated (fam_LabelKeys f) (store_LabelKeys s) n ∧
    metric_LabelValues m' =
      metric_LabelValues m ++ accumulated (fam_LabelValues f) (store_LabelValues s) n.
Proof.
  intros Hm. induction n as [|n (m' & Hm' & Hk & Hv)].
  { exists m. by rewrite !app_nil_r. }
  destruct (grow_iter_family s n f) as [Hfk Hfv].
  simpl. unfold inherit_all. simpl. rewrite list_lookup_fmap, Hm'. simpl. eexists. split; [done|].
  simpl.
  rewrite !accumulated_S, !concat_replicate_S, Hfk, Hfv, Hk, Hv, <- !app_assoc. done.
Qed.

Lemma fmap_iter_lookup {A} (g : A → A) n (l : list A) i :
  Nat.iter n (fmap g) l !! i = Nat.iter n g <$> l !! i.
Proof.
  induction n as [|n IH]; simpl; [by destruct (l !! i)|].
  rewrite list_lookup_fmap, IH. by destruct (l !! i).
Qed.

(** ** Lemmas: operations *)

(** The number of [Add]s and [Update]s of a run whose object converts. *)
Definition is_add `{!KubeObject Obj} (op : store_op Obj) : bool :=
  match op with
  | OpAdd o | OpUpdate o =>
    match ToUnstructured o with Ok _ => true | Err _ => false end
  | _ => false
  end.

Definition adds `{!KubeObject Obj} (ops : list (store_op Obj)) : nat :=
  length (filter (λ op, is_add op = true) ops).

(** The keys that should be in the store after a run: added and not deleted
    since.  This is the abstract machine a store implements. *)
Definition keys_step `{!KubeObject Obj} (uids : gset string) (op : store_op Obj)
    : gset string :=
  match op with
  | OpAdd o | OpUpdate o =>
    match ToUnstructured o with Ok obj => {[GetUID obj]} ∪ uids | Err _ => uids end
  | OpDelete o => match AccessorUID o with Ok uid => uids ∖ {[uid]} | Err _ => uids end
  | OpReplace _ _ | OpResync => uids
  end.

Definition keys_run `{!KubeObject Obj} (uids : gset string) (ops : list (store_op Obj))
    : gset string := foldl keys_step uids ops.

Section operations.
Context `{!SortSlice} `{!MapRange} `{!CEL} {Obj : Type} `{!KubeObject Obj}.

(** The texts that an [Add] stores for an object. *)
Definition object_texts (s : StoreType) (obj : object) (site : list nat) : list string :=
  imap (λ i, λ f, family_text (inherit_store s f) obj (site ++ [i])) (store_Families s).

Lemma Add_Done site o s obj :
  store_covered s → ToUnstructured o = Ok obj →
  Add site o s =
  Done (Ok tt, set_store (<[GetUID obj := object_texts s obj site]> (store_metrics s))
                 (grow s <$> store_Families s) s).
Proof.
  intros [Hs Hf] Ho. unfold Add. rewrite Ho.
  by rewrite add_families_Done.
Qed.

(** What any successful call did, whatever the configuration. *)
Lemma Add_inv site o s r s' :
  Add site o s = Done (r, s') →
  match ToUnstructured o with
  | Err e => s' = s
  | Ok obj => r = Ok tt ∧ ∃ texts, length texts = length (store_Families s) ∧
      s' = set_store (<[GetUID obj := texts]> (store_metrics s))
             (grow s <$> store_Families s) s
  end.
Proof.
  unfold Add. destruct (ToUnstructured o) as [obj|e]; [|by intros [= _ <-]].
  destruct (add_families _ _ _ _ _) as [[texts fs]|] eqn:Hadd; simpl; [|done].
  intros [= <- <-]. apply add_families_leaves in Hadd as [Hl ->]. eauto.
Qed.

Lemma store_apply_inv site op s r s' :
  store_apply site op s = Done (r, s') →
  s' = set_store (store_metrics s')
         (if is_add op then grow s <$> store_Families s else store_Families s) s ∧
  dom (store_metrics s') = keys_step (dom (store_metrics s)) op ∧
  (store_wf s → store_wf s').
Proof.
  intros Hop.
  assert (s = set_store (store_metrics s) (store_Families s) s) as Hid by by destruct s.
  destruct op as [o|o|o|l rv|]; simpl in Hop.
  1,2: apply Add_inv in Hop; simpl; destruct (ToUnstructured o) as [obj|e];
    [destruct Hop as (_ & texts & Hlen & ->)|by subst].
  1,2: split; [done|]; split; [simpl; by rewrite dom_insert_L|];
    intros [Hh Hm]; split; simpl; [by rewrite length_fmap|];
    apply map_Forall_insert_2; [congruence|done].
  - unfold Delete in Hop. simpl. destruct (AccessorUID o); injection Hop as _ <-; [|done].
    split; [done|]. split; [simpl; by rewrite dom_delete_L|].
    intros [Hh Hm]; split; [done|]. by apply map_Forall_delete.
  - by injection Hop as _ <-.
  - by injection Hop as _ <-.
Qed.

Lemma set_store_covered s metrics families :
  store_covered s → Forall family_covered families →
  store_covered (set_store metrics families s).
Proof. intros [? _] ?. done. Qed.

(** On a covered configuration every operation terminates normally. *)
Lemma store_apply_covered site op s :
  store_covered s → ∃ r s', store_apply site op s = Done (r, s') ∧ store_covered s'.
Proof.
  intros Hc. pose proof Hc as [Hs Hf].
  assert (∀ o, ∃ r s', Add site o s = Done (r, s') ∧ store_covered s') as Hadd.
  { intros o. destruct (ToUnstructured o) as [obj|e] eqn:Ho.
    - rewrite (Add_Done _ _ _ _ Hc Ho). eexists _, _. split; [done|].
      apply set_store_covered; [done|]. apply Forall_fmap, (Forall_impl _ _ _ Hf).
      intros f. by apply grow_covered.
    - unfold Add. rewrite Ho. by eexists _, _. }
  destruct op as [o|o|o|l rv|]; simpl; [apply Hadd|apply Hadd| |by eexists _, _..].
  unfold Delete. destruct (AccessorUID o); by eexists _, _.
Qed.

Lemma store_run_inv n ops s s' :
  store_run n ops s = Done s' →
  s' = set_store (store_metrics s')
         (Nat.iter (adds ops) (fmap (grow s)) (store_Families s)) s ∧
  dom (store_metrics s') = keys_run (dom (store_metrics s)) ops ∧
  (store_wf s → store_wf s').
Proof.
  revert n s. induction ops as [|op ops IH]; intros n s; simpl.
  { intros [= <-]. by destruct s. }
  destruct (store_apply [n] op s) as [[r s1]|] eqn:Hop; simpl; [|done].
  intros Hrun. apply IH in Hrun as (Hs' & Hdom & Hwf).
  apply store_apply_inv in Hop as (Hs1 & Hdom1 & Hwf1).
  split; [|split; [by rewrite Hdom, Hdom1|auto]].
  rewrite Hs', Hs1. unfold adds. rewrite filter_cons.
  assert (∀ ms fs, grow (set_store ms fs s) = grow s) as Hg by done.
  destruct (is_add op) eqn:Ha; simpl; [|done].
  by rewrite Hg, Nat.iter_swap.
Qed.

Lemma store_run_covered n ops s :
  store_covered s → ∃ s', store_run n ops s = Done s' ∧ store_covered s'.
Proof.
  revert n s. induction ops as [|op ops IH]; intros n s Hc; simpl; [by eexists|].
  destruct (store_apply_covered [n] op s Hc) as (r & s1 & -> & Hc1). simpl. eauto.
Qed.
End operations.

(** ** Properties *)

Section properties.
Context `{!SortSlice} `{!MapRange} `{!CEL} {Obj : Type} `{!KubeObject Obj}.

(** Every run of store operations that does not panic preserves the
    well-formedness of the store: one header per family and, for every object,
    one text per header.  It holds for any configuration, resolver and
    sequence of operations, failed conversions included. *)
Lemma store_run_wf n ops s s' :
  store_wf s → store_run n ops s = Done s' → store_wf s'.
Proof. intros Hwf Hrun. by apply store_run_inv in Hrun as (_ & _ & ?); auto. Qed.

(** On a configuration in which each level gives a key to each of its label
    values, no sequence of operations panics, however long: the accumulation
    of inherited labels keeps keys and values matched. *)
Lemma store_run_total n ops s :
  store_covered s → ∃ s', store_run n ops s = Done s' ∧ store_covered s'.
Proof. apply store_run_covered. Qed.

(** A store implements the set of the objects added and not deleted since:
    after any run, an object has texts in the store if and only if the
    abstract set machine says so.  [Replace] and [Resync] change neither. *)
Lemma store_keys_refinement n ops s s' :
  store_run n ops s = Done s' →
  dom (store_metrics s') = keys_run (dom (store_metrics s)) ops.
Proof. intros Hrun. by apply store_run_inv in Hrun as (_ & ? & _). Qed.

(** What [Add] does.  An object that does not convert is an error and
    changes nothing.  Otherwise the store maps the UID of the object to the
    texts of its families, in their order, each printed after the family
    inherits the resolver and the labels of the store; the texts of the other
    objects are unchanged. *)
Lemma Add_spec site o s :
  store_covered s →
  match ToUnstructured o with
  | Err e => Add site o s =
      Done (Err ("error converting object interface to unstructured: " +:+ e), s)
  | Ok obj => ∃ s', Add site o s = Done (Ok tt, s') ∧
      store_metrics s' !! GetUID obj =
        Some (imap (λ i f, family_text (inherit_store s f) obj (site ++ [i]))
                (store_Families s)) ∧
      ∀ uid, uid ≠ GetUID obj → store_metrics s' !! uid = store_metrics s !! uid
  end.
Proof.
  intros Hc. destruct (ToUnstructured o) as [obj|e] eqn:Ho.
  - eexists. split; [by apply Add_Done|]. simpl.
    split; [by rewrite lookup_insert_eq|]. intros uid Hne. by rewrite lookup_insert_ne.
  - unfold Add. by rewrite Ho.
Qed.

(** An object that is added and then deleted leaves no text behind, and the
    others keep theirs. *)
Lemma Add_Delete `{!KubeObjectLaws Obj} site o s obj :
  store_covered s → ToUnstructured o = Ok obj →
  ∃ s1 s2, Add site o s = Done (Ok tt, s1) ∧ Delete o s1 = (Ok tt, s2) ∧
    store_metrics s2 = delete (GetUID obj) (store_metrics s).
Proof.
  intros Hc Ho. eexists _, _. split; [by apply Add_Done|].
  unfold Delete. rewrite (accessor_uid _ _ Ho). split; [done|]. simpl.
  by rewrite delete_insert_eq.
Qed.

(** C20: The labels of a metric grow without bound.  After a run with [n]
    successful additions, the label keys of every metric are its own followed
    by those of its family and one copy of those of the store, then those of
    the family and two copies, and so on up to [n] copies: with [a] keys in
    the family and [b] in the store it has [n * a + n (n + 1) / 2 * b] more
    keys than configured. *)
Theorem labels_accumulate n ops s s' i j f m :
  store_run n ops s = Done s' →
  store_Families s !! i = Some f → fam_Metrics f !! j = Some (Some m) →
  ∃ f' m', store_Families s' !! i = Some f' ∧ fam_Metrics f' !! j = Some (Some m') ∧
    metric_LabelKeys m' =
      metric_LabelKeys m ++ accumulated (fam_LabelKeys f) (store_LabelKeys s) (adds ops) ∧
    2 * length (metric_LabelKeys m') =
      2 * length (metric_LabelKeys m) + 2 * adds ops * length (fam_LabelKeys f)
      + adds ops * (adds ops + 1) * length (store_LabelKeys s).
Proof.
  intros Hrun Hf Hm. apply store_run_inv in Hrun as (-> & _ & _). simpl.
  rewrite fmap_iter_lookup, Hf. simpl.
  destruct (grow_iter_metric s (adds ops) f j m Hm) as (m' & Hm' & Hk & _).
  exists (Nat.iter (adds ops) (grow s) f), m'. split_and!; [done..|].
  rewrite Hk, length_app.
  pose proof (accumulated_length (fam_LabelKeys f) (store_LabelKeys s) (adds ops)). lia.
Qed.
End properties.

(** ** Witnesses *)

Module StoreExample.
Export PathCEL Family.Example.

(** A store of the family of [Family.Example], with a label of its own. *)
Definition store : StoreType := set_store ∅ [family]
  (newStore ["# HELP"] [] "unstructured" ["env"] ["prod"]).

Definition ops : list (store_op object) :=
  [OpAdd deployment; OpReplace [] "7"; OpUpdate deployment; OpResync].

(** The label keys of the first line that an addition to [s] prints. *)
Definition first_keys (s : StoreType) : list string :=
  match store_Families s with
  | f :: _ =>
    match fam_Metrics f with
    | Some m :: _ =>
      match parse_sample (metric_line (inherit_store s f) deployment [] m) with
      | Some (_, labels, _) => labels.*1
      | None => []
      end
    | _ => []
    end
  | [] => []
  end.

(** The labels of the first and of the second addition. *)
Example first_keys_once : first_keys store = ["env"; "name"; "cluster"; "group"; "version"; "kind"].
Proof. vm_compute. reflexivity. Qed.

Example first_keys_twice :
  first_keys (set_store ∅ (grow store <$> store_Families store) store) =
  ["env"; "env"; "env"; "name"; "cluster"; "cluster"; "group"; "version"; "kind"].
Proof. vm_compute. reflexivity. Qed.

Lemma store_run_exists : ∃ s', store_run 0 ops store = Done s'.
Proof.
  destruct (store_run_covered 0 ops store) as (s' & Hs' & _); [|eauto].
  apply (bool_decide_unpack _). vm_compute. exact I.
Qed.

Lemma store_run_wf_witness : ∃ s', store_run 0 ops store = Done s' ∧ store_wf s'.
Proof.
  destruct store_run_exists as [s' Hrun]. exists s'. split; [exact Hrun|].
  apply (store_run_wf 0 ops store s'); [|exact Hrun].
  apply (bool_decide_unpack _). vm_compute. exact I.
Defined.

Lemma store_run_total_witness : ∃ s', store_run 0 ops store = Done s' ∧ store_covered s'.
Proof.
  apply store_run_total. apply (bool_decide_unpack _). vm_compute. exact I.
Defined.

(** The object that [Replace] does not list is still there. *)
Lemma store_keys_refinement_witness :
  ∃ s', store_run 0 ops store = Done s' ∧ dom (store_metrics s') = {["u1"]}.
Proof.
  destruct store_run_exists as [s' Hrun]. exists s'. split; [exact Hrun|].
  rewrite (store_keys_refinement 0 ops store s' Hrun).
  apply (bool_decide_unpack _). vm_compute. exact I.
Defined.

Lemma Add_spec_witness :
  ∃ s', Add [] deployment store = Done (Ok tt, s') ∧
    store_metrics s' !! "u1" =
      Some [family_text (inherit_store store family) deployment [0]] ∧
    ∀ uid, uid ≠ "u1" → store_metrics s' !! uid = store_metrics store !! uid.
Proof.
  refine (Add_spec (Obj := object) [] deployment store _).
  apply (bool_decide_unpack _). vm_compute. exact I.
Defined.

Lemma Add_Delete_witness :
  ∃ s1 s2, Add [] deployment store = Done (Ok tt, s1) ∧ Delete deployment s1 = (Ok tt, s2) ∧
    store_metrics s2 = delete "u1" (store_metrics store).
Proof.
  apply (Add_Delete [] deployment store deployment); [|reflexivity].
  apply (bool_decide_unpack _). vm_compute. exact I.
Defined.

Lemma labels_accumulate_witness :
  ∃ s' f' m', store_run 0 ops store = Done s' ∧
    store_Families s' !! 0 = Some f' ∧ fam_Metrics f' !! 0 = Some (Some m') ∧
    metric_LabelKeys m' = ["Name"; "cluster"; "env"; "cluster"; "env"; "env"].
Proof.
  destruct store_run_exists as [s' Hrun].
  destruct (labels_accumulate 0 ops store s' 0 0 family replicas Hrun)
    as (f' & m' & Hf & Hm & Hk & _); [reflexivity..|].
  exists s', f', m'. split; [exact Hrun|]. split; [exact Hf|]. split; [exact Hm|].
  rewrite Hk. reflexivity.
Defined.
End StoreExample.
