(* ===== verification/Writer.v ===== *)
(** * The metrics writer ([internal/writer.go])

    [writeAllTo] writes the stores of one resource to an [io.Writer]: for each
    store and each header, the header line and then the text of that family
    for every object of the store.  Any write may fail, and the first failure
    ends the call.  The read locks it holds on the stores make the stores
    constant during the call ([Locking]), so they are arguments here. *)
From S2P Require Import Prelude GoStrings Strconv GoSort Values Resolver Metric Family Store.

(** ** [io.Writer] *)

(** [Write] returns the number of bytes written, with an error when it is not
    all of them, and changes the state of the writer. *)
Class IOWriter (W : Type) : Type := {
  io_Write : string → W → result (nat * string) nat * W;
}.

(** A writer in memory, as [bytes.Buffer] or [strings.Builder]: no write
    fails. *)
#[export] Instance buffer_IOWriter : IOWriter string := {|
  io_Write s w := (Ok (Strings.String.length s), w +:+ s);
|}.

(** The errors of [writeAllTo]. *)
Inductive write_error : Type :=
| HelpWriteError (header : string) (n : nat) (err : string)
| FamilyWriteError (n : nat) (err : string).

(** ** Definitions *)

(** [if header != "" && header != "\n" { header += "\n" }]. *)
Definition header_line (header : string) : string :=
  if negb (bool_decide (header = "")) && negb (bool_decide (header = char newline))
  then header +:+ char newline
  else header.

Section writer.
Context `{!MapRange} {W : Type} `{!IOWriter W}.

(** The loop over the objects of a store, for the family [i]. *)
Fixpoint write_families (i : nat) (entries : list (string * list string)) (w : W)
    : outcome (result write_error unit * W) :=
  match entries with
  | [] => mret (Ok tt, w)
  | (_, metricFamilies) :: entries =>
    text ← index metricFamilies i;
    match io_Write text w with
    | (Err (n, e), w) => mret (Err (FamilyWriteError n e), w)
    | (Ok _, w) => write_families i entries w
    end
  end.

(** The loop over the headers of the store [s], from the index [i]. *)
Fixpoint write_headers (site : list nat) (s : StoreType) (i : nat) (headers : list string) (w : W)
    : outcome (result write_error unit * W) :=
  match headers with
  | [] => mret (Ok tt, w)
  | header :: headers =>
    let header := header_line header in
    match io_Write header w with
    | (Err (n, e), w) => mret (Err (HelpWriteError header n e), w)
    | (Ok _, w) =>
      '(r, w) ← write_families i (range (site ++ [i]) (store_metrics s)) w;
      match r with
      | Err e => mret (Err e, w)
      | Ok _ => write_headers site s (S i) headers w
      end
    end
  end.

Fixpoint write_stores (site : list nat) (j : nat) (stores : list StoreType) (w : W)
    : outcome (result write_error unit * W) :=
  match stores with
  | [] => mret (Ok tt, w)
  | s :: stores =>
    '(r, w) ← write_headers (site ++ [j]) s 0 (store_headers s) w;
    match r with
    | Err e => mret (Err e, w)
    | Ok _ => write_stores site (S j) stores w
    end
  end.

(** [newMetricsWriter(stores...).writeAllTo(w)]. *)
Definition writeAllTo (site : list nat) (stores : list StoreType) (w : W)
    : outcome (result write_error unit * W) :=
  if length stores =? 0 then mret (Ok tt, w)
  else write_stores site 0 stores w.
End writer.

(** ** The exposition of a list of stores *)

(** One write: a header line, or the text of a family for an object. *)
Inductive chunk : Type :=
| HeaderChunk (header : string)
| FamilyChunk (text : string).

Definition chunk_text (c : chunk) : string :=
  match c with
  | HeaderChunk t | FamilyChunk t => t
  end.

Section exposition.
Context `{!MapRange}.

(** The writes for the header [i]: its line first, then every object. *)
Definition family_block (site : list nat) (s : StoreType) (i : nat) (header : string)
    : list chunk :=
  HeaderChunk (header_line header)
  :: ((λ entry : string * list string, FamilyChunk (entry.2 !!! i)) <$>
        range (site ++ [i]) (store_metrics s)).

Definition store_chunks (site : list nat) (s : StoreType) : list chunk :=
  concat (imap (family_block site s) (store_headers s)).

Definition all_chunks (site : list nat) (stores : list StoreType) : list chunk :=
  concat (imap (λ j, store_chunks (site ++ [j])) stores).

Definition exposition (site : list nat) (stores : list StoreType) : string :=
  string_concat (chunk_text <$> all_chunks site stores).

(** Writing a list of chunks until one fails. *)
Fixpoint write_chunks {W} `{!IOWriter W} (cs : list chunk) (w : W)
    : result write_error unit * W :=
  match cs with
  | [] => (Ok tt, w)
  | c :: cs =>
    match io_Write (chunk_text c) w with
    | (Err (n, e), w) =>
      (Err (match c with
            | HeaderChunk h => HelpWriteError h n e
            | FamilyChunk _ => FamilyWriteError n e
            end), w)
    | (Ok _, w) => write_chunks cs w
    end
  end.
End exposition.

(** ** Lemmas *)

Section lemmas.
Context `{!MapRange} {W : Type} `{!IOWriter W}.

Lemma write_chunks_app cs ds (w : W) :
  write_chunks (cs ++ ds) w =
  match write_chunks cs w with
  | (Ok _, w) => write_chunks ds w
  | (Err e, w) => (Err e, w)
  end.
Proof.
  revert w. induction cs as [|c cs IH]; intros w; [done|]. simpl.
  destruct (io_Write _ w) as [[n|[n e]] w']; [apply IH|done].
Qed.

Lemma write_families_chunks i entries (w : W) :
  Forall (λ entry : string * list string, i < length entry.2) entries →
  write_families i entries w =
  Done (write_chunks ((λ entry : string * list string, FamilyChunk (entry.2 !!! i)) <$> entries) w).
Proof.
  intros Hl. revert w. induction Hl as [|[uid texts] entries Hl _ IH]; intros w; [done|].
  simpl. simpl in Hl. rewrite index_Done by done. simpl.
  destruct (io_Write _ w) as [[n|[n e]] w']; [apply IH|done].
Qed.

Lemma write_headers_chunks site s i headers (w : W) :
  map_Forall (λ _ texts, i + length headers <= length texts) (store_metrics s) →
  write_headers site s i headers w =
  Done (write_chunks (concat (imap (λ i', family_block site s (i + i')) headers)) w).
Proof.
  revert i w. induction headers as [|header headers IH]; intros i w Hl; [done|].
  simpl. rewrite Nat.add_0_r.
  destruct (io_Write _ w) as [[n|[n e]] w']; [|done].
  rewrite write_families_chunks.
  - rewrite write_chunks_app. simpl.
    destruct (write_chunks _ w') as [[u|e] w'']; [|done].
    rewrite IH.
    + do 3 f_equal. apply imap_ext. intros i' h _. simpl. by rewrite Nat.add_succ_r.
    + apply (map_Forall_impl _ _ _ Hl). simpl. intros _ texts. lia.
  - rewrite range_perm. apply Forall_forall. intros [uid texts] Hin.
    apply elem_of_map_to_list in Hin. apply Hl in Hin. simpl in *. lia.
Qed.

Lemma write_stores_chunks site j stores (w : W) :
  Forall store_wf stores →
  write_stores site j stores w =
  Done (write_chunks (concat (imap (λ j', store_chunks (site ++ [j + j'])) stores)) w).
Proof.
  intros Hwf. revert j w. induction Hwf as [|s stores [_ Hs] _ IH]; intros j w; [done|].
  simpl. rewrite Nat.add_0_r, write_headers_chunks, write_chunks_app.
  - unfold store_chunks at 1. simpl.
    destruct (write_chunks _ w) as [[u|e] w']; [|done].
    rewrite IH. do 3 f_equal. apply imap_ext. intros j' s' _. simpl.
    by rewrite Nat.add_succ_r.
  - apply (map_Forall_impl _ _ _ Hs). intros _ texts ->. simpl. lia.
Qed.

(** On well-formed stores the call does the writes of [all_chunks], in order,
    up to the first that fails. *)
Lemma writeAllTo_chunks site stores (w : W) :
  Forall store_wf stores →
  writeAllTo site stores w = Done (write_chunks (all_chunks site stores) w).
Proof.
  intros Hwf. unfold writeAllTo. destruct stores as [|s stores]; [done|].
  by apply write_stores_chunks.
Qed.
End lemmas.

Lemma write_chunks_buffer cs (w : string) :
  write_chunks cs w = (Ok tt, w +:+ string_concat (chunk_text <$> cs)).
Proof.
  revert w. induction cs as [|c cs IH]; intros w; simpl.
  - by rewrite append_nil_r.
  - by rewrite IH, append_assoc.
Qed.

(** What two iteration orders have in common: the headers in the same places,
    and the same texts under each of them. *)
Definition same_block (b c : list chunk) : Prop :=
  head b = head c ∧ b ≡ₚ c.

Lemma family_block_order (R1 R2 : MapRange) site1 site2 s i header :
  same_block (@family_block R1 site1 s i header) (@family_block R2 site2 s i header).
Proof.
  split; [done|]. unfold family_block. f_equiv.
  by rewrite !range_perm.
Qed.

(** The blocks of the exposition: one per store and header. *)
Definition blocks `{!MapRange} (site : list nat) (stores : list StoreType) : list (list chunk) :=
  concat (imap (λ j s, imap (family_block (site ++ [j]) s) (store_headers s)) stores).

Lemma concat_concat {A} (l : list (list (list A))) : concat (concat l) = concat (concat (A:=A) <$> l).
Proof. induction l as [|x l IH]; [done|]. simpl. by rewrite concat_app, IH. Qed.

Lemma all_chunks_blocks `{!MapRange} site stores :
  all_chunks site stores = concat (blocks site stores).
Proof.
  unfold all_chunks, blocks. rewrite concat_concat, fmap_imap. reflexivity.
Qed.

Lemma Forall2_concat {A B} (P : A → B → Prop) (l : list (list A)) (k : list (list B)) :
  Forall2 (Forall2 P) l k → Forall2 P (concat l) (concat k).
Proof. induction 1; simpl; [constructor|by apply Forall2_app]. Qed.

Lemma Forall2_imap_same {A B C} (P : B → C → Prop) (f : nat → A → B) (g : nat → A → C) (l : list A) :
  (∀ i x, P (f i x) (g i x)) → Forall2 P (imap f l) (imap g l).
Proof.
  intros HP. revert f g HP. induction l as [|x l IH]; intros f g HP; simpl; constructor; [done|].
  apply IH. intros i y. apply HP.
Qed.

Lemma write_chunks_first_failure {W} `{!IOWriter W} cs (w : W) e w' :
  write_chunks cs w = (Err e, w') →
  ∃ cs1 c cs2 w1 n err, cs = cs1 ++ c :: cs2 ∧
    write_chunks cs1 w = (Ok tt, w1) ∧ io_Write (chunk_text c) w1 = (Err (n, err), w') ∧
    e = match c with
        | HeaderChunk h => HelpWriteError h n err
        | FamilyChunk _ => FamilyWriteError n err
        end.
Proof.
  revert w. induction cs as [|c cs IH]; intros w; simpl; [done|].
  destruct (io_Write _ w) as [[n|[n err]] w1] eqn:Hw.
  - intros (cs1 & d & cs2 & w2 & n' & err & -> & Hcs1 & ? & ?)%IH.
    exists (c :: cs1), d, cs2, w2, n', err. split_and!; try done. simpl. by rewrite Hw.
  - intros [= <- <-]. by exists [], c, cs, w, n, err.
Qed.

(** ** Properties *)

(** C10: Scraping well-formed stores never panics, whatever the writer does: it
    performs the writes of the exposition, in order (for each store and each
    header, the header line and then the text of that family for every
    object), up to the first that fails. *)
Theorem writeAllTo_refines `{!MapRange} {W} `{!IOWriter W} site stores (w : W) :
  Forall store_wf stores →
  writeAllTo site stores w = Done (write_chunks (all_chunks site stores) w).
Proof. apply writeAllTo_chunks. Qed.

(** To a writer that does not fail, the whole exposition is appended and no
    error is returned. *)
Lemma writeAllTo_exposition `{!MapRange} site stores (w : string) :
  Forall store_wf stores →
  writeAllTo site stores w = Done (Ok tt, w +:+ exposition site stores).
Proof. intros Hwf. rewrite writeAllTo_chunks by done. by rewrite write_chunks_buffer. Qed.

(** A failed scrape stopped at the first write that failed: what precedes
    it was written without an error, nothing follows it, and the error tells a
    header from a family. *)
Lemma writeAllTo_first_failure `{!MapRange} {W} `{!IOWriter W} site stores (w w' : W) e :
  Forall store_wf stores →
  writeAllTo site stores w = Done (Err e, w') →
  ∃ cs1 c cs2 w1 n err, all_chunks site stores = cs1 ++ c :: cs2 ∧
    write_chunks cs1 w = (Ok tt, w1) ∧ io_Write (chunk_text c) w1 = (Err (n, err), w') ∧
    e = match c with
        | HeaderChunk h => HelpWriteError h n err
        | FamilyChunk _ => FamilyWriteError n err
        end.
Proof.
  intros Hwf. rewrite writeAllTo_chunks by done. intros [= Hw].
  by apply write_chunks_first_failure.
Qed.

(** Two scrapes of the same stores differ at most in the order of the
    objects within a family: block by block, they have the same header first
    and the same texts under it. *)
Lemma writeAllTo_order (R1 R2 : MapRange) site1 site2 stores (w : string) :
  Forall store_wf stores →
  ∃ bs1 bs2,
    @writeAllTo R1 _ _ site1 stores w =
      Done (Ok tt, w +:+ string_concat (chunk_text <$> concat bs1)) ∧
    @writeAllTo R2 _ _ site2 stores w =
      Done (Ok tt, w +:+ string_concat (chunk_text <$> concat bs2)) ∧
    Forall2 same_block bs1 bs2.
Proof.
  intros Hwf. exists (@blocks R1 site1 stores), (@blocks R2 site2 stores).
  rewrite !writeAllTo_chunks, !write_chunks_buffer, !all_chunks_blocks by done.
  split; [done|]. split; [done|]. apply Forall2_concat, Forall2_imap_same. intros j s.
  apply Forall2_imap_same. intros i header. apply family_block_order.
Qed.

(** ** Witnesses *)

Module WriterExample.
Export StoreExample.

(** A writer that fails once its budget of writes is spent. *)
#[export] Instance limited_IOWriter : IOWriter (nat * string) := {|
  io_Write s w :=
    match w with
    | (O, out) => (Err (0, "broken pipe"), (O, out))
    | (S n, out) => (Ok (Strings.String.length s), (n, out +:+ s))
    end;
|}.

Definition filled : StoreType :=
  set_store {["u1" := ["a 1"]; "u2" := ["b 2"]]} [family] store.

Lemma filled_wf : Forall store_wf [filled].
Proof. repeat constructor; apply (bool_decide_unpack _); vm_compute; exact I. Qed.

Lemma writeAllTo_refines_witness :
  writeAllTo [] [filled] (2, "") = Done (write_chunks (all_chunks [] [filled]) (2, "")).
Proof. apply writeAllTo_refines. exact filled_wf. Defined.

Lemma writeAllTo_exposition_witness :
  writeAllTo [] [filled] "" = Done (Ok tt, "" +:+ exposition [] [filled]).
Proof. apply writeAllTo_exposition. exact filled_wf. Defined.

Lemma writeAllTo_first_failure_witness :
  ∃ w' cs1 c cs2 w1 n err, writeAllTo [] [filled] (0, "") = Done (Err (HelpWriteError
      ("# HELP" +:+ char newline) 0 "broken pipe"), w') ∧
    all_chunks [] [filled] = cs1 ++ c :: cs2 ∧
    write_chunks cs1 (0, "") = (Ok tt, w1) ∧ io_Write (chunk_text c) w1 = (Err (n, err), w').
Proof.
  assert (writeAllTo [] [filled] (0, "") = Done (Err (HelpWriteError
      ("# HELP" +:+ char newline) 0 "broken pipe"), (0, ""))) as Hw by reflexivity.
  destruct (writeAllTo_first_failure [] [filled] (0, "") (0, "") _ filled_wf Hw)
    as (cs1 & c & cs2 & w1 & n & err & Hc & H1 & H2 & _).
  exists (0, ""), cs1, c, cs2, w1, n, err. split; [exact Hw|].
  split; [exact Hc|]. split; [exact H1|exact H2].
Defined.

Lemma writeAllTo_order_witness :
  ∃ bs1 bs2,
    @writeAllTo canonical_range _ _ [] [filled] "" =
      Done (Ok tt, "" +:+ string_concat (chunk_text <$> concat bs1)) ∧
    @writeAllTo reversed_range _ _ [] [filled] "" =
      Done (Ok tt, "" +:+ string_concat (chunk_text <$> concat bs2)) ∧
    Forall2 same_block bs1 bs2.
Proof. apply writeAllTo_order. exact filled_wf. Defined.
End WriterExample.
