(* ===== verification/Types.v ===== *)
(** * The managed resource ([pkg/apis/crdmetrics/v1alpha1])

    The fields of a [CRDMetricsResource] that the controller reads or writes,
    and [Status.Set], which records a condition, as values.  Metadata that no
    code touches is left out; [DeepCopy] has the whole resource, in memory. *)
From S2P Require Import Prelude.

(** ** Data *)

Definition GroupName : string := "crdmetrics.instrumentation.k8s-sigs.io".

(** [SchemeGroupVersion], [Kind] and [Resource] of [register.go]. *)
Definition SchemeGroupVersion : string * string := (GroupName, "v1alpha1").
Definition Kind (kind : string) : string * string := (SchemeGroupVersion.1, kind).
Definition Resource (resource : string) : string * string := (SchemeGroupVersion.1, resource).

Definition ConditionTypeProcessed : nat := 0.
Definition ConditionTypeFailed : nat := 1.

Definition ConditionType : list string := ["Processed"; "Failed"].

Definition ConditionMessageTrue : list string :=
  ["Resource configuration has been processed successfully"; "Resource failed to process"].

Definition ConditionMessageFalse : list string :=
  ["Resource configuration is yet to be processed"; "N/A"].

Definition ConditionReasonTrue : list string := ["EventHandlerSucceeded"; "EventHandlerFailed"].

Definition ConditionReasonFalse : list string := ["EventHandlerRunning"; "N/A"].

(** [metav1.ConditionStatus] is a string type. *)
Definition ConditionTrue : string := "True".
Definition ConditionFalse : string := "False".

(** [metav1.Condition]; a time is its nanoseconds. *)
Record Condition : Type := {
  cond_Type : string;
  cond_Status : string;
  cond_ObservedGeneration : Z;
  cond_LastTransitionTime : Z;
  cond_Reason : string;
  cond_Message : string;
}.

Record CRDMetricsResource : Type := {
  res_Namespace : string;
  res_Name : string;
  res_UID : string;
  res_ResourceVersion : string;
  res_Generation : Z;
  res_Labels : option (gmap string string);
  res_Configuration : string;
  res_Conditions : list Condition;
}.

Definition set_Conditions (cs : list Condition) (r : CRDMetricsResource) : CRDMetricsResource := {|
  res_Namespace := res_Namespace r; res_Name := res_Name r; res_UID := res_UID r;
  res_ResourceVersion := res_ResourceVersion r; res_Generation := res_Generation r;
  res_Labels := res_Labels r; res_Configuration := res_Configuration r;
  res_Conditions := cs;
|}.

Definition set_Labels (ls : option (gmap string string)) (r : CRDMetricsResource)
    : CRDMetricsResource := {|
  res_Namespace := res_Namespace r; res_Name := res_Name r; res_UID := res_UID r;
  res_ResourceVersion := res_ResourceVersion r; res_Generation := res_Generation r;
  res_Labels := ls; res_Configuration := res_Configuration r;
  res_Conditions := res_Conditions r;
|}.

Definition set_ResourceVersion (rv : string) (r : CRDMetricsResource) : CRDMetricsResource := {|
  res_Namespace := res_Namespace r; res_Name := res_Name r; res_UID := res_UID r;
  res_ResourceVersion := rv; res_Generation := res_Generation r;
  res_Labels := res_Labels r; res_Configuration := res_Configuration r;
  res_Conditions := res_Conditions r;
|}.

(** The zero value with a name: [&CRDMetricsResource{}] and [SetName]. *)
Definition named_resource (name : string) : CRDMetricsResource := {|
  res_Namespace := ""; res_Name := name; res_UID := ""; res_ResourceVersion := "";
  res_Generation := 0%Z; res_Labels := None; res_Configuration := "";
  res_Conditions := [];
|}.

(** ** [Status.Set] *)

(** [slices.Index]; [None] stands for [-1], which no slice can be indexed
    with. *)
Fixpoint slices_Index (s : list string) (v : string) : option nat :=
  match s with
  | [] => None
  | n :: s => if decide (n = v) then Some 0 else S <$> slices_Index s v
  end.

Definition index_opt {A} (l : list A) (i : option nat) : outcome A :=
  match i with
  | Some i => index l i
  | None => Panicked (IndexOutOfRange (-1) (length l))
  end.

(** The search for an existing condition of the same type. *)
Fixpoint upsert (condition : Condition) (cs : list Condition) : list Condition :=
  match cs with
  | [] => [condition]
  | existing :: cs =>
    if decide (cond_Type existing = cond_Type condition) then condition :: cs
    else existing :: upsert condition cs
  end.

(** The first part of [Set], for a resource of a generation: the reason, the
    prefix of the message, the time [now] and the generation are filled in. *)
Definition complete_condition (now generation : Z) (condition : Condition) : outcome Condition :=
  let conditionTypeNumeric := slices_Index ConditionType (cond_Type condition) in
  '(reason, message) ←
    (if decide (cond_Status condition = ConditionTrue) then
       reason ← index_opt ConditionReasonTrue conditionTypeNumeric;
       message ← index_opt ConditionMessageTrue conditionTypeNumeric;
       mret (reason, message)
     else
       reason ← index_opt ConditionReasonFalse conditionTypeNumeric;
       message ← index_opt ConditionMessageFalse conditionTypeNumeric;
       mret (reason, message));
  mret {|
    cond_Type := cond_Type condition;
    cond_Status := cond_Status condition;
    cond_ObservedGeneration := generation;
    cond_LastTransitionTime := now;
    cond_Reason := reason;
    cond_Message := message +:+ ": " +:+ cond_Message condition;
  |}.

(** [status.Set(resource, condition)]; the status is that of [status] and the
    generation that of [resource], which need not be the same object. *)
Definition status_Set (now : Z) (resource : CRDMetricsResource) (condition : Condition)
    (status : list Condition) : outcome (list Condition) :=
  condition ← complete_condition now (res_Generation resource) condition;
  mret (upsert condition status).

(** The condition that the callers pass: the fields they set. *)
Definition new_condition (type status message : string) : Condition := {|
  cond_Type := type; cond_Status := status; cond_ObservedGeneration := 0%Z;
  cond_LastTransitionTime := 0%Z; cond_Reason := ""; cond_Message := message;
|}.

(** [resource.Status.Set(resource, condition)]. *)
Definition Set_condition (now : Z) (condition : Condition) (resource : CRDMetricsResource)
    : outcome CRDMetricsResource :=
  cs ← status_Set now resource condition (res_Conditions resource);
  mret (set_Conditions cs resource).

(** ** Deep copies ([zz_generated.deepcopy.go])

    The values of this model share nothing, so a deep copy is the value
    rebuilt field by field. *)
Definition Condition_DeepCopyInto (c : Condition) : Condition := {|
  cond_Type := cond_Type c; cond_Status := cond_Status c;
  cond_ObservedGeneration := cond_ObservedGeneration c;
  cond_LastTransitionTime := cond_LastTransitionTime c;
  cond_Reason := cond_Reason c; cond_Message := cond_Message c;
|}.

Definition DeepCopy (r : CRDMetricsResource) : CRDMetricsResource := {|
  res_Namespace := res_Namespace r; res_Name := res_Name r; res_UID := res_UID r;
  res_ResourceVersion := res_ResourceVersion r; res_Generation := res_Generation r;
  res_Labels := res_Labels r; res_Configuration := res_Configuration r;
  res_Conditions := map Condition_DeepCopyInto (res_Conditions r);
|}.

(** ** What [Set] promises

    [+listType=map] and [+listMapKey=type]: at most one condition of a type. *)
Definition conditions_wf (cs : list Condition) : Prop := NoDup (cond_Type <$> cs).

(** The types the API defines. *)
Definition known_type (type : string) : Prop := type ∈ ConditionType.

Definition find_condition (type : string) (cs : list Condition) : option Condition :=
  snd <$> list_find (λ c, cond_Type c = type) cs.

(** ** Lemmas *)

Lemma DeepCopy_eq r : DeepCopy r = r.
Proof.
  unfold DeepCopy. assert (map Condition_DeepCopyInto (res_Conditions r) = res_Conditions r) as ->.
  { induction (res_Conditions r) as [|c cs IH]; [done|]. simpl. rewrite IH. by destruct c. }
  by destruct r.
Qed.

Lemma upsert_types c cs :
  cond_Type <$> upsert c cs =
  if decide (cond_Type c ∈ (cond_Type <$> cs)) then cond_Type <$> cs
  else (cond_Type <$> cs) ++ [cond_Type c].
Proof.
  induction cs as [|e cs IH]; csimpl; [done|].
  destruct (decide (cond_Type e = cond_Type c)) as [He|He]; csimpl.
  - rewrite decide_True by (rewrite He; by left). by rewrite He.
  - rewrite IH. destruct (decide (cond_Type c ∈ (cond_Type <$> cs))) as [Hin|Hin].
    + by rewrite decide_True by by right.
    + rewrite decide_False; [done|]. rewrite elem_of_cons. naive_solver.
Qed.

(** Nothing is added for a type that is there. *)
Lemma upsert_length c cs :
  cond_Type c ∈ (cond_Type <$> cs) → length (upsert c cs) = length cs.
Proof.
  intros Hin. rewrite <- !(length_fmap cond_Type), upsert_types.
  by rewrite decide_True.
Qed.

Lemma upsert_wf c cs : conditions_wf cs → conditions_wf (upsert c cs).
Proof.
  unfold conditions_wf. rewrite upsert_types. case_decide as Hin; [done|].
  intros Hnd. apply NoDup_app. split; [done|]. split; [|by apply NoDup_singleton].
  intros x Hx ->%list_elem_of_singleton. done.
Qed.

Lemma find_condition_cons type c cs :
  find_condition type (c :: cs) =
  if decide (cond_Type c = type) then Some c else find_condition type cs.
Proof.
  unfold find_condition. simpl. case_decide; [done|].
  destruct (list_find _ cs) as [[i d]|]; done.
Qed.

Lemma find_upsert c cs type :
  find_condition type (upsert c cs) =
  if decide (cond_Type c = type) then Some c else find_condition type cs.
Proof.
  induction cs as [|e cs IH]; simpl.
  - rewrite find_condition_cons. done.
  - destruct (decide (cond_Type e = cond_Type c)) as [He|He];
      rewrite !find_condition_cons.
    + rewrite He. by repeat case_decide.
    + rewrite IH. repeat case_decide; congruence.
Qed.

Lemma known_type_cases type : known_type type → type = "Processed" ∨ type = "Failed".
Proof. unfold known_type, ConditionType. set_solver. Qed.

(** The reason and message prefix of a condition. *)
Definition condition_reason (type status : string) : string :=
  default "" (i ← slices_Index ConditionType type;
    (if decide (status = ConditionTrue) then ConditionReasonTrue else ConditionReasonFalse) !! i).

Definition condition_prefix (type status : string) : string :=
  default "" (i ← slices_Index ConditionType type;
    (if decide (status = ConditionTrue) then ConditionMessageTrue else ConditionMessageFalse) !! i).

(** The condition that [Set] stores. *)
Definition stored_condition (now generation : Z) (c : Condition) : Condition := {|
  cond_Type := cond_Type c;
  cond_Status := cond_Status c;
  cond_ObservedGeneration := generation;
  cond_LastTransitionTime := now;
  cond_Reason := condition_reason (cond_Type c) (cond_Status c);
  cond_Message := condition_prefix (cond_Type c) (cond_Status c) +:+ ": " +:+ cond_Message c;
|}.

Lemma status_Set_known now resource c status :
  known_type (cond_Type c) →
  status_Set now resource c status =
  Done (upsert (stored_condition now (res_Generation resource) c) status).
Proof.
  intros Hk. unfold status_Set, complete_condition, stored_condition, condition_reason, condition_prefix.
  apply known_type_cases in Hk as [Hk|Hk]; rewrite Hk; simpl; by case_decide.
Qed.

Lemma status_Set_unknown now resource c status :
  ¬ known_type (cond_Type c) → ∃ n, status_Set now resource c status = Panicked (IndexOutOfRange (-1) n).
Proof.
  unfold known_type, ConditionType. rewrite !not_elem_of_cons. intros (H1 & H2 & _).
  unfold status_Set, complete_condition. simpl.
  rewrite (decide_False (P := "Processed" = cond_Type c)) by congruence.
  rewrite (decide_False (P := "Failed" = cond_Type c)) by congruence. simpl.
  case_decide; by eexists.
Qed.

(** ** Properties *)

(** [Status.Set] with a type of the API records the condition under its
    type, with the reason, the message prefix, the generation of the resource
    and the time of the call; the conditions of the other types are untouched,
    and a list with at most one condition of each type stays one. *)
Lemma status_Set_spec now resource c status :
  known_type (cond_Type c) →
  ∃ status', status_Set now resource c status = Done status' ∧
    find_condition (cond_Type c) status' =
      Some (stored_condition now (res_Generation resource) c) ∧
    (∀ type, type ≠ cond_Type c → find_condition type status' = find_condition type status) ∧
    (conditions_wf status → conditions_wf status').
Proof.
  intros Hk. eexists. split; [by apply status_Set_known|].
  split; [|split].
  - by rewrite find_upsert, decide_True.
  - intros type Hne. rewrite find_upsert. by rewrite decide_False by by apply not_eq_sym.
  - apply upsert_wf.
Qed.

(** [Status.Set] with any other type panics: the index of the type is [-1]. *)
Lemma status_Set_panics now resource c status :
  ¬ known_type (cond_Type c) →
  ∃ n, status_Set now resource c status = Panicked (IndexOutOfRange (-1) n).
Proof. apply status_Set_unknown. Qed.

(** Two conditions of different types recorded one after the other are both
    there, in either order; of one type, only the last is. *)
Lemma status_Set_twice now1 now2 r c1 c2 status :
  known_type (cond_Type c1) → known_type (cond_Type c2) →
  ∃ s1 s2, status_Set now1 r c1 status = Done s1 ∧ status_Set now2 r c2 s1 = Done s2 ∧
    find_condition (cond_Type c2) s2 = Some (stored_condition now2 (res_Generation r) c2) ∧
    (cond_Type c1 ≠ cond_Type c2 →
      find_condition (cond_Type c1) s2 = Some (stored_condition now1 (res_Generation r) c1)) ∧
    (cond_Type c1 = cond_Type c2 → length s2 = length s1).
Proof.
  intros H1 H2. eexists _, _. split; [by apply status_Set_known|].
  split; [by apply status_Set_known|]. rewrite !find_upsert, decide_True by done.
  split; [done|]. split.
  - intros Hne. rewrite decide_False by by apply not_eq_sym. simpl.
    by rewrite decide_True.
  - intros Heq. rewrite (upsert_length (stored_condition now2 _ c2)); [done|]. simpl.
    rewrite <- Heq. rewrite upsert_types. case_decide; set_solver.
Qed.

(** ** Witnesses *)

Definition sample_condition (type : string) : Condition := new_condition type ConditionTrue "ok".

Lemma status_Set_spec_witness :
  ∃ status', status_Set 5 (named_resource "r") (sample_condition "Processed")
      [sample_condition "Failed"] = Done status' ∧
    find_condition "Processed" status' =
      Some (stored_condition 5 0 (sample_condition "Processed")) ∧
    (∀ type, type ≠ "Processed" →
      find_condition type status' = find_condition type [sample_condition "Failed"]) ∧
    (conditions_wf [sample_condition "Failed"] → conditions_wf status').
Proof.
  apply (status_Set_spec 5 (named_resource "r") (sample_condition "Processed")).
  left.
Defined.

Lemma status_Set_panics_witness :
  ∃ n, status_Set 5 (named_resource "r") (sample_condition "Ready") [] =
       Panicked (IndexOutOfRange (-1) n).
Proof.
  apply status_Set_panics. apply (bool_decide_unpack _). vm_compute. exact I.
Defined.

Lemma status_Set_twice_witness :
  ∃ s1 s2, status_Set 5 (named_resource "r") (sample_condition "Failed") [] = Done s1 ∧
    status_Set 6 (named_resource "r") (sample_condition "Processed") s1 = Done s2 ∧
    find_condition "Processed" s2 = Some (stored_condition 6 0 (sample_condition "Processed")) ∧
    find_condition "Failed" s2 = Some (stored_condition 5 0 (sample_condition "Failed")).
Proof.
  destruct (status_Set_twice 5 6 (named_resource "r") (sample_condition "Failed")
              (sample_condition "Processed") []) as (s1 & s2 & H1 & H2 & Hp & Hf & _).
  - right. left.
  - left.
  - exists s1, s2. split; [exact H1|]. split; [exact H2|]. split; [exact Hp|].
    apply Hf. discriminate.
Defined.
