(* ===== verification/DeepCopy.v ===== *)
(** * Deep copies in memory ([zz_generated.deepcopy.go])

    The handler works on a deep copy of the resource that the API returns, and
    writes its labels and its status in place.  [Types] has that resource as a
    value; here it is in memory: structs refer to cells of a heap through
    pointers, maps and slices, so that what a copy shares with its original is
    part of the model.  The generated functions are followed field by field,
    those of [metav1] that they call included ([apimachinery/pkg/apis/meta/v1,
    zz_generated.deepcopy.go]). *)
From S2P Require Import Prelude Types.

(** ** Structs

    The same structs serve twice.  In memory, a pointer or a map is a location
    and a slice is a backing array and a length; as values, they are what they
    refer to, and nil. *)

(** [metav1.Time], a [time.Time].  [time_loc] names its [*time.Location]: the time
    zones of the runtime are never written and are not in the heap below, so a
    copy that refers to the same one shares nothing that can change. *)
Record Time : Type := { wall : Z; ext : Z; time_loc : option positive }.

Record TypeMeta : Type := { type_Kind : string; type_APIVersion : string }.

Record CRDMetricsResourceSpec : Type := { Configuration : string }.

(** What pointers (and maps), and slices, are. *)
Record layout : Type := { Ptr : Type → Type; Slice : Type → Type }.

Set Implicit Arguments.

Section structs.
Context (L : layout).

Record OwnerReference : Type := {
  owner_APIVersion : string;
  owner_Kind : string;
  owner_Name : string;
  owner_UID : string;
  owner_Controller : L.(Ptr) bool;
  owner_BlockOwnerDeletion : L.(Ptr) bool;
}.

Record FieldsV1 : Type := { Raw : L.(Slice) ascii }.

Record ManagedFieldsEntry : Type := {
  mf_Manager : string;
  mf_Operation : string;
  mf_APIVersion : string;
  mf_Time : L.(Ptr) Time;
  mf_FieldsType : string;
  mf_FieldsV1 : L.(Ptr) FieldsV1;
  mf_Subresource : string;
}.

Record ObjectMeta : Type := {
  om_Name : string;
  om_GenerateName : string;
  om_Namespace : string;
  om_SelfLink : string;
  om_UID : string;
  om_ResourceVersion : string;
  om_Generation : Z;
  om_CreationTimestamp : Time;
  om_DeletionTimestamp : L.(Ptr) Time;
  om_DeletionGracePeriodSeconds : L.(Ptr) Z;
  om_Labels : L.(Ptr) (gmap string string);
  om_Annotations : L.(Ptr) (gmap string string);
  om_OwnerReferences : L.(Slice) OwnerReference;
  om_Finalizers : L.(Slice) string;
  om_ManagedFields : L.(Slice) ManagedFieldsEntry;
}.

Record ListMeta : Type := {
  lm_SelfLink : string;
  lm_ResourceVersion : string;
  lm_Continue : string;
  lm_RemainingItemCount : L.(Ptr) Z;
}.

Record CRDMetricsResourceStatus : Type := { Conditions : L.(Slice) Condition }.

Record CRDMetricsResource : Type := {
  r_TypeMeta : TypeMeta;
  r_ObjectMeta : ObjectMeta;
  r_Spec : CRDMetricsResourceSpec;
  r_Status : CRDMetricsResourceStatus;
}.

Record CRDMetricsResourceList : Type := {
  l_TypeMeta : TypeMeta;
  l_ListMeta : ListMeta;
  l_Items : L.(Slice) CRDMetricsResource;
}.
End structs.

Unset Implicit Arguments.

(** The values. *)
Definition values : layout := {| Ptr := option; Slice A := option (list A) |}.

(** The memory.  A slice starts at the start of its array, whose length is the
    capacity. *)
Definition loc : Type := positive.
Record slice : Type := { array : loc; len : nat }.
Definition memory : layout := {| Ptr _ := option loc; Slice _ := option slice |}.

(** What a location of the heap holds. *)
Inductive cell : Type :=
| CTime (t : Time)
| CInt64 (z : Z)
| CBool (b : bool)
| CMap (m : gmap string string)
| CBytes (l : list ascii)
| CStrings (l : list string)
| CConditions (l : list Condition)
| COwners (l : list (OwnerReference memory))
| CManaged (l : list (ManagedFieldsEntry memory))
| CFieldsV1 (f : FieldsV1 memory)
| CItems (l : list (CRDMetricsResource memory))
| CResource (r : CRDMetricsResource memory)
| CList (l : CRDMetricsResourceList memory)
| CSpec (s : CRDMetricsResourceSpec)
| CStatus (s : CRDMetricsResourceStatus memory).

Notation heap := (gmap loc cell).

(** The Go types that a location may hold. *)
Class Cell (A : Type) : Type := {
  mk_cell : A → cell;
  get_cell : cell → option A;
  get_mk_cell x : get_cell (mk_cell x) = Some x;
}.

#[export] Instance Cell_Time : Cell Time := {|
  mk_cell := CTime; get_cell c := match c with CTime x => Some x | _ => None end;
  get_mk_cell _ := eq_refl;
|}.
#[export] Instance Cell_int64 : Cell Z := {|
  mk_cell := CInt64; get_cell c := match c with CInt64 x => Some x | _ => None end;
  get_mk_cell _ := eq_refl;
|}.
#[export] Instance Cell_bool : Cell bool := {|
  mk_cell := CBool; get_cell c := match c with CBool x => Some x | _ => None end;
  get_mk_cell _ := eq_refl;
|}.
#[export] Instance Cell_map : Cell (gmap string string) := {|
  mk_cell := CMap; get_cell c := match c with CMap x => Some x | _ => None end;
  get_mk_cell _ := eq_refl;
|}.
#[export] Instance Cell_bytes : Cell (list ascii) := {|
  mk_cell := CBytes; get_cell c := match c with CBytes x => Some x | _ => None end;
  get_mk_cell _ := eq_refl;
|}.
#[export] Instance Cell_strings : Cell (list string) := {|
  mk_cell := CStrings; get_cell c := match c with CStrings x => Some x | _ => None end;
  get_mk_cell _ := eq_refl;
|}.
#[export] Instance Cell_conditions : Cell (list Condition) := {|
  mk_cell := CConditions; get_cell c := match c with CConditions x => Some x | _ => None end;
  get_mk_cell _ := eq_refl;
|}.
#[export] Instance Cell_owners : Cell (list (OwnerReference memory)) := {|
  mk_cell := COwners; get_cell c := match c with COwners x => Some x | _ => None end;
  get_mk_cell _ := eq_refl;
|}.
#[export] Instance Cell_managed : Cell (list (ManagedFieldsEntry memory)) := {|
  mk_cell := CManaged; get_cell c := match c with CManaged x => Some x | _ => None end;
  get_mk_cell _ := eq_refl;
|}.
#[export] Instance Cell_fields : Cell (FieldsV1 memory) := {|
  mk_cell := CFieldsV1; get_cell c := match c with CFieldsV1 x => Some x | _ => None end;
  get_mk_cell _ := eq_refl;
|}.
#[export] Instance Cell_items : Cell (list (CRDMetricsResource memory)) := {|
  mk_cell := CItems; get_cell c := match c with CItems x => Some x | _ => None end;
  get_mk_cell _ := eq_refl;
|}.
#[export] Instance Cell_resource : Cell (CRDMetricsResource memory) := {|
  mk_cell := CResource; get_cell c := match c with CResource x => Some x | _ => None end;
  get_mk_cell _ := eq_refl;
|}.
#[export] Instance Cell_list : Cell (CRDMetricsResourceList memory) := {|
  mk_cell := CList; get_cell c := match c with CList x => Some x | _ => None end;
  get_mk_cell _ := eq_refl;
|}.
#[export] Instance Cell_spec : Cell CRDMetricsResourceSpec := {|
  mk_cell := CSpec; get_cell c := match c with CSpec x => Some x | _ => None end;
  get_mk_cell _ := eq_refl;
|}.
#[export] Instance Cell_status : Cell (CRDMetricsResourceStatus memory) := {|
  mk_cell := CStatus; get_cell c := match c with CStatus x => Some x | _ => None end;
  get_mk_cell _ := eq_refl;
|}.

(** The zero values that [new] and [make] give. *)
Class Zero (A : Type) : Type := zero : A.

#[export] Instance Zero_Time : Zero Time := {| wall := 0; ext := 0; time_loc := None |}.
#[export] Instance Zero_int64 : Zero Z := 0%Z.
#[export] Instance Zero_bool : Zero bool := false.
#[export] Instance Zero_byte : Zero ascii := "000"%char.
#[export] Instance Zero_string : Zero string := "".
#[export] Instance Zero_condition : Zero Condition := new_condition "" "" "".
#[export] Instance Zero_owner : Zero (OwnerReference memory) := {|
  owner_APIVersion := ""; owner_Kind := ""; owner_Name := ""; owner_UID := "";
  owner_Controller := None : Ptr memory bool; owner_BlockOwnerDeletion := None : Ptr memory bool;
|}.
#[export] Instance Zero_fields : Zero (FieldsV1 memory) := {| Raw := None : Slice memory ascii |}.
#[export] Instance Zero_managed : Zero (ManagedFieldsEntry memory) := {|
  mf_Manager := ""; mf_Operation := ""; mf_APIVersion := ""; mf_Time := None : Ptr memory Time;
  mf_FieldsType := ""; mf_FieldsV1 := None : Ptr memory (FieldsV1 memory); mf_Subresource := "";
|}.
#[export] Instance Zero_meta : Zero (ObjectMeta memory) := {|
  om_Name := ""; om_GenerateName := ""; om_Namespace := ""; om_SelfLink := ""; om_UID := "";
  om_ResourceVersion := ""; om_Generation := 0%Z; om_CreationTimestamp := zero;
  om_DeletionTimestamp := None : Ptr memory Time;
  om_DeletionGracePeriodSeconds := None : Ptr memory Z;
  om_Labels := None : Ptr memory (gmap string string);
  om_Annotations := None : Ptr memory (gmap string string);
  om_OwnerReferences := None : Slice memory (OwnerReference memory);
  om_Finalizers := None : Slice memory string;
  om_ManagedFields := None : Slice memory (ManagedFieldsEntry memory);
|}.
#[export] Instance Zero_spec : Zero CRDMetricsResourceSpec := {| Configuration := "" |}.
#[export] Instance Zero_status : Zero (CRDMetricsResourceStatus memory) := {|
  Conditions := None : Slice memory Condition;
|}.
#[export] Instance Zero_resource : Zero (CRDMetricsResource memory) := {|
  r_TypeMeta := {| type_Kind := ""; type_APIVersion := "" |};
  r_ObjectMeta := zero; r_Spec := zero; r_Status := zero;
|}.
#[export] Instance Zero_list : Zero (CRDMetricsResourceList memory) := {|
  l_TypeMeta := {| type_Kind := ""; type_APIVersion := "" |};
  l_ListMeta := {|
    lm_SelfLink := ""; lm_ResourceVersion := ""; lm_Continue := "";
    lm_RemainingItemCount := None : Ptr memory Z;
  |};
  l_Items := None : Slice memory (CRDMetricsResource memory);
|}.

(** ** Memory operations *)

Section operations.
Context {A : Type} `{!Cell A}.

(** [new] and [make], with what is stored first. *)
Definition alloc (x : A) : M heap loc := λ h,
  let l := fresh (dom h) in (Done l, <[l := mk_cell x]> h).

(** [*p]. *)
Definition load (l : loc) : M heap A := λ h,
  match h !! l ≫= get_cell with
  | Some x => (Done x, h)
  | None => (Panicked NilDereference, h)
  end.

(** [*p = x]. *)
Definition store (l : loc) (x : A) : M heap unit := λ h, (Done tt, <[l := mk_cell x]> h).

End operations.

(** [s[i]] and [s[i] = x]. *)
Definition load_index {A} `{!Cell (list A)} (s : slice) (i : nat) : M heap A :=
  xs ← load (array s); lift (index (take (len s) xs) i).

Definition store_index {A} `{!Cell (list A)} (s : slice) (i : nat) (x : A) : M heap unit :=
  xs ← load (A := list A) (array s);
  _ ← lift (index (take (len s) xs) i);
  store (array s) (<[i := x]> xs).

(** ** The patterns of the generated code *)

(** For a pointer that is not nil, [new] and then [DeepCopyInto]; the functions
    [DeepCopy] are the same. *)
Definition copy_ptr {A} `{!Cell A, !Zero A} (DeepCopyInto : A → M heap A) (p : option loc)
    : M heap (option loc) :=
  match p with
  | None => mret None
  | Some inn =>
    out ← alloc (zero : A);
    x ← load inn;
    x ← DeepCopyInto x;
    _ ← store out x;
    mret (Some out)
  end.

(** The loop of [DeepCopyInto] over the indices of a slice, from [i]. *)
Fixpoint copy_elements {A} `{!Cell (list A)} (DeepCopyInto : A → M heap A) (inn out : slice)
    (i n : nat) : M heap unit :=
  match n with
  | O => mret tt
  | S n =>
    x ← load_index inn i;
    x ← DeepCopyInto x;
    _ ← store_index out i x;
    copy_elements DeepCopyInto inn out (S i) n
  end.

Definition copy_slice {A} `{!Cell (list A), !Zero A} (DeepCopyInto : A → M heap A)
    (s : option slice) : M heap (option slice) :=
  match s with
  | None => mret None
  | Some inn =>
    l ← alloc (replicate (len inn) (zero : A));
    let out := {| array := l; len := len inn |} in
    _ ← copy_elements DeepCopyInto inn out 0 (len inn);
    mret (Some out)
  end.

(** The loop of assignments over the entries of a map. *)
Fixpoint copy_entries (out : loc) (entries : list (string * string)) : M heap unit :=
  match entries with
  | [] => mret tt
  | (key, val) :: entries =>
    m ← load (A := gmap string string) out;
    _ ← store out (<[key := val]> m);
    copy_entries out entries
  end.

Definition copy_map `{!MapRange} (p : option loc) : M heap (option loc) :=
  match p with
  | None => mret None
  | Some inn =>
    out ← alloc (∅ : gmap string string);
    m ← load inn;
    _ ← copy_entries out (range [] m);
    mret (Some out)
  end.

(** ** [metav1]

    [DeepCopyInto] starts with [*out = *in] and then replaces what refers to
    memory: it is what it writes into [out]. *)

Definition Time_DeepCopyInto (t : Time) : M heap Time := mret t.

Definition OwnerReference_DeepCopyInto (inn : OwnerReference memory)
    : M heap (OwnerReference memory) :=
  controller ← copy_ptr (A := bool) mret (owner_Controller inn);
  block ← copy_ptr (A := bool) mret (owner_BlockOwnerDeletion inn);
  mret {|
    owner_APIVersion := owner_APIVersion inn; owner_Kind := owner_Kind inn;
    owner_Name := owner_Name inn; owner_UID := owner_UID inn;
    owner_Controller := controller : Ptr memory bool;
    owner_BlockOwnerDeletion := block : Ptr memory bool;
  |}.

Definition FieldsV1_DeepCopyInto (inn : FieldsV1 memory) : M heap (FieldsV1 memory) :=
  raw ← copy_slice (A := ascii) mret (Raw inn);
  mret {| Raw := raw : Slice memory ascii |}.

Definition ManagedFieldsEntry_DeepCopyInto (inn : ManagedFieldsEntry memory)
    : M heap (ManagedFieldsEntry memory) :=
  time ← copy_ptr Time_DeepCopyInto (mf_Time inn);
  fields ← copy_ptr FieldsV1_DeepCopyInto (mf_FieldsV1 inn);
  mret {|
    mf_Manager := mf_Manager inn; mf_Operation := mf_Operation inn;
    mf_APIVersion := mf_APIVersion inn; mf_Time := time : Ptr memory Time;
    mf_FieldsType := mf_FieldsType inn; mf_FieldsV1 := fields : Ptr memory (FieldsV1 memory);
    mf_Subresource := mf_Subresource inn;
  |}.

Section copies.
Context `{!MapRange}.

Definition ObjectMeta_DeepCopyInto (inn : ObjectMeta memory) : M heap (ObjectMeta memory) :=
  deletion ← copy_ptr Time_DeepCopyInto (om_DeletionTimestamp inn);
  grace ← copy_ptr (A := Z) mret (om_DeletionGracePeriodSeconds inn);
  labels ← copy_map (om_Labels inn);
  annotations ← copy_map (om_Annotations inn);
  owners ← copy_slice OwnerReference_DeepCopyInto (om_OwnerReferences inn);
  finalizers ← copy_slice (A := string) mret (om_Finalizers inn);
  managed ← copy_slice ManagedFieldsEntry_DeepCopyInto (om_ManagedFields inn);
  mret {|
    om_Name := om_Name inn; om_GenerateName := om_GenerateName inn;
    om_Namespace := om_Namespace inn; om_SelfLink := om_SelfLink inn; om_UID := om_UID inn;
    om_ResourceVersion := om_ResourceVersion inn; om_Generation := om_Generation inn;
    om_CreationTimestamp := om_CreationTimestamp inn;
    om_DeletionTimestamp := deletion : Ptr memory Time;
    om_DeletionGracePeriodSeconds := grace : Ptr memory Z;
    om_Labels := labels : Ptr memory (gmap string string);
    om_Annotations := annotations : Ptr memory (gmap string string);
    om_OwnerReferences := owners : Slice memory (OwnerReference memory);
    om_Finalizers := finalizers : Slice memory string;
    om_ManagedFields := managed : Slice memory (ManagedFieldsEntry memory);
  |}.

Definition ListMeta_DeepCopyInto (inn : ListMeta memory) : M heap (ListMeta memory) :=
  remaining ← copy_ptr (A := Z) mret (lm_RemainingItemCount inn);
  mret {|
    lm_SelfLink := lm_SelfLink inn; lm_ResourceVersion := lm_ResourceVersion inn;
    lm_Continue := lm_Continue inn; lm_RemainingItemCount := remaining : Ptr memory Z;
  |}.

(** ** [v1alpha1] *)

Definition CRDMetricsResourceSpec_DeepCopyInto (inn : CRDMetricsResourceSpec)
    : M heap CRDMetricsResourceSpec :=
  mret inn.

Definition CRDMetricsResourceSpec_DeepCopy : option loc → M heap (option loc) :=
  copy_ptr CRDMetricsResourceSpec_DeepCopyInto.

Definition CRDMetricsResourceStatus_DeepCopyInto (inn : CRDMetricsResourceStatus memory)
    : M heap (CRDMetricsResourceStatus memory) :=
  conditions ← copy_slice (λ c, mret (Condition_DeepCopyInto c)) (Conditions inn);
  mret {| Conditions := conditions : Slice memory Condition |}.

Definition CRDMetricsResourceStatus_DeepCopy : option loc → M heap (option loc) :=
  copy_ptr CRDMetricsResourceStatus_DeepCopyInto.

Definition CRDMetricsResource_DeepCopyInto (inn : CRDMetricsResource memory)
    : M heap (CRDMetricsResource memory) :=
  meta ← ObjectMeta_DeepCopyInto (r_ObjectMeta inn);
  status ← CRDMetricsResourceStatus_DeepCopyInto (r_Status inn);
  mret {|
    r_TypeMeta := r_TypeMeta inn; r_ObjectMeta := meta; r_Spec := r_Spec inn; r_Status := status;
  |}.

Definition CRDMetricsResource_DeepCopy : option loc → M heap (option loc) :=
  copy_ptr CRDMetricsResource_DeepCopyInto.

Definition CRDMetricsResourceList_DeepCopyInto (inn : CRDMetricsResourceList memory)
    : M heap (CRDMetricsResourceList memory) :=
  meta ← ListMeta_DeepCopyInto (l_ListMeta inn);
  items ← copy_slice CRDMetricsResource_DeepCopyInto (l_Items inn);
  mret {|
    l_TypeMeta := l_TypeMeta inn; l_ListMeta := meta;
    l_Items := items : Slice memory (CRDMetricsResource memory);
  |}.

Definition CRDMetricsResourceList_DeepCopy : option loc → M heap (option loc) :=
  copy_ptr CRDMetricsResourceList_DeepCopyInto.

(** A [runtime.Object] is nil, or a type with a pointer, which could be nil. *)
Inductive Object : Type :=
| NilObject
| ResourceObject (p : option loc)
| ListObject (p : option loc).

Definition CRDMetricsResource_DeepCopyObject (p : option loc) : M heap Object :=
  c ← CRDMetricsResource_DeepCopy p;
  mret (if decide (c = None) then NilObject else ResourceObject c).

Definition CRDMetricsResourceList_DeepCopyObject (p : option loc) : M heap Object :=
  c ← CRDMetricsResourceList_DeepCopy p;
  mret (if decide (c = None) then NilObject else ListObject c).

End copies.

(** ** What a struct in memory stands for

    A relation between a struct in memory, its value, and the part of the heap
    that is involved, in one of two readings: [shared], where the heap holds at
    least the cells that the struct refers to, which may be the same cell many
    times; and [owned], where it holds exactly those cells, each once. *)
Definition hprop : Type := heap → Prop.

Record reading : Type := {
  emp : hprop;
  conj : hprop → hprop → hprop;
  points : loc → cell → hprop;
}.

Definition shared : reading := {|
  emp _ := True;
  conj P Q h := P h ∧ Q h;
  points l c h := h !! l = Some c;
|}.

Definition star (P Q : hprop) : hprop := λ h, ∃ h1 h2, h = h1 ∪ h2 ∧ h1 ##ₘ h2 ∧ P h1 ∧ Q h2.

Definition owned : reading := {|
  emp h := h = ∅;
  conj := star;
  points l c h := h = {[l := c]};
|}.

Section relations.
Context (B : reading).

Definition pure (φ : Prop) : hprop := λ h, φ ∧ emp B h.

Definition rel_eq {A} (x v : A) : hprop := pure (x = v).

Definition rel_ptr {A V} `{!Cell A} (o : A → V → hprop) (p : option loc) (v : option V) : hprop :=
  match p, v with
  | None, None => emp B
  | Some l, Some v => λ h, ∃ x, conj B (points B l (mk_cell x)) (o x v) h
  | _, _ => λ _, False
  end.

Fixpoint rel_list {A V} (o : A → V → hprop) (xs : list A) (vs : list V) : hprop :=
  match xs, vs with
  | [], [] => emp B
  | x :: xs, v :: vs => conj B (o x v) (rel_list o xs vs)
  | _, _ => λ _, False
  end.

Definition rel_slice {A V} `{!Cell (list A)} (o : A → V → hprop) (s : option slice)
    (v : option (list V)) : hprop :=
  match s, v with
  | None, None => emp B
  | Some s, Some vs => λ h, ∃ xs : list A, len s <= length xs ∧
      conj B (points B (array s) (mk_cell xs)) (rel_list o (take (len s) xs) vs) h
  | _, _ => λ _, False
  end.

Definition rel_owner (x : OwnerReference memory) (v : OwnerReference values) : hprop :=
  conj B (rel_ptr (A := bool) rel_eq (owner_Controller x) (owner_Controller v))
  (conj B (rel_ptr (A := bool) rel_eq (owner_BlockOwnerDeletion x) (owner_BlockOwnerDeletion v))
  (pure (owner_APIVersion x = owner_APIVersion v ∧ owner_Kind x = owner_Kind v ∧
         owner_Name x = owner_Name v ∧ owner_UID x = owner_UID v))).

Definition rel_fields (x : FieldsV1 memory) (v : FieldsV1 values) : hprop :=
  rel_slice (A := ascii) rel_eq (Raw x) (Raw v).

Definition rel_managed (x : ManagedFieldsEntry memory) (v : ManagedFieldsEntry values) : hprop :=
  conj B (rel_ptr (A := Time) rel_eq (mf_Time x) (mf_Time v))
  (conj B (rel_ptr rel_fields (mf_FieldsV1 x) (mf_FieldsV1 v))
  (pure (mf_Manager x = mf_Manager v ∧ mf_Operation x = mf_Operation v ∧
         mf_APIVersion x = mf_APIVersion v ∧ mf_FieldsType x = mf_FieldsType v ∧
         mf_Subresource x = mf_Subresource v))).

Definition rel_map : option loc → option (gmap string string) → hprop :=
  rel_ptr (A := gmap string string) rel_eq.

Definition rel_meta (x : ObjectMeta memory) (v : ObjectMeta values) : hprop :=
  conj B (rel_ptr (A := Time) rel_eq (om_DeletionTimestamp x) (om_DeletionTimestamp v))
  (conj B (rel_ptr (A := Z) rel_eq (om_DeletionGracePeriodSeconds x)
                                   (om_DeletionGracePeriodSeconds v))
  (conj B (rel_map (om_Labels x) (om_Labels v))
  (conj B (rel_map (om_Annotations x) (om_Annotations v))
  (conj B (rel_slice rel_owner (om_OwnerReferences x) (om_OwnerReferences v))
  (conj B (rel_slice (A := string) rel_eq (om_Finalizers x) (om_Finalizers v))
  (conj B (rel_slice rel_managed (om_ManagedFields x) (om_ManagedFields v))
  (pure (om_Name x = om_Name v ∧ om_GenerateName x = om_GenerateName v ∧
         om_Namespace x = om_Namespace v ∧ om_SelfLink x = om_SelfLink v ∧
         om_UID x = om_UID v ∧ om_ResourceVersion x = om_ResourceVersion v ∧
         om_Generation x = om_Generation v ∧
         om_CreationTimestamp x = om_CreationTimestamp v)))))))).

Definition rel_status (x : CRDMetricsResourceStatus memory) (v : CRDMetricsResourceStatus values)
    : hprop :=
  rel_slice (A := Condition) rel_eq (Conditions x) (Conditions v).

Definition rel_resource (x : CRDMetricsResource memory) (v : CRDMetricsResource values) : hprop :=
  conj B (rel_meta (r_ObjectMeta x) (r_ObjectMeta v))
  (conj B (rel_status (r_Status x) (r_Status v))
  (pure (r_TypeMeta x = r_TypeMeta v ∧ r_Spec x = r_Spec v))).

Definition rel_resource_list (x : CRDMetricsResourceList memory)
    (v : CRDMetricsResourceList values) : hprop :=
  conj B (rel_ptr (A := Z) rel_eq (lm_RemainingItemCount (l_ListMeta x))
                                  (lm_RemainingItemCount (l_ListMeta v)))
  (conj B (rel_slice rel_resource (l_Items x) (l_Items v))
  (pure (l_TypeMeta x = l_TypeMeta v ∧
         lm_SelfLink (l_ListMeta x) = lm_SelfLink (l_ListMeta v) ∧
         lm_ResourceVersion (l_ListMeta x) = lm_ResourceVersion (l_ListMeta v) ∧
         lm_Continue (l_ListMeta x) = lm_Continue (l_ListMeta v)))).

End relations.

(** The heap with new cells, disjoint from it, for which [P] holds. *)
Definition adds (h : heap) (P : hprop) (h' : heap) : Prop :=
  ∃ hc, h' = h ∪ hc ∧ h ##ₘ hc ∧ P hc.

(** What [DeepCopyInto] promises: from a struct that stands for a value, in a
    part of the heap, it makes one that stands for the same value and owns new
    cells only. *)
Definition copies {A V} (rel : reading → A → V → hprop) (DeepCopyInto : A → M heap A) : Prop :=
  ∀ h0 h x v, h0 ⊆ h → rel shared x v h0 → wp (DeepCopyInto x) (λ c, adds h (rel owned c v)) h.

(** ** Lemmas *)

Lemma wp_alloc {A} `{!Cell A} (x : A) (Q : loc → heap → Prop) (h : heap) :
  (∀ l, h !! l = None → Q l (<[l := mk_cell x]> h)) → wp (alloc x) Q h.
Proof. intros HQ. apply HQ. apply not_elem_of_dom, is_fresh. Qed.

Lemma wp_load {A} `{!Cell A} l (x : A) (Q : A → heap → Prop) (h : heap) :
  h !! l = Some (mk_cell x) → Q x h → wp (load l) Q h.
Proof. intros Hl HQ. unfold wp, load. rewrite Hl. simpl. by rewrite get_mk_cell. Qed.

Lemma wp_store {A} `{!Cell A} l (x : A) (Q : unit → heap → Prop) (h : heap) :
  Q tt (<[l := mk_cell x]> h) → wp (store l x) Q h.
Proof. done. Qed.

Lemma adds_nil h (P : hprop) : P ∅ → adds h P h.
Proof.
  intros HP. exists ∅. rewrite (right_id_L ∅ (∪)). split; [done|].
  split; [apply map_disjoint_empty_r|done].
Qed.

Lemma adds_star h P h1 Q h2 : adds h P h1 → adds h1 Q h2 → adds h (star P Q) h2.
Proof.
  intros (hp & -> & Hp & HP) (hq & -> & [Hq Hpq]%map_disjoint_union_l & HQ).
  exists (hp ∪ hq). rewrite (assoc_L (∪)). split; [done|].
  split; [by apply map_disjoint_union_r_2|]. by exists hp, hq.
Qed.

Lemma adds_subseteq h P h' : adds h P h' → h ⊆ h'.
Proof. intros (hc & -> & Hd & _). by apply map_union_subseteq_l. Qed.

Lemma adds_mono h (P Q : hprop) h' : (∀ hc, P hc → Q hc) → adds h P h' → adds h Q h'.
Proof. intros HPQ (hc & -> & Hd & HP). exists hc. auto. Qed.

(** A new location that is being filled, with what is already copied. *)
Definition filling (h : heap) (l : loc) (c : cell) (P : hprop) (h' : heap) : Prop :=
  ∃ hc, h' = <[l := c]> (h ∪ hc) ∧ h !! l = None ∧ hc !! l = None ∧ h ##ₘ hc ∧ P hc.

Lemma filling_alloc h l c (P : hprop) : h !! l = None → P ∅ → filling h l c P (<[l := c]> h).
Proof.
  intros Hl HP. exists ∅. rewrite (right_id_L ∅ (∪)).
  split_and!; [done|done|apply lookup_empty|apply map_disjoint_empty_r|done].
Qed.

Lemma filling_lookup h l c P h' : filling h l c P h' → h' !! l = Some c.
Proof. intros (hc & -> & _). apply lookup_insert_eq. Qed.

Lemma filling_subseteq h l c P h' : filling h l c P h' → h ⊆ h'.
Proof.
  intros (hc & -> & Hl & Hc & Hd & _).
  apply insert_subseteq_r; [|by apply map_union_subseteq_l]. done.
Qed.

Lemma filling_store h l c d P h' : filling h l c P h' → filling h l d P (<[l := d]> h').
Proof.
  intros (hc & -> & Hl & Hc & Hd & HP). exists hc. by rewrite insert_insert_eq.
Qed.

Lemma filling_adds h l c P h1 Q h2 :
  filling h l c P h1 → adds h1 Q h2 → filling h l c (star P Q) h2.
Proof.
  intros (hc & -> & Hl & Hc & Hd & HP) (hq & -> & Hdq & HQ).
  apply map_disjoint_insert_l in Hdq as [Hlq [Hdq Hcq]%map_disjoint_union_l].
  exists (hc ∪ hq). rewrite <- insert_union_l, (assoc_L (∪)).
  split_and!; [done|done|by rewrite lookup_union_None|by apply map_disjoint_union_r_2|].
  by exists hc, hq.
Qed.

Lemma filling_done h l c P h' :
  filling h l c P h' → adds h (star (points owned l c) P) h'.
Proof.
  intros (hc & -> & Hl & Hc & Hd & HP). exists (<[l := c]> hc).
  rewrite insert_union_r by done.
  split; [done|]. split; [by apply map_disjoint_insert_r_2|].
  exists {[l := c]}, hc. rewrite insert_union_singleton_l. split; [done|].
  split; [by apply map_disjoint_singleton_l_2|]. done.
Qed.

Lemma star_emp_l (P : hprop) h : star (λ h, h = ∅) P h → P h.
Proof. intros (h1 & h2 & -> & _ & -> & HP). by rewrite (left_id_L ∅ (∪)). Qed.

Lemma copies_plain {A} (DeepCopyInto : A → M heap A) :
  (∀ x, DeepCopyInto x = mret x) → copies (V := A) (λ B, rel_eq B) DeepCopyInto.
Proof.
  intros Hid h0 h x v _ [<- _]. rewrite Hid. apply wp_ret, adds_nil. by split.
Qed.

Lemma copies_ptr {A V} `{!Cell A, !Zero A} (rel : reading → A → V → hprop) DeepCopyInto :
  copies rel DeepCopyInto → copies (λ B, rel_ptr B (rel B)) (copy_ptr DeepCopyInto).
Proof.
  intros Hcopy h0 h [inn|] [v|] Hsub Hrel; try done; [|by apply wp_ret, adds_nil].
  destruct Hrel as (x & Hx & Hv). unfold copy_ptr. wp_step. apply wp_alloc. intros l Hl.
  pose proof (filling_alloc h l (mk_cell (zero : A)) (λ hc, hc = ∅) Hl eq_refl) as Hf.
  pose proof (transitivity Hsub (filling_subseteq _ _ _ _ _ Hf)) as Hsub1.
  wp_step. apply (wp_load inn x); [by apply (lookup_weaken h0)|].
  wp_step. eapply wp_mono; [by apply (Hcopy h0 _ x v)|]. intros c h2 Ha.
  wp_step. apply wp_store. wp_step.
  eapply adds_mono; [|eapply filling_done, filling_store, filling_adds; [exact Hf|exact Ha]].
  intros hc (h3 & h4 & -> & Hd & Hp & Hc). exists c, h3, h4.
  split_and!; try done. by apply star_emp_l.
Qed.

Lemma rel_list_snoc {A V} (o : A → V → hprop) xs vs x v h :
  star (rel_list owned o xs vs) (o x v) h → rel_list owned o (xs ++ [x]) (vs ++ [v]) h.
Proof.
  revert vs h. induction xs as [|y xs IH]; intros [|w vs] h; simpl.
  - intros Hs%star_emp_l. exists h, ∅. rewrite (right_id_L ∅ (∪)).
    split_and!; [done|apply map_disjoint_empty_r|done|done].
  - by intros (? & ? & _ & _ & [] & _).
  - by intros (? & ? & _ & _ & [] & _).
  - intros (h1 & h2 & -> & Hd & (h3 & h4 & -> & Hd' & Hy & Hl) & Hx).
    apply map_disjoint_union_l in Hd as [Hd3 Hd4].
    exists h3, (h4 ∪ h2). rewrite (assoc_L (∪)). split; [done|].
    split; [by apply map_disjoint_union_r_2|]. split; [done|].
    apply IH. by exists h4, h2.
Qed.

Lemma rel_list_shared {A V} (o : A → V → hprop) xs vs h :
  rel_list shared o xs vs h ↔ Forall2 (λ x v, o x v h) xs vs.
Proof.
  revert vs. induction xs as [|x xs IH]; intros [|v vs]; simpl; try (by split; [|inversion 1]).
  rewrite IH. split; [by intros []; constructor|by inversion 1].
Qed.

Section copy_elements.
Context {A V : Type} `{!Cell (list A), !Zero A} (rel : reading → A → V → hprop).
Context (DeepCopyInto : A → M heap A) (Hcopy : copies rel DeepCopyInto).
Context (h0 h : heap) (Hsub : h0 ⊆ h) (inn : slice) (xs : list A) (vs : list V).
Context (Hlen : len inn <= length xs) (Hinn : h0 !! array inn = Some (mk_cell xs)).
Context (Hrel : Forall2 (λ x v, rel shared x v h0) (take (len inn) xs) vs).

Lemma copy_elements_spec l n i cs h1 :
  length cs = i → i + n = len inn →
  filling h l (mk_cell (cs ++ replicate n (zero : A))) (rel_list owned (rel owned) cs (take i vs)) h1 →
  wp (copy_elements DeepCopyInto inn {| array := l; len := len inn |} i n)
    (λ _ h2, ∃ cs, length cs = len inn ∧
      filling h l (mk_cell cs) (rel_list owned (rel owned) cs vs) h2) h1.
Proof.
  assert (length vs = len inn) as Hvs.
  { rewrite <- (Forall2_length _ _ _ Hrel), length_take. lia. }
  revert i cs h1. induction n as [|n IH]; intros i cs h1 Hi Hn Hf; cbn [copy_elements].
  { apply wp_ret. exists cs. split; [lia|].
    rewrite app_nil_r in Hf. by rewrite take_ge in Hf by lia. }
  destruct (lookup_lt_is_Some_2 (take (len inn) xs) i) as [x Hx].
  { rewrite length_take. lia. }
  destruct (Forall2_lookup_l _ _ _ _ _ Hrel Hx) as (v & Hv & Hxv).
  pose proof (transitivity Hsub (filling_subseteq _ _ _ _ _ Hf)) as Hsub1.
  wp_step. unfold load_index. wp_step. apply (wp_load _ xs); [by apply (lookup_weaken h0)|].
  eapply wp_lift; [unfold index; by rewrite Hx|].
  wp_step. eapply wp_mono; [by apply (Hcopy h0 _ x v)|]. intros c h2 Ha.
  pose proof (filling_adds _ _ _ _ _ _ _ Hf Ha) as Hf2.
  wp_step. unfold store_index. wp_step. eapply wp_load; [exact (filling_lookup _ _ _ _ _ Hf2)|].
  wp_step. eapply wp_lift.
  { unfold index. cbn [len]. rewrite lookup_take_lt by lia.
    by rewrite lookup_app_r, Hi, Nat.sub_diag by lia. }
  apply wp_store. apply (IH (S i) (cs ++ [c])); [rewrite length_app; simpl; lia|lia|].
  replace (<[i:=c]> (cs ++ replicate (S n) zero)) with ((cs ++ [c]) ++ replicate n (zero : A)).
  2: { rewrite <- (assoc_L (++)), insert_app_r_alt, Hi, Nat.sub_diag by lia. done. }
  rewrite (take_S_r _ _ _ Hv).
  eapply filling_store with (c := mk_cell (cs ++ replicate (S n) zero)).
  destruct Hf2 as (hc & -> & Hl & Hc & Hd & HP). exists hc. split_and!; try done.
  by apply rel_list_snoc.
Qed.

Lemma copy_slice_spec :
  wp (copy_slice DeepCopyInto (Some inn))
    (λ c, adds h (rel_slice owned (rel owned) c (Some vs))) h.
Proof.
  cbn [copy_slice]. wp_step. apply wp_alloc. intros l Hl. wp_step.
  eapply wp_mono.
  { apply (copy_elements_spec l (len inn) 0 []); [done|done|]. by apply filling_alloc. }
  intros _ h2 (cs & Hcs & Hf). wp_step.
  eapply adds_mono; [|apply filling_done, Hf]. intros hc Hc.
  exists cs. cbn [len array]. split; [lia|]. rewrite take_ge by lia. done.
Qed.
End copy_elements.

Lemma copies_slice {A V} `{!Cell (list A), !Zero A} (rel : reading → A → V → hprop) DeepCopyInto :
  copies rel DeepCopyInto → copies (λ B, rel_slice B (rel B)) (copy_slice DeepCopyInto).
Proof.
  intros Hcopy h0 h [inn|] [vs|] Hsub Hrel; try done; [|by apply wp_ret, adds_nil].
  destruct Hrel as (xs & Hlen & Hinn & Hl). apply rel_list_shared in Hl.
  by apply (copy_slice_spec rel DeepCopyInto Hcopy h0 h Hsub inn xs vs).
Qed.

Lemma copy_entries_spec h l P m entries h1 :
  filling h l (mk_cell m) P h1 →
  wp (copy_entries l entries)
    (λ _, filling h l (mk_cell (foldl (λ m kv, <[kv.1 := kv.2]> m) m entries)) P) h1.
Proof.
  revert m h1. induction entries as [|[k v] entries IH]; intros m h1 Hf; [by apply wp_ret|].
  cbn [copy_entries foldl]. wp_step. eapply wp_load; [exact (filling_lookup _ _ _ _ _ Hf)|].
  wp_step. apply wp_store. apply IH. by eapply filling_store.
Qed.

(** The assignments give the map back, in whatever order. *)
Lemma foldl_assign (acc : gmap string string) entries :
  foldl (λ m kv, <[kv.1 := kv.2]> m) acc entries = list_to_map (rev entries) ∪ acc.
Proof.
  revert acc. induction entries as [|[k v] entries IH]; intros acc; simpl.
  - by rewrite (left_id_L ∅ (∪)).
  - rewrite IH, list_to_map_app, <- (assoc_L (∪)). simpl. by rewrite insert_union_singleton_l, insert_empty.
Qed.

Lemma foldl_entries (m : gmap string string) entries :
  entries ≡ₚ map_to_list m → foldl (λ m kv, <[kv.1 := kv.2]> m) ∅ entries = m.
Proof.
  intros Hp. rewrite foldl_assign, (right_id_L ∅ (∪)), <- (list_to_map_to_list m) at 1.
  symmetry. apply list_to_map_proper; [apply NoDup_fst_map_to_list|].
  by rewrite <- Permutation_rev.
Qed.

Section copies_laws.
Context `{!MapRange}.

Lemma copies_map : copies rel_map copy_map.
Proof.
  intros h0 h [inn|] [m|] Hsub Hrel; try done; [|by apply wp_ret, adds_nil].
  destruct Hrel as (x & Hx & [-> _]). unfold copy_map. wp_step. apply wp_alloc. intros l Hl.
  pose proof (filling_alloc h l (mk_cell (∅ : gmap string string)) (λ hc, hc = ∅) Hl eq_refl) as Hf.
  pose proof (transitivity Hsub (filling_subseteq _ _ _ _ _ Hf)) as Hsub1.
  wp_step. apply (wp_load inn m); [by apply (lookup_weaken h0)|].
  wp_step. eapply wp_mono; [by apply copy_entries_spec, Hf|]. intros u h2 Hf2. wp_step. cbn beta in Hf2.
  rewrite (foldl_entries m) in Hf2 by apply range_perm.
  eapply adds_mono; [|apply filling_done, Hf2]. intros hc (h3 & h4 & Heq & Hd & Hp & Hc).
  exists m, h3, h4. split_and!; try done.
Qed.

(** The next field of a struct is copied, by the law of its copy; then the
    copies of the fields are put together. *)
Ltac copy_field law :=
  wp_step; eapply wp_mono; [eapply law; [|eassumption]|cbn beta; intros];
  [repeat (etransitivity; [|eapply adds_subseteq; eassumption]); eassumption|].

Ltac copy_done :=
  apply wp_ret;
  repeat (eapply adds_star; [eassumption|]);
  apply adds_nil; split; [done|reflexivity].

Definition copies_plain_ptr A `{!Cell A, !Zero A} :=
  copies_ptr (λ B, rel_eq B) mret (copies_plain (A := A) mret (λ _, eq_refl)).

Definition copies_plain_slice A `{!Cell (list A), !Zero A} :=
  copies_slice (λ B, rel_eq B) mret (copies_plain (A := A) mret (λ _, eq_refl)).

Lemma copies_owner : copies rel_owner OwnerReference_DeepCopyInto.
Proof.
  intros h0 h x v Hsub (? & ? & ? & _). unfold OwnerReference_DeepCopyInto.
  copy_field (copies_plain_ptr bool). copy_field (copies_plain_ptr bool). copy_done.
Qed.

Lemma copies_fields : copies rel_fields FieldsV1_DeepCopyInto.
Proof.
  intros h0 h x v Hsub Hrel. unfold FieldsV1_DeepCopyInto, rel_fields in *.
  copy_field (copies_plain_slice ascii). by apply wp_ret.
Qed.

Lemma copies_managed : copies rel_managed ManagedFieldsEntry_DeepCopyInto.
Proof.
  intros h0 h x v Hsub (? & ? & ? & _). unfold ManagedFieldsEntry_DeepCopyInto.
  copy_field (copies_plain_ptr Time). copy_field (copies_ptr _ _ copies_fields). copy_done.
Qed.

Lemma copies_meta : copies rel_meta ObjectMeta_DeepCopyInto.
Proof.
  intros h0 h x v Hsub (? & ? & ? & ? & ? & ? & ? & ? & _). unfold ObjectMeta_DeepCopyInto.
  copy_field (copies_plain_ptr Time). copy_field (copies_plain_ptr Z).
  copy_field copies_map. copy_field copies_map.
  copy_field (copies_slice _ _ copies_owner). copy_field (copies_plain_slice string).
  copy_field (copies_slice _ _ copies_managed). copy_done.
Qed.

Lemma copies_status : copies rel_status CRDMetricsResourceStatus_DeepCopyInto.
Proof.
  intros h0 h x v Hsub Hrel. unfold CRDMetricsResourceStatus_DeepCopyInto, rel_status in *.
  assert (copies (λ B, rel_eq B) (λ c, mret (Condition_DeepCopyInto c) : M heap Condition)) as Hc.
  { apply copies_plain. by intros []. }
  copy_field (copies_slice _ _ Hc). by apply wp_ret.
Qed.

Lemma copies_resource : copies rel_resource CRDMetricsResource_DeepCopyInto.
Proof.
  intros h0 h x v Hsub (? & ? & [? ?] & _). unfold CRDMetricsResource_DeepCopyInto.
  copy_field copies_meta. copy_field copies_status. copy_done.
Qed.

Lemma copies_resource_list : copies rel_resource_list CRDMetricsResourceList_DeepCopyInto.
Proof.
  intros h0 h x v Hsub (? & ? & ? & _).
  unfold CRDMetricsResourceList_DeepCopyInto, ListMeta_DeepCopyInto.
  wp_step. copy_field (copies_plain_ptr Z). apply wp_ret.
  copy_field (copies_slice _ _ copies_resource). copy_done.
Qed.

Lemma copies_spec :
  copies (λ B, rel_eq B) CRDMetricsResourceSpec_DeepCopyInto.
Proof. by apply copies_plain. Qed.

End copies_laws.

(** ** Property *)

(** What [DeepCopy] promises for a pointer: the heap is left as it is, and the
    new pointer stands for the same value in new cells, each referred to once. *)
Definition deep_copies {A V} `{!Cell A} (rel : reading → A → V → hprop)
    (DeepCopy : option loc → M heap (option loc)) : Prop :=
  ∀ h p v, rel_ptr shared (rel shared) p v h →
  ∃ p' hc, DeepCopy p h = (Done p', h ∪ hc) ∧ h ##ₘ hc ∧ rel_ptr owned (rel owned) p' v hc.

Lemma copies_deep {A V} `{!Cell A, !Zero A} (rel : reading → A → V → hprop) DeepCopyInto :
  copies rel DeepCopyInto → deep_copies rel (copy_ptr DeepCopyInto).
Proof.
  intros Hcopy h p v Hrel.
  destruct (wp_run _ _ _ (copies_ptr rel DeepCopyInto Hcopy h h p v (reflexivity h) Hrel))
    as (p' & h' & Heq & hc & -> & Hd & Hc).
  by exists p', hc.
Qed.

(** C18: A deep copy of a resource, of a list of resources, of a spec or of a
    status has the value of its original, nil pointers, maps and slices
    included, and shares no memory with it: the cells of the heap are left as
    they are, and the copy is made of new ones only, none of which it refers to
    twice, even where the original does.  (The time zone of a time is a constant
    outside of the heap.) *)
Theorem deep_copy_separate `{!MapRange} :
  deep_copies rel_resource CRDMetricsResource_DeepCopy ∧
  deep_copies rel_resource_list CRDMetricsResourceList_DeepCopy ∧
  deep_copies (A := CRDMetricsResourceSpec) (λ B, rel_eq B) CRDMetricsResourceSpec_DeepCopy ∧
  deep_copies rel_status CRDMetricsResourceStatus_DeepCopy.
Proof.
  split_and!; apply copies_deep;
    [apply copies_resource|apply copies_resource_list|apply copies_spec|apply copies_status].
Qed.

(** A [runtime.Object] is never a type with a nil pointer. *)
Lemma DeepCopyObject_nil `{!MapRange} p h o h' :
  CRDMetricsResource_DeepCopyObject p h = (Done o, h') → o ≠ ResourceObject None.
Proof.
  unfold CRDMetricsResource_DeepCopyObject, mbind, M_bind.
  destruct (CRDMetricsResource_DeepCopy p h) as [[c|] h1]; [|done].
  case_decide; intros [= <- _]; congruence.
Qed.
