(* ===== verification/Builder.v ===== *)
(** * Building stores ([internal/builder.go], [internal/config.go])

    The world of the controller: the stores on the heap, the reflectors that
    feed them, and the map from a managed resource to its stores.  A store is
    a pointer, shared between its reflector and the map, so it is a location
    of the heap here.  [buildStore] allocates one and starts its reflector;
    the configurer parses a configuration and builds its stores. *)
From S2P Require Import Prelude GoStrings Strconv GoSort Values ApiMachinery Resolver Metric Family Store Types.

(** ** Data *)

Record ListOptions : Type := {
  lo_LabelSelector : string;
  lo_FieldSelector : string;
  lo_ResourceVersionMatch : string;
  lo_ResourceVersion : string;
}.

(** The two closures of a [cache.ListWatch] capture the resource and the
    options. *)
Record ListWatch : Type := {
  lw_gvr : GroupVersionResource;
  lw_options : ListOptions;
}.

(** A running reflector: what it lists, the kind it expects, and the store it
    feeds.  Its name only appears in logs. *)
Record Reflector : Type := {
  refl_listerwatcher : ListWatch;
  refl_expected : GroupVersionKind;
  refl_store : nat;
  refl_ResyncPeriod : Z;
}.

Record World : Type := {
  w_heap : gmap nat StoreType;
  w_next : nat;
  w_reflectors : list Reflector;
  w_stores : gmap string (list nat);
}.

Definition set_heap (h : gmap nat StoreType) (w : World) : World := {|
  w_heap := h; w_next := w_next w; w_reflectors := w_reflectors w; w_stores := w_stores w;
|}.

Definition set_stores (m : gmap string (list nat)) (w : World) : World := {|
  w_heap := w_heap w; w_next := w_next w; w_reflectors := w_reflectors w; w_stores := m;
|}.

Definition empty_world : World := {|
  w_heap := ∅; w_next := 0; w_reflectors := []; w_stores := ∅;
|}.

(** [&StoreType{...}]: a location never used before. *)
Definition alloc (s : StoreType) : M World nat := λ w,
  (Done (w_next w), {|
    w_heap := <[w_next w := s]> (w_heap w); w_next := S (w_next w);
    w_reflectors := w_reflectors w; w_stores := w_stores w;
  |}).

(** [go reflector.Run(ctx.Done())]. *)
Definition start_reflector (r : Reflector) : M World unit := modify (λ w, {|
  w_heap := w_heap w; w_next := w_next w;
  w_reflectors := w_reflectors w ++ [r]; w_stores := w_stores w;
|}).

(** The dynamic client, at one time: the objects and the resource version that
    it lists, and the events that a watch starts with. *)
Class DynamicClient : Type := {
  dyn_List : GroupVersionResource → ListOptions → result client_error (list object * string);
  dyn_Watch : GroupVersionResource → ListOptions → result client_error (list Event);
}.

(** [yaml.Unmarshal] into an empty configuration: the stores it decoded, with
    its error ([Decode] follows the decoder).  A store is a pointer: [None] is
    one whose use by [build] dereferences nil, because it is nil or has a nil
    family. *)
Class Yaml : Type := {
  yaml_Unmarshal : string → list (option StoreType) * option string;
}.

(** A configuration that [build] can go through: if it is decoded, there is no
    null item in it. *)
Definition buildable `{!Yaml} (raw : string) : Prop :=
  ∀ cs, yaml_Unmarshal raw = (cs, None) → ∃ scs, cs = Some <$> scs.

(** ** [builder.go] *)

(** The options that [buildStore] prepares. *)
Definition list_options (tryNoCache : bool) (labelSelector fieldSelector : string)
    : ListOptions := {|
  lo_LabelSelector := labelSelector;
  lo_FieldSelector := fieldSelector;
  lo_ResourceVersionMatch := if tryNoCache then ResourceVersionMatchNotOlderThan else "";
  lo_ResourceVersion := if tryNoCache then "0" else "";
|}.

(** [GroupVersionResource.String]. *)
Definition gvr_String (gvr : GroupVersionResource) : string :=
  gvr_Group gvr +:+ "/" +:+ gvr_Version gvr +:+ ", Resource=" +:+ gvr_Resource gvr.

(** The errors of the two closures: the verb, the resource, the options and
    the cause. *)
Inductive listwatch_error : Type :=
| ErrListing (gvr : string) (options : ListOptions) (cause : client_error)
| ErrWatching (gvr : string) (options : ListOptions) (cause : client_error).

Section listwatch.
Context `{!DynamicClient}.

(** [ListFunc] and [WatchFunc]: the options of the reflector are ignored. *)
Definition ListFunc (lw : ListWatch) (_ : ListOptions)
    : result listwatch_error (list object * string) :=
  match dyn_List (lw_gvr lw) (lw_options lw) with
  | Ok o => Ok o
  | Err err => Err (ErrListing (gvr_String (lw_gvr lw)) (lw_options lw) err)
  end.

Definition WatchFunc (lw : ListWatch) (_ : ListOptions)
    : result listwatch_error (list Event) :=
  match dyn_Watch (lw_gvr lw) (lw_options lw) with
  | Ok o => Ok o
  | Err err => Err (ErrWatching (gvr_String (lw_gvr lw)) (lw_options lw) err)
  end.
End listwatch.

(** [buildStore]. *)
Definition buildStore (gvk : GroupVersionKind) (gvr : GroupVersionResource)
    (metricFamilies : list FamilyType) (tryNoCache : bool)
    (labelSelector fieldSelector : string) (resolver : string)
    (labelKeys labelValues : list string) : M World nat :=
  let listerwatcher := {|
    lw_gvr := gvr; lw_options := list_options tryNoCache labelSelector fieldSelector |} in
  let built := buildHeaders <$> metricFamilies in
  let headers := built.*1 in
  let metricFamilies := built.*2 in
  let resolver :=
    if decide (resolver = ResolverTypeNone) then ResolverTypeUnstructured else resolver in
  s ← alloc (newStore headers metricFamilies resolver labelKeys labelValues);
  start_reflector {|
    refl_listerwatcher := listerwatcher; refl_expected := gvk;
    refl_store := s; refl_ResyncPeriod := 0 |};;
  mret s.

(** ** [config.go] *)

Record configurer : Type := {
  cfg_Stores : list (option StoreType);
  cfg_resource : CRDMetricsResource;
}.

Definition newConfigurer (resource : CRDMetricsResource) : configurer := {|
  cfg_Stores := []; cfg_resource := resource;
|}.

(** [parse]: its error, and the configurer it leaves. *)
Definition parse `{!Yaml} (raw : string) (c : configurer) : option string * configurer :=
  let '(stores, err) := yaml_Unmarshal raw in
  let c := {| cfg_Stores := stores; cfg_resource := cfg_resource c |} in
  match err with
  | Some err => (Some ("error unmarshalling configuration: " +:+ err), c)
  | None => (None, c)
  end.

(** One iteration of the loop of [build], for a pointer that is not nil. *)
Definition build_one (resourceUID : string) (tryNoCache : bool) (sc : StoreType)
    : M World unit :=
  let g := store_Group sc in
  let v := store_Version sc in
  let k := store_Kind sc in
  let r := store_ResourceName sc in
  s ← buildStore (GVK g v k) (GVR g v r) (store_Families sc) tryNoCache
        (store_Selectors_Label sc) (store_Selectors_Field sc) (store_Resolver sc)
        (store_LabelKeys sc) (store_LabelValues sc);
  modify (λ w,
    set_stores (<[resourceUID := default [] (w_stores w !! resourceUID) ++ [s]]> (w_stores w)) w).

Fixpoint build_all (resourceUID : string) (tryNoCache : bool) (stores : list (option StoreType))
    : M World unit :=
  match stores with
  | [] => mret tt
  | None :: _ => lift (Panicked NilDereference)
  | Some sc :: stores =>
    build_one resourceUID tryNoCache sc;;
    build_all resourceUID tryNoCache stores
  end.

(** [build]. *)
Definition build (c : configurer) (tryNoCache : bool) : M World unit :=
  build_all (res_UID (cfg_resource c)) tryNoCache (cfg_Stores c).

(** ** What is built from a store configuration *)

Definition built_store (sc : StoreType) : StoreType :=
  newStore (buildHeaders <$> store_Families sc).*1 (buildHeaders <$> store_Families sc).*2
    (if decide (store_Resolver sc = ResolverTypeNone) then ResolverTypeUnstructured
     else store_Resolver sc)
    (store_LabelKeys sc) (store_LabelValues sc).

Definition built_reflector (tryNoCache : bool) (sc : StoreType) (s : nat) : Reflector := {|
  refl_listerwatcher := {|
    lw_gvr := GVR (store_Group sc) (store_Version sc) (store_ResourceName sc);
    lw_options := list_options tryNoCache (store_Selectors_Label sc) (store_Selectors_Field sc);
  |};
  refl_expected := GVK (store_Group sc) (store_Version sc) (store_Kind sc);
  refl_store := s;
  refl_ResyncPeriod := 0;
|}.

(** The world after building [scs] for [uid]. *)
Definition build_world (uid : string) (tryNoCache : bool) (scs : list StoreType) (w : World)
    : World := {|
  w_heap := map_seq (w_next w) (built_store <$> scs) ∪ w_heap w;
  w_next := w_next w + length scs;
  w_reflectors := w_reflectors w ++
    imap (λ i sc, built_reflector tryNoCache sc (w_next w + i)) scs;
  w_stores :=
    match scs with
    | [] => w_stores w
    | _ => <[uid := default [] (w_stores w !! uid) ++ seq (w_next w) (length scs)]> (w_stores w)
    end;
|}.

(** ** Lemmas *)

Lemma build_world_nil uid tryNoCache w : build_world uid tryNoCache [] w = w.
Proof.
  destruct w as [h n rs m]. unfold build_world. simpl.
  by rewrite (left_id_L ∅ (∪)), Nat.add_0_r, app_nil_r.
Qed.

(** The loop over stores that are there, and then the rest of them. *)
Lemma build_all_app uid tryNoCache scs rest w :
  build_all uid tryNoCache ((Some <$> scs) ++ rest) w =
  build_all uid tryNoCache rest (build_world uid tryNoCache scs w).
Proof.
  revert w. induction scs as [|sc scs IH]; intros w.
  - by rewrite build_world_nil.
  - csimpl. unfold mbind at 1, M_bind, modify, mret, M_ret. csimpl. rewrite IH. f_equal.
    unfold build_world. simpl. f_equal.
    + rewrite <- insert_union_r.
      * by rewrite insert_union_l.
      * apply lookup_map_seq_None. lia.
    + lia.
    + rewrite <- app_assoc, Nat.add_0_r. simpl. do 2 f_equal.
      apply imap_ext. intros i sc' _. simpl. by rewrite Nat.add_succ_r.
    + destruct scs as [|sc' scs]; [done|].
      rewrite lookup_insert_eq, insert_insert_eq. simpl. by rewrite <- app_assoc.
Qed.

Lemma build_all_world uid tryNoCache scs w :
  build_all uid tryNoCache (Some <$> scs) w = (Done tt, build_world uid tryNoCache scs w).
Proof.
  rewrite <- (app_nil_r (Some <$> scs)), build_all_app. done.
Qed.

Lemma omap_id_Some {A} (l : list A) : omap id (Some <$> l) = l.
Proof. induction l as [|x l IH]; [done|]. csimpl. by rewrite IH. Qed.

(** A store as it is built is well formed, and covered when its configuration
    is. *)
Lemma built_store_wf sc : store_wf (built_store sc).
Proof. split; [|apply map_Forall_empty]. simpl. by rewrite !length_fmap. Qed.

Lemma built_store_covered sc : store_covered sc → store_covered (built_store sc).
Proof.
  intros [Hs Hf]. split; [done|]. simpl. rewrite <- list_fmap_compose.
  apply Forall_fmap, (Forall_impl _ _ _ Hf). by intros f.
Qed.

Lemma build_world_heap uid tryNoCache scs w i sc :
  scs !! i = Some sc →
  w_heap (build_world uid tryNoCache scs w) !! (w_next w + i) = Some (built_store sc).
Proof.
  intros Hi. simpl. apply lookup_union_Some_l. rewrite lookup_map_seq_Some. split; [lia|].
  rewrite Nat.add_comm, Nat.add_sub, list_lookup_fmap, Hi. done.
Qed.

Lemma build_world_heap_old uid tryNoCache scs w l :
  l < w_next w → w_heap (build_world uid tryNoCache scs w) !! l = w_heap w !! l.
Proof.
  intros Hl. simpl. apply lookup_union_r. apply lookup_map_seq_None. lia.
Qed.

(** ** Properties *)

(** [build] completes on a configuration without null items, and builds what
    is configured: the store
    configuration [i] gets a new store, empty, with its families, labels and
    resolver, and a new reflector that feeds it with the objects of its group,
    version and resource, filtered by its selectors.  The stores are recorded
    under the UID of the managed resource, after those it had, in the order of
    the configuration; nothing else is touched. *)
Lemma build_spec r scs tryNoCache w :
  ∃ w', build {| cfg_Stores := Some <$> scs; cfg_resource := r |} tryNoCache w = (Done tt, w') ∧
    (∀ i sc, scs !! i = Some sc →
      w_heap w' !! (w_next w + i) = Some (built_store sc) ∧
      w_reflectors w' !! (length (w_reflectors w) + i) =
        Some (built_reflector tryNoCache sc (w_next w + i))) ∧
    (∀ l, l < w_next w → w_heap w' !! l = w_heap w !! l) ∧
    take (length (w_reflectors w)) (w_reflectors w') = w_reflectors w ∧
    default [] (w_stores w' !! res_UID r) =
      default [] (w_stores w !! res_UID r) ++ seq (w_next w) (length scs) ∧
    (∀ uid, uid ≠ res_UID r → w_stores w' !! uid = w_stores w !! uid).
Proof.
  eexists. split; [apply build_all_world|]. split_and!.
  - intros i sc Hi. split; [by apply build_world_heap|]. simpl.
    rewrite lookup_app_r by lia. replace (_ + i - _) with i by lia.
    by rewrite list_lookup_imap, Hi.
  - intros l. apply build_world_heap_old.
  - simpl. apply take_app_length.
  - simpl. destruct scs as [|sc scs]; [by rewrite app_nil_r|]. by rewrite lookup_insert_eq.
  - intros uid Hne. simpl. destruct scs; [done|]. by rewrite lookup_insert_ne.
Qed.

(** A null item of the configuration crashes the process: [build] builds the
    stores before it, records them, and dereferences nil. *)
Lemma build_null_panics r scs rest tryNoCache w :
  build {| cfg_Stores := (Some <$> scs) ++ None :: rest; cfg_resource := r |} tryNoCache w =
  (Panicked NilDereference, build_world (res_UID r) tryNoCache scs w).
Proof. unfold build. simpl. by rewrite build_all_app. Qed.

(** The options of a reflector of a built store are those of the builder at
    every list and watch: the ones the reflector asks for are ignored.  Without
    the cache, the resource version is at least [0]. *)
Lemma built_listwatch `{!DynamicClient} tryNoCache sc s options :
  let lw := refl_listerwatcher (built_reflector tryNoCache sc s) in
  let gvr := GVR (store_Group sc) (store_Version sc) (store_ResourceName sc) in
  let lo := list_options tryNoCache (store_Selectors_Label sc) (store_Selectors_Field sc) in
  (∀ objs, ListFunc lw options = Ok objs ↔ dyn_List gvr lo = Ok objs) ∧
  (∀ objs, WatchFunc lw options = Ok objs ↔ dyn_Watch gvr lo = Ok objs) ∧
  (∀ e, dyn_List gvr lo = Err e →
    ListFunc lw options = Err (ErrListing (gvr_String gvr) lo e)) ∧
  (lo_ResourceVersion lo = if tryNoCache then "0" else "").
Proof.
  unfold ListFunc, WatchFunc. simpl. split_and!.
  - intros objs. destruct (dyn_List _ _); split; congruence.
  - intros objs. destruct (dyn_Watch _ _); split; congruence.
  - by intros e ->.
  - done.
Qed.

(** The default of [family.resolver], CEL, is never taken for a built
    store: a metric whose resolver is not set at any level is resolved by the
    path resolver, the default of [buildStore]. *)
Lemma built_default_resolver `{!CEL} sc f :
  f ∈ store_Families (built_store sc) → fam_Resolver f = "" → store_Resolver sc = "" →
  family_resolver (inherit_store (built_store sc) f) "" = Some NewUnstructuredResolver.
Proof.
  intros _ Hf Hs. unfold family_resolver, inherit_store, built_store. simpl.
  rewrite Hf, Hs. done.
Qed.

(** The header that is written for a family of a built store is its two
    comment lines, with the prefixed name, the help text and the type, which
    is [gauge] whatever the configuration says. *)
Lemma built_headers sc i f :
  store_Families sc !! i = Some f →
  ∃ header f', store_headers (built_store sc) !! i = Some header ∧
    store_Families (built_store sc) !! i = Some f' ∧ f' = set_t "gauge" f ∧
    header +:+ char newline =
      "# HELP kube_customresource_" +:+ fam_Name f +:+ " " +:+ fam_Help f +:+ char newline
      +:+ "# TYPE kube_customresource_" +:+ fam_Name f +:+ " gauge" +:+ char newline.
Proof.
  intros Hf. simpl. rewrite !list_lookup_fmap, Hf. simpl. eexists _, _.
  split; [done|]. split; [done|]. split; [done|].
  unfold kubeCustomResourcePrefix, metricTypeGauge. by rewrite !append_assoc.
Qed.

(** ** Witnesses *)

Module BuilderExample.
Export StoreExample.

(** The configuration of a store, as it is decoded. *)
Definition config : StoreType := {|
  store_metrics := ∅; store_headers := [];
  store_Group := "apps"; store_Version := "v1"; store_Kind := "Deployment";
  store_ResourceName := "deployments";
  store_Selectors_Label := "app=web"; store_Selectors_Field := "";
  store_Families := [{|
    fam_Name := "replicas"; fam_Help := "Replicas."; fam_t := "";
    fam_Metrics := [Some replicas]; fam_Resolver := ""; fam_LabelKeys := []; fam_LabelValues := [] |}];
  store_Resolver := ""; store_LabelKeys := ["env"]; store_LabelValues := ["prod"];
|}.

Lemma built_default_resolver_witness :
  family_resolver
    (inherit_store (built_store config) (default family (head (store_Families (built_store config)))))
    "" = Some NewUnstructuredResolver.
Proof. apply built_default_resolver; [simpl; left|reflexivity..]. Defined.

Lemma built_headers_witness :
  ∃ header f f', store_headers (built_store config) !! 0 = Some header ∧
    store_Families (built_store config) !! 0 = Some f' ∧ f' = set_t "gauge" f ∧
    header +:+ char newline =
      "# HELP kube_customresource_" +:+ fam_Name f +:+ " " +:+ fam_Help f +:+ char newline
      +:+ "# TYPE kube_customresource_" +:+ fam_Name f +:+ " gauge" +:+ char newline.
Proof.
  destruct (built_headers config 0 (default family (head (store_Families config))))
    as (header & f' & H); [reflexivity|].
  exists header, (default family (head (store_Families config))), f'. exact H.
Defined.
End BuilderExample.
