(* ===== verification/Decode.v ===== *)
(** * Decoding the configuration ([internal/config.go] and the struct tags)

    [parse] hands the configuration of a managed resource to [yaml.Unmarshal],
    with the types of [configuration], [StoreType], [FamilyType] and
    [MetricType] and their tags.  The decoder of the library ([yaml.v3],
    [decode.go]) is followed for these types: it goes by the type of what it
    decodes into, and collects type errors; a scalar that cannot be resolved
    ends it at once.  The parser of the library and its resolution of tags are a
    parameter: they give a tree in which aliases and merge keys are expanded and
    scalars have a tag.  A null item of a list of pointers is a nil pointer,
    which [build] and [buildHeaders] dereference. *)
From S2P Require Import Prelude GoStrings Strconv GoSort Values Resolver Metric Family Store Types Builder.

(** ** Nodes and types *)

(** The tag that a scalar resolves to; [MismatchedTag] is an explicit tag that
    its value does not have, [OtherTag] a number, a boolean or a timestamp. *)
Inductive scalar_tag : Type := NullTag | StrTag | BinaryTag | MismatchedTag | OtherTag.

Inductive node : Type :=
| Scalar (tag : scalar_tag) (value : string)
| Sequence (items : list node)
| Mapping (entries : list (node * node)).

(** The Go types of the configuration: structs with the keys of their tags. *)
Inductive ty : Type :=
| TString
| TSlice (elem : ty)
| TPtr (elem : ty)
| TStruct (fields : list (string * ty)).

(** Their values; a nil slice and an empty one are not told apart. *)
Inductive value : Type :=
| VString (s : string)
| VSlice (items : list value)
| VPtr (target : option value)
| VStruct (fields : list value).

Fixpoint zero (t : ty) : value :=
  match t with
  | TString => VString ""
  | TSlice _ => VSlice []
  | TPtr _ => VPtr None
  | TStruct fields => VStruct (map (λ f, zero f.2) fields)
  end.

(** [TypeError]: without the line numbers. *)
Inductive type_error : Type :=
| CannotUnmarshal (tag : string) (into : ty)
| KeyAlreadyDefined (key : string).

(** [failf]: it ends the decoding, and its error is the only one reported. *)
Inductive failure : Type :=
| InvalidBase64
| CannotDecode (value : string).

#[export] Instance failure_ret : MRet (result failure) := λ A a, Ok a.
#[export] Instance failure_bind : MBind (result failure) := λ A B k m,
  match m with
  | Ok a => k a
  | Err e => Err e
  end.

(** ** [base64.StdEncoding.DecodeString] ([encoding/base64]) *)

(** [decodeMap]. *)
Definition base64_digit (c : ascii) : option N :=
  if in_range 65 90 c then Some (byte c - 65)%N
  else if in_range 97 122 c then Some (byte c - 71)%N
  else if in_range 48 57 c then Some (byte c + 4)%N
  else if decide (c = "+"%char) then Some 62%N
  else if decide (c = "/"%char) then Some 63%N
  else None.

(** The bytes of a quantum of four digits. *)
Definition quantum (a b c d : N) : string :=
  let n := (a * 262144 + b * 4096 + c * 64 + d)%N in
  String (ascii_of_N (n / 65536)) (String (ascii_of_N (n / 256 mod 256)) (char (ascii_of_N (n mod 256)))).

(** [decodeQuantum], over and over, once the newlines are gone: only the last
    quantum may be padded, and then nothing follows it. *)
Fixpoint decode_quanta (s : string) : option string :=
  match s with
  | EmptyString => Some ""
  | String a (String b (String c (String d s))) =>
    x ← base64_digit a;
    y ← base64_digit b;
    if decide (c = "="%char) then
      if decide (d = "="%char ∧ s = "") then Some (Strings.String.substring 0 1 (quantum x y 0 0)) else None
    else
      z ← base64_digit c;
      if decide (d = "="%char) then
        if decide (s = "") then Some (Strings.String.substring 0 2 (quantum x y z 0)) else None
      else
        w ← base64_digit d;
        rest ← decode_quanta s;
        Some (quantum x y z w +:+ rest)
  | _ => None
  end.

Fixpoint drop_newlines (s : string) : string :=
  match s with
  | EmptyString => ""
  | String c s =>
    if (byte c =? 10)%N || (byte c =? 13)%N then drop_newlines s else String c (drop_newlines s)
  end.

Definition base64_Decode (s : string) : option string := decode_quanta (drop_newlines s).

(** ** The decoder ([decode.go])

    What is decoded into is changed in place, so [unmarshal] takes its value;
    it returns whether it was good, the new value and the errors, or fails. *)
Definition decoded : Type := result failure (bool * value * list type_error).

(** [null]. *)
Definition decode_null (t : ty) (v : value) : decoded :=
  match t with
  | TSlice _ | TPtr _ => mret (true, zero t, [])
  | TString | TStruct _ => mret (false, v, [])
  end.

(** [prepare]: the pointers are allocated and followed. *)
Fixpoint prepare (k : ty → value → decoded) (t : ty) (v : value) : decoded :=
  match t with
  | TPtr t' =>
    let target := match v with VPtr (Some w) => w | _ => zero t' end in
    '(good, w, errs) ← prepare k t' target;
    mret (good, VPtr (Some w), errs)
  | _ => k t v
  end.

(** [scalar], of a scalar that is not null, after [prepare]. *)
Definition resolve_scalar (tag : scalar_tag) (s : string) : result failure string :=
  match tag with
  | BinaryTag => match base64_Decode s with Some data => Ok data | None => Err InvalidBase64 end
  | MismatchedTag => Err (CannotDecode s)
  | _ => Ok s
  end.

Definition decode_scalar (tag : scalar_tag) (s : string) (t : ty) (v : value) : decoded :=
  resolved ← resolve_scalar tag s;
  match t with
  | TString => mret (true, VString resolved, [])
  | _ => mret (false, v, [CannotUnmarshal "scalar" t])
  end.

(** The kind and the value by which the keys of a mapping are compared. *)
Definition node_key (n : node) : nat * string :=
  match n with
  | Scalar _ s => (0, s)
  | Sequence _ => (1, "")
  | Mapping _ => (2, "")
  end.

(** The errors of [mapping] for the keys defined twice. *)
Fixpoint duplicate_keys (entries : list (node * node)) : list type_error :=
  match entries with
  | [] => []
  | (k, _) :: entries =>
    omap (λ e, if decide (node_key k = node_key e.1)
               then Some (KeyAlreadyDefined (node_key e.1).2) else None) entries
    ++ duplicate_keys entries
  end.

(** The index of the field with a key. *)
Fixpoint field_index (fields : list (string * ty)) (key : string) : option (nat * ty) :=
  match fields with
  | [] => None
  | (name, t) :: fields =>
    if decide (name = key) then Some (0, t)
    else (λ '(i, t), (S i, t)) <$> field_index fields key
  end.

(** The loop of [sequence] over the items, with the decoder: those that are not
    good are dropped. *)
Definition elements (decode : node → ty → value → decoded) (et : ty)
    : list node → result failure (list value * list type_error) :=
  fix loop items :=
    match items with
    | [] => mret ([], [])
    | item :: items =>
      '(good, w, errs) ← decode item et (zero et);
      '(vs, errs') ← loop items;
      mret (if good : bool then w :: vs else vs, errs ++ errs')
    end.

Definition sequence (decode : node → ty → value → decoded) (items : list node)
    (t : ty) (v : value) : decoded :=
  match t with
  | TSlice et => '(vs, errs) ← elements decode et items; mret (true, VSlice vs, errs)
  | _ => mret (false, v, [CannotUnmarshal "seq" t])
  end.

(** The loop of [mappingStruct] over the entries: null keys and unknown keys are
    ignored. *)
Definition struct_entries (decode : node → ty → value → decoded) (fields : list (string * ty))
    : list (node * node) → list value → result failure (list value * list type_error) :=
  fix loop entries vs :=
    match entries with
    | [] => mret (vs, [])
    | (k, item) :: entries =>
      '(good, name, errs) ← decode k TString (VString "");
      let known :=
        match name with
        | VString key => if good : bool then field_index fields key else None
        | _ => None
        end in
      match known with
      | Some (i, ft) =>
        '(_, w, errs') ← decode item ft (default (zero ft) (vs !! i));
        '(vs, errs'') ← loop entries (<[i := w]> vs);
        mret (vs, errs ++ errs' ++ errs'')
      | None => '(vs, errs') ← loop entries vs; mret (vs, errs ++ errs')
      end
    end.

Definition mapping (decode : node → ty → value → decoded) (entries : list (node * node))
    (t : ty) (v : value) : decoded :=
  match duplicate_keys entries with
  | [] =>
    match t, v with
    | TStruct fields, VStruct vs =>
      '(vs, errs) ← struct_entries decode fields entries vs; mret (true, VStruct vs, errs)
    | _, _ => mret (false, v, [CannotUnmarshal "map" t])
    end
  | errs => mret (false, v, errs)
  end.

(** [unmarshal]. *)
Fixpoint unmarshal (n : node) (t : ty) (v : value) {struct n} : decoded :=
  match n with
  | Scalar NullTag _ => decode_null t v
  | Scalar tag s => prepare (decode_scalar tag s) t v
  | Sequence items => prepare (sequence unmarshal items) t v
  | Mapping entries => prepare (mapping unmarshal entries) t v
  end.

(** ** The types of the configuration *)

(** [MetricType], [FamilyType], [StoreType] and [configuration]: the exported
    fields, in order, with their tags. *)
Definition metric_ty : ty :=
  TStruct [("labelKeys", TSlice TString); ("labelValues", TSlice TString);
           ("value", TString); ("resolver", TString)].

Definition family_ty : ty :=
  TStruct [("name", TString); ("help", TString); ("metrics", TSlice (TPtr metric_ty));
           ("resolver", TString); ("labelKeys", TSlice TString);
           ("labelValues", TSlice TString)].

Definition store_ty : ty :=
  TStruct [("g", TString); ("v", TString); ("k", TString); ("r", TString);
           ("selectors", TStruct [("label", TString); ("field", TString)]);
           ("families", TSlice (TPtr family_ty)); ("resolver", TString);
           ("labelKeys", TSlice TString); ("labelValues", TSlice TString)].

Definition configuration_ty : ty := TStruct [("stores", TSlice (TPtr store_ty))].

(** A configuration as it is decoded, with the nil pointers of its lists. *)
Record raw_family : Type := {
  rf_Name : string;
  rf_Help : string;
  rf_Metrics : list (option MetricType);
  rf_Resolver : string;
  rf_LabelKeys : list string;
  rf_LabelValues : list string;
}.

Record raw_store : Type := {
  rs_Group : string;
  rs_Version : string;
  rs_Kind : string;
  rs_ResourceName : string;
  rs_Selectors_Label : string;
  rs_Selectors_Field : string;
  rs_Families : list (option raw_family);
  rs_Resolver : string;
  rs_LabelKeys : list string;
  rs_LabelValues : list string;
}.

Definition configuration : Type := list (option raw_store).

(** Go values as values of these types, and back. *)
Definition to_string (v : value) : string := match v with VString s => s | _ => "" end.

Definition to_list {A} (f : value → A) (v : value) : list A :=
  match v with VSlice vs => map f vs | _ => [] end.

Definition to_ptr {A} (f : value → A) (v : value) : option A :=
  match v with VPtr (Some v) => Some (f v) | _ => None end.

Definition field (i : nat) (v : value) : value :=
  match v with VStruct vs => default (VString "") (vs !! i) | _ => VString "" end.

Definition to_metric (v : value) : MetricType := {|
  metric_LabelKeys := to_list to_string (field 0 v);
  metric_LabelValues := to_list to_string (field 1 v);
  metric_Value := to_string (field 2 v);
  metric_Resolver := to_string (field 3 v);
|}.

Definition to_family (v : value) : raw_family := {|
  rf_Name := to_string (field 0 v);
  rf_Help := to_string (field 1 v);
  rf_Metrics := to_list (to_ptr to_metric) (field 2 v);
  rf_Resolver := to_string (field 3 v);
  rf_LabelKeys := to_list to_string (field 4 v);
  rf_LabelValues := to_list to_string (field 5 v);
|}.

Definition to_store (v : value) : raw_store := {|
  rs_Group := to_string (field 0 v);
  rs_Version := to_string (field 1 v);
  rs_Kind := to_string (field 2 v);
  rs_ResourceName := to_string (field 3 v);
  rs_Selectors_Label := to_string (field 0 (field 4 v));
  rs_Selectors_Field := to_string (field 1 (field 4 v));
  rs_Families := to_list (to_ptr to_family) (field 5 v);
  rs_Resolver := to_string (field 6 v);
  rs_LabelKeys := to_list to_string (field 7 v);
  rs_LabelValues := to_list to_string (field 8 v);
|}.

Definition to_configuration (v : value) : configuration := to_list (to_ptr to_store) (field 0 v).

(** The decoding of a document into an empty configuration; [None] is an empty
    document. *)
Definition decode_configuration (doc : option node)
    : result failure (configuration * list type_error) :=
  match doc with
  | None => mret ([], [])
  | Some n =>
    '(_, v, errs) ← unmarshal n configuration_ty (zero configuration_ty);
    mret (to_configuration v, errs)
  end.

(** ** The configuration as [build] sees it *)

Definition family_of (f : raw_family) : FamilyType := {|
  fam_Name := rf_Name f; fam_Help := rf_Help f; fam_t := "";
  fam_Metrics := rf_Metrics f; fam_Resolver := rf_Resolver f;
  fam_LabelKeys := rf_LabelKeys f; fam_LabelValues := rf_LabelValues f;
|}.

(** A store that [build] can go through, unless one of its families is nil. *)
Definition store_of (s : raw_store) : option StoreType :=
  families ← mapM id (rs_Families s);
  Some {|
    store_metrics := ∅; store_headers := [];
    store_Group := rs_Group s; store_Version := rs_Version s; store_Kind := rs_Kind s;
    store_ResourceName := rs_ResourceName s;
    store_Selectors_Label := rs_Selectors_Label s; store_Selectors_Field := rs_Selectors_Field s;
    store_Families := family_of <$> families; store_Resolver := rs_Resolver s;
    store_LabelKeys := rs_LabelKeys s; store_LabelValues := rs_LabelValues s;
  |}.

Definition pointers (c : configuration) : list (option StoreType) :=
  (λ s, s ≫= store_of) <$> c.

(** No store and no family is null. *)
Definition no_nulls (c : configuration) : Prop :=
  Forall (λ s, ∃ r, s = Some r ∧ Forall is_Some (rs_Families r)) c.

(** The library, with its parser.  What was decoded before a failure is not
    used: [parse] has an error then. *)
Definition decoder_Yaml (parse_yaml : string → result string (option node)) : Yaml := {|
  yaml_Unmarshal raw :=
    match parse_yaml raw with
    | Err err => ([], Some err)
    | Ok doc =>
      match decode_configuration doc with
      | Err _ => ([], Some "a scalar that cannot be resolved")
      | Ok (c, errs) => (pointers c, match errs with [] => None | _ => Some "unmarshal errors" end)
      end
    end;
|}.

(** ** Types *)

(** The values of a type. *)
Inductive has_value : ty → value → Prop :=
| hv_string s : has_value TString (VString s)
| hv_slice t vs : Forall (has_value t) vs → has_value (TSlice t) (VSlice vs)
| hv_nil t : has_value (TPtr t) (VPtr None)
| hv_ptr t v : has_value t v → has_value (TPtr t) (VPtr (Some v))
| hv_struct fields vs :
  Forall2 (λ f v, has_value f.2 v) fields vs → has_value (TStruct fields) (VStruct vs).

(** A type without its pointers. *)
Fixpoint strip (t : ty) : ty :=
  match t with
  | TPtr t => strip t
  | _ => t
  end.

(** The documents that fit a type: a null fits any, a scalar a string, a
    sequence a list of what its items fit, a mapping with distinct scalar keys
    a struct with, under its known keys, what they fit.  This does not refer to
    the decoder: the keys are compared as values, and the fields are a map. *)

(** What a key is compared by: the text of a scalar; two sequences are the same
    key, and so are two mappings. *)
Definition key_text (k : node) : string + bool :=
  match k with
  | Scalar _ s => inl s
  | Sequence _ => inr true
  | Mapping _ => inr false
  end.

Definition distinct_keys (entries : list (node * node)) : Prop := NoDup (key_text <$> entries.*1).

#[export] Instance distinct_keys_dec entries : Decision (distinct_keys entries).
Proof. unfold distinct_keys. apply _. Defined.

(** The field that a key names: a null one names none. *)
Definition named_field (fields : list (string * ty)) (tag : scalar_tag) (s : string) : option ty :=
  let fields : gmap string ty := list_to_map fields in
  match tag with
  | NullTag => None
  | BinaryTag => base64_Decode s ≫= λ key, fields !! key
  | _ => fields !! s
  end.

Definition struct_conforms (fits : node → ty → bool) (fields : list (string * ty))
    : list (node * node) → bool :=
  forallb (λ '(k, item),
    match k with
    | Scalar tag s =>
      match named_field fields tag s with
      | Some ft => fits item ft
      | None => true
      end
    | _ => false
    end).

Fixpoint conforms (n : node) (t : ty) {struct n} : bool :=
  match n with
  | Scalar NullTag _ => true
  | Scalar _ _ => match strip t with TString => true | _ => false end
  | Sequence items =>
    match strip t with
    | TSlice et => forallb (λ item, conforms item et) items
    | _ => false
    end
  | Mapping entries =>
    match strip t with
    | TStruct fields => bool_decide (distinct_keys entries) && struct_conforms conforms fields entries
    | _ => false
    end
  end.

(** The documents whose scalars can all be resolved. *)
Fixpoint resolvable (n : node) : bool :=
  match n with
  | Scalar BinaryTag s => bool_decide (is_Some (base64_Decode s))
  | Scalar MismatchedTag _ => false
  | Scalar _ _ => true
  | Sequence items => forallb resolvable items
  | Mapping entries => forallb (λ '(k, item), resolvable k && resolvable item) entries
  end.

(** ** Lemmas *)

Section node_induction.
Context (P : node → Prop).
Context (HS : ∀ tag s, P (Scalar tag s)).
Context (HL : ∀ items, Forall P items → P (Sequence items)).
Context (HM : ∀ entries, Forall (λ e, P e.1 ∧ P e.2) entries → P (Mapping entries)).

Fixpoint node_induction (n : node) : P n :=
  match n with
  | Scalar tag s => HS tag s
  | Sequence items =>
    HL items ((fix all items : Forall P items :=
                 match items with
                 | [] => List.Forall_nil _
                 | n :: items => List.Forall_cons _ _ _ (node_induction n) (all items)
                 end) items)
  | Mapping entries =>
    HM entries ((fix all entries : Forall (λ e : node * node, P e.1 ∧ P e.2) entries :=
                   match entries with
                   | [] => List.Forall_nil _
                   | (k, n) :: entries =>
                     List.Forall_cons _ (k, n) _ (conj (node_induction k) (node_induction n))
                       (all entries)
                   end) entries)
  end.
End node_induction.

Fixpoint zero_has_value (t : ty) : has_value t (zero t) :=
  match t with
  | TString => hv_string ""
  | TSlice t => hv_slice t [] (List.Forall_nil _)
  | TPtr t => hv_nil t
  | TStruct fields =>
    hv_struct fields _
      ((fix all (fields : list (string * ty))
            : Forall2 (λ f v, has_value f.2 v) fields (map (λ f, zero f.2) fields) :=
          match fields with
          | [] => List.Forall2_nil _
          | f :: fields => List.Forall2_cons f _ (zero_has_value f.2) (all fields)
          end) fields)
  end.

(** What decoding does for a type: a value of the type, and no error exactly
    when the document fits, unless a scalar cannot be resolved. *)
Definition decodes (t : ty) (readable fits : bool) (d : decoded) : Prop :=
  match d with
  | Ok (_, v, errs) => has_value t v ∧ (errs = [] ↔ fits = true)
  | Err _ => readable = false
  end.

Lemma prepare_decodes k readable (fits : ty → bool) :
  (∀ t v, strip t = t → has_value t v → decodes t readable (fits t) (k t v)) →
  ∀ t v, has_value t v → decodes t readable (fits (strip t)) (prepare k t v).
Proof.
  intros Hk. induction t as [|t _|t IH|fields]; intros v Hv; simpl; try by apply Hk.
  set (target := match v with VPtr (Some w) => w | _ => zero t end).
  assert (has_value t target) as Ht.
  { inversion Hv; subst; [apply zero_has_value|done]. }
  specialize (IH target Ht). destruct (prepare k t target) as [[[good w] errs]|e]; [|done].
  destruct IH as [Hw He]. split; [by constructor|done].
Qed.

Lemma elements_decodes (decode : node → ty → value → decoded) et items (readable fits : node → bool) :
  Forall (λ n, decodes et (readable n) (fits n) (decode n et (zero et))) items →
  match elements decode et items with
  | Ok (vs, errs) => Forall (has_value et) vs ∧ (errs = [] ↔ forallb fits items = true)
  | Err _ => forallb readable items = false
  end.
Proof.
  induction 1 as [|n items Hn _ IH]; [by split|]. simpl. unfold decodes in Hn.
  destruct (decode n et (zero et)) as [[[good w] errs]|e]; simpl; [|by rewrite Hn].
  destruct (elements decode et items) as [[vs errs']|e]; simpl; [|by rewrite IH, andb_false_r].
  destruct Hn as [Hv He], IH as [IHv IHe]. split.
  - destruct good; [by constructor|done].
  - rewrite app_nil, He, IHe, andb_true_iff. done.
Qed.

Lemma field_index_spec fields key i ft :
  field_index fields key = Some (i, ft) → snd <$> fields !! i = Some ft.
Proof.
  revert i. induction fields as [|[name t] fields IH]; intros i; simpl; [done|].
  case_decide; [by intros [= <- <-]|].
  destruct (field_index fields key) as [[j t']|]; [|done]. intros [= <- <-]. by apply IH.
Qed.

(** The fields as a map. *)
Lemma field_index_map fields key :
  (list_to_map fields : gmap string ty) !! key = snd <$> field_index fields key.
Proof.
  induction fields as [|[name t] fields IH]; [done|]. simpl. destruct (decide (name = key)) as [->|].
  - by rewrite lookup_insert_eq.
  - rewrite lookup_insert_ne, IH by done. by destruct (field_index fields key) as [[]|].
Qed.

(** No error about the keys exactly when they are distinct. *)
Lemma node_key_text k k' : node_key k = node_key k' ↔ key_text k = key_text k'.
Proof. destruct k, k'; simpl; (split; [|]); try done; congruence. Qed.

Lemma duplicate_keys_distinct entries : duplicate_keys entries = [] ↔ distinct_keys entries.
Proof.
  unfold distinct_keys. induction entries as [|[k n] entries IH]; [by split; [constructor|]|].
  simpl. rewrite app_nil, IH, NoDup_cons.
  assert (omap (λ e : node * node, if decide (node_key k = node_key e.1)
    then Some (KeyAlreadyDefined (node_key e.1).2) else None) entries = [] ↔
    key_text k ∉ key_text <$> entries.*1) as ->; [|done].
  clear IH. induction entries as [|[k' n'] entries IH].
  { split; [|done]. intros _. apply not_elem_of_nil. }
  rewrite !fmap_cons, not_elem_of_cons. simpl.
  destruct (decide (node_key k = node_key k')) as [Heq|Hne].
  - split; [done|]. intros [Hne _]. by apply node_key_text in Heq.
  - rewrite IH, <- node_key_text. tauto.
Qed.

(** What decoding a node promises, for every type. *)
Definition node_decodes (n : node) : Prop :=
  ∀ t v, has_value t v → decodes t (resolvable n) (conforms n t) (unmarshal n t v).

Lemma resolve_scalar_resolvable tag s :
  match resolve_scalar tag s with
  | Ok _ => True
  | Err _ => resolvable (Scalar tag s) = false
  end.
Proof. destruct tag; simpl; try done. by destruct (base64_Decode s). Qed.

(** The key of an entry: decoded into a name, or an error. *)
Lemma unmarshal_key k :
  node_decodes k →
  match k with
  | Scalar NullTag _ => unmarshal k TString (VString "") = Ok (false, VString "", [])
  | Scalar tag key =>
    unmarshal k TString (VString "") = (name ← resolve_scalar tag key; mret (true, VString name, []))
  | _ =>
    match unmarshal k TString (VString "") with
    | Ok (_, _, errs) => errs ≠ []
    | Err _ => resolvable k = false
    end
  end.
Proof.
  intros Hk. pose proof (Hk TString (VString "") (hv_string "")) as He. unfold decodes in He.
  destruct k as [[] key|items|entries]; try done;
    destruct (unmarshal _ _ _) as [[[g w] errs]|e]; try done.
  all: destruct He as [_ He]; by intros ?%He.
Qed.

(** The field that a key is found to name. *)
Definition known_field (fields : list (string * ty)) (good : bool) (name : value) : option (nat * ty) :=
  match name with
  | VString key => if good then field_index fields key else None
  | _ => None
  end.

Lemma known_field_named k fields good name errs :
  node_decodes k → unmarshal k TString (VString "") = Ok (good, name, errs) →
  match k with
  | Scalar tag s => errs = [] ∧ named_field fields tag s = snd <$> known_field fields good name
  | _ => errs ≠ []
  end.
Proof.
  intros Hk%unmarshal_key He. rewrite He in Hk. unfold named_field.
  destruct k as [[] key|items|entries]; try done; simpl in Hk.
  - by injection Hk as -> -> ->.
  - injection Hk as -> -> ->. split; [done|]. apply field_index_map.
  - destruct (base64_Decode key) as [data|]; [|done]. injection Hk as -> -> ->.
    split; [done|]. apply field_index_map.
  - injection Hk as -> -> ->. split; [done|]. apply field_index_map.
Qed.

Lemma struct_entries_decodes fields entries vs :
  Forall (λ e, node_decodes e.1 ∧ node_decodes e.2) entries →
  Forall2 (λ f v, has_value f.2 v) fields vs →
  match struct_entries unmarshal fields entries vs with
  | Ok (vs', errs) =>
    Forall2 (λ f v, has_value f.2 v) fields vs' ∧ (errs = [] ↔ struct_conforms conforms fields entries = true)
  | Err _ => forallb (λ '(k, item), resolvable k && resolvable item) entries = false
  end.
Proof.
  intros He. revert vs. induction He as [|[k n] entries [Hk Hn] _ IH]; intros vs Hvs; [by split|].
  simpl in Hk, Hn. simpl.
  assert (∀ i ft, snd <$> fields !! i = Some ft →
    has_value ft (default (zero ft) (vs !! i))) as Hdef.
  { intros i ft Hi. apply fmap_Some in Hi as (f & Hf & ->).
    destruct (Forall2_lookup_l _ _ _ _ _ Hvs Hf) as (v & -> & Hv). done. }
  assert (∀ i ft w, snd <$> fields !! i = Some ft → has_value ft w →
    Forall2 (λ f v, has_value f.2 v) fields (<[i := w]> vs)) as Hins.
  { intros i ft w Hi Hw. apply fmap_Some in Hi as (f & Hf & ->).
    rewrite <- (list_insert_id fields i f Hf). by apply Forall2_insert. }
  pose proof (Hk TString (VString "") (hv_string "")) as Hke.
  destruct (unmarshal k TString (VString "")) as [[[good name] errs]|e] eqn:Eu; simpl;
    [|unfold decodes in Hke; by rewrite Hke].
  pose proof (known_field_named k fields good name errs Hk Eu) as Hname. clear Hke.
  fold (known_field fields good name).
  assert (match known_field fields good name with
          | Some (i, ft) => snd <$> fields !! i = Some ft
          | None => True
          end) as Hknown.
  { destruct (known_field fields good name) as [[i ft]|] eqn:Hkn; [|done]. unfold known_field in Hkn.
    destruct name as [key| | |], good; try done. by eapply field_index_spec. }
  destruct (known_field fields good name) as [[i ft]|].
  - pose proof (Hn ft (default (zero ft) (vs !! i)) (Hdef i ft Hknown)) as Hw. unfold decodes in Hw.
    destruct (unmarshal n ft _) as [[[g w] errs']|e]; simpl; [|by rewrite Hw, andb_false_r].
    destruct Hw as [Hw Hwe]. specialize (IH _ (Hins i ft w Hknown Hw)).
    destruct (struct_entries unmarshal fields entries _) as [[vs' errs'']|e]; simpl;
      [|by rewrite IH, andb_false_r].
    destruct IH as [IHv IHe]. split; [done|].
    rewrite !app_nil, Hwe, IHe, andb_true_iff.
    destruct k as [tag s|items|es]; [destruct Hname as [-> ->]; simpl; tauto|by split; intros [??]..].
  - specialize (IH vs Hvs). destruct (struct_entries unmarshal fields entries vs) as [[vs' errs']|e]; simpl;
      [|by rewrite IH, andb_false_r].
    destruct IH as [IHv IHe]. split; [done|]. rewrite app_nil, IHe, andb_true_iff.
    destruct k as [tag s|items|es]; [destruct Hname as [-> ->]; simpl; tauto|by split; intros [??]..].
Qed.

Lemma unmarshal_decodes n : node_decodes n.
Proof.
  induction n as [tag s|items IH|entries IH] using node_induction; intros t v Hv.
  - assert (decodes t true true (decode_null t v)) as Hnull.
    { destruct t; (split; [|done]); try done; apply zero_has_value. }
    assert (decodes t (resolvable (Scalar tag s)) (match strip t with TString => true | _ => false end)
              (prepare (decode_scalar tag s) t v)) as Hs.
    { apply (prepare_decodes (decode_scalar tag s) _
        (λ t, match t with TString => true | _ => false end)); [|done].
      intros t' v' _ Hv'. unfold decode_scalar. pose proof (resolve_scalar_resolvable tag s) as Hr.
      destruct (resolve_scalar tag s); [|done].
      destruct t'; (split; [|done]); try done. apply hv_string. }
    by destruct tag.
  - apply (prepare_decodes (sequence unmarshal items) _
      (λ t, match t with TSlice et => forallb (λ item, conforms item et) items | _ => false end));
      [|done].
    intros [|et| |] v' _ Hv'; simpl; try (by split).
    pose proof (elements_decodes unmarshal et items resolvable (λ item, conforms item et)) as He.
    destruct (elements unmarshal et items) as [[vs errs]|e]; simpl.
    + destruct He as [Hvs He]; [|by split; [constructor|]].
      apply (Forall_impl _ _ _ IH). intros n Hn. apply Hn, zero_has_value.
    + apply He. apply (Forall_impl _ _ _ IH). intros n Hn. apply Hn, zero_has_value.
  - apply (prepare_decodes (mapping unmarshal entries) _
      (λ t, match t with
            | TStruct fields =>
              bool_decide (distinct_keys entries) && struct_conforms conforms fields entries
            | _ => false
            end)); [|done].
    intros t' v' Hstrip Hv'. unfold mapping. pose proof (duplicate_keys_distinct entries) as Hd.
    destruct (duplicate_keys entries) as [|err errs].
    + rewrite (bool_decide_eq_true_2 (distinct_keys entries)) by by apply Hd.
      inversion Hv'; subst; try (by split).
      pose proof (struct_entries_decodes fields entries vs IH ltac:(done)) as Hs.
      destruct (struct_entries unmarshal fields entries vs) as [[vs' errs]|e]; simpl; [|done].
      destruct Hs as [Hvs He]. split; [by constructor|done].
    + rewrite (bool_decide_eq_false_2 (distinct_keys entries)) by (intros Hd'; by apply Hd in Hd').
      destruct t'; by split.
Qed.

(** *** The reference encoding *)

Definition encode_string (s : string) : node := Scalar StrTag s.
Definition encode_strings (l : list string) : node := Sequence (map encode_string l).

Definition encode_ptr {A} (encode : A → node) (o : option A) : node :=
  match o with
  | Some x => encode x
  | None => Scalar NullTag "null"
  end.

Definition encode_ptrs {A} (encode : A → node) (l : list (option A)) : node :=
  Sequence (map (encode_ptr encode) l).

Definition encode_struct (fields : list (string * node)) : node :=
  Mapping (map (λ '(key, n), (encode_string key, n)) fields).

Definition encode_metric (m : MetricType) : node :=
  encode_struct [("labelKeys", encode_strings (metric_LabelKeys m));
    ("labelValues", encode_strings (metric_LabelValues m));
    ("value", encode_string (metric_Value m)); ("resolver", encode_string (metric_Resolver m))].

Definition encode_family (f : raw_family) : node :=
  encode_struct [("name", encode_string (rf_Name f)); ("help", encode_string (rf_Help f));
    ("metrics", encode_ptrs encode_metric (rf_Metrics f));
    ("resolver", encode_string (rf_Resolver f)); ("labelKeys", encode_strings (rf_LabelKeys f));
    ("labelValues", encode_strings (rf_LabelValues f))].

Definition encode_store (s : raw_store) : node :=
  encode_struct [("g", encode_string (rs_Group s)); ("v", encode_string (rs_Version s));
    ("k", encode_string (rs_Kind s)); ("r", encode_string (rs_ResourceName s));
    ("selectors", encode_struct [("label", encode_string (rs_Selectors_Label s));
                                 ("field", encode_string (rs_Selectors_Field s))]);
    ("families", encode_ptrs encode_family (rs_Families s));
    ("resolver", encode_string (rs_Resolver s)); ("labelKeys", encode_strings (rs_LabelKeys s));
    ("labelValues", encode_strings (rs_LabelValues s))].

Definition encode_configuration (c : configuration) : node :=
  encode_struct [("stores", encode_ptrs encode_store c)].

(** An encoding of the values of a type, and how they are read back. *)
Record codec {A} (t : ty) (encode : A → node) (read : value → A) : Prop := {
  codec_decode x : ∃ v, unmarshal (encode x) t (zero t) = Ok (true, v, []) ∧ read v = x;
  codec_mapping x : ∃ entries, encode x = Mapping entries;
}.

Lemma unmarshal_strings l v :
  unmarshal (encode_strings l) (TSlice TString) v = Ok (true, VSlice (map VString l), []).
Proof.
  simpl. assert (elements unmarshal TString (map encode_string l) = Ok (map VString l, [])) as ->; [|done].
  induction l as [|s l IH]; [done|]. simpl. by rewrite IH.
Qed.

Lemma to_strings l : to_list to_string (VSlice (map VString l)) = l.
Proof. simpl. rewrite List.map_map. by rewrite List.map_id. Qed.

Lemma unmarshal_ptrs {A} t (encode : A → node) read l v :
  codec t encode read →
  ∃ vs, unmarshal (encode_ptrs encode l) (TSlice (TPtr t)) v = Ok (true, VSlice vs, []) ∧
    to_list (to_ptr read) (VSlice vs) = l.
Proof.
  intros [Hd Hm]. simpl.
  assert (∃ vs, elements unmarshal (TPtr t) (map (encode_ptr encode) l) = Ok (vs, []) ∧
    map (to_ptr read) vs = l) as (vs & -> & Hvs); [|by exists vs].
  induction l as [|[x|] l (vs & Hl & Hvs)]; [by exists []| |].
  - destruct (Hd x) as (w & Hw & Hr), (Hm x) as [entries Hx]. exists (VPtr (Some w) :: vs).
    simpl. rewrite Hl, Hx. rewrite Hx in Hw. simpl in Hw |- *. rewrite Hw. simpl.
    by rewrite Hr, Hvs.
  - exists (VPtr None :: vs). simpl. rewrite Hl. simpl. by rewrite Hvs.
Qed.

(** The encoding of a struct is read field by field. *)
Lemma duplicate_keys_nil (kns : list (string * node)) :
  NoDup kns.*1 → duplicate_keys (map (λ '(key, n), (encode_string key, n)) kns) = [].
Proof.
  induction kns as [|[key n] kns IH]; [done|]. cbn [fmap list_fmap fst].
  intros [Hk Hnd]%NoDup_cons. simpl. rewrite (IH Hnd), app_nil_r. clear IH Hnd.
  induction kns as [|[key' n'] kns IH]; [done|]. cbn [fmap list_fmap fst] in Hk.
  apply not_elem_of_cons in Hk as [Hne Hk]. simpl. rewrite decide_False by congruence. by apply IH.
Qed.

Lemma field_index_app fields key t rest :
  key ∉ fields.*1 → field_index (fields ++ (key, t) :: rest) key = Some (length fields, t).
Proof.
  induction fields as [|[name t'] fields IH]; cbn [fmap list_fmap fst]; simpl.
  - by rewrite decide_True.
  - intros [Hne Hk]%not_elem_of_cons. rewrite decide_False by congruence. by rewrite (IH Hk).
Qed.

Lemma struct_entries_encode rest ns vs :
  Forall3 (λ f n v, unmarshal n f.2 (zero f.2) = Ok (true, v, [])) rest ns vs →
  ∀ fields pre, NoDup (fields ++ rest).*1 → length pre = length fields →
  struct_entries unmarshal (fields ++ rest)
    (map (λ '(key, n), (encode_string key, n)) (zip rest.*1 ns))
    (pre ++ map (λ f, zero f.2) rest) = Ok (pre ++ vs, []).
Proof.
  induction 1 as [|[key t] n v rest ns vs Hn _ IH]; intros fields pre Hnd Hlen; [done|].
  cbn [fmap list_fmap fst zip map struct_entries].
  assert (key ∉ fields.*1) as Hk.
  { rewrite fmap_app in Hnd. apply NoDup_app in Hnd as (_ & Hd & _). intros Hin.
    apply (Hd key Hin). cbn. left. }
  change (unmarshal (encode_string key) TString (VString "")) with (Ok (E:=failure) (true, VString key, @nil type_error)).
  cbn [mbind failure_bind]. cbn iota beta. rewrite (field_index_app _ _ _ _ Hk), <- Hlen, lookup_app_r, Nat.sub_diag by lia.
  cbn [lookup list_lookup default from_option id fst snd] in Hn |- *. rewrite Hn.
  cbn [mbind failure_bind]. cbn iota beta.
  specialize (IH (fields ++ [(key, t)]) (pre ++ [v])). rewrite <- !app_assoc in IH. cbn in IH.
  replace (<[length pre:=v]> (pre ++ zero t :: map (λ f, zero f.2) rest))
    with (pre ++ v :: map (λ f, zero f.2) rest)
    by (rewrite insert_app_r_alt, Nat.sub_diag by lia; done).
  rewrite IH; [done|done|rewrite !length_app; simpl; lia].
Qed.

Lemma unmarshal_struct fields kns vs :
  NoDup fields.*1 → kns.*1 = fields.*1 →
  Forall3 (λ f n v, unmarshal n f.2 (zero f.2) = Ok (true, v, [])) fields kns.*2 vs →
  unmarshal (encode_struct kns) (TStruct fields) (zero (TStruct fields)) =
  Ok (true, VStruct vs, []).
Proof.
  intros Hnd Hk Hf. cbn [encode_struct unmarshal prepare zero]. unfold mapping.
  rewrite duplicate_keys_nil by by rewrite Hk.
  pose proof (struct_entries_encode fields kns.*2 vs Hf [] [] Hnd eq_refl) as Hse.
  rewrite <- Hk, zip_fst_snd in Hse. simpl in Hse. by rewrite Hse.
Qed.

(** The fields of a struct, each with its codec. *)
Ltac struct_fields :=
  apply unmarshal_struct;
  [by apply (bool_decide_unpack _)|reflexivity|];
  repeat first [apply Forall3_nil | apply Forall3_cons];
  first [eassumption | apply unmarshal_strings | reflexivity].

Lemma metric_codec : codec metric_ty encode_metric to_metric.
Proof.
  split; [|by eexists]. intros m. eexists. split; [struct_fields|].
  unfold to_metric. cbn [field lookup list_lookup default from_option id]. rewrite !to_strings. by destruct m.
Qed.

Lemma family_codec : codec family_ty encode_family to_family.
Proof.
  split; [|by eexists]. intros f.
  destruct (unmarshal_ptrs metric_ty encode_metric to_metric (rf_Metrics f) (VSlice []) metric_codec)
    as (vs & Hvs & Hr).
  eexists. split; [struct_fields|].
  unfold to_family. cbn [field lookup list_lookup default from_option id]. rewrite !to_strings, Hr. by destruct f.
Qed.

Lemma store_codec : codec store_ty encode_store to_store.
Proof.
  split; [|by eexists]. intros s.
  destruct (unmarshal_ptrs family_ty encode_family to_family (rs_Families s) (VSlice []) family_codec)
    as (vs & Hvs & Hr).
  eexists. split; [struct_fields|].
  unfold to_store. cbn [field lookup list_lookup default from_option id]. rewrite !to_strings, Hr. by destruct s.
Qed.

(** *** Null items *)

Lemma mapM_id_Some {A} (l : list (option A)) : is_Some (mapM id l) ↔ Forall is_Some l.
Proof. by rewrite mapM_is_Some. Qed.

Lemma store_of_Some s : is_Some (store_of s) ↔ Forall is_Some (rs_Families s).
Proof.
  rewrite <- mapM_id_Some. unfold store_of. destruct (mapM id (rs_Families s)); simpl; [|done].
  by split; eexists.
Qed.

Lemma pointers_Some c : (∃ scs, pointers c = Some <$> scs) ↔ no_nulls c.
Proof.
  unfold no_nulls, pointers. induction c as [|o c IH].
  { split; [by constructor|by exists []]. }
  rewrite fmap_cons, Forall_cons, <- IH. split.
  - intros ([|sc scs] & [= Ho Hc]). split; [|by exists scs].
    destruct o as [r|]; [|done]. exists r. split; [done|]. apply store_of_Some. by exists sc.
  - intros ((r & -> & [sc Hsc]%store_of_Some) & scs & ->). exists (sc :: scs). simpl. by rewrite Hsc.
Qed.

(** ** Properties *)


(** C29: A configuration, written with the keys of the struct tags and with null
    for its nil pointers, is decoded to itself without an error. *)
Theorem decode_encode c : decode_configuration (Some (encode_configuration c)) = Ok (c, []).
Proof.
  destruct (unmarshal_ptrs store_ty encode_store to_store c (VSlice []) store_codec)
    as (vs & Hvs & Hr).
  unfold decode_configuration, encode_configuration.
  assert (unmarshal (encode_struct [("stores", encode_ptrs encode_store c)]) configuration_ty
    (zero configuration_ty) = Ok (true, VStruct [VSlice vs], [])) as -> by struct_fields.
  cbn [mbind failure_bind]. cbn iota beta. unfold to_configuration. cbn [field lookup list_lookup default from_option id]. by rewrite Hr.
Qed.

(** A document that is decoded without an error gives a configuration that
    [build] goes through without a nil dereference exactly when none of its
    stores and none of their families is null. *)
Lemma decoded_buildable parse_yaml raw doc c :
  parse_yaml raw = Ok doc → decode_configuration doc = Ok (c, []) →
  (@buildable (decoder_Yaml parse_yaml) raw ↔ no_nulls c).
Proof.
  intros Hp Hd. rewrite <- pointers_Some. unfold buildable, decoder_Yaml. cbn [yaml_Unmarshal].
  rewrite Hp, Hd. split; [by intros Hb; apply Hb|]. by intros Hs cs [= <-].
Qed.

(** ** A document *)
Module DecodeExample.

Definition str (s : string) : node := Scalar StrTag s.

(** A store with a null family, a list for a help and an unknown key; a number for a store. *)
Definition document : node :=
  Mapping [(str "stores", Sequence [
    Mapping [(str "g", str "a");
             (str "families", Sequence [Scalar NullTag "null";
                Mapping [(str "name", str "x"); (str "help", Sequence [])]]);
             (str "other", Scalar OtherTag "1")];
    Scalar OtherTag "2"])].

Example decode_document :
  decode_configuration (Some document) =
  Ok ([Some {| rs_Group := "a"; rs_Version := ""; rs_Kind := ""; rs_ResourceName := "";
            rs_Selectors_Label := ""; rs_Selectors_Field := "";
            rs_Families := [None; Some {| rf_Name := "x"; rf_Help := ""; rf_Metrics := [];
              rf_Resolver := ""; rf_LabelKeys := []; rf_LabelValues := [] |}];
            rs_Resolver := ""; rs_LabelKeys := []; rs_LabelValues := [] |}],
   [CannotUnmarshal "seq" TString; CannotUnmarshal "scalar" store_ty]).
Proof. reflexivity. Qed.

(** Padding, newlines, and what is not base64. *)
Example base64_texts :
  base64_Decode <$> ["aGVsbG8="; "aGVs" +:+ String "010" "bG8h"; "YQ=="; ""; "YQ="; "YQ==YQ=="; "Y"; "a-b_"] =
  [Some "hello"; Some "hello!"; Some "a"; Some ""; None; None; None; None].
Proof. reflexivity. Qed.

(** A binary string is decoded, as a key too; one that is not base64 fails. *)
Example decode_binary :
  unmarshal (Mapping [(Scalar BinaryTag "Zw==", Scalar BinaryTag "YXBwcw==")])
    (TStruct [("g", TString)]) (VStruct [VString ""]) = Ok (true, VStruct [VString "apps"], []) ∧
  unmarshal (Sequence [Scalar BinaryTag "apps!"]) (TSlice TString) (VSlice []) = Err InvalidBase64.
Proof. by split. Qed.


Definition null_store : node := Mapping [(str "stores", Sequence [Scalar NullTag "null"])].

Lemma decoded_buildable_witness :
  decode_configuration (Some null_store) = Ok ([None], []) ∧
  (@buildable (decoder_Yaml (λ _, Ok (Some null_store))) "stores: [null]" ↔ no_nulls [None]).
Proof.
  split; [reflexivity|].
  apply (decoded_buildable (λ _, Ok (Some null_store)) "stores: [null]" (Some null_store) [None]);
    reflexivity.
Defined.

End DecodeExample.
