(* ===== verification/Events.v ===== *)
(** * Event handling ([internal/events.go])

    [handleEvent] reconciles one managed resource: it updates its metadata and
    status through the API server, and rebuilds or drops its stores.  The API
    server, the clock and the timer are an environment with operations of the
    interface [API]; what the server promises is [APILaws].  The YAML library
    is the parameter of [Builder].  Logging is not modelled. *)
From S2P Require Import Prelude GoStrings Strconv GoSort Values Resolver Metric Family Store Types Builder.

(** ** Events *)

Inductive eventType : Type := addEvent | updateEvent | deleteEvent.

Definition event_String (e : eventType) : string :=
  match e with
  | addEvent => "addEvent"
  | updateEvent => "updateEvent"
  | deleteEvent => "deleteEvent"
  end.

(** ** The environment *)

(** What a wait on the poll timer comes to. *)
Inductive tick : Type :=
| Tick
| CtxDone (err : string).

Class API (E : Type) : Type := {
  api_Get : string → string → E → result string CRDMetricsResource * E;
  api_Update : string → CRDMetricsResource → E → result string CRDMetricsResource * E;
  api_UpdateStatus : string → CRDMetricsResource → E → result string CRDMetricsResource * E;
  env_Now : E → Z * E;
  env_Tick : E → tick * E;
}.

(** The banner of the binary, [version.Version()]. *)
Class BuildInfo : Type := {
  version_Version : string;
}.

Definition ControllerName : string := "crdmetrics".

(** The handler runs on the world of the controller and its environment. *)
Record Sys (E : Type) : Type := MkSys {
  sys_world : World;
  sys_env : E;
}.
Arguments MkSys {E} _ _.
Arguments sys_world {E} _.
Arguments sys_env {E} _.

Definition on_env {E A} (f : E → A * E) : M (Sys E) A := λ s,
  let '(a, e) := f (sys_env s) in (Done a, MkSys (sys_world s) e).

Definition on_world {E A} (m : M World A) : M (Sys E) A := λ s,
  let '(a, w) := m (sys_world s) in (a, MkSys w (sys_env s)).

(** [klog.KObj(resource).String()]. *)
Definition KObj (r : CRDMetricsResource) : string :=
  if decide (res_Namespace r = "") then res_Name r
  else res_Namespace r +:+ "/" +:+ res_Name r.

(** [metav1.Object]: the only implementation the handler accepts, or another. *)
Inductive Object : Type :=
| CRDObject (r : CRDMetricsResource)
| OtherObject.

(** ** Handler *)

Definition managed_by_label : string := "app.kubernetes.io/managed-by".
Definition version_label : string := "app.kubernetes.io/version".

Section handler.
Context {E : Type} `{!API E} `{!BuildInfo} `{!Yaml}.

(** The labels that [updateMetadata] sets. *)
Definition metadata_labels (labels : option (gmap string string)) : gmap string string :=
  let labels := default ∅ labels in
  let controllerNameSanitized := ReplaceAll ControllerName "_" "-" in
  let labels := <[managed_by_label := controllerNameSanitized]> labels in
  match find_revision version_Version with
  | Some revisionSHA => <[version_label := revisionSHA]> labels
  | None => labels
  end.

(** The condition function of the poll, with the captured [resource] it
    reassigns. *)
Definition metadata_condition (kObj : string) (resource : CRDMetricsResource)
    : M (Sys E) (result string bool * CRDMetricsResource) :=
  got ← on_env (api_Get (res_Namespace resource) (res_Name resource));
  match got with
  | Err err => mret (Err ("failed to get " +:+ kObj +:+ ": " +:+ err), resource)
  | Ok gotResource =>
    let resource := DeepCopy gotResource in
    let resource := set_Labels (Some (metadata_labels (res_Labels resource))) resource in
    updated ← on_env (api_Update (res_Namespace resource) resource);
    match updated with
    | Err err => mret (Err ("failed to update " +:+ kObj +:+ ": " +:+ err), resource)
    | Ok resource => mret (Ok true, resource)
    end
  end.

(** [wait.PollUntilContextTimeout] with [immediate] false: each round waits for
    a tick, or for the end of the context; [fuel] is the number of intervals
    before the deadline. *)
Fixpoint poll (fuel : nat)
    (condition : CRDMetricsResource → M (Sys E) (result string bool * CRDMetricsResource))
    (resource : CRDMetricsResource) : M (Sys E) (option string) :=
  match fuel with
  | O => mret (Some "context deadline exceeded")
  | S fuel =>
    t ← on_env env_Tick;
    match t with
    | CtxDone err => mret (Some err)
    | Tick =>
      '(r, resource) ← condition resource;
      match r with
      | Err err => mret (Some err)
      | Ok true => mret None
      | Ok false => poll fuel condition resource
      end
    end
  end.

(** A minute of one-second intervals. *)
Definition poll_rounds : nat := 60.

(** [updateMetadata]: its error. *)
Definition updateMetadata (resource : CRDMetricsResource) : M (Sys E) (option string) :=
  let kObj := KObj resource in
  err ← poll poll_rounds (metadata_condition kObj) resource;
  match err with
  | Some err => mret (Some ("failed while polling for " +:+ kObj +:+ ": " +:+ err))
  | None => mret None
  end.

(** [ConditionType[i]] of the API package. *)
Definition condition_type (i : nat) : M (Sys E) string := lift (index ConditionType i).

(** [emitSuccessOnResource]. *)
Definition emitSuccessOnResource (gotResource : CRDMetricsResource)
    (conditionBool message : string) : M (Sys E) (result string CRDMetricsResource) :=
  let kObj := KObj gotResource in
  got ← on_env (api_Get (res_Namespace gotResource) (res_Name gotResource));
  match got with
  | Err err => mret (Err ("failed to get " +:+ kObj +:+ ": " +:+ err))
  | Ok resource =>
    type ← condition_type ConditionTypeProcessed;
    now ← on_env env_Now;
    resource ← lift (Set_condition now (new_condition type conditionBool message) resource);
    updated ← on_env (api_UpdateStatus (res_Namespace resource) resource);
    match updated with
    | Err err => mret (Err ("failed to update the status of " +:+ kObj +:+ ": " +:+ err))
    | Ok resource => mret (Ok resource)
    end
  end.

(** [emitFailureOnResource]: errors are only logged. *)
Definition emitFailureOnResource (gotResource : CRDMetricsResource) (message : string)
    : M (Sys E) unit :=
  got ← on_env (api_Get (res_Namespace gotResource) (res_Name gotResource));
  match got with
  | Err _ => mret tt
  | Ok resource =>
    type ← condition_type ConditionTypeFailed;
    now ← on_env env_Now;
    resource ← lift (Set_condition now (new_condition type ConditionTrue message) resource);
    _ ← on_env (api_UpdateStatus (res_Namespace resource) resource);
    mret tt
  end.

(** The closure [dropStores]. *)
Definition dropStores (resource : CRDMetricsResource) : M (Sys E) unit :=
  let resourceUID := res_UID resource in
  on_world (modify (λ w,
    match w_stores w !! resourceUID with
    | Some _ => set_stores (delete resourceUID (w_stores w)) w
    | None => w
    end)).

(** The last step of [handleEvent]: the success status; its error is logged. *)
Definition emit_processed (resource : CRDMetricsResource) (event : string)
    : M (Sys E) (option string) :=
  _ ← emitSuccessOnResource resource ConditionTrue
        ("Event handler successfully processed event: " +:+ event);
  mret None.

(** The switch of [handleEvent] on the event. *)
Definition handle_switch (resource : CRDMetricsResource) (event : string) (tryNoCache : bool)
    : M (Sys E) (option string) :=
  let configurerInstance := newConfigurer resource in
  if bool_decide (event = event_String addEvent) || bool_decide (event = event_String updateEvent)
  then
    dropStores resource;;
    let '(err, configurerInstance) := parse (res_Configuration resource) configurerInstance in
    match err with
    | Some err =>
      emitFailureOnResource resource ("Failed to parse configuration YAML: " +:+ err);;
      mret None
    | None =>
      on_world (build configurerInstance tryNoCache);;
      emit_processed resource event
    end
  else if bool_decide (event = event_String deleteEvent) then
    dropStores resource;;
    emit_processed resource event
  else
    emitFailureOnResource resource ("Unknown event type: " +:+ event);;
    mret None.

(** [handleEvent]: the error it returns, [None] for nil. *)
Definition handleEvent (event : string) (o : Object) (tryNoCache : bool)
    : M (Sys E) (option string) :=
  match o with
  | OtherObject => lift (Panicked NilDereference)
  | CRDObject resource =>
    err ← updateMetadata resource;
    match err with
    | Some _ => mret None
    | None =>
      r ← emitSuccessOnResource resource ConditionFalse
            ("Event handler received event: " +:+ event);
      match r with
      | Err _ => mret None
      | Ok resource =>
        if decide (res_Configuration resource = "") then
          emitFailureOnResource resource "Configuration YAML is empty";;
          mret None
        else handle_switch resource event tryNoCache
      end
    end
  end.
End handler.

(** ** The world after an event *)

Definition drop_world (uid : string) (w : World) : World :=
  match w_stores w !! uid with
  | Some _ => set_stores (delete uid (w_stores w)) w
  | None => w
  end.

(** What a handled event does to the stores of the resource [uid] with the
    configuration [raw]: an addition or an update drops the old stores and
    builds the configured ones, if it parses; a deletion drops them. *)
Definition handled_world `{!Yaml} (event uid raw : string) (tryNoCache : bool) (w : World)
    : World :=
  if bool_decide (event = "addEvent") || bool_decide (event = "updateEvent") then
    match yaml_Unmarshal raw with
    | (cs, None) => build_world uid tryNoCache (omap id cs) (drop_world uid w)
    | (_, Some _) => drop_world uid w
    end
  else if bool_decide (event = "deleteEvent") then drop_world uid w
  else w.

(** An addition or an update of a configuration with a null item, after the
    stores [scs]. *)
Definition null_item `{!Yaml} (event raw : string) (scs : list StoreType) : Prop :=
  (event = "addEvent" ∨ event = "updateEvent") ∧
  ∃ rest, yaml_Unmarshal raw = ((Some <$> scs) ++ None :: rest, None).

(** ** Lemmas *)

(** An event that builds, builds something that it can. *)
Definition buildable_for `{!Yaml} (event raw : string) : Prop :=
  event = "addEvent" ∨ event = "updateEvent" → buildable raw.

Lemma null_or_not {A} (l : list (option A)) :
  (∃ xs, l = Some <$> xs) ∨ (∃ xs rest, l = (Some <$> xs) ++ None :: rest).
Proof.
  induction l as [|[x|] l [(xs & ->)|(xs & rest & ->)]].
  - left. by exists [].
  - left. by exists (x :: xs).
  - right. by exists (x :: xs), rest.
  - right. by exists [], (Some <$> xs).
  - right. by exists [], ((Some <$> xs) ++ None :: rest).
Qed.

Lemma building_event event :
  reflect (event = "addEvent" ∨ event = "updateEvent")
    (bool_decide (event = "addEvent") || bool_decide (event = "updateEvent")).
Proof.
  apply iff_reflect. by rewrite orb_true_iff, !bool_decide_eq_true.
Qed.

Lemma buildable_not_null `{!Yaml} event raw scs : buildable_for event raw → ¬ null_item event raw scs.
Proof.
  intros Hb [He (rest & (scs' & Heq)%(Hb He))]. assert (None ∈ Some <$> scs') as Hin.
  { rewrite <- Heq. apply elem_of_app. right. by left. }
  by apply list_elem_of_fmap in Hin as (x & ? & _).
Qed.

Lemma buildable_or_null `{!Yaml} event raw :
  buildable_for event raw ∨ ∃ scs, null_item event raw scs.
Proof.
  destruct (building_event event) as [He|He]; [|left; by intros ?].
  destruct (yaml_Unmarshal raw) as [cs [err|]] eqn:Hy; [by left; intros _ cs'; rewrite Hy|].
  destruct (null_or_not cs) as [(scs & ->)|(scs & rest & ->)].
  - left. intros _ cs'. rewrite Hy. intros [= <-]. by exists scs.
  - right. exists scs. split; [done|]. by exists rest.
Qed.

Lemma not_null_buildable `{!Yaml} event raw :
  (∀ scs, ¬ null_item event raw scs) → buildable_for event raw.
Proof. intros Hno. destruct (buildable_or_null event raw) as [|[scs []%Hno]]; done. Qed.

Section lemmas.
Context {E : Type} `{!API E} `{!BuildInfo} `{!Yaml}.

Lemma wp_on_env {A} (f : E → A * E) (Q : A → Sys E → Prop) s :
  (∀ a e, f (sys_env s) = (a, e) → Q a (MkSys (sys_world s) e)) → wp (on_env f) Q s.
Proof. unfold wp, on_env. destruct (f (sys_env s)) as [a e] eqn:Hf. eauto. Qed.

(** A computation that touches the environment only. *)
Definition world_safe {A} (m : M (Sys E) A) : Prop :=
  ∀ s, wp m (λ _ s', sys_world s' = sys_world s) s.

Lemma world_safe_ret {A} (a : A) : world_safe (mret a).
Proof. done. Qed.

Lemma world_safe_on_env {A} (f : E → A * E) : world_safe (on_env f).
Proof. intros s. by apply wp_on_env. Qed.

Lemma world_safe_bind {A B} (m : M (Sys E) A) (k : A → M (Sys E) B) :
  world_safe m → (∀ a, world_safe (k a)) → world_safe (m ≫= k).
Proof.
  intros Hm Hk s. apply wp_bind. apply (wp_mono _ _ _ _ (Hm s)).
  intros a s' <-. apply Hk.
Qed.

Lemma world_safe_lift {A} (o : outcome A) a : o = Done a → world_safe (lift o).
Proof. by intros -> s. Qed.

Lemma Set_condition_Done now type status message r :
  known_type type →
  Set_condition now (new_condition type status message) r =
  Done (set_Conditions
          (upsert (stored_condition now (res_Generation r) (new_condition type status message))
             (res_Conditions r)) r).
Proof. intros Hk. unfold Set_condition. by rewrite status_Set_known. Qed.
End lemmas.

Create HintDb world_safe.
#[export] Hint Resolve world_safe_ret world_safe_on_env : world_safe.

Section world.
Context {E : Type} `{!API E} `{!BuildInfo} `{!Yaml}.

Lemma condition_processed_bind {A} (k : string → M (Sys E) A) :
  condition_type ConditionTypeProcessed ≫= k = k "Processed".
Proof. reflexivity. Qed.

Lemma condition_failed_bind {A} (k : string → M (Sys E) A) :
  condition_type ConditionTypeFailed ≫= k = k "Failed".
Proof. reflexivity. Qed.

(** The resource with a condition set. *)
Definition with_condition (now : Z) (type status message : string) (r : CRDMetricsResource)
    : CRDMetricsResource :=
  set_Conditions
    (upsert (stored_condition now (res_Generation r) (new_condition type status message))
       (res_Conditions r)) r.

Lemma set_condition_bind {A} now type status message r (k : CRDMetricsResource → M (Sys E) A) :
  known_type type →
  lift (Set_condition now (new_condition type status message) r) ≫= k =
  k (with_condition now type status message r).
Proof. intros Hk. by rewrite Set_condition_Done. Qed.

Lemma known_processed : known_type "Processed".
Proof. by left. Qed.

Lemma known_failed : known_type "Failed".
Proof. right. by left. Qed.

Ltac world_safe_step :=
  match goal with
  | |- world_safe (mbind _ (condition_type _)) =>
    rewrite condition_processed_bind || rewrite condition_failed_bind
  | |- world_safe (mbind _ (lift _)) =>
    rewrite set_condition_bind by (apply known_processed || apply known_failed)
  | |- world_safe (mbind _ _) => apply world_safe_bind; [|intros ?]
  | |- world_safe (match ?x with _ => _ end) => destruct x
  | |- world_safe (let _ := _ in _) => cbv zeta
  | _ => solve [eauto with world_safe]
  end.

Lemma metadata_condition_safe kObj r : world_safe (E := E) (metadata_condition kObj r).
Proof. unfold metadata_condition. repeat world_safe_step. Qed.

Lemma poll_safe fuel c r : (∀ r, world_safe (E := E) (c r)) → world_safe (poll fuel c r).
Proof.
  intros Hc. revert r. induction fuel as [|fuel IH]; intros r; simpl; repeat world_safe_step.
Qed.

Lemma updateMetadata_safe r : world_safe (E := E) (updateMetadata r).
Proof.
  unfold updateMetadata. cbv zeta. apply world_safe_bind.
  - apply poll_safe. intros r'. apply metadata_condition_safe.
  - intros err. repeat world_safe_step.
Qed.

Lemma emitSuccess_safe r status message :
  world_safe (E := E) (emitSuccessOnResource r status message).
Proof.
  unfold emitSuccessOnResource. repeat world_safe_step.
Qed.

Lemma emitFailure_safe r message : world_safe (E := E) (emitFailureOnResource r message).
Proof.
  unfold emitFailureOnResource. repeat world_safe_step.
Qed.

Lemma emit_processed_safe r event : world_safe (E := E) (emit_processed r event).
Proof.
  unfold emit_processed. apply world_safe_bind; [apply emitSuccess_safe|].
  intros ?. apply world_safe_ret.
Qed.

(** [emitFailureOnResource] then nil, or the success status then nil. *)
Lemma wp_fail_nil r message (s : Sys E) :
  wp (emitFailureOnResource r message;; mret None)
    (λ (err : option string) s', err = None ∧ sys_world s' = sys_world s) s.
Proof.
  apply wp_bind. apply (wp_mono _ _ _ _ (emitFailure_safe r message s)).
  intros [] s' Hs'. by apply wp_ret.
Qed.

Lemma wp_processed_nil r event (s : Sys E) :
  wp (emit_processed r event) (λ err s', err = None ∧ sys_world s' = sys_world s) s.
Proof.
  unfold emit_processed. apply wp_bind.
  apply (wp_mono _ _ _ _ (emitSuccess_safe _ _ _ s)).
  intros ? s' Hs'. by apply wp_ret.
Qed.

Lemma wp_dropStores r (Q : unit → Sys E → Prop) s :
  Q tt (MkSys (drop_world (res_UID r) (sys_world s)) (sys_env s)) → wp (dropStores r) Q s.
Proof. done. Qed.

(** Building what was decoded. *)
Lemma wp_build_decoded r cs tryNoCache (Q : unit → Sys E → Prop) (s : Sys E) :
  (∃ scs, cs = Some <$> scs) →
  Q tt (MkSys (build_world (res_UID r) tryNoCache (omap id cs) (sys_world s)) (sys_env s)) →
  wp (on_world (build {| cfg_Stores := cs; cfg_resource := r |} tryNoCache)) Q s.
Proof.
  intros [scs ->]. rewrite omap_id_Some. unfold wp, on_world, build. simpl.
  by rewrite build_all_world.
Qed.

(** The switch, for every event and configuration. *)
Lemma handle_switch_world r event tryNoCache (s : Sys E) :
  buildable_for event (res_Configuration r) →
  wp (handle_switch r event tryNoCache)
    (λ err s', err = None ∧
      sys_world s' =
        handled_world event (res_UID r) (res_Configuration r) tryNoCache (sys_world s)) s.
Proof.
  intros Hb. unfold handle_switch, handled_world, parse. simpl.
  destruct (building_event event).
  - wp_step. apply wp_dropStores.
    destruct (yaml_Unmarshal _) as [cs [err|]] eqn:Hy.
    + apply wp_fail_nil.
    + wp_step. apply wp_build_decoded; [by apply Hb|]. apply wp_processed_nil.
  - destruct (bool_decide _).
    + wp_step. apply wp_dropStores. apply wp_processed_nil.
    + apply wp_fail_nil.
Qed.

(** The switch on a null item. *)
Lemma handle_switch_null r event tryNoCache scs (s : Sys E) :
  null_item event (res_Configuration r) scs →
  ∃ s', handle_switch r event tryNoCache s = (Panicked NilDereference, s') ∧
    sys_world s' = build_world (res_UID r) tryNoCache scs (drop_world (res_UID r) (sys_world s)).
Proof.
  intros [He (rest & Hy)]. unfold handle_switch, parse. rewrite Hy.
  change (event_String addEvent) with "addEvent". change (event_String updateEvent) with "updateEvent".
  destruct (building_event event); [|done]. eexists. split.
  - unfold mbind, M_bind, dropStores, on_world, modify. cbv iota beta zeta.
    cbn [sys_world sys_env]. unfold build. cbn [cfg_Stores cfg_resource newConfigurer].
    rewrite build_all_app. reflexivity.
  - done.
Qed.
End world.

(** ** What the API server promises

    [cluster] is the state of the server.  A successful [Update] stores the
    metadata and the spec it is given and keeps the status; [UpdateStatus] the
    other way round; a failed request changes nothing.  No other client writes
    during the handling of an event. *)
Class APILaws (E : Type) `{!API E} : Type := {
  cluster : E → gmap (string * string) CRDMetricsResource;
  cluster_keyed e k r : cluster e !! k = Some r → (res_Namespace r, res_Name r) = k;
  get_ok ns n r e e' :
    api_Get ns n e = (Ok r, e') →
    cluster e' = cluster e ∧ cluster e !! (ns, n) = Some r ∧
    res_Namespace r = ns ∧ res_Name r = n;
  get_err ns n err e e' : api_Get ns n e = (Err err, e') → cluster e' = cluster e;
  update_ok ns r r' e e' :
    api_Update ns r e = (Ok r', e') →
    ∃ old, cluster e !! (ns, res_Name r) = Some old ∧
      cluster e' = <[(ns, res_Name r) := r']> (cluster e) ∧
      res_Configuration r' = res_Configuration r ∧ res_Labels r' = res_Labels r ∧
      res_Conditions r' = res_Conditions old ∧ res_UID r' = res_UID old;
  update_err ns r err e e' : api_Update ns r e = (Err err, e') → cluster e' = cluster e;
  status_ok ns r r' e e' :
    api_UpdateStatus ns r e = (Ok r', e') →
    ∃ old, cluster e !! (ns, res_Name r) = Some old ∧
      cluster e' = <[(ns, res_Name r) := r']> (cluster e) ∧
      res_Configuration r' = res_Configuration old ∧ res_Labels r' = res_Labels old ∧
      res_Conditions r' = res_Conditions r ∧ res_UID r' = res_UID old;
  status_err ns r err e e' : api_UpdateStatus ns r e = (Err err, e') → cluster e' = cluster e;
  now_cluster t e e' : env_Now e = (t, e') → cluster e' = cluster e;
  tick_cluster t e e' : env_Tick e = (t, e') → cluster e' = cluster e;
}.

(** *** A server in memory

    It keeps the resources by key and checks resource versions. *)
Module Mem.
Record Server : Type := MkServer {
  mem_cluster : gmap (string * string) CRDMetricsResource;
  mem_version : Z;
  mem_clock : Z;
}.

Definition keyed (ns n : string) (r : CRDMetricsResource) : CRDMetricsResource := {|
  res_Namespace := ns; res_Name := n; res_UID := res_UID r;
  res_ResourceVersion := res_ResourceVersion r; res_Generation := res_Generation r;
  res_Labels := res_Labels r; res_Configuration := res_Configuration r;
  res_Conditions := res_Conditions r;
|}.

Definition read (e : Server) : gmap (string * string) CRDMetricsResource :=
  map_imap (λ k r, Some (keyed k.1 k.2 r)) (mem_cluster e).

Definition write (k : string * string) (r : CRDMetricsResource) (e : Server)
    : result string CRDMetricsResource * Server :=
  let r := set_ResourceVersion (Itoa (mem_version e + 1)) (keyed k.1 k.2 r) in
  (Ok r, MkServer (<[k := r]> (mem_cluster e)) (mem_version e + 1) (mem_clock e)).

Definition get (ns n : string) (e : Server) : result string CRDMetricsResource * Server :=
  match read e !! (ns, n) with
  | Some r => (Ok r, e)
  | None => (Err (n +:+ " not found"), e)
  end.

Definition update (merge : CRDMetricsResource → CRDMetricsResource → CRDMetricsResource)
    (ns : string) (r : CRDMetricsResource) (e : Server)
    : result string CRDMetricsResource * Server :=
  match read e !! (ns, res_Name r) with
  | None => (Err (res_Name r +:+ " not found"), e)
  | Some old =>
    if decide (res_ResourceVersion r = res_ResourceVersion old)
    then write (ns, res_Name r) (merge old r) e
    else (Err "the object has been modified", e)
  end.

Definition merge_object (old r : CRDMetricsResource) : CRDMetricsResource := {|
  res_Namespace := res_Namespace old; res_Name := res_Name old; res_UID := res_UID old;
  res_ResourceVersion := res_ResourceVersion old;
  res_Generation :=
    if decide (res_Configuration r = res_Configuration old) then res_Generation old
    else (res_Generation old + 1)%Z;
  res_Labels := res_Labels r; res_Configuration := res_Configuration r;
  res_Conditions := res_Conditions old;
|}.

Definition merge_status (old r : CRDMetricsResource) : CRDMetricsResource :=
  set_Conditions (res_Conditions r) old.

#[export] Instance server_API : API Server := {|
  api_Get := get;
  api_Update := update merge_object;
  api_UpdateStatus := update merge_status;
  env_Now e := (mem_clock e, MkServer (mem_cluster e) (mem_version e) (mem_clock e + 1));
  env_Tick e := (Tick, e);
|}.

Lemma read_lookup e ns n r :
  read e !! (ns, n) = Some r → res_Namespace r = ns ∧ res_Name r = n.
Proof.
  unfold read. rewrite map_lookup_imap. simpl.
  destruct (mem_cluster e !! (ns, n)); simpl; [|done]. by intros [= <-].
Qed.

Lemma write_read k r e r' e' :
  write k r e = (Ok r', e') → read e' = <[k := r']> (read e).
Proof.
  intros [= <- <-]. unfold read. simpl. by rewrite map_imap_insert.
Qed.

Lemma update_ok merge ns r r' e e' :
  update merge ns r e = (Ok r', e') →
  ∃ old, read e !! (ns, res_Name r) = Some old ∧
    read e' = <[(ns, res_Name r) := r']> (read e) ∧
    r' = set_ResourceVersion (Itoa (mem_version e + 1)) (keyed ns (res_Name r) (merge old r)).
Proof.
  unfold update. destruct (read e !! _) as [old|] eqn:Hold; [|done].
  case_decide; [|done]. intros Hw. exists old. split; [done|].
  split; [by apply (write_read _ _ _ _ _ Hw)|]. by injection Hw as <- _.
Qed.

Lemma update_err merge ns r err e e' :
  update merge ns r e = (Err err, e') → read e' = read e.
Proof.
  unfold update. destruct (read e !! _); [case_decide|]; [done|..]; by intros [= _ <-].
Qed.

#[export] Instance server_APILaws : APILaws Server.
Proof.
  refine {| cluster := read |}.
  - intros e [ns n] r Hr. by destruct (read_lookup _ _ _ _ Hr) as [-> ->].
  - intros ns n r e e'. unfold api_Get, server_API, get.
    destruct (read e !! (ns, n)) as [r'|] eqn:Hr; [|done]. intros [= <- <-].
    split; [done|]. split; [done|]. by apply (read_lookup e).
  - intros ns n err e e'. unfold api_Get, server_API, get.
    destruct (read e !! (ns, n)); [done|]. by intros [= _ <-].
  - intros ns r r' e e' (old & ? & ? & ->)%update_ok. by exists old.
  - intros ns r err e e'. apply update_err.
  - intros ns r r' e e' (old & ? & ? & ->)%update_ok. by exists old.
  - intros ns r err e e'. apply update_err.
  - by intros t e e' [= _ <-].
  - by intros t e e' [= _ <-].
Defined.
End Mem.

(** ** Lemmas: the configurations on the server *)

Section specs.
Context {E : Type} `{!API E} `{!APILaws E} `{!BuildInfo} `{!Yaml}.

(** The identity and the configuration of a resource. *)
Definition spec_of (r : CRDMetricsResource) : string * string := (res_UID r, res_Configuration r).

(** Those that the server holds. *)
Definition specs (e : E) : gmap (string * string) (string * string) := spec_of <$> cluster e.

Definition spec_safe {A} (m : M (Sys E) A) : Prop :=
  ∀ s, wp m (λ _ s', specs (sys_env s') = specs (sys_env s)) s.

Lemma spec_safe_ret {A} (a : A) : spec_safe (mret a).
Proof. done. Qed.

Lemma spec_safe_bind {A B} (m : M (Sys E) A) (k : A → M (Sys E) B) :
  spec_safe m → (∀ a, spec_safe (k a)) → spec_safe (m ≫= k).
Proof.
  intros Hm Hk s. apply wp_bind. apply (wp_mono _ _ _ _ (Hm s)).
  intros a s' Hs'. rewrite <- Hs'. apply Hk.
Qed.

Lemma spec_safe_get ns n : spec_safe (on_env (api_Get ns n)).
Proof.
  intros s. apply wp_on_env. intros [r|err] e He; unfold specs; simpl.
  - by apply get_ok in He as (-> & _).
  - by apply get_err in He as ->.
Qed.

Lemma spec_safe_now : spec_safe (on_env env_Now).
Proof. intros s. apply wp_on_env. intros t e He. unfold specs. by rewrite (now_cluster _ _ _ He). Qed.

Lemma spec_safe_tick : spec_safe (on_env env_Tick).
Proof. intros s. apply wp_on_env. intros t e He. unfold specs. by rewrite (tick_cluster _ _ _ He). Qed.

Lemma specs_insert e e' k r' c :
  cluster e' = <[k := r']> (cluster e) → specs e !! k = Some c → spec_of r' = c →
  specs e' = specs e.
Proof.
  unfold specs. intros -> Hk Hc. rewrite fmap_insert, Hc. by apply insert_id.
Qed.

Lemma spec_safe_status ns r : spec_safe (on_env (api_UpdateStatus ns r)).
Proof.
  intros s. apply wp_on_env. intros [r'|err] e He; simpl.
  - apply status_ok in He as (old & Hold & Hc & Hcfg & _ & _ & Huid).
    apply (specs_insert _ _ _ _ (spec_of r') Hc); [|done].
    unfold specs, spec_of. by rewrite lookup_fmap, Hold, Hcfg, Huid.
  - unfold specs. by rewrite (status_err _ _ _ _ _ He).
Qed.

Lemma spec_safe_world {A} (m : M World A) :
  (∀ w, wp m (λ _ _, True) w) → spec_safe (on_world m).
Proof.
  intros Hm s. specialize (Hm (sys_world s)). unfold wp, on_world in *.
  by destruct (m _) as [[a|p] w].
Qed.

(** The update of the metadata writes back the configuration it read. *)
Lemma spec_safe_metadata kObj r : spec_safe (metadata_condition kObj r).
Proof.
  intros s. unfold metadata_condition. wp_step. apply wp_on_env. intros [r1|err] e He; simpl.
  - apply get_ok in He as (He & Hr1 & Hns & Hn). cbv zeta. wp_step.
    apply wp_on_env. simpl. intros [r2|err] e2 He2; simpl; wp_step; simpl.
    + apply update_ok in He2 as (old & Hold & Hc & Hcfg & _ & _ & Huid). simpl in *.
      transitivity (specs e); [|unfold specs; by rewrite He].
      apply (specs_insert _ _ _ _ (spec_of r2) Hc); [|done]. unfold specs, spec_of.
      by rewrite lookup_fmap, Hold, Hcfg, Huid; rewrite He, Hns, Hn, Hr1 in Hold; injection Hold as <-.
    + unfold specs. by rewrite (update_err _ _ _ _ _ He2), He.
  - wp_step. unfold specs. simpl. by rewrite (get_err _ _ _ _ _ He).
Qed.

Lemma spec_safe_poll fuel c r : (∀ r, spec_safe (c r)) → spec_safe (poll fuel c r).
Proof.
  intros Hc. revert r. induction fuel as [|fuel IH]; intros r; simpl; [apply spec_safe_ret|].
  apply spec_safe_bind; [apply spec_safe_tick|].
  intros [|err]; [|apply spec_safe_ret].
  apply spec_safe_bind; [done|]. intros [[[]|err] r']; auto using spec_safe_ret.
Qed.

Lemma spec_safe_updateMetadata r : spec_safe (updateMetadata r).
Proof.
  unfold updateMetadata. apply spec_safe_bind.
  - apply spec_safe_poll. intros r'. apply spec_safe_metadata.
  - intros [err|]; apply spec_safe_ret.
Qed.
End specs.

Create HintDb spec_safe.
#[export] Hint Resolve spec_safe_ret spec_safe_get spec_safe_now spec_safe_tick
  spec_safe_status spec_safe_updateMetadata : spec_safe.

Ltac spec_safe_step :=
  match goal with
  | |- spec_safe (mbind _ (condition_type _)) =>
    rewrite condition_processed_bind || rewrite condition_failed_bind
  | |- spec_safe (mbind _ (lift _)) =>
    rewrite set_condition_bind by (apply known_processed || apply known_failed)
  | |- spec_safe (mbind _ _) => apply spec_safe_bind; [|intros ?]
  | |- spec_safe (match ?x with _ => _ end) => destruct x
  | |- spec_safe (let _ := _ in _) => cbv zeta
  | |- spec_safe (if ?x then _ else _) => destruct x
  | _ => solve [eauto with spec_safe]
  end.

Section specs_handler.
Context {E : Type} `{!API E} `{!APILaws E} `{!BuildInfo} `{!Yaml}.

Lemma spec_safe_emitSuccess r status message :
  spec_safe (E := E) (emitSuccessOnResource r status message).
Proof. unfold emitSuccessOnResource. repeat spec_safe_step. Qed.

(** The resource that a successful emission returns is the one on the server. *)
Lemma wp_emitSuccess_spec r status message (s : Sys E) :
  wp (emitSuccessOnResource r status message)
    (λ res _, ∀ r', res = Ok r' →
      specs (sys_env s) !! (res_Namespace r, res_Name r) = Some (spec_of r')) s.
Proof.
  unfold emitSuccessOnResource. wp_step. apply wp_on_env. intros [r1|err] e He; [|by wp_step].
  apply get_ok in He as (He & Hr1 & Hns & Hn). rewrite condition_processed_bind.
  wp_step. apply wp_on_env. intros now e1 He1. rewrite set_condition_bind by apply known_processed.
  wp_step. apply wp_on_env. intros [r2|err] e2 He2; wp_step; [|done].
  intros r' [= <-]. apply now_cluster in He1.
  apply status_ok in He2 as (old & Hold & _ & Hcfg & _ & _ & Huid). simpl in *.
  rewrite Hns, Hn, He1, He in Hold.
  unfold specs, spec_of. by rewrite lookup_fmap, Hold, Hcfg, Huid.
Qed.

Lemma spec_safe_emitFailure r message : spec_safe (E := E) (emitFailureOnResource r message).
Proof. unfold emitFailureOnResource. repeat spec_safe_step. Qed.

Lemma spec_safe_dropStores r : spec_safe (E := E) (dropStores r).
Proof. unfold dropStores. by apply spec_safe_world. Qed.

Lemma wp_switch_specs r event tryNoCache (s : Sys E) :
  buildable (res_Configuration r) →
  wp (handle_switch r event tryNoCache) (λ _ s', specs (sys_env s') = specs (sys_env s)) s.
Proof.
  intros Hb.
  assert (∀ m s, wp (emitFailureOnResource r m;; mret (None : option string))
    (λ _ s', specs (sys_env s') = specs (sys_env s)) s) as Hfail.
  { intros m s0. apply spec_safe_bind; [apply spec_safe_emitFailure|]. intros []. apply spec_safe_ret. }
  assert (∀ s, wp (emit_processed r event) (λ _ s', specs (sys_env s') = specs (sys_env s)) s) as Hok.
  { intros s0. apply spec_safe_bind; [apply spec_safe_emitSuccess|]. intros ?. apply spec_safe_ret. }
  unfold handle_switch, parse. simpl. destruct (_ || _).
  - wp_step. apply wp_dropStores. destruct (yaml_Unmarshal _) as [cs [err|]] eqn:Hy.
    { apply (Hfail _ (MkSys _ _)). }
    wp_step. apply wp_build_decoded; [by apply Hb|]. apply (Hok (MkSys _ _)).
  - destruct (bool_decide _); [|apply Hfail].
    wp_step. apply wp_dropStores. apply (Hok (MkSys _ _)).
Qed.

(** What the server holds for a resource can be built. *)
Definition buildable_at (e : E) (k : string * string) : Prop :=
  ∀ uid raw, specs e !! k = Some (uid, raw) → buildable raw.

Lemma wp_handleEvent_specs event r tryNoCache (s : Sys E) :
  buildable_at (sys_env s) (res_Namespace r, res_Name r) →
  wp (handleEvent event (CRDObject r) tryNoCache)
    (λ _ s', specs (sys_env s') = specs (sys_env s)) s.
Proof.
  intros Hb. unfold handleEvent. wp_step.
  apply (wp_mono _ _ _ _ (spec_safe_updateMetadata r s)). intros [err|] s1 Hs1; wp_step; [done|].
  apply (wp_mono _ _ _ _ (wp_and _ _ _ _ (spec_safe_emitSuccess r _ _ s1)
                                 (wp_emitSuccess_spec r ConditionFalse _ s1))).
  intros [r'|err] s2 [Hs2 Hr']; [|wp_step; congruence].
  specialize (Hr' r' eq_refl). rewrite Hs1 in Hr'. case_decide.
  - wp_step. apply (wp_mono _ _ _ _ (spec_safe_emitFailure _ _ _)). intros [] s3 Hs3.
    wp_step. congruence.
  - apply (wp_mono _ _ _ _ (wp_switch_specs r' event tryNoCache s2 (Hb _ _ Hr'))).
    intros _ s3 Hs3. congruence.
Qed.
End specs_handler.

(** ** Properties: safety *)

Section safety.
Context {E : Type} `{!API E} `{!APILaws E} `{!BuildInfo} `{!Yaml}.

(** The event of a resource that is not on the server. *)
Lemma handleEvent_vanished event r tryNoCache (s : Sys E) :
  specs (sys_env s) !! (res_Namespace r, res_Name r) = None →
  wp (handleEvent event (CRDObject r) tryNoCache)
    (λ err s', err = None ∧ sys_world s' = sys_world s) s.
Proof.
  intros Hno. unfold handleEvent. wp_step.
  apply (wp_mono _ _ _ _ (wp_and _ _ _ _ (updateMetadata_safe r s) (spec_safe_updateMetadata r s))).
  intros [err|] s1 [<- Hs1]; wp_step; [done|].
  apply (wp_mono _ _ _ _ (wp_and _ _ _ _ (emitSuccess_safe r _ _ s1)
                                 (wp_emitSuccess_spec r ConditionFalse _ s1))).
  intros [r'|err] s2 [<- Hr']; [|by wp_step].
  specialize (Hr' r' eq_refl). rewrite Hs1, Hno in Hr'. done.
Qed.

(** What handling an event comes to, whatever the server answers. *)
Lemma handleEvent_ends event r tryNoCache (s : Sys E) :
  let k := (res_Namespace r, res_Name r) in
  ends (handleEvent event (CRDObject r) tryNoCache)
    (λ err s', err = None ∧
      (sys_world s' = sys_world s ∨
       ∃ uid raw, specs (sys_env s) !! k = Some (uid, raw) ∧ raw ≠ "" ∧
         (∀ scs, ¬ null_item event raw scs) ∧
         sys_world s' = handled_world event uid raw tryNoCache (sys_world s)))
    (λ p s', p = NilDereference ∧
      ∃ uid raw scs, specs (sys_env s) !! k = Some (uid, raw) ∧ raw ≠ "" ∧
        null_item event raw scs ∧
        sys_world s' = build_world uid tryNoCache scs (drop_world uid (sys_world s))) s.
Proof.
  intros k. unfold handleEvent.
  eapply ends_bind; [apply (wp_and _ _ _ _ (updateMetadata_safe r s) (spec_safe_updateMetadata r s))|].
  intros [err|] s1 [<- Hs1]; [by split; [|left]|].
  eapply ends_bind; [apply (wp_and _ _ _ _ (emitSuccess_safe r _ _ s1)
                                 (wp_emitSuccess_spec r ConditionFalse _ s1))|].
  intros [r'|err] s2 [<- Hr']; [|by split; [|left]].
  specialize (Hr' r' eq_refl). rewrite Hs1 in Hr'. case_decide as Hcfg.
  { apply wp_ends, (wp_mono _ _ _ _ (wp_fail_nil _ _ _)). by intros err s' [-> ->]; auto. }
  destruct (buildable_or_null event (res_Configuration r')) as [Hb|[scs Hnull]].
  - apply wp_ends, (wp_mono _ _ _ _ (handle_switch_world _ _ _ _ Hb)). intros err s' [-> ->].
    split; [done|]. right. exists (res_UID r'), (res_Configuration r'). split_and!; try done.
    intros scs. by apply buildable_not_null.
  - destruct (handle_switch_null r' event tryNoCache scs s2 Hnull) as (s' & Heq & Hw).
    unfold ends. rewrite Heq. split; [done|]. by exists (res_UID r'), (res_Configuration r'), scs.
Qed.

Lemma handleEvent_safe event r tryNoCache (s : Sys E) :
  buildable_at (sys_env s) (res_Namespace r, res_Name r) →
  wp (handleEvent event (CRDObject r) tryNoCache)
    (λ err s', err = None ∧
      (sys_world s' = sys_world s ∨
       ∃ uid raw, specs (sys_env s) !! (res_Namespace r, res_Name r) = Some (uid, raw) ∧
         raw ≠ "" ∧
         sys_world s' = handled_world event uid raw tryNoCache (sys_world s))) s.
Proof.
  intros Hb. eapply ends_wp.
  - eapply ends_mono; [apply handleEvent_ends| |by intros p s' Hp; exact Hp].
    intros err s' [-> [Hw|(uid & raw & ? & ? & _ & ?)]]; (split; [done|]); [by left|].
    right. by exists uid, raw.
  - intros p s' (_ & uid & raw & scs & Hk & _ & Hnull & _).
    by apply (buildable_not_null event raw scs (λ _, Hb uid raw Hk)).
Qed.

(** C8: Whatever the API server answers, handling an event of a managed resource
    ends in one of three ways.  It returns no error, and no store has changed.
    Or the resource is on the server with a configuration, without a null item
    if the event builds it, and the handler returns no error and has changed the
    stores as the event says for that configuration and the UID that the server
    holds.  Or the event builds a configuration with a null item, and the
    handler panics, with the old stores dropped and those before the null item
    built. *)
Theorem handleEvent_world event r tryNoCache (s : Sys E) :
  let k := (res_Namespace r, res_Name r) in
  match handleEvent event (CRDObject r) tryNoCache s with
  | (Done err, s') =>
    err = None ∧
    (sys_world s' = sys_world s ∨
     ∃ uid raw, specs (sys_env s) !! k = Some (uid, raw) ∧ raw ≠ "" ∧
       (∀ scs, ¬ null_item event raw scs) ∧
       sys_world s' = handled_world event uid raw tryNoCache (sys_world s))
  | (Panicked p, s') =>
    p = NilDereference ∧
    ∃ uid raw scs, specs (sys_env s) !! k = Some (uid, raw) ∧ raw ≠ "" ∧
      null_item event raw scs ∧
      sys_world s' = build_world uid tryNoCache scs (drop_world uid (sys_world s))
  end.
Proof. apply handleEvent_ends. Qed.

(** The event of a resource that the server no longer has leaves every
    store in place.  This is what a deletion comes to: the resource is gone
    when its event is handled, so its stores are never dropped and are still
    exposed. *)
Lemma vanished_resource_keeps_stores event r tryNoCache (s : Sys E) :
  specs (sys_env s) !! (res_Namespace r, res_Name r) = None →
  wp (handleEvent event (CRDObject r) tryNoCache)
    (λ err s', err = None ∧ sys_world s' = sys_world s) s.
Proof. apply handleEvent_vanished. Qed.

(** The controller never changes the identity or the configuration of a
    resource on the server: it writes labels and conditions only. *)
Lemma handleEvent_keeps_specs event r tryNoCache (s : Sys E) :
  buildable_at (sys_env s) (res_Namespace r, res_Name r) →
  wp (handleEvent event (CRDObject r) tryNoCache)
    (λ _ s', specs (sys_env s') = specs (sys_env s)) s.
Proof. apply wp_handleEvent_specs. Qed.

(** The metadata poll evaluates its condition at most once: the condition
    either fails or is satisfied, so that the first tick decides, the deadline
    is never reached, and any positive number of rounds is enough. *)
Lemma updateMetadata_one_round fuel kObj r (s : Sys E) :
  poll (S fuel) (metadata_condition kObj) r s =
  (t ← on_env env_Tick;
   match t with
   | CtxDone err => mret (Some err)
   | Tick =>
     '(done, _) ← metadata_condition kObj r;
     mret (match done with Err err => Some err | Ok _ => None end)
   end) s.
Proof.
  simpl. unfold mbind, M_bind. destruct (on_env env_Tick s) as [[[|err]|p] s1]; try done.
  unfold metadata_condition, mbind, M_bind, mret, M_ret.
  destruct (on_env (api_Get _ _) s1) as [[[r1|err]|p] s2]; try done. cbv zeta.
  by destruct (on_env (api_Update _ _) s2) as [[[r2|err]|p] s3].
Qed.
End safety.

(** ** Properties: the stores after an event *)

(** An update replaces the stores of its resource by those of its
    configuration, one per store configured, and a deletion removes them; no
    other resource is concerned.  But every reflector started so far is still
    there: nothing ends the reflectors of the dropped stores. *)
Lemma handled_world_spec `{!Yaml} uid raw tryNoCache w scs :
  yaml_Unmarshal raw = (Some <$> scs, None) → scs ≠ [] →
  let updated := handled_world "updateEvent" uid raw tryNoCache w in
  let deleted := handled_world "deleteEvent" uid raw tryNoCache w in
  w_stores updated !! uid = Some (seq (w_next w) (length scs)) ∧
  w_reflectors updated =
    w_reflectors w ++ imap (λ i sc, built_reflector tryNoCache sc (w_next w + i)) scs ∧
  w_stores deleted !! uid = None ∧
  w_reflectors deleted = w_reflectors w ∧ w_heap deleted = w_heap w ∧
  (∀ uid', uid' ≠ uid → w_stores updated !! uid' = w_stores w !! uid' ∧
                        w_stores deleted !! uid' = w_stores w !! uid').
Proof.
  intros Hy Hne. unfold handled_world. rewrite Hy, omap_id_Some. simpl.
  assert (w_stores (drop_world uid w) = delete uid (w_stores w)) as Hd.
  { unfold drop_world. destruct (w_stores w !! uid) eqn:Hu; [done|].
    by rewrite delete_id. }
  assert (w_next (drop_world uid w) = w_next w ∧ w_reflectors (drop_world uid w) = w_reflectors w
          ∧ w_heap (drop_world uid w) = w_heap w) as (Hn & Hr & Hh).
  { unfold drop_world. by destruct (w_stores w !! uid). }
  destruct scs as [|sc scs]; [done|]. simpl. rewrite Hd, Hn, Hr, lookup_insert_eq, lookup_delete_eq.
  split_and!; try done. intros uid' Hne'. by rewrite lookup_insert_ne, lookup_delete_ne.
Qed.

(** ** Properties: a server that answers *)

(** The requests that can be met are, and the timer ticks. *)
Class Reliable (E : Type) `{!API E} `{!APILaws E} : Prop := {
  reliable_get (e : E) ns n r :
    cluster e !! (ns, n) = Some r → ∃ e', api_Get ns n e = (Ok r, e');
  reliable_update (e : E) ns r old :
    cluster e !! (ns, res_Name r) = Some old → res_ResourceVersion r = res_ResourceVersion old →
    ∃ r' e', api_Update ns r e = (Ok r', e');
  reliable_status (e : E) ns r old :
    cluster e !! (ns, res_Name r) = Some old → res_ResourceVersion r = res_ResourceVersion old →
    ∃ r' e', api_UpdateStatus ns r e = (Ok r', e');
  reliable_tick (e : E) : ∃ e', env_Tick e = (Tick, e');
}.

#[export] Instance server_Reliable :
  @Reliable Mem.Server Mem.server_API Mem.server_APILaws.
Proof.
  constructor.
  - intros e ns n r Hr. exists e. simpl in *. unfold Mem.get. by rewrite Hr.
  - intros e ns r old Hr Hv. simpl in *. unfold Mem.update, Mem.write. rewrite Hr.
    rewrite decide_True by done. eauto.
  - intros e ns r old Hr Hv. simpl in *. unfold Mem.update, Mem.write. rewrite Hr.
    rewrite decide_True by done. eauto.
  - intros e. by eexists.
Qed.

Section reliable.
Context {E : Type} `{!API E} `{!APILaws E} `{!Reliable E} `{!BuildInfo} `{!Yaml}.

(** The resource [k] is [r] on the server, which the key identifies. *)
Definition holds (e : E) (k : string * string) (r : CRDMetricsResource) : Prop :=
  cluster e !! k = Some r.

Lemma reliable_get_wp ns n r (Q : result string CRDMetricsResource → Sys E → Prop) s :
  holds (sys_env s) (ns, n) r →
  (∀ e, cluster e = cluster (sys_env s) → res_Namespace r = ns → res_Name r = n →
     Q (Ok r) (MkSys (sys_world s) e)) →
  wp (on_env (api_Get ns n)) Q s.
Proof.
  intros Hr HQ. apply wp_on_env. intros a e He.
  destruct (reliable_get _ _ _ _ Hr) as [e' He']. rewrite He in He'. injection He' as -> ->.
  apply get_ok in He as (? & _ & ? & ?). by apply HQ.
Qed.

Lemma reliable_status_wp ns r old (Q : result string CRDMetricsResource → Sys E → Prop) s :
  holds (sys_env s) (ns, res_Name r) old → res_ResourceVersion r = res_ResourceVersion old →
  (∀ r' e, holds e (ns, res_Name r) r' → spec_of r' = spec_of old →
     res_Labels r' = res_Labels old → res_Conditions r' = res_Conditions r →
     Q (Ok r') (MkSys (sys_world s) e)) →
  wp (on_env (api_UpdateStatus ns r)) Q s.
Proof.
  intros Hold Hv HQ. apply wp_on_env. intros a e He.
  destruct (reliable_status _ _ _ _ Hold Hv) as (r' & e' & He').
  rewrite He in He'. injection He' as -> ->.
  apply status_ok in He as (old' & Hold' & Hc & Hcfg & Hl & Hcs & Huid).
  unfold holds in Hold. rewrite Hold in Hold'. injection Hold' as <-.
  apply HQ; [|unfold spec_of; congruence|done..].
  unfold holds. by rewrite Hc, lookup_insert_eq.
Qed.

(** A successful emission: the condition is on the server. *)
Lemma reliable_emitSuccess r0 r status message (s : Sys E) :
  holds (sys_env s) (res_Namespace r0, res_Name r0) r →
  wp (emitSuccessOnResource r0 status message)
    (λ res s', sys_world s' = sys_world s ∧ ∃ r' now, res = Ok r' ∧
       holds (sys_env s') (res_Namespace r0, res_Name r0) r' ∧ spec_of r' = spec_of r ∧
       res_Labels r' = res_Labels r ∧
       res_Conditions r' = res_Conditions (with_condition now "Processed" status message r)) s.
Proof.
  intros Hr. unfold emitSuccessOnResource. wp_step. apply (reliable_get_wp _ _ r); [done|].
  intros e He Hns Hn. rewrite condition_processed_bind. wp_step. apply wp_on_env.
  intros now e1 He1. apply now_cluster in He1.
  rewrite set_condition_bind by apply known_processed. wp_step.
  apply (reliable_status_wp _ _ r); simpl in *; [|done|].
  - unfold holds. simpl. by rewrite Hns, Hn, He1, He.
  - intros r' e2 Hr' ???. wp_step. split; [done|]. exists r', now.
    rewrite Hns, Hn in Hr'. done.
Qed.

Lemma reliable_emitFailure r0 r message (s : Sys E) :
  holds (sys_env s) (res_Namespace r0, res_Name r0) r →
  wp (emitFailureOnResource r0 message)
    (λ _ s', sys_world s' = sys_world s ∧ ∃ r' now,
       holds (sys_env s') (res_Namespace r0, res_Name r0) r' ∧ spec_of r' = spec_of r ∧
       res_Labels r' = res_Labels r ∧
       res_Conditions r' = res_Conditions (with_condition now "Failed" ConditionTrue message r)) s.
Proof.
  intros Hr. unfold emitFailureOnResource. wp_step. apply (reliable_get_wp _ _ r); [done|].
  intros e He Hns Hn. rewrite condition_failed_bind. wp_step. apply wp_on_env.
  intros now e1 He1. apply now_cluster in He1.
  rewrite set_condition_bind by apply known_failed. wp_step.
  apply (reliable_status_wp _ _ r); simpl in *; [|done|].
  - unfold holds. simpl. by rewrite Hns, Hn, He1, He.
  - intros r' e2 Hr' ???. wp_step. split; [done|]. exists r', now.
    rewrite Hns, Hn in Hr'. done.
Qed.

Lemma reliable_updateMetadata r0 r (s : Sys E) :
  holds (sys_env s) (res_Namespace r0, res_Name r0) r →
  wp (updateMetadata r0)
    (λ err s', err = None ∧ sys_world s' = sys_world s ∧ ∃ r',
       holds (sys_env s') (res_Namespace r0, res_Name r0) r' ∧ spec_of r' = spec_of r ∧
       res_Labels r' = Some (metadata_labels (res_Labels r)) ∧
       res_Conditions r' = res_Conditions r) s.
Proof.
  intros Hr. unfold updateMetadata, poll_rounds. cbv zeta. wp_step.
  change (poll 60) with (poll (E := E) (S 59)). cbn [poll]. wp_step. apply wp_on_env.
  intros t e He. destruct (reliable_tick (sys_env s)) as [e' He']. rewrite He in He'.
  injection He' as -> ->. apply tick_cluster in He. wp_step.
  unfold metadata_condition. wp_step. apply (reliable_get_wp _ _ r).
  { unfold holds in *. simpl. by rewrite He. }
  simpl. intros e1 He1 Hns Hn. wp_step. apply wp_on_env. simpl. intros a e2 He2.
  assert (cluster e1 !! (res_Namespace r, res_Name r) = Some r) as Hr1.
  { unfold holds in Hr. by rewrite He1, He, Hns, Hn. }
  edestruct (reliable_update e1 (res_Namespace r)
               (set_Labels (Some (metadata_labels (res_Labels r))) (DeepCopy r)) r)
    as (r' & e3 & He3); [done..|].
  rewrite He2 in He3. injection He3 as -> ->.
  apply update_ok in He2 as (old & Hold & Hc & Hcfg & Hl & Hcs & Huid). simpl in *.
  rewrite Hr1 in Hold. injection Hold as <-. repeat wp_step. split; [done|]. split; [done|].
  exists r'. split; [|unfold spec_of; split_and!; congruence].
  unfold holds. simpl. by rewrite Hc, <- Hns, <- Hn, lookup_insert_eq.
Qed.

(** Why an event fails for a configuration, if it does: the message of the
    [Failed] condition. *)
Definition event_failure (event raw : string) : option string :=
  if decide (raw = "") then Some "Configuration YAML is empty"
  else if bool_decide (event = "addEvent") || bool_decide (event = "updateEvent") then
    match yaml_Unmarshal raw with
    | (_, Some err) =>
      Some ("Failed to parse configuration YAML: "
            +:+ "error unmarshalling configuration: " +:+ err)
    | (_, None) => None
    end
  else if bool_decide (event = "deleteEvent") then None
  else Some ("Unknown event type: " +:+ event).

(** A condition of a resource: its type, status and message. *)
Definition has_condition (r : CRDMetricsResource) (type status message : string) : Prop :=
  ∃ c, find_condition type (res_Conditions r) = Some c ∧
    cond_Status c = status ∧ cond_Message c = message.

(** What a resource tells its user once the event is handled. *)
Definition reported (event raw : string) (r r' : CRDMetricsResource) : Prop :=
  match event_failure event raw with
  | None =>
    has_condition r' "Processed" ConditionTrue
      ("Resource configuration has been processed successfully: "
       +:+ "Event handler successfully processed event: " +:+ event) ∧
    find_condition "Failed" (res_Conditions r') = find_condition "Failed" (res_Conditions r)
  | Some message =>
    has_condition r' "Processed" ConditionFalse
      ("Resource configuration is yet to be processed: "
       +:+ "Event handler received event: " +:+ event) ∧
    has_condition r' "Failed" ConditionTrue ("Resource failed to process: " +:+ message)
  end.

Lemma reliable_fail_nil r0 r message (s : Sys E) :
  holds (sys_env s) (res_Namespace r0, res_Name r0) r →
  wp (emitFailureOnResource r0 message;; mret None)
    (λ err s', err = @None string ∧ sys_world s' = sys_world s ∧ ∃ r' now,
       holds (sys_env s') (res_Namespace r0, res_Name r0) r' ∧ spec_of r' = spec_of r ∧
       res_Labels r' = res_Labels r ∧
       res_Conditions r' = res_Conditions (with_condition now "Failed" ConditionTrue message r)) s.
Proof.
  intros Hr. wp_step. apply (wp_mono _ _ _ _ (reliable_emitFailure r0 r message s Hr)).
  intros [] s' Hs'. by apply wp_ret.
Qed.

Lemma reliable_processed_nil r0 r event (s : Sys E) :
  holds (sys_env s) (res_Namespace r0, res_Name r0) r →
  wp (emit_processed r0 event)
    (λ err s', err = None ∧ sys_world s' = sys_world s ∧ ∃ r' now,
       holds (sys_env s') (res_Namespace r0, res_Name r0) r' ∧ spec_of r' = spec_of r ∧
       res_Labels r' = res_Labels r ∧
       res_Conditions r' = res_Conditions (with_condition now "Processed" ConditionTrue
         ("Event handler successfully processed event: " +:+ event) r)) s.
Proof.
  intros Hr. unfold emit_processed. wp_step.
  apply (wp_mono _ _ _ _ (reliable_emitSuccess r0 r _ _ s Hr)).
  intros res s' (? & r' & now & _ & ?). apply wp_ret. eauto.
Qed.

(** The switch, after the resource [r] was recorded as being processed. *)
Lemma reliable_switch r event tryNoCache (s : Sys E) :
  let k := (res_Namespace r, res_Name r) in
  let raw := res_Configuration r in
  holds (sys_env s) k r → raw ≠ "" → buildable_for event raw →
  wp (handle_switch r event tryNoCache)
    (λ err s', err = None ∧
       sys_world s' = handled_world event (res_UID r) raw tryNoCache (sys_world s) ∧
       ∃ r' now, holds (sys_env s') k r' ∧ spec_of r' = spec_of r ∧
         res_Labels r' = res_Labels r ∧
         res_Conditions r' = res_Conditions
           match event_failure event raw with
           | None => with_condition now "Processed" ConditionTrue
               ("Event handler successfully processed event: " +:+ event) r
           | Some message => with_condition now "Failed" ConditionTrue message r
           end) s.
Proof.
  intros k raw Hr Hraw Hb.
  unfold handle_switch, handled_world, event_failure, parse. simpl.
  fold raw. rewrite (decide_False _ _ Hraw). destruct (building_event event).
  - wp_step. apply wp_dropStores.
    destruct (yaml_Unmarshal raw) as [cs [err|]] eqn:Hy.
    + by apply reliable_fail_nil.
    + wp_step. apply wp_build_decoded; [by apply Hb|].
      by apply (reliable_processed_nil r r event (MkSys _ _)).
  - destruct (bool_decide _).
    + wp_step. apply wp_dropStores. by apply (reliable_processed_nil r r event (MkSys _ _)).
    + by apply reliable_fail_nil.
Qed.

(** The handling of an event on such a server. *)
Lemma reliable_handleEvent event r0 r tryNoCache (s : Sys E) :
  let k := (res_Namespace r0, res_Name r0) in
  let raw := res_Configuration r in
  holds (sys_env s) k r → buildable_for event raw →
  wp (handleEvent event (CRDObject r0) tryNoCache)
    (λ err s', err = None ∧
       sys_world s' =
         (if decide (raw = "") then sys_world s
          else handled_world event (res_UID r) raw tryNoCache (sys_world s)) ∧
       ∃ r', holds (sys_env s') k r' ∧ spec_of r' = spec_of r ∧
         res_Labels r' = Some (metadata_labels (res_Labels r)) ∧
         reported event raw r r') s.
Proof.
  intros k raw Hr Hb. unfold handleEvent. wp_step.
  apply (wp_mono _ _ _ _ (reliable_updateMetadata r0 r s Hr)).
  intros err s1 (-> & Hw1 & r1 & Hr1 & Hspec1 & Hl1 & Hc1). wp_step.
  apply (wp_mono _ _ _ _ (reliable_emitSuccess r0 r1 _ _ s1 Hr1)).
  intros res s2 (Hw2 & r2 & now & -> & Hr2 & Hspec2 & Hl2 & Hc2).
  assert (spec_of r2 = spec_of r) as Hspec by congruence.
  injection Hspec as Huid Hraw. fold raw in Hraw. rewrite Hraw.
  pose proof (cluster_keyed _ _ _ Hr2) as Hkey. simpl in Hc2. rewrite Hc1 in Hc2.
  assert (holds (sys_env s2) (res_Namespace r2, res_Name r2) r2) as Hr2' by by rewrite Hkey.
  assert (∀ s3 r3 now', spec_of r3 = spec_of r2 → res_Labels r3 = res_Labels r2 →
    holds (sys_env s3) k r3 →
    res_Conditions r3 = res_Conditions
      match event_failure event raw with
      | None => with_condition now' "Processed" ConditionTrue
          ("Event handler successfully processed event: " +:+ event) r2
      | Some message => with_condition now' "Failed" ConditionTrue message r2
      end →
    ∃ r', holds (sys_env s3) k r' ∧ spec_of r' = spec_of r ∧
      res_Labels r' = Some (metadata_labels (res_Labels r)) ∧ reported event raw r r')
    as Hend.
  { intros s3 r3 now' Hs3 Hl3 Hr3 Hc3. exists r3. split_and!; [done|congruence..|].
    unfold reported, has_condition. rewrite Hc3. destruct (event_failure event raw) as [m|];
      simpl; rewrite Hc2; simpl; rewrite !find_upsert; simpl;
      (split; [eexists; by split_and!|by eauto]). }
  case_decide as Hempty.
  - apply (wp_mono _ _ _ _ (reliable_fail_nil r2 r2 _ s2 Hr2')).
    intros err s3 (-> & Hw3 & r3 & now' & Hr3 & Hs3 & Hl3 & Hc3). rewrite Hkey in Hr3.
    split; [done|]. split; [congruence|]. apply (Hend s3 r3 now'); try done.
    unfold event_failure. by rewrite decide_True.
  - rewrite <- Hraw in Hempty.
    assert (buildable_for event (res_Configuration r2)) as Hb2 by by rewrite Hraw.
    apply (wp_mono _ _ _ _ (reliable_switch r2 event tryNoCache s2 Hr2' Hempty Hb2)).
    intros err s3 (-> & Hw3 & r3 & now' & Hr3 & Hs3 & Hl3 & Hc3). rewrite Hkey in Hr3.
    rewrite Hraw in *. split; [done|]. split; [by rewrite Hw3, Huid, Hw2, Hw1|].
    by apply (Hend s3 r3 now').
Qed.

(** C6: On a server that answers, an event of a resource it holds is handled to
    the end, unless it builds a configuration with a null item, which panics
    ([handleEvent_null_item]): the stores change as the event says for the configuration on the
    server, the labels of the controller are set, and the resource reports the
    outcome.  A success sets [Processed] and leaves [Failed] as it was, so a
    failure that was reported once is still reported after a later success; a
    failure leaves [Processed] false and sets [Failed] with its message. *)
Theorem handleEvent_reliable event r0 r tryNoCache (s : Sys E) :
  let k := (res_Namespace r0, res_Name r0) in
  let raw := res_Configuration r in
  holds (sys_env s) k r → (∀ scs, ¬ null_item event raw scs) →
  wp (handleEvent event (CRDObject r0) tryNoCache)
    (λ err s', err = None ∧
       sys_world s' =
         (if decide (raw = "") then sys_world s
          else handled_world event (res_UID r) raw tryNoCache (sys_world s)) ∧
       ∃ r', holds (sys_env s') k r' ∧ spec_of r' = spec_of r ∧
         res_Labels r' = Some (metadata_labels (res_Labels r)) ∧
         reported event raw r r') s.
Proof. intros k raw Hr Hno. by apply reliable_handleEvent, not_null_buildable. Qed.

(** C30: A null item crashes the controller: on a server that answers, an addition
    or an update of a resource whose configuration has a nil store, or a store
    with a nil family, panics in the worker, after the old stores were dropped
    and those before the null item built.  Nothing recovers the panic. *)
Theorem handleEvent_null_item event r0 r scs rest tryNoCache (s : Sys E) :
  holds (sys_env s) (res_Namespace r0, res_Name r0) r → res_Configuration r ≠ "" →
  yaml_Unmarshal (res_Configuration r) = ((Some <$> scs) ++ None :: rest, None) →
  event = "addEvent" ∨ event = "updateEvent" →
  ∃ s', handleEvent event (CRDObject r0) tryNoCache s = (Panicked NilDereference, s') ∧
    sys_world s' = build_world (res_UID r) tryNoCache scs (drop_world (res_UID r) (sys_world s)).
Proof.
  intros Hr Hne Hy Hev.
  destruct (wp_run _ _ _ (reliable_updateMetadata r0 r s Hr))
    as (err & s1 & Hm & -> & Hw1 & r1 & Hr1 & Hspec1 & _ & _).
  destruct (wp_run _ _ _ (reliable_emitSuccess r0 r1 ConditionFalse
    ("Event handler received event: " +:+ event) s1 Hr1))
    as (res & s2 & He & Hw2 & r2 & now & -> & _ & Hspec2 & _ & _).
  assert (spec_of r2 = spec_of r) as Hspec by congruence. injection Hspec as Huid Hraw.
  unfold handleEvent, mbind at 1, M_bind at 1. rewrite Hm. cbv iota.
  unfold mbind at 1, M_bind at 1. rewrite He. cbv iota. rewrite decide_False by congruence.
  assert (null_item event (res_Configuration r2) scs) as Hnull.
  { split; [done|]. exists rest. by rewrite Hraw. }
  destruct (handle_switch_null r2 event tryNoCache scs s2 Hnull) as (s' & -> & Hw).
  exists s'. split; [done|]. by rewrite Hw, Huid, Hw2, Hw1.
Qed.
End reliable.

(** ** Witnesses *)

Module EventsExample.
Export BuilderExample.

(** A library that decodes one configuration. *)
#[export] Instance sample_Yaml : Yaml := {|
  yaml_Unmarshal raw :=
    if decide (raw = "stores: [...]") then ([Some config], None)
    else if decide (raw = "stores: [null]") then ([None], None)
    else ([], Some "did not find expected node content");
|}.

Lemma sample_buildable raw : raw ≠ "stores: [null]" → buildable raw.
Proof.
  intros Hne cs. unfold yaml_Unmarshal, sample_Yaml. rewrite (decide_False _ _ Hne).
  case_decide; [|done]. intros [= <-]. by exists [config].
Qed.

#[export] Instance sample_BuildInfo : BuildInfo := {|
  version_Version := "crdmetrics, version v0 (branch: main, revision: abc123)";
|}.

#[export] Existing Instance Mem.server_API.
#[export] Existing Instance Mem.server_APILaws.

Definition managed (raw : string) : CRDMetricsResource := {|
  res_Namespace := ""; res_Name := "web"; res_UID := "uid-1"; res_ResourceVersion := "4";
  res_Generation := 1%Z; res_Labels := None; res_Configuration := raw; res_Conditions := [];
|}.

Definition server (raw : string) : Mem.Server :=
  Mem.MkServer {[("", "web") := managed raw]} 4 1000.

Definition start (raw : string) : Sys Mem.Server := MkSys empty_world (server raw).

Lemma server_holds raw : holds (sys_env (start raw)) ("", "web") (managed raw).
Proof. reflexivity. Qed.

Lemma server_buildable raw k :
  raw ≠ "stores: [null]" → buildable_at (sys_env (start raw)) k.
Proof.
  intros Hne uid raw'. unfold specs. rewrite lookup_fmap. simpl. unfold Mem.read.
  rewrite map_lookup_imap. simpl. destruct (decide (k = ("", "web"))) as [->|Hk].
  - unfold server. simpl. rewrite lookup_singleton_eq. simpl. intros [= <- <-].
    by apply sample_buildable.
  - unfold server. simpl. rewrite lookup_singleton_ne by done. done.
Qed.

(** A deletion: the stores of the resource are still there. *)
Lemma vanished_resource_keeps_stores_witness :
  let w := build_world "uid-1" false [config] empty_world in
  wp (handleEvent "deleteEvent" (CRDObject (named_resource "web")) false)
    (λ err s', err = None ∧ w_stores (sys_world s') = {["uid-1" := [0]]})
    (MkSys w (Mem.MkServer ∅ 4 1000)).
Proof.
  intros w.
  assert (specs (sys_env (MkSys w (Mem.MkServer ∅ 4 1000))) !! ("", "web") = None) as Hno.
  { unfold specs. rewrite lookup_fmap. simpl. unfold Mem.read. by rewrite map_lookup_imap. }
  apply (wp_mono _ _ _ _ (vanished_resource_keeps_stores "deleteEvent"
    (named_resource "web") false (MkSys w (Mem.MkServer ∅ 4 1000)) Hno)).
  intros err s' [-> ->]. split; [reflexivity|].
  apply (bool_decide_unpack _). vm_compute. exact I.
Defined.

Lemma handled_world_spec_witness :
  w_stores (handled_world "updateEvent" "uid-1" "stores: [...]" false empty_world) !! "uid-1" =
  Some [0].
Proof.
  destruct (handled_world_spec "uid-1" "stores: [...]" false empty_world [config]) as [H _].
  - reflexivity.
  - discriminate.
  - exact H.
Defined.

(** An addition whose configuration does not parse. *)
Lemma handleEvent_reliable_witness :
  wp (handleEvent "addEvent" (CRDObject (managed "?")) false)
    (λ err s', err = None ∧ ∃ r', holds (sys_env s') ("", "web") r' ∧
       has_condition r' "Failed" ConditionTrue
         ("Resource failed to process: Failed to parse configuration YAML: "
          +:+ "error unmarshalling configuration: did not find expected node content"))
    (start "?").
Proof.
  assert (∀ scs, ¬ null_item "addEvent" (res_Configuration (managed "?")) scs) as Hb.
  { intros scs. apply buildable_not_null. intros _. by apply sample_buildable. }
  apply (wp_mono _ _ _ _ (handleEvent_reliable "addEvent" (managed "?") (managed "?") false
    (start "?") (server_holds "?") Hb)).
  intros err s' (Herr & _ & r' & Hr' & _ & _ & Hrep).
  split; [exact Herr|]. exists r'. split; [exact Hr'|].
  unfold reported, event_failure in Hrep. simpl in Hrep. apply Hrep.
Defined.

(** The only store of the configuration is null. *)
Lemma handleEvent_null_item_witness :
  ∃ s', handleEvent "addEvent" (CRDObject (managed "stores: [null]")) false
      (start "stores: [null]") = (Panicked NilDereference, s') ∧
    sys_world s' = build_world "uid-1" false [] (drop_world "uid-1" empty_world).
Proof.
  apply (handleEvent_null_item "addEvent" (managed "stores: [null]") (managed "stores: [null]")
    [] [] false (start "stores: [null]") (server_holds "stores: [null]")).
  - discriminate.
  - reflexivity.
  - left. reflexivity.
Defined.
End EventsExample.
