(* ===== verification/Memory.v ===== *)
(** * The handler's writes in memory ([internal/events.go], [Status.Set])

    The handler works on resources in memory: it sets labels in the map of a
    deep copy ([updateMetadata]) and conditions in the slice of a resource
    ([Status.Set]).  These writes are followed on the heap of [DeepCopy], and
    shown to do what [Events] and [Types] do on values. *)
From S2P Require Import Prelude GoStrings Types DeepCopy Events.

(** The resource of [Types] that a value stands for: the fields it keeps, with a
    nil list of conditions as an empty one. *)
Definition abstract (v : DeepCopy.CRDMetricsResource values) : Types.CRDMetricsResource := {|
  res_Namespace := om_Namespace (r_ObjectMeta v); res_Name := om_Name (r_ObjectMeta v);
  res_UID := om_UID (r_ObjectMeta v); res_ResourceVersion := om_ResourceVersion (r_ObjectMeta v);
  res_Generation := om_Generation (r_ObjectMeta v);
  res_Labels := om_Labels (r_ObjectMeta v) : option (gmap string string);
  res_Configuration := Configuration (r_Spec v);
  res_Conditions := default [] (Conditions (r_Status v) : option (list Condition));
|}.

(** Assignments to the fields of a struct, in either layout. *)
Definition with_labels {L : layout} (ls : Ptr L (gmap string string))
    (r : DeepCopy.CRDMetricsResource L) : DeepCopy.CRDMetricsResource L :=
  let m := r_ObjectMeta r in {|
  r_TypeMeta := r_TypeMeta r;
  r_ObjectMeta := {|
    om_Name := om_Name m; om_GenerateName := om_GenerateName m; om_Namespace := om_Namespace m;
    om_SelfLink := om_SelfLink m; om_UID := om_UID m; om_ResourceVersion := om_ResourceVersion m;
    om_Generation := om_Generation m; om_CreationTimestamp := om_CreationTimestamp m;
    om_DeletionTimestamp := om_DeletionTimestamp m;
    om_DeletionGracePeriodSeconds := om_DeletionGracePeriodSeconds m;
    om_Labels := ls; om_Annotations := om_Annotations m;
    om_OwnerReferences := om_OwnerReferences m; om_Finalizers := om_Finalizers m;
    om_ManagedFields := om_ManagedFields m;
  |};
  r_Spec := r_Spec r; r_Status := r_Status r;
|}.

Definition with_conditions {L : layout} (cs : Slice L Condition)
    (r : DeepCopy.CRDMetricsResource L) : DeepCopy.CRDMetricsResource L := {|
  r_TypeMeta := r_TypeMeta r; r_ObjectMeta := r_ObjectMeta r; r_Spec := r_Spec r;
  r_Status := {| Conditions := cs |};
|}.

(** ** [Status.Set] *)

Section Set_in_memory.

(** How much [append] allocates beyond what it needs, from the length: the
    runtime is free to choose. *)
Context (growth : nat → nat).

(** [append(s, x)]: in place when the array has room. *)
Definition append {A} `{!Cell (list A), !Zero A} (s : option slice) (x : A)
    : M heap (option slice) :=
  match s with
  | None =>
    l ← alloc (x :: replicate (growth 0) (zero : A));
    mret (Some {| array := l; len := 1 |})
  | Some s =>
    xs ← load (A := list A) (array s);
    if decide (len s < length xs) then
      _ ← store (array s) (<[len s := x]> xs);
      mret (Some {| array := array s; len := S (len s) |})
    else
      l ← alloc (take (len s) xs ++ x :: replicate (growth (len s)) (zero : A));
      mret (Some {| array := l; len := S (len s) |})
  end.

(** The loop over the conditions, from [i]: the index of the one of a type. *)
Fixpoint find_existing (type : string) (s : slice) (i n : nat) : M heap (option nat) :=
  match n with
  | O => mret None
  | S n =>
    existingCondition ← load_index (A := Condition) s i;
    if decide (cond_Type existingCondition = type) then mret (Some i)
    else find_existing type s (S i) n
  end.

(** [resource.Status.Set(resource, condition)]. *)
Definition mem_Set (now : Z) (resource : loc) (condition : Condition) : M heap unit :=
  r ← load (A := DeepCopy.CRDMetricsResource memory) resource;
  condition ← lift (complete_condition now (om_Generation (r_ObjectMeta r)) condition);
  let conditions : option slice := Conditions (L := memory) (r_Status r) in
  existing ←
    match conditions with
    | None => mret None
    | Some s => find_existing (cond_Type condition) s 0 (len s)
    end;
  match existing, conditions with
  | Some i, Some s => store_index s i condition
  | _, _ =>
    conditions ← append conditions condition;
    store resource (with_conditions (L := memory) conditions r)
  end.

End Set_in_memory.

(** ** The labels of [updateMetadata] *)

(** [if resource.Labels == nil { resource.Labels = make(map\[string\]string) }]. *)
Definition mem_make_labels (resource : loc) : M heap unit :=
  r ← load (A := DeepCopy.CRDMetricsResource memory) resource;
  match om_Labels (L := memory) (r_ObjectMeta r) : option loc with
  | Some _ => mret tt
  | None =>
    l ← alloc (∅ : gmap string string);
    store resource (with_labels (L := memory) (Some l) r)
  end.

(** [resource.Labels\[key\] = val]; an assignment into a nil map panics. *)
Definition mem_set_label (resource : loc) (key val : string) : M heap unit :=
  r ← load (A := DeepCopy.CRDMetricsResource memory) resource;
  match om_Labels (L := memory) (r_ObjectMeta r) : option loc with
  | Some l => m ← load (A := gmap string string) l; store l (<[key := val]> m)
  | None => lift (Panicked NilDereference)
  end.

Definition mem_metadata `{!BuildInfo} (resource : loc) : M heap unit :=
  _ ← mem_make_labels resource;
  let controllerNameSanitized := ReplaceAll ControllerName "_" "-" in
  _ ← mem_set_label resource managed_by_label controllerNameSanitized;
  match find_revision version_Version with
  | Some revisionSHA => mem_set_label resource version_label revisionSHA
  | None => mret tt
  end.

(** A round of the poll between [Get] and [Update]: the copy that is sent. *)
Definition mem_updateMetadata `{!MapRange} `{!BuildInfo} (gotResource : option loc)
    : M heap (option loc) :=
  resource ← CRDMetricsResource_DeepCopy gotResource;
  match resource with
  | Some r => _ ← mem_metadata r; mret resource
  | None => lift (Panicked NilDereference)
  end.

(** ** Separation *)

#[export] Instance hprop_equiv : Equiv hprop := λ P Q, ∀ h, P h ↔ Q h.

#[export] Instance hprop_equivalence : Equivalence (≡@{hprop}).
Proof.
  split; [by intros P h|by intros P Q HPQ h; rewrite (HPQ h)|].
  intros P Q R HPQ HQR h. by rewrite (HPQ h).
Qed.

#[export] Instance star_proper : Proper ((≡) ==> (≡) ==> (≡)) star.
Proof.
  intros P P' HP Q Q' HQ h. split; intros (h1 & h2 & -> & Hd & H1 & H2); exists h1, h2;
    (split_and!; [done|done|by apply HP|by apply HQ]).
Qed.

#[export] Instance star_comm : Comm (≡) star.
Proof.
  intros P Q h. split; intros (h1 & h2 & -> & Hd & ? & ?); exists h2, h1;
    (split_and!; [by apply map_union_comm|by symmetry|done|done]).
Qed.

#[export] Instance star_assoc : Assoc (≡) star.
Proof.
  intros P Q R h. split.
  - intros (h1 & ? & -> & Hd & HP & h2 & h3 & -> & Hd' & HQ & HR).
    apply map_disjoint_union_r in Hd as [Hd2 Hd3]. exists (h1 ∪ h2), h3.
    split_and!; [by rewrite (assoc_L (∪))|by apply map_disjoint_union_l|by exists h1, h2|done].
  - intros (? & h3 & -> & Hd & (h1 & h2 & -> & Hd' & HP & HQ) & HR).
    apply map_disjoint_union_l in Hd as [Hd1 Hd2]. exists h1, (h2 ∪ h3).
    split_and!; [by rewrite (assoc_L (∪))|by apply map_disjoint_union_r|done|by exists h2, h3].
Qed.

#[export] Instance adds_proper h : Proper ((≡) ==> eq ==> iff) (adds h).
Proof. intros P Q HPQ ? h' ->. unfold adds. by setoid_rewrite (HPQ _). Qed.

Lemma star_emp (P : hprop) : star (emp owned) P ≡ P.
Proof.
  intros h. split; [apply star_emp_l|]. intros HP. exists ∅, h. rewrite (left_id_L ∅ (∪)).
  split_and!; [done|apply map_disjoint_empty_l|done|done].
Qed.

Lemma pure_True (φ : Prop) : φ → pure owned φ ≡ emp owned.
Proof. intros Hφ h. split; [by intros [_ ?]|by split]. Qed.

(** The small axioms, in a frame. *)
Lemma adds_lookup h0 l c P h : adds h0 (star (points owned l c) P) h → h !! l = Some c.
Proof.
  intros (hc & -> & Hd & h1 & h2 & -> & _ & -> & _).
  apply map_disjoint_union_r in Hd as [Hd _].
  rewrite lookup_union_r by by apply map_disjoint_singleton_r in Hd.
  by apply lookup_union_Some_l, lookup_singleton_eq.
Qed.

Lemma adds_update h0 l c d P h :
  adds h0 (star (points owned l c) P) h → adds h0 (star (points owned l d) P) (<[l := d]> h).
Proof.
  intros (hc & -> & Hd & h1 & h2 & -> & Hd' & -> & HP).
  apply map_disjoint_union_r in Hd as [Hd1 Hd2].
  apply map_disjoint_singleton_r in Hd1. apply map_disjoint_singleton_l in Hd'.
  exists ({[l := d]} ∪ h2). split.
  - rewrite insert_union_r by done. f_equal.
    rewrite <- !insert_union_singleton_l. by rewrite insert_insert_eq.
  - split; [by apply map_disjoint_union_r; rewrite map_disjoint_singleton_r|].
    exists {[l := d]}, h2. split_and!; try done. by apply map_disjoint_singleton_l.
Qed.

Lemma adds_new h0 l c P h :
  h !! l = None → adds h0 P h → adds h0 (star (points owned l c) P) (<[l := c]> h).
Proof.
  intros Hl (hc & -> & Hd & HP). apply lookup_union_None in Hl as [H0 Hc].
  exists (<[l := c]> hc). rewrite insert_union_r by done. split; [done|].
  split; [by apply map_disjoint_insert_r_2|].
  exists {[l := c]}, hc. rewrite insert_union_singleton_l.
  split_and!; try done. by apply map_disjoint_singleton_l.
Qed.

Lemma adds_exist {A} h0 (P : A → hprop) h : adds h0 (λ h, ∃ x, P x h) h ↔ ∃ x, adds h0 (P x) h.
Proof.
  split; [intros (hc & -> & Hd & x & HP); by exists x, hc|].
  intros (x & hc & -> & Hd & HP). exists hc. eauto.
Qed.

(** ** What the writes do *)

(** [p] points to a resource with the value [v], and owns its cells. *)
Definition owns (p : loc) (v : DeepCopy.CRDMetricsResource values) : hprop :=
  rel_ptr owned (rel_resource owned) (Some p) (Some v).

Lemma owns_open h0 p v h :
  adds h0 (owns p v) h ↔
  ∃ r, adds h0 (star (points owned p (mk_cell r)) (rel_resource owned r v)) h.
Proof. apply adds_exist. Qed.

(** The labels and the conditions, apart from the other fields. *)
Lemma rel_labels r v : ∃ F, ∀ ls vls,
  rel_resource owned (with_labels (L := memory) ls r) (with_labels (L := values) vls v) ≡
  star (rel_map owned ls vls) F.
Proof.
  eexists. intros ls vls. unfold rel_resource, rel_meta. cbn [conj owned].
  rewrite (assoc star (rel_ptr owned _ _ _) (rel_ptr owned _ _ _)).
  rewrite (assoc star _ (rel_map owned ls vls)), (comm star _ (rel_map owned ls vls)).
  rewrite <- (assoc star (rel_map owned ls vls)), <- (assoc star (rel_map owned ls vls)).
  cbn. reflexivity.
Qed.

Lemma rel_conditions r v : ∃ F, ∀ cs vcs,
  rel_resource owned (with_conditions (L := memory) cs r) (with_conditions (L := values) vcs v) ≡
  star (rel_slice (A := Condition) owned (rel_eq owned) cs vcs) F.
Proof.
  eexists. intros cs vcs. unfold rel_resource, rel_status. cbn [conj owned].
  rewrite (assoc star (rel_meta owned _ _)), (comm star (rel_meta owned _ _)), <- (assoc star).
  cbn. reflexivity.
Qed.

Lemma with_labels_id {L} (r : DeepCopy.CRDMetricsResource L) :
  with_labels (om_Labels (r_ObjectMeta r)) r = r.
Proof. by destruct r as [? [] ? ?]. Qed.

Lemma with_conditions_id {L} (r : DeepCopy.CRDMetricsResource L) :
  with_conditions (Conditions (r_Status r)) r = r.
Proof. by destruct r as [? ? ? []]. Qed.

Lemma owns_labels h0 p v h :
  adds h0 (owns p v) h →
  ∃ r F, adds h0 (star (points owned p (mk_cell r))
      (star (rel_map owned (om_Labels (r_ObjectMeta r)) (om_Labels (r_ObjectMeta v))) F)) h ∧
    ∀ ls vls h',
      adds h0 (star (points owned p (mk_cell (with_labels (L := memory) ls r)))
        (star (rel_map owned ls vls) F)) h' →
      adds h0 (owns p (with_labels (L := values) vls v)) h'.
Proof.
  intros [r Ha]%owns_open. destruct (rel_labels r v) as [F HF]. exists r, F. split.
  - rewrite <- HF, !with_labels_id. done.
  - intros ls vls h' Ha'. apply owns_open. exists (with_labels (L := memory) ls r). by rewrite HF.
Qed.

Lemma owns_conditions h0 p v h :
  adds h0 (owns p v) h →
  ∃ r F, om_Generation (r_ObjectMeta r) = om_Generation (r_ObjectMeta v) ∧
    adds h0 (star (points owned p (mk_cell r)) (star (rel_slice (A := Condition) owned
      (rel_eq owned) (Conditions (r_Status r)) (Conditions (r_Status v))) F)) h ∧
    ∀ cs vcs h1 h',
      adds h1 (star (points owned p (mk_cell (with_conditions (L := memory) cs r)))
        (star (rel_slice (A := Condition) owned (rel_eq owned) cs vcs) F)) h' →
      adds h1 (owns p (with_conditions (L := values) vcs v)) h'.
Proof.
  intros [r Ha]%owns_open. destruct (rel_conditions r v) as [F HF]. exists r, F. split_and!.
  - destruct Ha as (hc & _ & _ & ? & ? & _ & _ & _ & Hr).
    destruct Hr as (? & ? & _ & _ & Hm & _).
    repeat destruct Hm as (? & ? & _ & _ & _ & Hm). destruct Hm as [Hs _]. naive_solver.
  - rewrite <- HF, !with_conditions_id. done.
  - intros cs vcs h1 h' Ha'. apply owns_open. exists (with_conditions (L := memory) cs r).
    by rewrite HF.
Qed.

Lemma rel_map_Some l m : rel_map owned (Some l) (Some m) ≡ points owned l (mk_cell m).
Proof.
  transitivity (star (points owned l (mk_cell m)) (pure owned (m = m))).
  - intros h. split; [|by intros Hs; exists m]. intros (x & Hx).
    change (star (points owned l (mk_cell x)) (pure owned (x = m)) h) in Hx.
    destruct Hx as (h1 & h2 & -> & Hd & Hp & -> & He). by exists h1, h2.
  - by rewrite (comm star), pure_True, star_emp.
Qed.

(** A pointer and its value are both nil or both not. *)
Lemma rel_map_cases h0 P ls vls F h :
  adds h0 (star P (star (rel_map owned ls vls) F)) h →
  (ls = None ∧ vls = None) ∨ ∃ l m, ls = Some l ∧ vls = Some m.
Proof.
  intros (hc & _ & _ & h1 & h2 & _ & _ & _ & h3 & h4 & _ & _ & Hm & _).
  destruct ls, vls; naive_solver.
Qed.

(** Separating conjunctions are rearranged to have a cell first. *)
Lemma star_swap P Q R : star P (star Q R) ≡ star Q (star P R).
Proof. by rewrite !(assoc star), (comm star P Q). Qed.

Lemma mem_make_labels_spec h0 p v h :
  adds h0 (owns p v) h →
  wp (mem_make_labels p) (λ _, adds h0 (owns p
    (with_labels (L := values) (Some (default ∅ (om_Labels (r_ObjectMeta v)))) v))) h.
Proof.
  intros (r & F & Ha & Hclose)%owns_labels. unfold mem_make_labels. wp_step.
  eapply wp_load; [exact (adds_lookup _ _ _ _ _ Ha)|].
  destruct (rel_map_cases _ _ _ _ _ _ Ha) as [[Hr Hv]|(l & m & Hr & Hv)]; rewrite Hr, Hv in *.
  - wp_step. apply wp_alloc. intros l Hl. apply wp_store.
    apply (Hclose (Some l)). rewrite rel_map_Some.
    apply (adds_new _ _ (mk_cell (∅ : gmap string string)) _ _ Hl) in Ha.
    rewrite star_swap in Ha.
    apply (adds_update _ _ _ (mk_cell (with_labels (L := memory) (Some l) r))) in Ha.
    unfold rel_map, rel_ptr in Ha. by rewrite star_emp in Ha.
  - apply wp_ret. apply (Hclose (Some l)). rewrite <- Hr, with_labels_id, Hr. exact Ha.
Qed.

Lemma mem_set_label_spec h0 p v m key val h :
  om_Labels (L := values) (r_ObjectMeta v) = Some m → adds h0 (owns p v) h →
  wp (mem_set_label p key val)
    (λ _, adds h0 (owns p (with_labels (L := values) (Some (<[key := val]> m)) v))) h.
Proof.
  intros Hm (r & F & Ha & Hclose)%owns_labels. unfold mem_set_label. wp_step.
  eapply wp_load; [exact (adds_lookup _ _ _ _ _ Ha)|].
  destruct (rel_map_cases _ _ _ _ _ _ Ha) as [[_ Hv]|(l & m' & Hr & Hv)]; [congruence|].
  rewrite Hm in Hv. injection Hv as <-. rewrite Hr, Hm, rel_map_Some, star_swap in Ha. rewrite Hr.
  wp_step. eapply wp_load; [exact (adds_lookup _ _ _ _ _ Ha)|]. apply wp_store.
  apply (Hclose (Some l)). rewrite rel_map_Some, star_swap, <- Hr, with_labels_id.
  by eapply adds_update.
Qed.

Lemma mem_metadata_spec `{!BuildInfo} h0 p v h :
  adds h0 (owns p v) h →
  wp (mem_metadata p) (λ _, adds h0 (owns p (with_labels (L := values)
    (Some (metadata_labels (om_Labels (r_ObjectMeta v)))) v))) h.
Proof.
  intros Ha. unfold mem_metadata, metadata_labels. wp_step.
  eapply wp_mono; [by apply mem_make_labels_spec|]. intros [] h1 H1. wp_step.
  eapply wp_mono; [by eapply mem_set_label_spec; [|exact H1]|]. intros [] h2 H2. cbn beta in H2.
  destruct (find_revision version_Version) as [sha|]; [|by apply wp_ret].
  eapply wp_mono; [by eapply mem_set_label_spec; [|exact H2]|]. by intros [] h3 H3.
Qed.

(** *** Conditions *)

Lemma rel_list_eq {A} (xs vs : list A) : rel_list owned (rel_eq owned) xs vs ≡ pure owned (xs = vs).
Proof.
  revert vs. induction xs as [|x xs IH]; intros [|v vs]; simpl.
  - by rewrite pure_True.
  - intros h. by split; [|intros [? _]].
  - intros h. by split; [|intros [? _]].
  - rewrite IH. intros h. split.
    + intros (h1 & h2 & -> & _ & [-> ->] & -> & ->). by rewrite (left_id_L ∅ (∪)).
    + intros [[= -> ->] ->]. exists ∅, ∅. rewrite (left_id_L ∅ (∪)).
      by split_and!; [done|apply map_disjoint_empty_l|split|split].
Qed.

(** The slice of conditions that stands for some values, in its array. *)
Lemma rel_slice_Some s vs :
  rel_slice (A := Condition) owned (rel_eq owned) (Some s) (Some vs) ≡
  λ h, ∃ xs, (len s <= length xs ∧ take (len s) xs = vs) ∧ points owned (array s) (mk_cell xs) h.
Proof.
  intros h. split.
  - intros (xs & Hlen & h1 & h2 & -> & _ & Hp & [Heq He]%rel_list_eq). exists xs.
    cbn in He. subst h2. by rewrite (right_id_L ∅ (∪)).
  - intros (xs & [Hlen Heq] & Hp). exists xs. split; [done|]. exists h, ∅.
    rewrite (right_id_L ∅ (∪)). split_and!; [done|apply map_disjoint_empty_r|done|].
    by apply rel_list_eq.
Qed.

Lemma rel_slice_open h0 P s vs F h :
  adds h0 (star P (star (rel_slice (A := Condition) owned (rel_eq owned) (Some s) (Some vs)) F)) h →
  ∃ xs, len s <= length xs ∧ take (len s) xs = vs ∧
    adds h0 (star P (star (points owned (array s) (mk_cell xs)) F)) h.
Proof.
  intros (hc & -> & Hd & h1 & h2 & -> & Hd1 & HP & h3 & h4 & -> & Hd2 & Hs & HF).
  apply rel_slice_Some in Hs as (xs & [Hlen Heq] & Hp). exists xs. split_and!; [done|done|].
  eexists. split_and!; [done|done|]. exists h1, (h3 ∪ h4). split_and!; try done. by exists h3, h4.
Qed.

Lemma rel_slice_close h0 P s xs vs F h :
  len s <= length xs → take (len s) xs = vs →
  adds h0 (star P (star (points owned (array s) (mk_cell xs)) F)) h →
  adds h0 (star P (star (rel_slice (A := Condition) owned (rel_eq owned) (Some s) (Some vs)) F)) h.
Proof.
  intros Hlen Heq (hc & -> & Hd & h1 & h2 & -> & Hd1 & HP & h3 & h4 & -> & Hd2 & Hs & HF).
  eexists. split_and!; [done|done|]. exists h1, (h3 ∪ h4). split_and!; try done.
  exists h3, h4. split_and!; try done. apply rel_slice_Some. by exists xs.
Qed.

Lemma rel_slice_cases h0 P s vs F h :
  adds h0 (star P (star (rel_slice (A := Condition) owned (rel_eq owned) s vs) F)) h →
  (s = None ∧ vs = None) ∨ ∃ s' vs', s = Some s' ∧ vs = Some vs'.
Proof.
  intros (hc & _ & _ & h1 & h2 & _ & _ & _ & h3 & h4 & _ & _ & Hm & _).
  destruct s, vs; naive_solver.
Qed.

(** What is no longer referred to becomes part of the rest. *)
Lemma adds_forget h0 P G h : adds h0 (star P G) h → ∃ h1, h0 ⊆ h1 ∧ adds h1 P h.
Proof.
  intros (hc & -> & Hd & h1 & h2 & -> & Hd' & HP & HG).
  apply map_disjoint_union_r in Hd as [Hd1 Hd2]. exists (h0 ∪ h2).
  split; [by apply map_union_subseteq_l|]. exists h1.
  rewrite (map_union_comm h1 h2), (assoc_L (∪)) by done.
  by split_and!; [|apply map_disjoint_union_l|].
Qed.

(** The search finds where [upsert] puts the condition. *)
Lemma find_existing_spec c s (xs : list Condition) h i n :
  h !! array s = Some (mk_cell xs) → len s <= length xs → i + n = len s →
  let ys := take (len s) xs in
  wp (find_existing (cond_Type c) s i n) (λ o h', h' = h ∧
    match o with
    | Some j => i <= j < len s ∧ upsert c (drop i ys) = drop i (<[j := c]> ys)
    | None => upsert c (drop i ys) = drop i ys ++ [c]
    end) h.
Proof.
  intros Hs Hlen. revert i. induction n as [|n IH]; intros i Hi ys; cbn [find_existing].
  { apply wp_ret. split; [done|]. by rewrite (drop_ge ys) by (unfold ys; rewrite length_take; lia). }
  destruct (lookup_lt_is_Some_2 ys i) as [y Hy].
  { unfold ys. rewrite length_take. lia. }
  wp_step. unfold load_index. wp_step. eapply wp_load; [exact Hs|].
  eapply wp_lift; [unfold index; fold ys; by rewrite Hy|].
  rewrite (drop_S _ _ _ Hy). cbn [upsert]. case_decide as Ht.
  - apply wp_ret. split_and!; [done|lia|lia|].
    rewrite (drop_S (<[i:=c]> ys) c i) by (apply list_lookup_insert_eq; by eapply lookup_lt_Some).
    by rewrite drop_insert_lt by lia.
  - eapply wp_mono; [apply IH; lia|]. intros [j|] h' [-> Ho]; (split; [done|]).
    + destruct Ho as [Hj Ho]. split; [lia|]. fold ys in Ho. rewrite Ho.
      rewrite (drop_S (<[j:=c]> ys) y i); [done|]. by rewrite list_lookup_insert_ne by lia.
    + fold ys in Ho. by rewrite Ho.
Qed.

Section Set_spec.
Context (growth : nat → nat).

Lemma append_None_spec h0 P (x : Condition) h :
  adds h0 P h →
  wp (append growth None x) (λ s h', ∃ s' xs, s = Some s' ∧ len s' <= length xs ∧
    take (len s') xs = [x] ∧ adds h0 (star (points owned (array s') (mk_cell xs)) P) h') h.
Proof.
  intros Ha. cbn [append]. wp_step. apply wp_alloc. intros l Hl. wp_step.
  exists {| array := l; len := 1 |}, (x :: replicate (growth 0) zero). cbn [len array].
  split_and!; [done|simpl; lia|done|by apply adds_new].
Qed.

(** In place or not, the slice is one longer; when the array is replaced the
    old one is left as it was. *)
Lemma append_Some_spec h0 P s (xs : list Condition) (x : Condition) h :
  len s <= length xs → adds h0 (star (points owned (array s) (mk_cell xs)) P) h →
  wp (append growth (Some s) x) (λ s' h', ∃ s'' ys G, s' = Some s'' ∧ len s'' <= length ys ∧
    take (len s'') ys = take (len s) xs ++ [x] ∧
    adds h0 (star (points owned (array s'') (mk_cell ys)) (star P G)) h') h.
Proof.
  intros Hlen Ha. cbn [append]. wp_step. eapply wp_load; [exact (adds_lookup _ _ _ _ _ Ha)|].
  case_decide as Hroom.
  - wp_step. apply wp_store. wp_step.
    exists {| array := array s; len := S (len s) |}, (<[len s := x]> xs), (emp owned). cbn [len array].
    split_and!; [done| | |].
    + rewrite length_insert. lia.
    + erewrite take_S_r by by apply list_lookup_insert_eq. by rewrite take_insert_ge by lia.
    + rewrite (comm star P), star_emp. by eapply adds_update.
  - wp_step. apply wp_alloc. intros l Hl. wp_step.
    exists {| array := l; len := S (len s) |},
      (take (len s) xs ++ x :: replicate (growth (len s)) zero), (points owned (array s) (mk_cell xs)).
    cbn [len array]. split_and!; [done| | |].
    + rewrite length_app, length_take. simpl. lia.
    + rewrite (cons_middle x), (assoc_L (++)), take_app_length'; [done|].
      rewrite length_app, length_take. simpl. lia.
    + rewrite (comm star P). by apply adds_new.
Qed.

(** [Set] on a resource that owns its cells. *)
Lemma mem_Set_spec now c c' h0 p v h :
  complete_condition now (om_Generation (r_ObjectMeta v)) c = Done c' →
  adds h0 (owns p v) h →
  wp (mem_Set growth now p c) (λ _ h', ∃ h1, h0 ⊆ h1 ∧ adds h1 (owns p (with_conditions
    (L := values) (Some (upsert c' (default [] (Conditions (L := values) (r_Status v))))) v)) h') h.
Proof.
  intros Hc (r & F & Hg & Ha & Hclose)%owns_conditions. unfold mem_Set. wp_step.
  eapply wp_load; [exact (adds_lookup _ _ _ _ _ Ha)|].
  wp_step. eapply wp_lift; [by rewrite Hg|]. cbv zeta.
  destruct (rel_slice_cases _ _ _ _ _ _ Ha) as [[Hr Hv]|(s & vs & Hr & Hv)]; rewrite Hr, Hv in *.
  - wp_step. apply wp_ret. wp_step. cbn [rel_slice] in Ha. rewrite star_emp in Ha.
    eapply wp_mono; [apply append_None_spec, Ha|].
    intros s h1 (s' & xs & -> & Hlen & Hxs & Ha1). cbn beta. apply wp_store.
    exists h0. split; [done|]. apply (Hclose (Some s')), (rel_slice_close _ _ _ xs); [done|done|].
    rewrite star_swap in Ha1. by eapply adds_update.
  - apply rel_slice_open in Ha as (xs & Hlen & <- & Ha). rewrite star_swap in Ha.
    wp_step. eapply wp_mono.
    { apply (find_existing_spec c' s xs h 0 (len s)); [exact (adds_lookup _ _ _ _ _ Ha)|done|lia]. }
    cbn [default from_option]. intros [i|] h1 [-> Ho]; rewrite !drop_0 in Ho.
    + destruct Ho as [[_ Hi] Ho]. unfold store_index. wp_step.
      eapply wp_load; [exact (adds_lookup _ _ _ _ _ Ha)|].
      destruct (lookup_lt_is_Some_2 (take (len s) xs) i) as [y Hy]; [rewrite length_take; lia|].
      wp_step. eapply wp_lift; [unfold index; by rewrite Hy|].
      apply wp_store. exists h0. split; [done|].
      apply (Hclose (Some s)), (rel_slice_close _ _ _ (<[i := c']> xs)).
      * by rewrite length_insert.
      * rewrite take_insert_lt by lia. symmetry. exact Ho.
      * rewrite star_swap, <- Hr, with_conditions_id. by eapply adds_update.
    + wp_step. eapply wp_mono; [apply append_Some_spec; [done|exact Ha]|].
      intros s1 h1 (s' & ys & G & -> & Hlen' & Hys & Ha1). cbn beta. apply wp_store.
      rewrite <- !(assoc star), star_swap in Ha1.
      apply (adds_update _ _ _ (mk_cell (with_conditions (L := memory) (Some s') r))) in Ha1.
      rewrite !(assoc star) in Ha1. apply adds_forget in Ha1 as (h2 & Hsub & Ha1).
      rewrite <- !(assoc star) in Ha1. exists h2. split; [done|].
      apply (Hclose (Some s')), (rel_slice_close _ _ _ ys); [done|by rewrite Hys; symmetry|done].
Qed.
End Set_spec.

(** ** Properties *)

(** What [Set] records, on values. *)
Lemma abstract_conditions v c c' now :
  complete_condition now (om_Generation (r_ObjectMeta v)) c = Done c' →
  Set_condition now c (abstract v) = Done (abstract (with_conditions (L := values)
    (Some (upsert c' (default [] (Conditions (L := values) (r_Status v))))) v)).
Proof. intros Hc. unfold Set_condition, status_Set. cbn [res_Generation abstract]. by rewrite Hc. Qed.

Lemma Set_condition_complete now c v r :
  Set_condition now c (abstract v) = Done r →
  ∃ c', complete_condition now (om_Generation (r_ObjectMeta v)) c = Done c'.
Proof.
  unfold Set_condition, status_Set. cbn [res_Generation abstract].
  destruct (complete_condition _ _ c) as [c'|]; [by exists c'|done].
Qed.

(** C19: Between [Get] and [Update], [updateMetadata] sets the labels of a deep
    copy in place.  On the heap, the resource that [Get] returned and everything
    else are left as they were, and the copy, which owns its cells, is the
    resource with the labels that the handler sets on values. *)
Theorem updateMetadata_refines `{!MapRange} `{!BuildInfo} h p v :
  rel_ptr shared (rel_resource shared) (Some p) (Some v) h →
  ∃ p' hc v', mem_updateMetadata (Some p) h = (Done (Some p'), h ∪ hc) ∧ h ##ₘ hc ∧
    owns p' v' hc ∧
    abstract v' =
      set_Labels (Some (metadata_labels (res_Labels (abstract v)))) (Types.DeepCopy (abstract v)).
Proof.
  intros Hrel.
  assert (wp (mem_updateMetadata (Some p)) (λ o h', ∃ p', o = Some p' ∧ adds h (owns p'
    (with_labels (L := values) (Some (metadata_labels (om_Labels (r_ObjectMeta v)))) v)) h') h)
    as Hwp.
  { unfold mem_updateMetadata. wp_step. eapply wp_mono.
    { by apply (copies_ptr _ _ copies_resource h h (Some p) (Some v)). }
    intros [p'|] h' Ha; [|by destruct Ha as (? & _ & _ & [])].
    wp_step. eapply wp_mono; [by apply mem_metadata_spec|]. intros [] h2 H2. wp_step. by exists p'. }
  apply wp_run in Hwp as (o & h' & Heq & p' & -> & hc & -> & Hd & Ho).
  eexists p', hc, _. split_and!; [done|done|exact Ho|]. by rewrite DeepCopy_eq.
Qed.

(** [Status.Set] changes a resource in memory as it changes its value: it
    writes over the condition of the same type in the array, or appends, in
    place when the array has room and to a new array otherwise.  The rest of
    the heap is left as it was. *)
Lemma Set_refines growth now c h0 h p v r :
  adds h0 (owns p v) h → Set_condition now c (abstract v) = Done r →
  ∃ h1 h' v', mem_Set growth now p c h = (Done tt, h') ∧ h0 ⊆ h1 ∧ adds h1 (owns p v') h' ∧
    abstract v' = r.
Proof.
  intros Ha Hr. destruct (Set_condition_complete now c v r Hr) as [c' Hc].
  rewrite (abstract_conditions v c c' now Hc) in Hr. injection Hr as <-.
  apply (mem_Set_spec growth now c c' h0 p v h Hc) in Ha.
  apply wp_run in Ha as ([] & h' & Heq & h1 & Hsub & Ha). by eexists h1, h', _.
Qed.

(** ** A resource in memory *)
Module MemoryExample.

(** A resource with one label, the same map for its annotations, and one
    condition in an array with room for another. *)
Definition labels : gmap string string := {["a" := "b"]}.
Definition processed : Condition := new_condition "Processed" "False" "m".

Definition value_meta : ObjectMeta values := {|
  om_Name := "r"; om_GenerateName := ""; om_Namespace := "ns"; om_SelfLink := ""; om_UID := "u";
  om_ResourceVersion := "1"; om_Generation := 2%Z; om_CreationTimestamp := zero;
  om_DeletionTimestamp := None : Ptr values Time;
  om_DeletionGracePeriodSeconds := None : Ptr values Z;
  om_Labels := Some labels : Ptr values (gmap string string);
  om_Annotations := Some labels : Ptr values (gmap string string);
  om_OwnerReferences := None : Slice values (OwnerReference values);
  om_Finalizers := Some ["f"] : Slice values string;
  om_ManagedFields := None : Slice values (ManagedFieldsEntry values);
|}.

Definition value : DeepCopy.CRDMetricsResource values := {|
  r_TypeMeta := {| type_Kind := "K"; type_APIVersion := "v" |};
  r_ObjectMeta := value_meta; r_Spec := {| Configuration := "" |};
  r_Status := {| Conditions := Some [processed] : Slice values Condition |};
|}.

Definition memory_meta : ObjectMeta memory := {|
  om_Name := "r"; om_GenerateName := ""; om_Namespace := "ns"; om_SelfLink := ""; om_UID := "u";
  om_ResourceVersion := "1"; om_Generation := 2%Z; om_CreationTimestamp := zero;
  om_DeletionTimestamp := None : Ptr memory Time;
  om_DeletionGracePeriodSeconds := None : Ptr memory Z;
  om_Labels := Some 2%positive : Ptr memory (gmap string string);
  om_Annotations := Some 2%positive : Ptr memory (gmap string string);
  om_OwnerReferences := None : Slice memory (OwnerReference memory);
  om_Finalizers := Some {| array := 3%positive; len := 1 |} : Slice memory string;
  om_ManagedFields := None : Slice memory (ManagedFieldsEntry memory);
|}.

Definition resource : DeepCopy.CRDMetricsResource memory := {|
  r_TypeMeta := {| type_Kind := "K"; type_APIVersion := "v" |};
  r_ObjectMeta := memory_meta; r_Spec := {| Configuration := "" |};
  r_Status := {|
    Conditions := Some {| array := 4%positive; len := 1 |} : Slice memory Condition;
  |};
|}.

Definition sample_heap : heap := {[
  1%positive := CResource resource; 2%positive := CMap labels; 3%positive := CStrings ["f"];
  4%positive := CConditions [processed; zero]]}.

Lemma sample_shared : rel_ptr shared (rel_resource shared) (Some 1%positive) (Some value) sample_heap.
Proof.
  exists resource. split; [reflexivity|]. repeat split.
  - exists labels. by repeat split.
  - exists labels. by repeat split.
  - exists ["f"]. repeat split. simpl. lia.
  - exists [processed; zero]. repeat split. simpl. lia.
Qed.

#[local] Instance sample_build : BuildInfo := {| version_Version := "(revision: abc)" |}.

Lemma updateMetadata_refines_witness :
  ∃ p' hc v', mem_updateMetadata (Some 1%positive) sample_heap = (Done (Some p'), sample_heap ∪ hc) ∧
    sample_heap ##ₘ hc ∧ owns p' v' hc ∧
    abstract v' = set_Labels (Some (metadata_labels (res_Labels (abstract value))))
      (Types.DeepCopy (abstract value)).
Proof. apply (updateMetadata_refines sample_heap 1%positive value), sample_shared. Defined.

(** A copy of it, which owns its cells. *)
Lemma sample_copy :
  ∃ p hc, sample_heap ##ₘ hc ∧ adds sample_heap (owns p value) (sample_heap ∪ hc).
Proof.
  destruct (copies_deep rel_resource _ copies_resource sample_heap (Some 1%positive) (Some value) sample_shared)
    as ([p|] & hc & _ & Hd & Ho); [|done].
  exists p, hc. split; [done|]. by exists hc.
Qed.

Lemma Set_refines_witness :
  ∃ p hc h1 h' v' r,
    Set_condition 7 (new_condition "Failed" "True" "e") (abstract value) = Done r ∧
    mem_Set (λ n, n) 7 p (new_condition "Failed" "True" "e") (sample_heap ∪ hc) = (Done tt, h') ∧
    sample_heap ⊆ h1 ∧ adds h1 (owns p v') h' ∧ abstract v' = r.
Proof.
  destruct sample_copy as (p & hc & Hd & Ha).
  destruct (Set_condition 7 (new_condition "Failed" "True" "e") (abstract value)) as [r|] eqn:Hr;
    [|vm_compute in Hr; discriminate].
  destruct (Set_refines (λ n, n) 7 (new_condition "Failed" "True" "e") sample_heap
    (sample_heap ∪ hc) p value r Ha Hr) as (h1 & h' & v' & Hs).
  exists p, hc, h1, h', v', r. split; [reflexivity|exact Hs].
Defined.

End MemoryExample.
