(* ===== verification/Clients.v ===== *)
(** * The generated clients ([pkg/generated/clientset], [pkg/generated/listers])

    The registration of the types in a scheme, the construction of the
    clientset from a configuration, the requests of the typed client down to
    their paths, and the lister over the cache of an informer.  HTTP, the
    discovery client and the rate limiters are parameters ([RestLibrary]), and
    so is the server that answers requests ([RESTServer]); a server in memory
    that parses the paths shows that the typed client implements the interface
    [API] of the event handler. *)
From Stdlib Require Import QArith.
From S2P Require Import Prelude GoStrings Strconv GoSort Values Resolver Metric Family Store Types Builder Events.

#[local] Open Scope nat_scope.

(** ** The scheme ([register.go]) *)

(** [runtime.Scheme]: the Go type of each kind.  A panic of the library is the
    left side of the result. *)
Notation Scheme := (gmap (string * string * string) string).

Definition gv_kind (gv : string * string) (kind : string) : string * string * string :=
  (gv, kind).

(** [AddKnownTypeWithName]. *)
Definition AddKnownTypeWithName (gvk : string * string * string) (type : string) (s : Scheme)
    : result string Scheme :=
  if decide (gvk.1.2 = "") then Err "version is required on all types"
  else
    match s !! gvk with
    | Some old =>
      if decide (old = type) then Ok (<[gvk := type]> s)
      else Err "Double registration of different types"
    | None => Ok (<[gvk := type]> s)
    end.

(** [AddKnownTypes]: the kind of a type is its name. *)
Fixpoint AddKnownTypes (gv : string * string) (types : list (string * string)) (s : Scheme)
    : result string Scheme :=
  match types with
  | [] => Ok s
  | (kind, type) :: types =>
    match AddKnownTypeWithName (gv_kind gv kind) type s with
    | Ok s => AddKnownTypes gv types s
    | Err err => Err err
    end
  end.

(** The types of the API package, and those that [AddToGroupVersion] adds under
    the group of the API. *)
Definition known_types : list (string * string) :=
  [("CRDMetricsResource", "v1alpha1.CRDMetricsResource");
   ("CRDMetricsResourceList", "v1alpha1.CRDMetricsResourceList")].

Section scheme.
(** [metav1.AddToGroupVersion]. *)
Context (AddToGroupVersion : string * string → Scheme → result string Scheme).

(** [addKnownTypes]. *)
Definition addKnownTypes (s : Scheme) : result string Scheme :=
  match AddKnownTypes SchemeGroupVersion known_types s with
  | Ok s => AddToGroupVersion SchemeGroupVersion s
  | Err err => Err err
  end.

(** [SchemeBuilder.AddToScheme]: the functions in turn. *)
Fixpoint AddToScheme (builder : list (Scheme → result string Scheme)) (s : Scheme)
    : result string Scheme :=
  match builder with
  | [] => Ok s
  | f :: builder =>
    match f s with
    | Ok s => AddToScheme builder s
    | Err err => Err err
    end
  end.

(** [init] of the package [scheme] of the clientset, and of the fake one. *)
Definition init_scheme : result string Scheme :=
  match AddToGroupVersion ("", "v1") ∅ with
  | Ok s => AddToScheme [AddToScheme [addKnownTypes]] s
  | Err err => Err err
  end.
End scheme.

(** ** Clientsets ([clientset.go], [crdmetrics_client.go]) *)

(** [flowcontrol.RateLimiter]: the one of the user, or a token bucket. *)
Inductive RateLimiter : Type :=
| UserRateLimiter (id : nat)
| TokenBucket (qps : Q) (burst : Z).

(** The fields of [rest.Config] that the generated code reads or writes. *)
Record Config : Type := {
  c_Host : string;
  c_APIPath : string;
  c_GroupVersion : option (string * string);
  c_NegotiatedSerializer : bool;
  c_UserAgent : string;
  c_QPS : Q;
  c_Burst : Z;
  c_RateLimiter : option RateLimiter;
}.

Definition set_UserAgent (ua : string) (c : Config) : Config := {|
  c_Host := c_Host c; c_APIPath := c_APIPath c; c_GroupVersion := c_GroupVersion c;
  c_NegotiatedSerializer := c_NegotiatedSerializer c; c_UserAgent := ua;
  c_QPS := c_QPS c; c_Burst := c_Burst c; c_RateLimiter := c_RateLimiter c;
|}.

Definition set_RateLimiter (l : RateLimiter) (c : Config) : Config := {|
  c_Host := c_Host c; c_APIPath := c_APIPath c; c_GroupVersion := c_GroupVersion c;
  c_NegotiatedSerializer := c_NegotiatedSerializer c; c_UserAgent := c_UserAgent c;
  c_QPS := c_QPS c; c_Burst := c_Burst c; c_RateLimiter := Some l;
|}.

(** What the clientset takes from the libraries. *)
Class RestLibrary : Type := {
  HttpClient : Type;
  RESTClient : Type;
  DiscoveryClient : Type;
  DefaultKubernetesUserAgent : string;
  HTTPClientFor : Config → result string HttpClient;
  RESTClientForConfigAndClient : Config → HttpClient → result string RESTClient;
  NewDiscoveryClientForConfigAndClient : Config → HttpClient → result string DiscoveryClient;
  NewDiscoveryClient : RESTClient → DiscoveryClient;
}.

Section clientset.
Context `{!RestLibrary}.

(** [CrdmetricsV1alpha1Client] and [Clientset]. *)
Record CrdmetricsV1alpha1Client : Type := MkV1alpha1Client {
  restClient : RESTClient;
}.

Record Clientset : Type := MkClientset {
  cs_DiscoveryClient : DiscoveryClient;
  cs_crdmetricsV1alpha1 : CrdmetricsV1alpha1Client;
}.

(** [setConfigDefaults]: its error is always nil. *)
Definition setConfigDefaults (config : Config) : Config := {|
  c_Host := c_Host config;
  c_APIPath := "/apis";
  c_GroupVersion := Some SchemeGroupVersion;
  c_NegotiatedSerializer := true;
  c_UserAgent :=
    if decide (c_UserAgent config = "") then DefaultKubernetesUserAgent else c_UserAgent config;
  c_QPS := c_QPS config; c_Burst := c_Burst config; c_RateLimiter := c_RateLimiter config;
|}.

(** [v1alpha1.NewForConfigAndClient]. *)
Definition v1alpha1_NewForConfigAndClient (c : Config) (h : HttpClient)
    : result string CrdmetricsV1alpha1Client :=
  match RESTClientForConfigAndClient (setConfigDefaults c) h with
  | Err err => Err err
  | Ok client => Ok (MkV1alpha1Client client)
  end.

(** [v1alpha1.NewForConfig]. *)
Definition v1alpha1_NewForConfig (c : Config) : result string CrdmetricsV1alpha1Client :=
  let config := setConfigDefaults c in
  match HTTPClientFor config with
  | Err err => Err err
  | Ok httpClient => v1alpha1_NewForConfigAndClient config httpClient
  end.

Definition burst_error : string :=
  "burst is required to be greater than 0 when RateLimiter is not set and QPS is set to greater than 0".

(** The rate limiter of the configuration that the clients share: the left side
    is the error. *)
Definition shared_limiter (c : Config) : result string Config :=
  match c_RateLimiter c with
  | None =>
    if negb (Qle_bool (c_QPS c) 0) then
      if (c_Burst c <=? 0)%Z then Err burst_error
      else Ok (set_RateLimiter (TokenBucket (c_QPS c) (c_Burst c)) c)
    else Ok c
  | Some _ => Ok c
  end.

(** [NewForConfigAndClient]. *)
Definition NewForConfigAndClient (c : Config) (httpClient : HttpClient)
    : result string Clientset :=
  match shared_limiter c with
  | Err err => Err err
  | Ok configShallowCopy =>
    match v1alpha1_NewForConfigAndClient configShallowCopy httpClient with
    | Err err => Err err
    | Ok crdmetricsV1alpha1 =>
      match NewDiscoveryClientForConfigAndClient configShallowCopy httpClient with
      | Err err => Err err
      | Ok DiscoveryClient => Ok (MkClientset DiscoveryClient crdmetricsV1alpha1)
      end
    end
  end.

(** [NewForConfig]. *)
Definition NewForConfig (c : Config) : result string Clientset :=
  let configShallowCopy :=
    if decide (c_UserAgent c = "") then set_UserAgent DefaultKubernetesUserAgent c else c in
  match HTTPClientFor configShallowCopy with
  | Err err => Err err
  | Ok httpClient => NewForConfigAndClient configShallowCopy httpClient
  end.

(** [panic(err)], where a constructor may not fail. *)
Definition or_die {A} (r : result string A) : outcome A :=
  match r with
  | Err err => Panicked (PanicError err)
  | Ok a => Done a
  end.

Definition v1alpha1_NewForConfigOrDie (c : Config) : outcome CrdmetricsV1alpha1Client :=
  or_die (v1alpha1_NewForConfig c).

Definition NewForConfigOrDie (c : Config) : outcome Clientset := or_die (NewForConfig c).

(** [New], over a REST client that exists. *)
Definition v1alpha1_New (c : RESTClient) : CrdmetricsV1alpha1Client := MkV1alpha1Client c.

Definition New (c : RESTClient) : Clientset :=
  MkClientset (NewDiscoveryClient c) (v1alpha1_New c).

(** The accessors: two of them accept a nil receiver, one does not. *)
Definition Discovery (c : option Clientset) : option DiscoveryClient := cs_DiscoveryClient <$> c.

Definition v1alpha1_RESTClient (c : option CrdmetricsV1alpha1Client) : option RESTClient :=
  restClient <$> c.

Definition CrdmetricsV1alpha1 (c : option Clientset) : outcome CrdmetricsV1alpha1Client :=
  match c with
  | Some cs => Done (cs_crdmetricsV1alpha1 cs)
  | None => Panicked NilDereference
  end.
End clientset.

(** ** Requests of the typed client ([crdmetricsresource.go], [client-go/rest]) *)

Inductive verb : Type := GET | POST | PUT | DELETE | PATCH.

Inductive body : Type :=
| NoBody
| ObjectBody (r : CRDMetricsResource)
| PatchBody (pt data : string)
| DeleteOptionsBody.

(** A request under construction: the first error stops it. *)
Record Request : Type := MkRequest {
  rq_verb : verb;
  rq_err : option string;
  rq_namespace : string;
  rq_resource : string;
  rq_resourceName : string;
  rq_subresource : list string;
  rq_params : option ListOptions;
  rq_watch : bool;
  rq_body : body;
}.

Definition contains (c : ascii) (s : string) : bool := negb (Count s c =? 0).

(** [IsValidPathSegmentName]: whether it reports nothing. *)
Definition valid_segment (name : string) : bool :=
  negb (bool_decide (name = ".")) && negb (bool_decide (name = ".."))
  && negb (contains "/" name) && negb (contains "%" name).

Definition NewRequest (v : verb) : Request := {|
  rq_verb := v; rq_err := None; rq_namespace := ""; rq_resource := ""; rq_resourceName := "";
  rq_subresource := []; rq_params := None; rq_watch := false; rq_body := NoBody;
|}.

Definition fail_request (err : string) (r : Request) : Request := {|
  rq_verb := rq_verb r; rq_err := Some err; rq_namespace := rq_namespace r;
  rq_resource := rq_resource r; rq_resourceName := rq_resourceName r;
  rq_subresource := rq_subresource r; rq_params := rq_params r; rq_watch := rq_watch r;
  rq_body := rq_body r;
|}.

(** [NamespaceIfScoped(namespace, namespace != "")]. *)
Definition NamespaceIfScoped (namespace : string) (r : Request) : Request :=
  if decide (namespace = "") then r
  else
    match rq_err r with
    | Some _ => r
    | None =>
      if negb (valid_segment namespace) then fail_request ("invalid namespace " +:+ namespace) r
      else {|
        rq_verb := rq_verb r; rq_err := None; rq_namespace := namespace;
        rq_resource := rq_resource r; rq_resourceName := rq_resourceName r;
        rq_subresource := rq_subresource r; rq_params := rq_params r; rq_watch := rq_watch r;
        rq_body := rq_body r;
      |}
    end.

(** [Resource]. *)
Definition rq_Resource (resource : string) (r : Request) : Request :=
  match rq_err r with
  | Some _ => r
  | None =>
    if negb (valid_segment resource) then fail_request ("invalid resource " +:+ resource) r
    else {|
      rq_verb := rq_verb r; rq_err := None; rq_namespace := rq_namespace r;
      rq_resource := resource; rq_resourceName := rq_resourceName r;
      rq_subresource := rq_subresource r; rq_params := rq_params r; rq_watch := rq_watch r;
      rq_body := rq_body r;
    |}
  end.

(** [Name]. *)
Definition rq_Name (resourceName : string) (r : Request) : Request :=
  match rq_err r with
  | Some _ => r
  | None =>
    if decide (resourceName = "") then fail_request "resource name may not be empty" r
    else if negb (valid_segment resourceName) then
      fail_request ("invalid resource name " +:+ resourceName) r
    else {|
      rq_verb := rq_verb r; rq_err := None; rq_namespace := rq_namespace r;
      rq_resource := rq_resource r; rq_resourceName := resourceName;
      rq_subresource := rq_subresource r; rq_params := rq_params r; rq_watch := rq_watch r;
      rq_body := rq_body r;
    |}
  end.

Definition nonempty (s : string) : bool := negb (bool_decide (s = "")).

(** [SubResource]: [path.Join] skips the empty elements. *)
Definition rq_SubResource (subresources : list string) (r : Request) : Request :=
  match rq_err r with
  | Some _ => r
  | None =>
    if negb (forallb valid_segment subresources) then fail_request "invalid subresource" r
    else {|
      rq_verb := rq_verb r; rq_err := None; rq_namespace := rq_namespace r;
      rq_resource := rq_resource r; rq_resourceName := rq_resourceName r;
      rq_subresource := List.filter nonempty subresources; rq_params := rq_params r;
      rq_watch := rq_watch r; rq_body := rq_body r;
    |}
  end.

Definition rq_Body (b : body) (r : Request) : Request :=
  match rq_err r with
  | Some _ => r
  | None => {|
      rq_verb := rq_verb r; rq_err := None; rq_namespace := rq_namespace r;
      rq_resource := rq_resource r; rq_resourceName := rq_resourceName r;
      rq_subresource := rq_subresource r; rq_params := rq_params r; rq_watch := rq_watch r;
      rq_body := b;
    |}
  end.

Definition rq_ListParams (opts : ListOptions) (watch : bool) (r : Request) : Request :=
  match rq_err r with
  | Some _ => r
  | None => {|
      rq_verb := rq_verb r; rq_err := None; rq_namespace := rq_namespace r;
      rq_resource := rq_resource r; rq_resourceName := rq_resourceName r;
      rq_subresource := rq_subresource r; rq_params := Some opts; rq_watch := watch;
      rq_body := rq_body r;
    |}
  end.

(** [URL]: its path, of which the prefix is that of [setConfigDefaults]. *)
Definition path_segments (r : Request) : list string :=
  ["apis"; GroupName; "v1alpha1"]
  ++ (if decide (rq_namespace r = "") then [] else ["namespaces"; rq_namespace r])
  ++ (if decide (rq_resource r = "") then [] else [ToLower (rq_resource r)])
  ++ (if decide (rq_resourceName r = "") then [] else [rq_resourceName r])
  ++ rq_subresource r.

Definition URL (r : Request) : string := "/" +:+ Join (path_segments r) "/".

(** [newCRDMetricsResources]: the typed client of a namespace, with the methods
    of [gentype.ClientWithList]. *)
Record cRDMetricsResources : Type := MkCRDMetricsResources {
  tc_resource : string;
  tc_namespace : string;
}.

Definition newCRDMetricsResources (namespace : string) : cRDMetricsResources := {|
  tc_resource := "crdmetricsresources"; tc_namespace := namespace;
|}.

Section typed.
Context (c : cRDMetricsResources).

Definition scoped (v : verb) : Request :=
  rq_Resource (tc_resource c) (NamespaceIfScoped (tc_namespace c) (NewRequest v)).

Definition rest_Get (name : string) : Request := rq_Name name (scoped GET).
Definition rest_List (opts : ListOptions) : Request := rq_ListParams opts false (scoped GET).
Definition rest_Watch (opts : ListOptions) : Request := rq_ListParams opts true (scoped GET).
Definition rest_Create (obj : CRDMetricsResource) : Request :=
  rq_Body (ObjectBody obj) (scoped POST).
Definition rest_Update (obj : CRDMetricsResource) : Request :=
  rq_Body (ObjectBody obj) (rq_Name (res_Name obj) (scoped PUT)).
Definition rest_UpdateStatus (obj : CRDMetricsResource) : Request :=
  rq_Body (ObjectBody obj) (rq_SubResource ["status"] (rq_Name (res_Name obj) (scoped PUT))).
Definition rest_Delete (name : string) : Request :=
  rq_Body DeleteOptionsBody (rq_Name name (scoped DELETE)).
Definition rest_DeleteCollection (listOpts : ListOptions) : Request :=
  rq_Body DeleteOptionsBody (rq_ListParams listOpts false (scoped DELETE)).
Definition rest_Patch (name pt data : string) (subresources : list string) : Request :=
  rq_Body (PatchBody pt data) (rq_SubResource subresources (rq_Name name (scoped PATCH))).
End typed.

(** The methods of the typed client. *)
Inductive operation : Type :=
| CallGet (name : string)
| CallList (opts : ListOptions)
| CallWatch (opts : ListOptions)
| CallCreate (obj : CRDMetricsResource)
| CallUpdate (obj : CRDMetricsResource)
| CallUpdateStatus (obj : CRDMetricsResource)
| CallDelete (name : string)
| CallDeleteCollection (listOpts : ListOptions)
| CallPatch (name pt data : string) (subresources : list string).

Definition request_of (c : cRDMetricsResources) (op : operation) : Request :=
  match op with
  | CallGet name => rest_Get c name
  | CallList opts => rest_List c opts
  | CallWatch opts => rest_Watch c opts
  | CallCreate obj => rest_Create c obj
  | CallUpdate obj => rest_Update c obj
  | CallUpdateStatus obj => rest_UpdateStatus c obj
  | CallDelete name => rest_Delete c name
  | CallDeleteCollection listOpts => rest_DeleteCollection c listOpts
  | CallPatch name pt data subresources => rest_Patch c name pt data subresources
  end.

(** The name and the subresource that a method is about; [None] for the whole
    collection. *)
Definition target (op : operation) : option (string * list string) :=
  match op with
  | CallGet name | CallDelete name => Some (name, [])
  | CallUpdate obj => Some (res_Name obj, [])
  | CallUpdateStatus obj => Some (res_Name obj, ["status"])
  | CallPatch name _ _ subresources => Some (name, subresources)
  | CallList _ | CallWatch _ | CallCreate _ | CallDeleteCollection _ => None
  end.

(** ** The server *)

(** A server answers a verb, a path and a body with an object or an error. *)
Class RESTServer (E : Type) : Type := {
  serve : verb → string → body → E → result string CRDMetricsResource * E;
}.

(** [Do(ctx).Into(result)]: a request with an error is not sent. *)
Definition send `{!RESTServer E} (r : Request) (e : E) : result string CRDMetricsResource * E :=
  match rq_err r with
  | Some err => (Err err, e)
  | None => serve (rq_verb r) (URL r) (rq_body r) e
  end.

(** What a path addresses: a namespace, a name and a subresource. *)
Definition parse_path (path : string) : option (string * string * list string) :=
  match Split path "/" with
  | "" :: apis :: group :: version :: segments =>
    if bool_decide (apis = "apis") && bool_decide (group = GroupName)
       && bool_decide (version = "v1alpha1")
    then
      match segments with
      | [resource] => if decide (resource = "crdmetricsresources") then Some ("", "", []) else None
      | first :: second :: rest =>
        if decide (first = "crdmetricsresources") then Some ("", second, rest)
        else if decide (first = "namespaces") then
          match rest with
          | resource :: rest =>
            if decide (resource = "crdmetricsresources") then
              match rest with
              | [] => Some (second, "", [])
              | name :: rest => Some (second, name, rest)
              end
            else None
          | [] => None
          end
        else None
      | [] => None
      end
    else None
  | _ => None
  end.

(** The typed client as the interface of the event handler. *)
Section rest_api.
Context {E : Type} `{!RESTServer E} (now : E → Z * E) (tick_ : E → tick * E).

Definition rest_API : API E := {|
  api_Get ns n := send (rest_Get (newCRDMetricsResources ns) n);
  api_Update ns r := send (rest_Update (newCRDMetricsResources ns) r);
  api_UpdateStatus ns r := send (rest_UpdateStatus (newCRDMetricsResources ns) r);
  env_Now := now;
  env_Tick := tick_;
|}.
End rest_api.

(** The server in memory of [Events], behind paths. *)
Definition mem_dispatch (target : string * string * list string) (v : verb) (b : body)
    (e : Mem.Server) : result string CRDMetricsResource * Mem.Server :=
  let '(ns, name, sub) := target in
  match v, sub, b with
  | GET, [], NoBody => Mem.get ns name e
  | PUT, [], ObjectBody r =>
    if decide (res_Name r = name) then Mem.update Mem.merge_object ns r e
    else (Err "the name of the object does not match the name on the URL", e)
  | PUT, [s], ObjectBody r =>
    if bool_decide (s = "status") && bool_decide (res_Name r = name)
    then Mem.update Mem.merge_status ns r e
    else (Err "the server could not find the requested resource", e)
  | _, _, _ => (Err "the server does not allow this method on the requested resource", e)
  end.

Definition mem_serve (v : verb) (path : string) (b : body) (e : Mem.Server)
    : result string CRDMetricsResource * Mem.Server :=
  match parse_path path with
  | None => (Err "the server could not find the requested resource", e)
  | Some target => mem_dispatch target v b e
  end.

Definition mem_RESTServer : RESTServer Mem.Server := {| serve := mem_serve |}.

(** ** The lister ([pkg/generated/listers], [client-go/listers]) *)

(** [labels.Selector]: everything when [Empty]. *)
Record Selector : Type := {
  sel_Matches : gmap string string → bool;
  sel_Empty : bool;
}.

(** The cache of an informer: the objects by key, and whether it has the index
    by namespace. *)
Record Indexer : Type := {
  ix_items : gmap string CRDMetricsResource;
  ix_namespace_index : bool;
}.

(** The only error of a lister. *)
Record NotFoundError : Type := MkNotFound {
  nf_resource : string * string;
  nf_name : string;
}.

(** [listers.ResourceIndexer]. *)
Record ResourceIndexer : Type := MkResourceIndexer {
  ri_resource : string * string;
  ri_namespace : string;
}.

(** The listers embed a [ResourceIndexer], whose methods are theirs. *)
Record cRDMetricsResourceLister : Type := MkLister {
  lister_ResourceIndexer :> ResourceIndexer;
}.

Record cRDMetricsResourceNamespaceLister : Type := MkNamespaceLister {
  namespace_ResourceIndexer :> ResourceIndexer;
}.

Definition NewCRDMetricsResourceLister : cRDMetricsResourceLister := MkLister {|
  ri_resource := Resource "crdmetricsresource"; ri_namespace := "";
|}.

Definition CRDMetricsResources (namespace : string) (s : cRDMetricsResourceLister)
    : cRDMetricsResourceNamespaceLister := MkNamespaceLister {|
  ri_resource := ri_resource s; ri_namespace := namespace;
|}.

Section lister.
Context `{!MapRange}.

(** [Index(NamespaceIndex, ...)]: the objects of a namespace, in the order of a
    map, or an error when there is no such index. *)
Definition Index (site : list nat) (namespace : string) (ix : Indexer)
    : option (list CRDMetricsResource) :=
  if ix_namespace_index ix then
    Some (range site (filter (λ '(_, r), res_Namespace r = namespace) (ix_items ix))).*2
  else None.

Definition selects (sel : Selector) (r : CRDMetricsResource) : bool :=
  sel_Empty sel || sel_Matches sel (default ∅ (res_Labels r)).

(** [ListAllByNamespace]: it searches without the index when there is none. *)
Definition lister_List (site : list nat) (l : ResourceIndexer) (sel : Selector) (ix : Indexer)
    : list CRDMetricsResource :=
  if decide (ri_namespace l = "") then
    List.filter (selects sel) (range site (ix_items ix)).*2
  else
    match Index site (ri_namespace l) ix with
    | Some items => List.filter (selects sel) items
    | None =>
      List.filter (λ r, bool_decide (res_Namespace r = ri_namespace l)
                   && sel_Matches sel (default ∅ (res_Labels r)))
        (range site (ix_items ix)).*2
    end.
End lister.

(** [Get]. *)
Definition lister_Get_name (l : ResourceIndexer) (name : string) (ix : Indexer)
    : result NotFoundError CRDMetricsResource :=
  let key := if decide (ri_namespace l = "") then name else ri_namespace l +:+ "/" +:+ name in
  match ix_items ix !! key with
  | Some r => Ok r
  | None => Err (MkNotFound (ri_resource l) name)
  end.

(** ** Lemmas *)

Definition valid_name (name : string) : bool := nonempty name && valid_segment name.

Definition valid_namespace (namespace : string) : bool :=
  bool_decide (namespace = "") || valid_segment namespace.

(** The requests that are sent. *)
Definition op_valid (namespace : string) (op : operation) : bool :=
  valid_namespace namespace &&
  match target op with
  | None => true
  | Some (name, subresources) => valid_name name && forallb valid_segment subresources
  end.

(** What a valid request addresses. *)
Definition addressed (namespace : string) (op : operation) : string * string * list string :=
  match target op with
  | None => (namespace, "", [])
  | Some (name, subresources) => (namespace, name, List.filter nonempty subresources)
  end.

Lemma valid_segment_no_slash s : valid_segment s = true → Count s "/" = 0.
Proof.
  unfold valid_segment, contains. rewrite !andb_true_iff, !negb_true_iff.
  intros [[_ Hs] _]. apply negb_false_iff in Hs. by apply Nat.eqb_eq.
Qed.

Lemma nonempty_true s : nonempty s = true ↔ s ≠ "".
Proof. unfold nonempty. by rewrite negb_true_iff, bool_decide_eq_false. Qed.

Lemma scoped_spec ns v :
  let r := scoped (newCRDMetricsResources ns) v in
  if valid_namespace ns then
    r = {| rq_verb := v; rq_err := None; rq_namespace := ns;
           rq_resource := "crdmetricsresources"; rq_resourceName := ""; rq_subresource := [];
           rq_params := None; rq_watch := false; rq_body := NoBody |}
  else rq_err r ≠ None.
Proof.
  unfold scoped, NamespaceIfScoped, valid_namespace. simpl.
  case_decide as Hns.
  - subst. rewrite bool_decide_eq_true_2 by done. done.
  - rewrite bool_decide_eq_false_2 by done. simpl. by destruct (valid_segment ns).
Qed.

(** An error of a request stays through the methods that follow. *)
Lemma rq_err_Name n r : rq_err r ≠ None → rq_Name n r = r.
Proof. unfold rq_Name. by destruct (rq_err r). Qed.

Lemma rq_err_SubResource l r : rq_err r ≠ None → rq_SubResource l r = r.
Proof. unfold rq_SubResource. by destruct (rq_err r). Qed.

Lemma rq_err_Body b r : rq_err (rq_Body b r) = rq_err r.
Proof. unfold rq_Body. by destruct (rq_err r) eqn:?. Qed.

Lemma rq_err_ListParams o w r : rq_err (rq_ListParams o w r) = rq_err r.
Proof. unfold rq_ListParams. by destruct (rq_err r) eqn:?. Qed.

(** The namespace, name and subresource that a request holds. *)
Definition held (r : Request) : string * string * list string :=
  (rq_namespace r, rq_resourceName r, rq_subresource r).

Lemma held_Body b r : held (rq_Body b r) = held r ∧ rq_resource (rq_Body b r) = rq_resource r.
Proof. unfold rq_Body. by destruct (rq_err r). Qed.

Lemma held_ListParams o w r :
  held (rq_ListParams o w r) = held r ∧ rq_resource (rq_ListParams o w r) = rq_resource r.
Proof. unfold rq_ListParams. by destruct (rq_err r). Qed.

(** The name and the subresource set on a scoped request. *)
Lemma named_spec ns v name subs :
  let r := rq_SubResource subs (rq_Name name (scoped (newCRDMetricsResources ns) v)) in
  if valid_namespace ns && (valid_name name && forallb valid_segment subs) then
    rq_err r = None ∧ rq_resource r = "crdmetricsresources" ∧
    held r = (ns, name, List.filter nonempty subs)
  else rq_err r ≠ None.
Proof.
  pose proof (scoped_spec ns v) as Hs. cbv zeta in *.
  destruct (valid_namespace ns); simpl.
  - rewrite Hs. unfold rq_Name, valid_name, nonempty. simpl. case_decide as Hn.
    + rewrite bool_decide_eq_true_2 by done. done.
    + rewrite bool_decide_eq_false_2 by done. simpl.
      destruct (valid_segment name); [|done]. simpl. unfold rq_SubResource. simpl.
      by destruct (forallb valid_segment subs).
  - by rewrite (rq_err_Name _ _ Hs), (rq_err_SubResource _ _ Hs).
Qed.

Lemma rq_SubResource_nil r : rq_subresource r = [] → rq_SubResource [] r = r.
Proof. unfold rq_SubResource. destruct r as [v [] ns rs n sub p w b]; simpl; by intros ->. Qed.

Lemma rq_Name_subresource n ns v :
  rq_subresource (rq_Name n (scoped (newCRDMetricsResources ns) v)) = [].
Proof.
  unfold rq_Name, scoped, NamespaceIfScoped. simpl.
  repeat (case_match; simplify_eq/=; try done).
Qed.

Lemma request_spec ns op :
  let r := request_of (newCRDMetricsResources ns) op in
  if op_valid ns op then
    rq_err r = None ∧ rq_resource r = "crdmetricsresources" ∧ held r = addressed ns op
  else rq_err r ≠ None.
Proof.
  assert (∀ v name, rq_Name name (scoped (newCRDMetricsResources ns) v) =
    rq_SubResource [] (rq_Name name (scoped (newCRDMetricsResources ns) v))) as Hnil.
  { intros v name. symmetry. apply rq_SubResource_nil, rq_Name_subresource. }
  assert (∀ v, let r := scoped (newCRDMetricsResources ns) v in
    if valid_namespace ns && true then
      rq_err r = None ∧ rq_resource r = "crdmetricsresources" ∧ held r = (ns, "", [])
    else rq_err r ≠ None) as Hall.
  { intros v. pose proof (scoped_spec ns v) as Hs. cbv zeta in *. rewrite andb_true_r.
    destruct (valid_namespace ns); [|done]. by rewrite Hs. }
  unfold op_valid, addressed.
  destruct op as [name|opts|opts|obj|obj|obj|name|opts|name pt data subs]; cbv zeta; cbn [target request_of];
    unfold rest_Get, rest_List, rest_Watch, rest_Create, rest_Update, rest_UpdateStatus,
      rest_Delete, rest_DeleteCollection, rest_Patch;
    rewrite ?rq_err_Body, ?rq_err_ListParams, ?(proj1 (held_Body _ _)), ?(proj2 (held_Body _ _)),
      ?(proj1 (held_ListParams _ _ _)), ?(proj2 (held_ListParams _ _ _));
    first [apply Hall | apply named_spec | rewrite Hnil; apply named_spec].
Qed.

Lemma held_path ns name subs r :
  held r = (ns, name, subs) → rq_resource r = "crdmetricsresources" →
  valid_namespace ns = true → (name = "" → subs = []) →
  (name ≠ "" → valid_segment name = true) →
  forallb valid_segment subs = true →
  parse_path (URL r) = Some (ns, name, subs).
Proof.
  intros [= Hns Hname Hsub] Hr Hvns Hempty Hvname Hvsub.
  unfold parse_path, URL. change ("/" +:+ Join (path_segments r) "/") with
    (String "/" (Join (path_segments r) "/")). rewrite Split_cons_sep.
  rewrite Split_Join; cycle 1.
  { done. }
  { unfold path_segments. rewrite Hns, Hname, Hsub, Hr. rewrite !Forall_app. split_and!.
    - repeat constructor.
    - case_decide as He; [constructor|]. repeat constructor.
      unfold valid_namespace in Hvns. rewrite bool_decide_eq_false_2 in Hvns by done.
      by apply valid_segment_no_slash.
    - repeat constructor.
    - case_decide; repeat constructor. by apply valid_segment_no_slash, Hvname.
    - apply Forall_forall. intros s Hs. apply valid_segment_no_slash.
      rewrite forallb_forall in Hvsub. by apply Hvsub, list_elem_of_In. }
  unfold path_segments. rewrite Hns, Hname, Hsub, Hr.
  change (ToLower "crdmetricsresources") with "crdmetricsresources".
  rewrite (decide_False (P := "crdmetricsresources" = "")) by done.
  destruct (decide (ns = "")) as [->|Hne], (decide (name = "")) as [->|Hnn];
    rewrite ?(Hempty eq_refl); reflexivity.
Qed.

(** What is sent for a valid request. *)
Definition verb_of (op : operation) : verb :=
  match op with
  | CallGet _ | CallList _ | CallWatch _ => GET
  | CallCreate _ => POST
  | CallUpdate _ | CallUpdateStatus _ => PUT
  | CallDelete _ | CallDeleteCollection _ => DELETE
  | CallPatch _ _ _ _ => PATCH
  end.

Definition body_of (op : operation) : body :=
  match op with
  | CallGet _ | CallList _ | CallWatch _ => NoBody
  | CallCreate obj | CallUpdate obj | CallUpdateStatus obj => ObjectBody obj
  | CallDelete _ | CallDeleteCollection _ => DeleteOptionsBody
  | CallPatch _ pt data _ => PatchBody pt data
  end.

Lemma request_verb_body ns op :
  let r := request_of (newCRDMetricsResources ns) op in
  rq_err r = None → rq_verb r = verb_of op ∧ rq_body r = body_of op.
Proof.
  assert (∀ v, rq_verb (scoped (newCRDMetricsResources ns) v) = v ∧
               rq_body (scoped (newCRDMetricsResources ns) v) = NoBody) as Hs.
  { intros v. unfold scoped, NamespaceIfScoped. simpl.
    repeat (case_match; simplify_eq/=; try done). }
  assert (∀ v name, let r := rq_Name name (scoped (newCRDMetricsResources ns) v) in
    rq_verb r = v ∧ rq_body r = NoBody) as Hn.
  { intros v name. destruct (Hs v) as [Hv Hb]. unfold rq_Name. by repeat case_match. }
  assert (∀ v name subs,
    let r := rq_SubResource subs (rq_Name name (scoped (newCRDMetricsResources ns) v)) in
    rq_verb r = v ∧ rq_body r = NoBody) as Hsub.
  { intros v name subs. destruct (Hn v name) as [Hv Hb]. unfold rq_SubResource.
    by repeat case_match. }
  assert (∀ b r v, rq_verb r = v → rq_err (rq_Body b r) = None →
    rq_verb (rq_Body b r) = v ∧ rq_body (rq_Body b r) = b) as Hbody.
  { intros b r v Hv. unfold rq_Body. by destruct (rq_err r) eqn:He; simpl; rewrite ?He. }
  assert (∀ o w r v, rq_verb r = v → rq_body r = NoBody →
    rq_verb (rq_ListParams o w r) = v ∧ rq_body (rq_ListParams o w r) = NoBody) as Hlist.
  { intros o w r v Hv Hb. unfold rq_ListParams. by case_match. }
  destruct op; cbv zeta in *; cbn [request_of verb_of body_of];
    unfold rest_Get, rest_List, rest_Watch, rest_Create, rest_Update, rest_UpdateStatus,
      rest_Delete, rest_DeleteCollection, rest_Patch; intros He.
  - apply Hn.
  - by apply Hlist; apply Hs.
  - by apply Hlist; apply Hs.
  - apply Hbody; [apply Hs|done].
  - apply Hbody; [apply Hn|done].
  - apply Hbody; [apply Hsub|done].
  - apply Hbody; [apply Hn|done].
  - apply Hbody; [by apply Hlist; apply Hs|done].
  - apply Hbody; [apply Hsub|done].
Qed.

Lemma request_path ns op :
  let r := request_of (newCRDMetricsResources ns) op in
  (rq_err r = None ↔ op_valid ns op = true) ∧
  (rq_err r = None → parse_path (URL r) = Some (addressed ns op)).
Proof.
  cbv zeta. pose proof (request_spec ns op) as H. cbv zeta in H.
  destruct (op_valid ns op) eqn:Hv; [|naive_solver].
  destruct H as (He & Hr & Hh). split; [done|]. intros _.
  unfold op_valid in Hv. apply andb_true_iff in Hv as [Hns Hv]. revert Hh. unfold addressed.
  destruct (target op) as [[name subs]|]; intros Hh.
  - apply andb_true_iff in Hv as [Hname Hsubs]. unfold valid_name in Hname.
    apply andb_true_iff in Hname as [Hne Hname]. apply nonempty_true in Hne.
    apply held_path; try done. apply forallb_forall. intros s Hs%filter_In.
    rewrite forallb_forall in Hsubs. by apply Hsubs, Hs.
  - by apply held_path.
Qed.

(** Sending a request to the server in memory. *)
Lemma mem_send ns op (e : Mem.Server) :
  if op_valid ns op then
    @send _ mem_RESTServer (request_of (newCRDMetricsResources ns) op) e =
    mem_dispatch (addressed ns op) (verb_of op) (body_of op) e
  else ∃ err, @send _ mem_RESTServer (request_of (newCRDMetricsResources ns) op) e = (Err err, e).
Proof.
  destruct (request_path ns op) as [Hv Hp]. unfold send.
  destruct (op_valid ns op).
  - assert (rq_err (request_of (newCRDMetricsResources ns) op) = None) as He by by apply Hv.
    destruct (request_verb_body ns op He) as [Hverb Hbody].
    rewrite He, Hverb, Hbody. simpl. unfold mem_serve. by rewrite (Hp He).
  - destruct (rq_err _); [by eexists|]. by discriminate (proj1 Hv).
Qed.

(** ** Lemmas: the lister *)

#[export] Instance filter_Permutation {A} (f : A → bool) :
  Proper ((≡ₚ) ==> (≡ₚ)) (List.filter f).
Proof.
  intros l0 k0. induction 1 as [|x l k _ IH|x y l|l k m _ IH1 _ IH2]; simpl; [done|..].
  - case_match; by rewrite IH.
  - by repeat case_match; [constructor|..].
  - by etrans.
Qed.

Lemma filter_andb {A} (f g : A → bool) (l : list A) :
  List.filter (λ x, f x && g x) l = List.filter g (List.filter f l).
Proof.
  induction l as [|x l IH]; simpl; [done|].
  destruct (f x); simpl; by rewrite IH.
Qed.

(** The values of a filtered map are the filtered values. *)
Lemma filter_values (P : CRDMetricsResource → Prop) `{!∀ r, Decision (P r)}
    (m : gmap string CRDMetricsResource) :
  (map_to_list (filter (λ '(_, r), P r) m)).*2 ≡ₚ
  List.filter (λ r, bool_decide (P r)) (map_to_list m).*2.
Proof.
  induction m as [|k r m Hk IH] using map_ind.
  { by rewrite map_filter_empty, map_to_list_empty. }
  rewrite (map_to_list_insert m) by done. csimpl.
  destruct (decide (P r)) as [Hr|Hr].
  - rewrite (map_filter_insert_True _ _ _ _ Hr), map_to_list_insert
      by (apply map_lookup_filter_None_2; by left).
    rewrite bool_decide_eq_true_2 by done. csimpl. by rewrite IH.
  - rewrite map_filter_insert_not', bool_decide_eq_false_2 by (done || naive_solver). done.
Qed.

Lemma elem_of_List_filter {A} (f : A → bool) (l : list A) x :
  x ∈ List.filter f l ↔ x ∈ l ∧ f x = true.
Proof. by rewrite !list_elem_of_In, filter_In. Qed.

Lemma elem_of_range `{!MapRange} {A} site (m : gmap string A) x :
  x ∈ (range site m).*2 ↔ ∃ k, m !! k = Some x.
Proof.
  rewrite list_elem_of_fmap. split.
  - intros ([k y] & -> & Hy). exists k. apply elem_of_map_to_list.
    by rewrite <- (range_perm site m).
  - intros [k Hk]. exists (k, x). split; [done|].
    rewrite (range_perm site m). by apply elem_of_map_to_list.
Qed.

(** ** Properties *)

(** Every request of the typed client is sent if and only if its namespace,
    name and subresources are path segments (and the name is not empty); its
    path then reads back as exactly what the method is about, so no two
    requests for different objects or subresources meet on the server. *)
Lemma request_path_roundtrip ns op :
  let r := request_of (newCRDMetricsResources ns) op in
  (rq_err r = None ↔ op_valid ns op = true) ∧
  (rq_err r = None → parse_path (URL r) = Some (addressed ns op)).
Proof. apply request_path. Qed.

(** C28: The typed client, over the paths of its requests, is the client that the
    event handler expects: on a server in memory that dispatches on verbs and
    paths, its [Get], [Update] and [UpdateStatus] are those of [Mem] for every
    name and namespace that Kubernetes allows, and for the others they fail
    without reaching the server. *)
Theorem rest_API_refines now tick_ ns n r (e : Mem.Server) :
  let rest := @rest_API _ mem_RESTServer now tick_ in
  valid_namespace ns = true →
  (if valid_name n then @api_Get _ rest ns n e = Mem.get ns n e
   else ∃ err, @api_Get _ rest ns n e = (Err err, e)) ∧
  (if valid_name (res_Name r) then
     @api_Update _ rest ns r e = Mem.update Mem.merge_object ns r e ∧
     @api_UpdateStatus _ rest ns r e = Mem.update Mem.merge_status ns r e
   else ∃ err err', @api_Update _ rest ns r e = (Err err, e) ∧
                    @api_UpdateStatus _ rest ns r e = (Err err', e)).
Proof.
  intros rest Hns.
  pose proof (mem_send ns (CallGet n) e) as Hg.
  pose proof (mem_send ns (CallUpdate r) e) as Hu.
  pose proof (mem_send ns (CallUpdateStatus r) e) as Hs.
  unfold op_valid in *. cbn [target forallb] in *. rewrite Hns, ?andb_true_r in *.
  change (valid_segment "status") with true in Hs. rewrite ?andb_true_r in Hs.
  unfold addressed in *. cbn [target verb_of body_of mem_dispatch List.filter] in Hg, Hu, Hs.
  change (nonempty "status") with true in Hs. cbn [mem_dispatch] in Hs.
  cbn [request_of] in Hg, Hu, Hs. unfold rest, rest_API.
  cbn [api_Get api_Update api_UpdateStatus]. split.
  - by destruct (valid_name n).
  - destruct (valid_name (res_Name r)).
    + rewrite decide_True in Hu by done. rewrite !bool_decide_eq_true_2 in Hs by done. done.
    + destruct Hu as [err Hu], Hs as [err' Hs]. by exists err, err'.
Qed.

(** With or without the index by namespace, the lister of a namespace returns
    the cached objects of that namespace (of all of them for the empty one)
    whose labels match the selector, each once. *)
Lemma lister_List_spec `{!MapRange} site ns sel ix :
  (sel_Empty sel = true → ∀ ls, sel_Matches sel ls = true) →
  lister_List site (CRDMetricsResources ns NewCRDMetricsResourceLister) sel ix ≡ₚ
  List.filter (λ r, (bool_decide (ns = "") || bool_decide (res_Namespace r = ns))
                    && sel_Matches sel (default ∅ (res_Labels r)))
    (map_to_list (ix_items ix)).*2.
Proof.
  intros Hsel.
  assert (∀ r, selects sel r = sel_Matches sel (default ∅ (res_Labels r))) as Hs.
  { intros r. unfold selects. destruct (sel_Empty sel); [by rewrite Hsel|done]. }
  unfold lister_List. simpl. case_decide as Hns.
  - rewrite bool_decide_eq_true_2 by done. simpl.
    rewrite (List.filter_ext _ _ Hs). by rewrite range_perm.
  - rewrite bool_decide_eq_false_2 by done. simpl. unfold Index.
    destruct (ix_namespace_index ix).
    + rewrite (List.filter_ext _ _ Hs), filter_andb, range_perm. by rewrite filter_values.
    + by rewrite range_perm.
Qed.

(** A lister finds an object under its key, and reports otherwise an error that
    names it. *)
Lemma lister_Get_spec ns name ix :
  lister_Get_name (CRDMetricsResources ns NewCRDMetricsResourceLister) name ix =
  match ix_items ix !! (if decide (ns = "") then name else ns +:+ "/" +:+ name) with
  | Some r => Ok r
  | None => Err (MkNotFound (GroupName, "crdmetricsresource") name)
  end.
Proof. done. Qed.

Section clientset_properties.
Context `{!RestLibrary}.

(** A clientset that is made has one rate limiter for its two clients: that of
    the configuration, or a token bucket with its parameters when the rate is
    positive; only with no rate does each client make its own.  The REST client
    gets the group, the path and the serializer of the API. *)
Lemma NewForConfigAndClient_Ok c h cs :
  NewForConfigAndClient c h = Ok cs →
  ∃ conf, shared_limiter c = Ok conf ∧
    RESTClientForConfigAndClient (setConfigDefaults conf) h =
      Ok (restClient (cs_crdmetricsV1alpha1 cs)) ∧
    NewDiscoveryClientForConfigAndClient conf h = Ok (cs_DiscoveryClient cs) ∧
    c_RateLimiter (setConfigDefaults conf) = c_RateLimiter conf ∧
    (c_RateLimiter conf = None → c_RateLimiter c = None ∧ Qle_bool (c_QPS c) 0 = true).
Proof.
  unfold NewForConfigAndClient, v1alpha1_NewForConfigAndClient.
  destruct (shared_limiter c) as [conf|] eqn:Hs; [|done].
  destruct (RESTClientForConfigAndClient _ h) eqn:Hr; [|done].
  destruct (NewDiscoveryClientForConfigAndClient conf h) eqn:Hd; [|done].
  intros [= <-]. exists conf. split_and!; try done.
  revert Hs. unfold shared_limiter. destruct (c_RateLimiter c) eqn:Hl.
  - intros [= <-]. by rewrite Hl.
  - destruct (Qle_bool (c_QPS c) 0); simpl; [by intros [= <-]|].
    case_match; [done|]. by intros [= <-].
Qed.

(** The two ways to a clientset agree on the REST client, and only one of them
    panics. *)
Lemma NewForConfigOrDie_Ok c cs :
  NewForConfigOrDie c = Done cs ↔ NewForConfig c = Ok cs.
Proof. unfold NewForConfigOrDie, or_die. destruct (NewForConfig c); naive_solver. Qed.

(** A positive rate without a positive burst is an error, whatever the rest. *)
Lemma NewForConfigAndClient_burst c h :
  c_RateLimiter c = None → Qle_bool (c_QPS c) 0 = false → (c_Burst c <= 0)%Z →
  NewForConfigAndClient c h = Err burst_error.
Proof.
  intros Hl Hq Hb. unfold NewForConfigAndClient, shared_limiter.
  rewrite Hl, Hq. simpl. by rewrite (proj2 (Z.leb_le _ _) Hb).
Qed.
End clientset_properties.

(** Registering the API in a scheme that has it changes nothing, so the
    clientset and the controller may both do it; the kinds of the API are
    known afterwards. *)
Lemma AddKnownTypes_twice s s' :
  AddKnownTypes SchemeGroupVersion known_types s = Ok s' →
  AddKnownTypes SchemeGroupVersion known_types s' = Ok s' ∧
  Forall (λ '(kind, type), s' !! gv_kind SchemeGroupVersion kind = Some type) known_types.
Proof.
  assert (∀ gvk type s1 s2, AddKnownTypeWithName gvk type s1 = Ok s2 →
    gvk.1.2 ≠ "" ∧ s2 = <[gvk := type]> s1) as Hadd.
  { intros gvk type s1 s2. unfold AddKnownTypeWithName. case_decide; [done|].
    destruct (s1 !! gvk); [case_decide|]; naive_solver. }
  unfold known_types, AddKnownTypes.
  destruct (AddKnownTypeWithName _ _ s) as [s1|] eqn:H1; [|done].
  destruct (AddKnownTypeWithName _ _ s1) as [s2|] eqn:H2; [|done]. intros [= ->].
  apply Hadd in H1 as [_ ->]. apply Hadd in H2 as [_ ->].
  set (k1 := gv_kind _ "CRDMetricsResource"). set (k2 := gv_kind _ "CRDMetricsResourceList").
  assert (k1 ≠ k2) as Hne by done.
  set (s' := <[k2 := _]> (<[k1 := _]> s)).
  assert (s' !! k1 = Some "v1alpha1.CRDMetricsResource") as L1.
  { unfold s'. rewrite lookup_insert_ne by done. by rewrite lookup_insert_eq. }
  assert (s' !! k2 = Some "v1alpha1.CRDMetricsResourceList") as L2 by apply lookup_insert_eq.
  clearbody s'. split; [|by repeat constructor].
  assert (∀ k t, k.1.2 ≠ "" → s' !! k = Some t → AddKnownTypeWithName k t s' = Ok s') as Hid.
  { intros k t Hk Ht. unfold AddKnownTypeWithName. rewrite decide_False by done. rewrite Ht.
    rewrite decide_True by done. by rewrite insert_id. }
  rewrite (Hid k1) by done. by rewrite (Hid k2).
Qed.

(** ** Witnesses *)

Module ClientsExample.
#[local] Existing Instance Mem.server_API.

Lemma rest_API_refines_witness :
  let rest := @rest_API _ mem_RESTServer env_Now env_Tick in
  @api_Get _ rest "" "web" (EventsExample.server "") =
    Mem.get "" "web" (EventsExample.server "") ∧
  ∃ err, @api_Get _ rest "" "a/b" (EventsExample.server "") = (Err err, EventsExample.server "").
Proof.
  intros rest.
  destruct (rest_API_refines env_Now env_Tick "" "web" (EventsExample.managed "")
    (EventsExample.server "") eq_refl) as [Hweb _].
  destruct (rest_API_refines env_Now env_Tick "" "a/b" (EventsExample.managed "")
    (EventsExample.server "") eq_refl) as [Hbad _].
  split; [exact Hweb|exact Hbad].
Defined.

(** The path of a status update of a cluster-scoped resource. *)
Lemma status_path :
  URL (rest_UpdateStatus (newCRDMetricsResources "") (EventsExample.managed "")) =
  "/apis/crdmetrics.instrumentation.k8s-sigs.io/v1alpha1/crdmetricsresources/web/status".
Proof. reflexivity. Qed.

Definition everything : Selector := {| sel_Matches _ := true; sel_Empty := true |}.

Lemma lister_List_spec_witness :
  let ix := {| ix_items := {["web" := EventsExample.managed ""]}; ix_namespace_index := true |} in
  lister_List [] (CRDMetricsResources "" NewCRDMetricsResourceLister) everything ix ≡ₚ
  [EventsExample.managed ""].
Proof.
  intros ix. etransitivity.
  - apply (lister_List_spec [] "" everything ix). intros _ ls. reflexivity.
  - reflexivity.
Defined.
End ClientsExample.
