(* ===== verification/Fake.v ===== *)
(** * The fake clientset ([pkg/generated/clientset/versioned/fake])

    The generated test double: each method records an action and hands it to
    the reactor of an object tracker ([client-go/testing]).  Only managed
    resources are tracked here, the only type of the clientset, by namespace
    and name; [FakeWatch] adds the watches. *)
From S2P Require Import Prelude GoStrings Strconv GoSort Values Resolver Metric Family Store Types Builder Events Clients.

(** ** Data *)

(** The status errors of the tracker. *)
Inductive tracker_error : Type :=
| ErrNotFound (name : string)
| ErrAlreadyExists (name : string)
| ErrBadRequest (request_ns object_ns : string)
| ErrPatch (err : string).

(** [testing.Action], with what the tracker reads of it. *)
Inductive action : Type :=
| GetAction (ns name : string)
| ListAction (ns : string) (opts : ListOptions)
| CreateAction (ns : string) (obj : CRDMetricsResource)
| UpdateAction (ns subresource : string) (obj : CRDMetricsResource)
| DeleteAction (ns name : string)
| DeleteCollectionAction (ns : string) (listOpts : ListOptions)
| WatchAction (ns : string) (opts : ListOptions)
| PatchAction (ns name pt data : string) (subresources : list string).

Notation tracked := (gmap (string * string) CRDMetricsResource).

(** [fake.Clientset]: the recorded actions and the tracker. *)
Record Clientset : Type := MkClientset {
  fc_actions : list action;
  fc_objects : tracked;
}.

Definition set_Namespace (ns : string) (r : CRDMetricsResource) : CRDMetricsResource :=
  Mem.keyed ns (res_Name r) r.

(** ** The tracker ([fixture.go]) *)

(** [add]. *)
Definition tracker_add (obj : CRDMetricsResource) (ns : string) (replaceExisting : bool)
    (objects : tracked) : result tracker_error tracked :=
  let obj := DeepCopy obj in
  let obj := if decide (res_Namespace obj = "") then set_Namespace ns obj else obj in
  if decide (ns = res_Namespace obj) then
    let key := (res_Namespace obj, res_Name obj) in
    match objects !! key with
    | Some _ =>
      if replaceExisting then Ok (<[key := obj]> objects) else Err (ErrAlreadyExists (res_Name obj))
    | None =>
      if replaceExisting then Err (ErrNotFound (res_Name obj)) else Ok (<[key := obj]> objects)
    end
  else Err (ErrBadRequest ns (res_Namespace obj)).

(** [Get]. *)
Definition tracker_Get (ns name : string) (objects : tracked)
    : result tracker_error CRDMetricsResource :=
  match objects !! (ns, name) with
  | Some obj => Ok (DeepCopy obj)
  | None => Err (ErrNotFound name)
  end.

(** [Delete]. *)
Definition tracker_Delete (ns name : string) (objects : tracked)
    : result tracker_error tracked :=
  match objects !! (ns, name) with
  | Some _ => Ok (delete (ns, name) objects)
  | None => Err (ErrNotFound name)
  end.

(** What a reactor returns: the object, a list, nothing, or an error; it may
    decline to handle the action. *)
Inductive reaction : Type :=
| ReactObject (obj : CRDMetricsResource)
| ReactList (items : list CRDMetricsResource)
| ReactNothing
| ReactError (err : tracker_error)
| NotHandled.

Section fake.
(** The order in which the objects are visited, the patches, and the label
    selector of list options. *)
Context (visit : tracked → list CRDMetricsResource).
Context (apply_patch : string → string → CRDMetricsResource → result string CRDMetricsResource).
Context (ExtractLabels : ListOptions → Selector).

(** A write then a read of what was written. *)
Definition react_write (w : result tracker_error tracked) (ns name : string) (objects : tracked)
    : reaction * tracked :=
  match w with
  | Err err => (ReactError err, objects)
  | Ok objects =>
    match tracker_Get ns name objects with
    | Ok obj => (ReactObject obj, objects)
    | Err err => (ReactError err, objects)
    end
  end.

(** [ObjectReaction]: the deletion of a collection is not handled, nor is a
    watch, which has reactors of its own. *)
Definition ObjectReaction (a : action) (objects : tracked) : reaction * tracked :=
  match a with
  | ListAction ns _ =>
    (ReactList (filter (λ r, ns = "" ∨ res_Namespace r = ns) (visit objects)), objects)
  | GetAction ns name =>
    (match tracker_Get ns name objects with Ok obj => ReactObject obj | Err e => ReactError e end,
     objects)
  | CreateAction ns obj =>
    react_write (tracker_add obj ns false objects) ns (res_Name obj) objects
  | UpdateAction ns _ obj =>
    react_write (tracker_add obj ns true objects) ns (res_Name obj) objects
  | DeleteAction ns name =>
    match tracker_Delete ns name objects with
    | Ok objects => (ReactNothing, objects)
    | Err e => (ReactError e, objects)
    end
  | PatchAction ns name pt data _ =>
    match tracker_Get ns name objects with
    | Err e => (ReactError e, objects)
    | Ok obj =>
      match apply_patch pt data obj with
      | Err e => (ReactError (ErrPatch e), objects)
      | Ok obj =>
        match tracker_add obj ns true objects with
        | Err e => (ReactError e, objects)
        | Ok objects => (ReactObject obj, objects)
        end
      end
    end
  | DeleteCollectionAction _ _ | WatchAction _ _ => (NotHandled, objects)
  end.

(** [Fake.Invokes] with the only reactor of the clientset; [None] is the
    default object of the caller. *)
Definition Invokes (a : action) (c : Clientset)
    : option reaction * Clientset :=
  let '(r, objects) := ObjectReaction a (fc_objects c) in
  let c := MkClientset (fc_actions c ++ [a]) objects in
  match r with
  | NotHandled => (None, c)
  | _ => (Some r, c)
  end.

(** ** The clientset ([clientset_generated.go]) *)

(** [NewSimpleClientset]: an error of the tracker is a panic. *)
Fixpoint add_objects (objs : list CRDMetricsResource) (objects : tracked)
    : result tracker_error tracked :=
  match objs with
  | [] => Ok objects
  | obj :: objs =>
    match tracker_add obj (res_Namespace obj) false objects with
    | Err err => Err err
    | Ok objects => add_objects objs objects
    end
  end.

Definition NewSimpleClientset (objs : list CRDMetricsResource) : result tracker_error Clientset :=
  match add_objects objs ∅ with
  | Err err => Err err
  | Ok objects => Ok (MkClientset [] objects)
  end.

(** ** The methods ([fake_crdmetricsresource.go]) *)

(** [&CRDMetricsResource{}]. *)
Definition emptyResult : CRDMetricsResource := named_resource "".

(** An object, or the empty one with an error. *)
Definition object_of (r : option reaction) : result tracker_error CRDMetricsResource :=
  match r with
  | Some (ReactObject obj) => Ok obj
  | Some (ReactError err) => Err err
  | _ => Ok emptyResult
  end.

Definition error_of (r : option reaction) : option tracker_error :=
  match r with
  | Some (ReactError err) => Some err
  | _ => None
  end.

Definition fake_Get (ns name : string) (c : Clientset)
    : result tracker_error CRDMetricsResource * Clientset :=
  let '(r, c) := Invokes (GetAction ns name) c in (object_of r, c).

Definition fake_List (ns : string) (opts : ListOptions) (c : Clientset)
    : result tracker_error (list CRDMetricsResource) * Clientset :=
  let '(r, c) := Invokes (ListAction ns opts) c in
  match r with
  | Some (ReactList items) =>
    let label := ExtractLabels opts in
    (Ok (List.filter (λ item, sel_Matches label (default ∅ (res_Labels item))) items), c)
  | Some (ReactError err) => (Err err, c)
  | _ => (Ok [], c)
  end.

Definition fake_Create (ns : string) (obj : CRDMetricsResource) (c : Clientset)
    : result tracker_error CRDMetricsResource * Clientset :=
  let '(r, c) := Invokes (CreateAction ns obj) c in (object_of r, c).

Definition fake_Update (ns : string) (obj : CRDMetricsResource) (c : Clientset)
    : result tracker_error CRDMetricsResource * Clientset :=
  let '(r, c) := Invokes (UpdateAction ns "" obj) c in (object_of r, c).

Definition fake_UpdateStatus (ns : string) (obj : CRDMetricsResource) (c : Clientset)
    : result tracker_error CRDMetricsResource * Clientset :=
  let '(r, c) := Invokes (UpdateAction ns "status" obj) c in (object_of r, c).

Definition fake_Delete (ns name : string) (c : Clientset) : option tracker_error * Clientset :=
  let '(r, c) := Invokes (DeleteAction ns name) c in (error_of r, c).

Definition fake_DeleteCollection (ns : string) (listOpts : ListOptions) (c : Clientset)
    : option tracker_error * Clientset :=
  let '(r, c) := Invokes (DeleteCollectionAction ns listOpts) c in (error_of r, c).

Definition fake_Patch (ns name pt data : string) (subresources : list string) (c : Clientset)
    : result tracker_error CRDMetricsResource * Clientset :=
  let '(r, c) := Invokes (PatchAction ns name pt data subresources) c in (object_of r, c).

(** ** Lemmas *)

(** What the tracker keeps is keyed by its own namespace and name. *)
Definition tracked_ok (objects : tracked) : Prop :=
  ∀ ns name r, objects !! (ns, name) = Some r → res_Namespace r = ns ∧ res_Name r = name.

Lemma tracker_add_spec obj ns replace objects objects' :
  tracker_add obj ns replace objects = Ok objects' →
  let obj' := set_Namespace ns obj in
  (res_Namespace obj = "" ∨ res_Namespace obj = ns) ∧
  objects' = <[(ns, res_Name obj) := obj']> objects ∧
  (is_Some (objects !! (ns, res_Name obj)) ↔ replace = true).
Proof.
  unfold tracker_add. rewrite DeepCopy_eq. cbv zeta.
  assert (∀ r, res_Namespace r = ns → set_Namespace ns r = r) as Hid.
  { intros r <-. by destruct r. }
  destruct (decide (res_Namespace obj = "")) as [He|He].
  - rewrite decide_True by done. simpl.
    destruct (objects !! (ns, res_Name obj)) eqn:Hl, replace; try done; intros [= <-];
      (split; [by left|split; [done|]]); split; try done; by intros [??].
  - case_decide as Hns; [|done]. subst ns.
    destruct (objects !! (res_Namespace obj, res_Name obj)) eqn:Hl, replace; try done;
      intros [= <-]; rewrite (Hid obj eq_refl);
      (split; [by right|split; [done|]]); split; try done; by intros [??].
Qed.

Lemma tracker_add_ok obj ns replace objects objects' :
  tracker_add obj ns replace objects = Ok objects' → tracked_ok objects → tracked_ok objects'.
Proof.
  intros (_ & -> & _)%tracker_add_spec Hok ns' name r.
  destruct (decide ((ns, res_Name obj) = (ns', name))) as [Heq|Hne].
  - rewrite Heq, lookup_insert_eq. injection Heq as <- <-. by intros [= <-].
  - rewrite lookup_insert_ne by done. apply Hok.
Qed.

(** Every invocation keeps the tracker keyed and records its action. *)
Lemma ObjectReaction_ok a objects :
  tracked_ok objects → tracked_ok (ObjectReaction a objects).2.
Proof.
  intros Hok.
  assert (∀ r ns name, (∀ o', r = Ok o' → tracked_ok o') →
    tracked_ok (react_write r ns name objects).2) as Hw.
  { intros [o'|err] ns name Hr; simpl; [|done]. by destruct (tracker_Get _ _ _); apply Hr. }
  destruct a as [ns name|ns opts|ns obj|ns sub obj|ns name|ns opts|ns opts|ns name pt data subs];
    simpl;
    try done.
  - apply Hw. intros o' Ho'. by eapply tracker_add_ok.
  - apply Hw. intros o' Ho'. by eapply tracker_add_ok.
  - unfold tracker_Delete. destruct (objects !! (ns, name)); simpl; [|done].
    intros ns' name' r [_ Hr]%lookup_delete_Some. by apply Hok.
  - destruct (tracker_Get _ _ _); simpl; [|done].
    destruct (apply_patch _ _ _); simpl; [|done].
    destruct (tracker_add _ _ _ _) eqn:Ha; simpl; [|done]. by eapply tracker_add_ok.
Qed.

Lemma tracker_Get_insert ns name r objects :
  tracker_Get ns name (<[(ns, name) := r]> objects) = Ok r.
Proof. unfold tracker_Get. by rewrite lookup_insert_eq, DeepCopy_eq. Qed.

Lemma tracker_add_update ns r objects old :
  objects !! (ns, res_Name r) = Some old → res_Namespace r = ns →
  tracker_add r ns true objects = Ok (<[(ns, res_Name r) := r]> objects).
Proof.
  intros Ho <-. unfold tracker_add. rewrite DeepCopy_eq.
  assert ((if decide (res_Namespace r = "") then set_Namespace (res_Namespace r) r else r) = r) as ->.
  { case_decide; [by destruct r|done]. }
  rewrite decide_True by done. by rewrite Ho.
Qed.

(** An update through the fake stores the object as it is, subresource or
    not. *)
Lemma fake_write_eq ns sub r old (c : Clientset) :
  fc_objects c !! (ns, res_Name r) = Some old → res_Namespace r = ns →
  Invokes (UpdateAction ns sub r) c =
  (Some (ReactObject r),
   MkClientset (fc_actions c ++ [UpdateAction ns sub r])
     (<[(ns, res_Name r) := r]> (fc_objects c))).
Proof.
  intros Ho Hns. unfold Invokes, ObjectReaction, react_write.
  by rewrite (tracker_add_update _ _ _ _ Ho Hns), tracker_Get_insert.
Qed.

(** ** Properties *)

(** The fake clientset is a keyed collection: a creation succeeds exactly
    when the object's namespace fits and its key is free, and is then what [Get]
    returns; a deletion frees the key; a failed call changes no object; no call
    touches another key.  But the deletion of a collection, which its reactor
    does not know, deletes nothing and reports success. *)
Lemma fake_collection ns obj listOpts (c : Clientset) :
  let k := (ns, res_Name obj) in
  let '(created, c1) := fake_Create ns obj c in
  let '(deleted, c2) := fake_Delete ns (res_Name obj) c in
  ((∃ r, created = Ok r) ↔
     (res_Namespace obj = "" ∨ res_Namespace obj = ns) ∧ fc_objects c !! k = None) ∧
  (∀ r, created = Ok r →
     r = set_Namespace ns obj ∧ fc_objects c1 = <[k := r]> (fc_objects c) ∧
     (fake_Get ns (res_Name obj) c1).1 = Ok r) ∧
  (∀ err, created = Err err → fc_objects c1 = fc_objects c) ∧
  (deleted = None ↔ is_Some (fc_objects c !! k)) ∧
  fc_objects c2 = delete k (fc_objects c) ∧
  fake_DeleteCollection ns listOpts c =
    (None, MkClientset (fc_actions c ++ [DeleteCollectionAction ns listOpts]) (fc_objects c)).
Proof.
  intros k. unfold fake_Create, fake_Delete, Invokes, ObjectReaction, react_write, tracker_Delete.
  fold k. destruct (tracker_add obj ns false (fc_objects c)) as [objects'|err] eqn:Ha.
  - pose proof (tracker_add_spec _ _ _ _ _ Ha) as (Hns & -> & Hk). fold k in Hk |- *.
    assert (fc_objects c !! k = None) as Hnone.
    { destruct (fc_objects c !! k) eqn:Hl; [|done]. assert (false = true); [|done].
      apply Hk. by eexists. }
    rewrite tracker_Get_insert, Hnone, delete_id by done. simpl. split_and!; try done.
    + split; [done|by eexists].
    + intros r [= <-]. unfold fake_Get, Invokes, ObjectReaction. simpl. fold k.
      by rewrite tracker_Get_insert.
  - assert (¬ ((res_Namespace obj = "" ∨ res_Namespace obj = ns) ∧ fc_objects c !! k = None))
      as Hno.
    { intros [Hns Hnone]. revert Ha. unfold tracker_add. rewrite DeepCopy_eq. cbv zeta.
      destruct (decide (res_Namespace obj = "")) as [He|He].
      - rewrite decide_True by done. simpl. fold k. by rewrite Hnone.
      - destruct Hns as [|Hns]; [done|]. rewrite decide_True by done. rewrite Hns. fold k.
        by rewrite Hnone. }
    destruct (fc_objects c !! k) eqn:Hl; simpl; split_and!; try done.
    + split; [by intros [??]|done].
    + split; [by intros [??]|done].
    + by rewrite delete_id.
Qed.
End fake.

(** The object without what a server sets at each write. *)
Definition unversioned (r : CRDMetricsResource) : CRDMetricsResource := set_ResourceVersion "" r.

(** For the writes that the event handler makes, the fake clientset does what
    a server does: updating the metadata of an object whose specification and
    status are those stored, or updating the status of one that is otherwise as
    stored, leaves the same object on both, but for the resource version.  (In
    general it does not: it has no subresources, and stores whole objects.) *)
Lemma fake_writes_agree visit apply_patch ns old r (c : Clientset) (e : Mem.Server) :
  fc_objects c !! (ns, res_Name r) = Some old → Mem.read e !! (ns, res_Name r) = Some old →
  res_Namespace r = ns → res_ResourceVersion r = res_ResourceVersion old →
  (r = set_Labels (res_Labels r) old →
     ∃ r1 r2 c' e', fake_Update visit apply_patch ns r c = (Ok r1, c') ∧
       Mem.update Mem.merge_object ns r e = (Ok r2, e') ∧
       fc_objects c' !! (ns, res_Name r) = Some r1 ∧ Mem.read e' !! (ns, res_Name r) = Some r2 ∧
       unversioned r1 = unversioned r2) ∧
  (r = set_Conditions (res_Conditions r) old →
     ∃ r1 r2 c' e', fake_UpdateStatus visit apply_patch ns r c = (Ok r1, c') ∧
       Mem.update Mem.merge_status ns r e = (Ok r2, e') ∧
       fc_objects c' !! (ns, res_Name r) = Some r1 ∧ Mem.read e' !! (ns, res_Name r) = Some r2 ∧
       unversioned r1 = unversioned r2).
Proof.
  intros Hc He Hns Hrv.
  assert (∀ merge, unversioned (Mem.keyed ns (res_Name r) (merge old r)) = unversioned r →
    ∃ r2 e', Mem.update merge ns r e = (Ok r2, e') ∧ Mem.read e' !! (ns, res_Name r) = Some r2 ∧
      unversioned r = unversioned r2) as Hmem.
  { intros merge Hm. unfold Mem.update. rewrite He, decide_True by done.
    eexists _, _. split; [done|].
    rewrite (Mem.write_read (ns, res_Name r) (merge old r) e _ _ eq_refl), lookup_insert_eq.
    by split. }
  pose proof (λ sub, fake_write_eq visit apply_patch ns sub r old c Hc Hns) as Hf.
  split; intros Hr.
  - destruct (Hmem Mem.merge_object) as (r2 & e' & Hu & Hrd & Heq).
    { clear Hf Hmem Hc He. unfold set_Labels in Hr. destruct r, old. simpl in *. injection Hr.
      intros; subst. unfold Mem.merge_object. simpl. by rewrite decide_True. }
    eexists r, r2, _, e'. unfold fake_Update. rewrite Hf. split; [done|]. split; [done|].
    simpl. by rewrite lookup_insert_eq.
  - destruct (Hmem Mem.merge_status) as (r2 & e' & Hu & Hrd & Heq).
    { clear Hf Hmem Hc He. unfold set_Conditions in Hr. destruct r, old. simpl in *. injection Hr.
      by intros; subst. }
    eexists r, r2, _, e'. unfold fake_UpdateStatus. rewrite Hf. split; [done|]. split; [done|].
    simpl. by rewrite lookup_insert_eq.
Qed.

(** ** Witnesses *)

Module FakeExample.

Definition visit (objects : tracked) : list CRDMetricsResource := (map_to_list objects).*2.
Definition no_patch (pt data : string) (r : CRDMetricsResource)
    : result string CRDMetricsResource := Err "unsupported".

Definition one : Clientset := MkClientset [] {[("", "web") := EventsExample.managed "c"]}.

(** The status of a resource is set through both. *)
Lemma fake_writes_agree_witness :
  let r := set_Conditions [new_condition "Processed" ConditionTrue "ok"]
             (EventsExample.managed "c") in
  ∃ r1 r2 c' e', fake_UpdateStatus visit no_patch "" r one = (Ok r1, c') ∧
    Mem.update Mem.merge_status "" r (EventsExample.server "c") = (Ok r2, e') ∧
    fc_objects c' !! ("", "web") = Some r1 ∧ Mem.read e' !! ("", "web") = Some r2 ∧
    unversioned r1 = unversioned r2.
Proof.
  intros r.
  refine (proj2 (fake_writes_agree visit no_patch "" (EventsExample.managed "c") r one
    (EventsExample.server "c") _ _ _ _) _); reflexivity.
Defined.

(** The collection survives its deletion. *)
Lemma delete_collection_keeps opts :
  (fake_DeleteCollection visit no_patch "" opts one).1 = None ∧
  fc_objects (fake_DeleteCollection visit no_patch "" opts one).2 = fc_objects one.
Proof. split; reflexivity. Qed.
End FakeExample.
