(* ===== verification/FakeWatch.v ===== *)
(** * The watches of the fake clientset ([pkg/generated/clientset/versioned/fake])

    The tracker of [Fake] with its watchers: every write is sent to the
    watchers of its namespace and of all namespaces, on channels that hold a
    hundred events; a write that finds one full panics.  A watcher is a
    pointer that the tracker and the reader share, an index here. *)
From S2P Require Import Prelude GoStrings Strconv GoSort Values Resolver Metric Family Store Types Builder Events Clients Fake.

(** ** Data *)

Inductive watch_event : Type :=
| EvAdded (obj : CRDMetricsResource)
| EvModified (obj : CRDMetricsResource)
| EvDeleted (obj : CRDMetricsResource).

(** [watch.RaceFreeFakeWatcher], with the namespace it is filed under. *)
Record Watcher : Type := MkWatcher {
  fw_ns : string;
  fw_result : list watch_event;
  fw_Stopped : bool;
}.

Record Tracker : Type := MkTracker {
  tr_objects : tracked;
  tr_watchers : list Watcher;
}.

(** [fake.Clientset] with the watchers of its tracker. *)
Record WClientset : Type := MkWClientset {
  wc_actions : list action;
  wc_tracker : Tracker;
}.

Definition DefaultChanSize : nat := 100.

Definition set_objects (objects : tracked) (t : Tracker) : Tracker :=
  MkTracker objects (tr_watchers t).

(** ** The watchers ([watch.go]) *)

(** [Add], [Modify] and [Delete] of a watcher. *)
Definition send (event : watch_event) (w : Watcher) : outcome Watcher :=
  if fw_Stopped w then Done w
  else if decide (length (fw_result w) < DefaultChanSize) then
    Done (MkWatcher (fw_ns w) (fw_result w ++ [event]) (fw_Stopped w))
  else Panicked (PanicError "channel full").

(** [Stop]: what is in the channel can still be received. *)
Definition Stop (w : Watcher) : Watcher := MkWatcher (fw_ns w) (fw_result w) true.

(** A receive from [ResultChan] that does not block. *)
Definition receive (w : Watcher) : option (watch_event * Watcher) :=
  match fw_result w with
  | [] => None
  | event :: events => Some (event, MkWatcher (fw_ns w) events (fw_Stopped w))
  end.

(** ** The tracker ([fixture.go]) *)

(** The watchers that are filed under a namespace. *)
Definition filed (ns : string) (watchers : list Watcher) : list nat :=
  filter (λ i, fw_ns <$> watchers !! i = Some ns) (seq 0 (length watchers)).

Definition getWatches (ns : string) (t : Tracker) : list nat :=
  filed ns (tr_watchers t) ++ (if decide (ns = "") then [] else filed "" (tr_watchers t)).

(** The loop over the watchers. *)
Fixpoint notify (ws : list nat) (event : watch_event) : M Tracker unit :=
  match ws with
  | [] => mret tt
  | i :: ws =>
    t ← get;
    match tr_watchers t !! i with
    | None => mret tt
    | Some w =>
      w ← lift (send event w);
      put (MkTracker (tr_objects t) (<[i := w]> (tr_watchers t)))
    end;;
    notify ws event
  end.

(** [add]. *)
Definition add (obj : CRDMetricsResource) (ns : string) (replaceExisting : bool)
    : M Tracker (option tracker_error) :=
  let obj := DeepCopy obj in
  let obj := if decide (res_Namespace obj = "") then set_Namespace ns obj else obj in
  if decide (ns = res_Namespace obj) then
    let key := (res_Namespace obj, res_Name obj) in
    t ← get;
    match tr_objects t !! key with
    | Some _ =>
      if replaceExisting then
        notify (getWatches ns t) (EvModified (DeepCopy obj));;
        modify (λ t, set_objects (<[key := obj]> (tr_objects t)) t);;
        mret None
      else mret (Some (ErrAlreadyExists (res_Name obj)))
    | None =>
      if replaceExisting then mret (Some (ErrNotFound (res_Name obj)))
      else
        modify (λ t, set_objects (<[key := obj]> (tr_objects t)) t);;
        notify (getWatches ns t) (EvAdded (DeepCopy obj));;
        mret None
    end
  else mret (Some (ErrBadRequest ns (res_Namespace obj))).

(** [Delete]. *)
Definition Delete (ns name : string) : M Tracker (option tracker_error) :=
  t ← get;
  match tr_objects t !! (ns, name) with
  | None => mret (Some (ErrNotFound name))
  | Some obj =>
    modify (λ t, set_objects (delete (ns, name) (tr_objects t)) t);;
    notify (getWatches ns t) (EvDeleted (DeepCopy obj));;
    mret None
  end.

(** [Watch]: a new watcher, with no event. *)
Definition Watch (ns : string) : M Tracker nat :=
  t ← get;
  put (MkTracker (tr_objects t) (tr_watchers t ++ [MkWatcher ns [] false]));;
  mret (length (tr_watchers t)).

Section fake.
Context (visit : tracked → list CRDMetricsResource).
Context (apply_patch : string → string → CRDMetricsResource → result string CRDMetricsResource).

(** A write then a read of what was written. *)
Definition write_read (write : M Tracker (option tracker_error)) (ns name : string)
    : M Tracker reaction :=
  err ← write;
  match err with
  | Some err => mret (ReactError err)
  | None =>
    t ← get;
    mret (match tracker_Get ns name (tr_objects t) with
          | Ok obj => ReactObject obj
          | Err err => ReactError err
          end)
  end.

(** [ObjectReaction]. *)
Definition ObjectReaction (a : action) : M Tracker reaction :=
  match a with
  | ListAction ns _ =>
    t ← get;
    mret (ReactList (filter (λ r, ns = "" ∨ res_Namespace r = ns) (visit (tr_objects t))))
  | GetAction ns name => write_read (mret None) ns name
  | CreateAction ns obj => write_read (add obj ns false) ns (res_Name obj)
  | UpdateAction ns _ obj => write_read (add obj ns true) ns (res_Name obj)
  | DeleteAction ns name =>
    err ← Delete ns name;
    mret (match err with None => ReactNothing | Some e => ReactError e end)
  | PatchAction ns name pt data _ =>
    t ← get;
    match tracker_Get ns name (tr_objects t) with
    | Err e => mret (ReactError e)
    | Ok obj =>
      match apply_patch pt data obj with
      | Err e => mret (ReactError (ErrPatch e))
      | Ok obj =>
        err ← add obj ns true;
        mret (match err with Some e => ReactError e | None => ReactObject obj end)
      end
    end
  | DeleteCollectionAction _ _ | WatchAction _ _ => mret NotHandled
  end.

(** A computation of the tracker, in the clientset. *)
Definition on_tracker {A} (m : M Tracker A) : M WClientset A := λ c,
  let '(r, t) := m (wc_tracker c) in (r, MkWClientset (wc_actions c) t).

Definition record (a : action) : M WClientset unit :=
  modify (λ c, MkWClientset (wc_actions c ++ [a]) (wc_tracker c)).

(** [Fake.Invokes]. *)
Definition Invokes (a : action) : M WClientset (option reaction) :=
  record a;;
  r ← on_tracker (ObjectReaction a);
  mret (match r with NotHandled => None | r => Some r end).

(** [Fake.InvokesWatch] with the watch reactor of [NewSimpleClientset]: it
    handles every watch, whatever its options. *)
Definition InvokesWatch (ns : string) (opts : ListOptions) : M WClientset nat :=
  record (WatchAction ns opts);;
  on_tracker (Watch ns).

(** [FakeCRDMetricsResources.Watch]. *)
Definition fake_Watch (ns : string) (opts : ListOptions) : M WClientset nat :=
  InvokesWatch ns opts.

End fake.

(** ** The clientset ([clientset_generated.go], [register.go]) *)

(** [init]: the types of the fake scheme. *)
Definition fake_init_scheme (AddToGroupVersion : string * string → Scheme → result string Scheme)
    : result string Scheme :=
  match AddToGroupVersion ("", "v1") ∅ with
  | Ok scheme =>
    let localSchemeBuilder := [AddToScheme [addKnownTypes AddToGroupVersion]] in
    AddToScheme localSchemeBuilder scheme
  | Err err => Err err
  end.

(** [NewSimpleClientset]: [Add] of the tracker
    files an object under its own namespace; [Err] is the panic with an error
    of the tracker. *)
Fixpoint Add_all (objects : list CRDMetricsResource) : M Tracker (option tracker_error) :=
  match objects with
  | [] => mret None
  | obj :: objects =>
    err ← add obj (res_Namespace obj) false;
    match err with
    | Some err => mret (Some err)
    | None => Add_all objects
    end
  end.

Definition NewSimpleClientset (objects : list CRDMetricsResource)
    : outcome (result tracker_error WClientset) :=
  match Add_all objects (MkTracker ∅ []) with
  | (Done None, o) => Done (Ok (MkWClientset [] o))
  | (Done (Some err), _) => Done (Err err)
  | (Panicked p, _) => Panicked p
  end.

(** The accessors; the fake discovery client only holds the clientset. *)
Record FakeDiscovery : Type := MkFakeDiscovery { fd_Fake : WClientset }.

Definition fake_Discovery (c : WClientset) : FakeDiscovery := MkFakeDiscovery c.

Definition fake_Tracker (c : WClientset) : Tracker := wc_tracker c.

(** [FakeCrdmetricsV1alpha1] and [FakeCRDMetricsResources]: the clientset, which
    they share by a pointer, is the state of their methods; the second holds a
    namespace. *)
Record FakeCRDMetricsResources : Type := MkFakeCRDMetricsResources { fr_ns : string }.

Definition CRDMetricsResources (namespace : string) : FakeCRDMetricsResources :=
  MkFakeCRDMetricsResources namespace.

(** [FakeCrdmetricsV1alpha1.RESTClient]: an interface that holds a nil pointer,
    and is therefore not nil itself. *)
Inductive interface (A : Type) : Type :=
| NilInterface
| Holds (p : option A).
Arguments NilInterface {A}.
Arguments Holds {A} p.

Definition fake_RESTClient `{!RestLibrary} : interface RESTClient := Holds None.

(** ** What a watcher sees *)

(** The objects of a namespace, or all of them. *)
Definition view (ns : string) (objects : tracked) : tracked :=
  filter (λ e, ns = "" ∨ e.1.1 = ns) objects.

Definition event_object (event : watch_event) : CRDMetricsResource :=
  match event with EvAdded obj | EvModified obj | EvDeleted obj => obj end.

Definition event_key (event : watch_event) : string * string :=
  (res_Namespace (event_object event), res_Name (event_object event)).

Definition apply_event (objects : tracked) (event : watch_event) : tracked :=
  match event with
  | EvAdded obj | EvModified obj => <[event_key event := obj]> objects
  | EvDeleted obj => delete (event_key event) objects
  end.

Definition replay : list watch_event → tracked → tracked :=
  λ events objects, foldl apply_event objects events.

(** The use of a clientset: its methods, new watches, and the readers of the
    watchers; the events are those that are read from watcher [i]. *)
Inductive uses (visit : tracked → list CRDMetricsResource)
    (apply_patch : string → string → CRDMetricsResource → result string CRDMetricsResource)
    (i : nat) : WClientset → list watch_event → WClientset → Prop :=
| uses_refl c : uses visit apply_patch i c [] c
| uses_invoke a r c c1 events c' :
  Invokes visit apply_patch a c = (Done r, c1) →
  uses visit apply_patch i c1 events c' → uses visit apply_patch i c events c'
| uses_watch ns opts j c c1 events c' :
  fake_Watch ns opts c = (Done j, c1) →
  uses visit apply_patch i c1 events c' → uses visit apply_patch i c events c'
| uses_receive j w event w' c events c' :
  tr_watchers (wc_tracker c) !! j = Some w → receive w = Some (event, w') →
  uses visit apply_patch i
    (MkWClientset (wc_actions c)
       (MkTracker (tr_objects (wc_tracker c)) (<[j := w']> (tr_watchers (wc_tracker c)))))
    events c' →
  uses visit apply_patch i c (if decide (j = i) then event :: events else events) c'
| uses_stop j w c events c' :
  j ≠ i → tr_watchers (wc_tracker c) !! j = Some w →
  uses visit apply_patch i
    (MkWClientset (wc_actions c)
       (MkTracker (tr_objects (wc_tracker c)) (<[j := Stop w]> (tr_watchers (wc_tracker c)))))
    events c' →
  uses visit apply_patch i c events c'.

(** ** Lemmas *)

(** A watcher with one more event, if it was not stopped. *)
Definition deliver (event : watch_event) (w : Watcher) : Watcher :=
  if fw_Stopped w then w else MkWatcher (fw_ns w) (fw_result w ++ [event]) (fw_Stopped w).

Lemma send_deliver event w w' : send event w = Done w' → w' = deliver event w.
Proof. unfold send, deliver. destruct (fw_Stopped w); [by intros [= <-]|]. case_decide; [|done]. by intros [= <-]. Qed.

Lemma deliver_ns event w : fw_ns (deliver event w) = fw_ns w.
Proof. unfold deliver. by destruct (fw_Stopped w). Qed.

Lemma notify_Done ws event t t' :
  NoDup ws → notify ws event t = (Done tt, t') →
  tr_objects t' = tr_objects t ∧
  ∀ i, tr_watchers t' !! i =
    (if decide (i ∈ ws) then deliver event else id) <$> tr_watchers t !! i.
Proof.
  intros Hnd. revert t. induction Hnd as [|j ws Hj Hnd IH]; intros t; simpl.
  { intros [= <-]. split; [done|]. intros i. by destruct (_ !! i). }
  unfold mbind, M_bind, get, put, lift, mret, M_ret.
  destruct (tr_watchers t !! j) as [w|] eqn:Hw.
  - destruct (send event w) as [w'|] eqn:Hs; [|done]. apply send_deliver in Hs as ->.
    intros [Ho Hws]%IH. simpl in *. split; [done|]. intros i. rewrite Hws.
    destruct (decide (i = j)) as [->|Hne].
    + rewrite list_lookup_insert_eq, Hw by (by eapply lookup_lt_Some).
      rewrite decide_False by done. by rewrite decide_True by left.
    + rewrite list_lookup_insert_ne by done.
      rewrite (decide_ext (i ∈ j :: ws) (i ∈ ws)); [done|]. rewrite elem_of_cons. naive_solver.
  - intros [Ho Hws]%IH. split; [done|]. intros i. rewrite Hws.
    destruct (decide (i = j)) as [->|Hne]; [by rewrite Hw|].
    rewrite (decide_ext (i ∈ j :: ws) (i ∈ ws)); [done|]. rewrite elem_of_cons. naive_solver.
Qed.

Lemma elem_of_filed ns watchers i w :
  watchers !! i = Some w → i ∈ filed ns watchers ↔ fw_ns w = ns.
Proof.
  intros Hi. unfold filed. rewrite list_elem_of_filter, Hi, elem_of_seq.
  apply lookup_lt_Some in Hi. simpl. split; [by intros [[= ->] _]|]. intros ->. split; [done|lia].
Qed.

Lemma getWatches_nil ns t : tr_watchers t = [] → getWatches ns t = [].
Proof. intros Ht. unfold getWatches. rewrite Ht. by case_decide. Qed.

Lemma getWatches_NoDup ns t : NoDup (getWatches ns t).
Proof.
  unfold getWatches. apply NoDup_app. unfold filed. split_and!.
  - apply NoDup_filter, NoDup_seq.
  - intros i [Hi _]%list_elem_of_filter. case_decide; [apply not_elem_of_nil|].
    intros [Hi' _]%list_elem_of_filter. congruence.
  - case_decide; [constructor|]. apply NoDup_filter, NoDup_seq.
Qed.

Lemma elem_of_getWatches ns t i w :
  tr_watchers t !! i = Some w → i ∈ getWatches ns t ↔ fw_ns w = ns ∨ fw_ns w = "".
Proof.
  intros Hi. unfold getWatches. rewrite elem_of_app, (elem_of_filed _ _ _ _ Hi).
  case_decide as Hns; [|by rewrite (elem_of_filed _ _ _ _ Hi)].
  subst. rewrite elem_of_nil. tauto.
Qed.

(** A write: the event is applied to the objects and sent to the watchers. *)
Definition written (event : watch_event) (t t' : Tracker) : Prop :=
  tr_objects t' = apply_event (tr_objects t) event ∧
  ∀ i w, tr_watchers t !! i = Some w →
    tr_watchers t' !! i =
      Some (if decide (fw_ns w = (event_key event).1 ∨ fw_ns w = "") then deliver event w else w).

Lemma notify_written ns event t t0 t1 t' :
  (event_key event).1 = ns → tr_watchers t0 = tr_watchers t →
  notify (getWatches ns t) event t0 = (Done tt, t1) →
  tr_watchers t' = tr_watchers t1 → tr_objects t' = apply_event (tr_objects t) event →
  written event t t'.
Proof.
  intros Hns Hw Hn Hw' Ho. split; [done|]. intros i w Hi.
  apply notify_Done in Hn as [_ Hn]; [|apply getWatches_NoDup].
  rewrite Hw', Hn, Hw, Hi, Hns. simpl.
  pose proof (elem_of_getWatches ns t i w Hi) as Hiff. do 2 case_decide; tauto.
Qed.

Lemma add_written obj ns replace t err t' :
  add obj ns replace t = (Done err, t') → t' = t ∨ ∃ event, written event t t'.
Proof.
  unfold add. rewrite DeepCopy_eq. cbv zeta.
  set (obj' := if decide (res_Namespace obj = "") then set_Namespace ns obj else obj).
  case_decide as Hns; [|by intros [= _ <-]; left].
  unfold mbind at 1, M_bind at 1, get, mret, M_ret. rewrite DeepCopy_eq.
  destruct (tr_objects t !! _) eqn:Hl, replace; try (by intros [= _ <-]; left).
  - unfold mbind, M_bind, modify.
    destruct (notify _ _ t) as [[[]|] t1] eqn:Hn; [|done]. intros [= _ <-]. right.
    exists (EvModified obj'). eapply (notify_written ns _ _ _ t1); [done|done|exact Hn|done|].
    apply notify_Done in Hn as [Hn _]; [|apply getWatches_NoDup]. simpl. by rewrite Hn.
  - unfold mbind, M_bind, modify.
    destruct (notify _ _ _) as [[[]|] t1] eqn:Hn; [|done]. intros [= _ <-]. right.
    exists (EvAdded obj').
    pose proof Hn as Hn'. apply notify_Done in Hn' as [Hn' _]; [|apply getWatches_NoDup].
    eapply (notify_written ns _ _ _ t1); [done| |exact Hn|done|done]. done.
Qed.

Lemma Delete_written ns name t err t' :
  tracked_ok (tr_objects t) →
  Delete ns name t = (Done err, t') → t' = t ∨ ∃ event, written event t t'.
Proof.
  intros Hok. unfold Delete, mbind at 1, M_bind at 1, get, mret, M_ret.
  destruct (tr_objects t !! (ns, name)) as [obj|] eqn:Hl; [|by intros [= _ <-]; left].
  rewrite DeepCopy_eq. unfold mbind, M_bind, modify.
  destruct (notify _ _ _) as [[[]|] t1] eqn:Hn; [|done]. intros [= _ <-]. right.
  apply Hok in Hl as [Hns Hname]. exists (EvDeleted obj).
  pose proof Hn as Hn'. apply notify_Done in Hn' as [Hn' _]; [|apply getWatches_NoDup].
  eapply (notify_written ns _ _ _ t1); [done| |exact Hn|done|]; [done|].
  rewrite Hn'. unfold apply_event, event_key. simpl. by rewrite Hns, Hname.
Qed.

Section watches.
Context (visit : tracked → list CRDMetricsResource).
Context (apply_patch : string → string → CRDMetricsResource → result string CRDMetricsResource).

Lemma write_read_written write ns name t r t' :
  (∀ err t1, write t = (Done err, t1) → t1 = t ∨ ∃ event, written event t t1) →
  write_read write ns name t = (Done r, t') → t' = t ∨ ∃ event, written event t t'.
Proof.
  intros Hw. unfold write_read, mbind, M_bind, get, mret, M_ret.
  destruct (write t) as [[[err|]|] t1] eqn:Hwr; [..|done]; intros [= _ <-]; by apply (Hw _ _ eq_refl).
Qed.

(** A call makes at most one write. *)
Lemma ObjectReaction_written a t r t' :
  tracked_ok (tr_objects t) → ObjectReaction visit apply_patch a t = (Done r, t') →
  t' = t ∨ ∃ event, written event t t'.
Proof.
  intros Hok. destruct a as [ns name|ns opts|ns obj|ns sub obj|ns name|ns opts|ns opts|ns name pt data subs];
    unfold ObjectReaction.
  - apply write_read_written. by intros err t1 [= _ <-]; left.
  - intros [= _ <-]. by left.
  - apply write_read_written. intros err t1. apply add_written.
  - apply write_read_written. intros err t1. apply add_written.
  - unfold mbind, M_bind, mret, M_ret. destruct (Delete ns name t) as [[err|] t1] eqn:Hd; [|done].
    intros [= _ <-]. by eapply Delete_written.
  - intros [= _ <-]. by left.
  - intros [= _ <-]. by left.
  - unfold mbind, M_bind, mret, M_ret, get. destruct (tracker_Get _ _ _); [|by intros [= _ <-]; left].
    destruct (apply_patch _ _ _); [|by intros [= _ <-]; left].
    destruct (add _ _ _ t) as [[err|] t1] eqn:Ha; [|done]. intros [= _ <-]. by eapply add_written.
Qed.

(** Forgetting the watchers, a call that does not panic is that of [Fake]. *)
Lemma add_projects obj ns replace t err t' :
  add obj ns replace t = (Done err, t') →
  tracker_add obj ns replace (tr_objects t) =
    match err with None => Ok (tr_objects t') | Some e => Err e end ∧
  (is_Some err → t' = t).
Proof.
  unfold add, tracker_add. cbv zeta.
  set (obj' := if decide (res_Namespace (DeepCopy obj) = "") then _ else _).
  case_decide as Hns; [|intros [= <- <-]; by split].
  unfold mbind at 1, M_bind at 1, get, mret, M_ret.
  destruct (tr_objects t !! _), replace; try (by intros [= <- <-]);
    unfold mbind, M_bind, modify;
    destruct (notify _ _ _) as [[[]|] t1] eqn:Hn; try done;
    apply notify_Done in Hn as [Hn _]; try apply getWatches_NoDup; intros [= <- <-];
    simpl; rewrite Hn; (split; [done|by intros [??]]).
Qed.

Lemma Delete_projects ns name t err t' :
  Delete ns name t = (Done err, t') →
  tracker_Delete ns name (tr_objects t) =
    match err with None => Ok (tr_objects t') | Some e => Err e end ∧
  (is_Some err → t' = t).
Proof.
  unfold Delete, tracker_Delete, mbind at 1, M_bind at 1, get, mret, M_ret.
  destruct (tr_objects t !! _); [|intros [= <- <-]; by split].
  unfold mbind, M_bind, modify.
  destruct (notify _ _ _) as [[[]|] t1] eqn:Hn; [|done].
  apply notify_Done in Hn as [Hn _]; [|apply getWatches_NoDup]. intros [= <- <-].
  simpl. rewrite Hn. split; [done|by intros [??]].
Qed.

Lemma Invokes_projects a c r c' :
  Invokes visit apply_patch a c = (Done r, c') →
  Fake.Invokes visit apply_patch a (MkClientset (wc_actions c) (tr_objects (wc_tracker c))) =
    (r, MkClientset (wc_actions c') (tr_objects (wc_tracker c'))).
Proof.
  unfold Invokes, record, on_tracker, modify, mbind, M_bind, mret, M_ret. simpl.
  destruct (ObjectReaction _ _ a _) as [[r0|] t'] eqn:Ho; [|done]. intros [= <- <-]. simpl.
  assert (Fake.ObjectReaction visit apply_patch a (tr_objects (wc_tracker c)) =
    (r0, tr_objects t')) as Hp; [|unfold Fake.Invokes; simpl; rewrite Hp; by destruct r0].
  assert (∀ write ns name w,
    (∀ err t1, write (wc_tracker c) = (Done err, t1) →
       w = (match err with None => Ok (tr_objects t1) | Some e => Err e end) ∧
       (is_Some err → t1 = wc_tracker c)) →
    write_read write ns name (wc_tracker c) = (Done r0, t') →
    react_write w ns name (tr_objects (wc_tracker c)) = (r0, tr_objects t')) as Hwr.
  { intros write ns name w Hw. unfold write_read, mbind, M_bind, get, mret, M_ret.
    destruct (write _) as [[[e|]|] t1]; [..|done]; destruct (Hw _ _ eq_refl) as [-> Ht]; intros [= <- <-].
    - simpl. by rewrite Ht.
    - simpl. by destruct (tracker_Get _ _ _). }
  destruct a as [ns name|ns opts|ns obj|ns sub obj|ns name|ns opts|ns opts|ns name pt data subs];
    unfold ObjectReaction in Ho.
  - unfold write_read, mbind, M_bind, get, mret, M_ret in Ho. injection Ho as <- <-. simpl.
    by destruct (tracker_Get _ _ _).
  - by injection Ho as <- <-.
  - eapply Hwr; [|exact Ho]. intros err t1. apply add_projects.
  - eapply Hwr; [|exact Ho]. intros err t1. apply add_projects.
  - unfold mbind, M_bind, mret, M_ret in Ho.
    destruct (Delete ns name _) as [[err|] t1] eqn:Hd; [|done].
    injection Ho as <- <-. apply Delete_projects in Hd as [Hd Ht]. simpl. rewrite Hd.
    destruct err; [by rewrite Ht|done].
  - by injection Ho as <- <-.
  - by injection Ho as <- <-.
  - unfold mbind, M_bind, mret, M_ret, get in Ho. simpl.
    destruct (tracker_Get _ _ _); [|by injection Ho as <- <-].
    destruct (apply_patch _ _ _); [|by injection Ho as <- <-].
    destruct (add _ _ _ _) as [[err|] t1] eqn:Ha; [|done]. injection Ho as <- <-.
    apply add_projects in Ha as [-> Ht]. destruct err; [by rewrite Ht|done].
Qed.

Lemma Invokes_written a c r c' :
  tracked_ok (tr_objects (wc_tracker c)) → Invokes visit apply_patch a c = (Done r, c') →
  tracked_ok (tr_objects (wc_tracker c')) ∧
  (wc_tracker c' = wc_tracker c ∨ ∃ event, written event (wc_tracker c) (wc_tracker c')).
Proof.
  intros Hok Hi. split.
  - pose proof (Invokes_projects _ _ _ _ Hi) as Hp. apply (f_equal snd) in Hp.
    pose proof (ObjectReaction_ok visit apply_patch a _ Hok) as Hr.
    unfold Fake.Invokes in Hp. simpl in Hp.
    destruct (Fake.ObjectReaction _ _ _ _) as [r0 objects]. simpl in *.
    assert (objects = tr_objects (wc_tracker c')) as ->; [|done].
    by destruct r0; injection Hp.
  - revert Hi. unfold Invokes, record, on_tracker, modify, mbind, M_bind, mret, M_ret. simpl.
    destruct (ObjectReaction _ _ a _) as [[r0|] t'] eqn:Ho; [|done]. intros [= _ <-]. simpl.
    by eapply ObjectReaction_written.
Qed.

(** A new clientset is that of [Fake], and no one watches it: the creation
    does not panic on a channel. *)
Lemma Add_all_projects objs t :
  tr_watchers t = [] →
  ∃ r t', Add_all objs t = (Done r, t') ∧ tr_watchers t' = [] ∧
    Fake.add_objects objs (tr_objects t) =
      match r with None => Ok (tr_objects t') | Some err => Err err end.
Proof.
  revert t. induction objs as [|obj objs IH]; intros t Ht; [by eexists None, t|].
  assert (∃ err t1, add obj (res_Namespace obj) false t = (Done err, t1) ∧ tr_watchers t1 = [])
    as (err & t1 & Ha & Ht1).
  { unfold add. rewrite DeepCopy_eq. cbv zeta.
    set (obj' := if decide (res_Namespace obj = "") then _ else _).
    case_decide; [|by eexists _, t].
    unfold mbind, M_bind, get, modify. destruct (tr_objects t !! (res_Namespace obj', res_Name obj')); [by eexists _, t|].
    rewrite (getWatches_nil (res_Namespace obj) t Ht). by eexists _, _. }
  pose proof (add_projects _ _ _ _ _ _ Ha) as [Hp _].
  simpl. unfold mbind, M_bind. rewrite Ha, Hp. destruct err as [err|]; [by eexists (Some err), t1|].
  by apply IH.
Qed.

Lemma NewSimpleClientset_projects objs :
  match NewSimpleClientset objs with
  | Done (Ok c) =>
    Fake.NewSimpleClientset objs = Ok (MkClientset (wc_actions c) (tr_objects (wc_tracker c))) ∧
    tr_watchers (wc_tracker c) = []
  | Done (Err err) => Fake.NewSimpleClientset objs = Err err
  | Panicked _ => False
  end.
Proof.
  unfold NewSimpleClientset, Fake.NewSimpleClientset.
  destruct (Add_all_projects objs (MkTracker ∅ []) eq_refl) as (r & t' & -> & Ht' & Ho).
  simpl in Ho. rewrite Ho. by destruct r.
Qed.

(** ** Lemmas: views *)

Lemma replay_last events event objects :
  replay (events ++ [event]) objects = apply_event (replay events objects) event.
Proof. unfold replay. by rewrite foldl_app. Qed.

Lemma view_apply ns event objects :
  view ns (apply_event objects event) =
  if decide (ns = "" ∨ (event_key event).1 = ns) then apply_event (view ns objects) event
  else view ns objects.
Proof.
  unfold view. destruct event as [obj|obj|obj]; simpl; case_decide as Hns;
    try (by apply map_filter_insert_True); try (by apply map_filter_insert_not).
  - apply map_filter_delete.
  - rewrite map_filter_delete. apply delete_id, map_lookup_filter_None. right. intros obj' _. simpl. done.
Qed.
(** The watcher is open, and what waits in it leads from [from] to the objects
    of its namespace. *)
Definition watching (i : nat) (ns : string) (from : tracked) (c : WClientset) : Prop :=
  tracked_ok (tr_objects (wc_tracker c)) ∧
  ∃ w, tr_watchers (wc_tracker c) !! i = Some w ∧ fw_ns w = ns ∧ fw_Stopped w = false ∧
    replay (fw_result w) from = view ns (tr_objects (wc_tracker c)).

Lemma written_watching i ns from event c c' :
  written event (wc_tracker c) (wc_tracker c') → tracked_ok (tr_objects (wc_tracker c')) →
  watching i ns from c → watching i ns from c'.
Proof.
  intros [Ho Hw] Hok (_ & w & Hi & Hns & Hst & Hr). split; [done|].
  rewrite (Hw _ _ Hi), Ho, view_apply, Hns. eexists. split; [done|].
  destruct (decide (ns = (event_key event).1 ∨ ns = "")) as [Hm|Hm].
  - rewrite decide_True by (destruct Hm; auto). unfold deliver. rewrite Hst. simpl.
    by rewrite replay_last, Hr.
  - rewrite decide_False by (intros [|]; apply Hm; auto). done.
Qed.

Lemma uses_watching i ns from c events c' :
  uses visit apply_patch i c events c' → watching i ns from c →
  watching i ns (replay events from) c'.
Proof.
  intros Hu. revert from.
  induction Hu as [c|a r c c1 events c' Hc _ IH|ns' opts j c c1 events c' Hc _ IH
                  |j w event w' c events c' Hj Hrec _ IH|j w c events c' Hne Hj _ IH];
    intros from Hw; [done|..].
  - apply IH. destruct Hw as [Hok Hw].
    destruct (Invokes_written _ _ _ _ Hok Hc) as [Hok' [Heq|[event Hev]]].
    + split; [done|]. by rewrite Heq.
    + by eapply written_watching.
  - apply IH. unfold fake_Watch, InvokesWatch, record, on_tracker, Watch, mbind, M_bind, modify,
      get, put, mret, M_ret in Hc. simpl in Hc. injection Hc as _ <-.
    destruct Hw as (Hok & w & Hi & Hrest). split; [done|]. exists w. split; [|done]. simpl.
    by apply lookup_app_l_Some.
  - destruct Hw as (Hok & wi & Hi & Hns & Hst & Hr). case_decide as Hji.
    + subst j. rewrite Hi in Hj. injection Hj as ->. unfold receive in Hrec.
      destruct (fw_result w) as [|event' rest] eqn:Hres; [done|]. injection Hrec as <- <-.
      apply (IH (apply_event from event')). split; [done|]. simpl.
      rewrite list_lookup_insert_eq by (by eapply lookup_lt_Some). eexists. by split.
    + apply IH. split; [done|]. simpl. rewrite list_lookup_insert_ne by done. by exists wi.
  - apply IH. destruct Hw as (Hok & wi & Hi & Hrest). split; [done|]. simpl.
    rewrite list_lookup_insert_ne by done. by exists wi.
Qed.

(** ** Properties *)

(** A watch of the fake clientset misses nothing: whatever calls are made,
    watches opened, and events read after it was opened, the events that were
    read from it followed by those that wait lead from the objects of its
    namespace at that time to those there are now.  Unlike a server, it does
    not start with the objects there are, and ignores its options. *)
Lemma fake_watch_complete ns opts i c c1 events c' :
  tracked_ok (tr_objects (wc_tracker c)) →
  fake_Watch ns opts c = (Done i, c1) →
  uses visit apply_patch i c1 events c' →
  ∃ w, tr_watchers (wc_tracker c') !! i = Some w ∧ fw_Stopped w = false ∧
    replay (events ++ fw_result w) (view ns (tr_objects (wc_tracker c))) =
      view ns (tr_objects (wc_tracker c')).
Proof.
  intros Hok Hw Hu. unfold fake_Watch, InvokesWatch, record, on_tracker, Watch, mbind, M_bind,
    modify, get, put, mret, M_ret in Hw. simpl in Hw. injection Hw as <- <-.
  eapply (uses_watching _ ns (view ns (tr_objects (wc_tracker c)))) in Hu
    as (_ & w & Hi & _ & Hst & Hr).
  - exists w. split; [done|]. split; [done|]. unfold replay in *. by rewrite foldl_app.
  - split; [done|]. simpl. rewrite lookup_app_r, Nat.sub_diag by done. eexists. by split.
Qed.

(** A hundred events can wait; a write to an object of the namespace then
    panics, and an update has not been stored by then. *)
Lemma watch_full i w obj old c :
  tr_watchers (wc_tracker c) !! i = Some w → getWatches (res_Namespace obj) (wc_tracker c) = [i] →
  fw_Stopped w = false → length (fw_result w) = DefaultChanSize →
  tr_objects (wc_tracker c) !! (res_Namespace obj, res_Name obj) = Some old →
  Invokes visit apply_patch (UpdateAction (res_Namespace obj) "" obj) c =
    (Panicked (PanicError "channel full"),
     MkWClientset (wc_actions c ++ [UpdateAction (res_Namespace obj) "" obj]) (wc_tracker c)).
Proof.
  intros Hi Hget Hst Hfull Hold.
  assert ((if decide (res_Namespace obj = "") then set_Namespace (res_Namespace obj) obj else obj) = obj)
    as Hid by (case_decide; [by destruct obj|done]).
  unfold Invokes, record, on_tracker, modify, mbind, M_bind, ObjectReaction, write_read, add.
  simpl. rewrite DeepCopy_eq, Hid, decide_True by done.
  unfold mbind, M_bind, get. rewrite Hold, Hget. simpl.
  unfold mbind, M_bind, get, lift. rewrite Hi. unfold send. rewrite Hst.
  rewrite decide_False by lia. done.
Qed.
End watches.

(** ** Witnesses *)

Module FakeWatchExample.
Export FakeExample.

Definition cs : WClientset := MkWClientset [] (MkTracker ∅ []).

Definition everything : ListOptions := {|
  lo_LabelSelector := ""; lo_FieldSelector := "";
  lo_ResourceVersionMatch := ""; lo_ResourceVersion := "" |}.

(** A resource is created after the watch was opened; its event waits. *)
Lemma fake_watch_complete_witness :
  let '(_, c1) := fake_Watch "" everything cs in
  let c2 := (Invokes visit no_patch (CreateAction "" (EventsExample.managed "c")) c1).2 in
  ∃ w, tr_watchers (wc_tracker c2) !! 0 = Some w ∧ fw_Stopped w = false ∧
    replay ([] ++ fw_result w) (view "" ∅) = view "" (tr_objects (wc_tracker c2)).
Proof.
  refine (fake_watch_complete visit no_patch "" everything 0 cs _ [] _ _ eq_refl _).
  - intros ns name r. simpl. by rewrite lookup_empty.
  - apply (uses_invoke _ _ _ (CreateAction "" (EventsExample.managed "c"))
             (Some (ReactObject (EventsExample.managed "c"))) _
             (Invokes visit no_patch (CreateAction "" (EventsExample.managed "c"))
                (fake_Watch "" everything cs).2).2); [|apply uses_refl].
    apply injective_projections; [vm_compute; reflexivity|reflexivity].
Defined.

Example one_event_waits :
  let '(_, c1) := fake_Watch "" everything cs in
  let c2 := (Invokes visit no_patch (CreateAction "" (EventsExample.managed "c")) c1).2 in
  fw_result <$> tr_watchers (wc_tracker c2) !! 0 = Some [EvAdded (EventsExample.managed "c")].
Proof. vm_compute. reflexivity. Qed.
End FakeWatchExample.
