(* ===== verification/Informers.v ===== *)
(** * The informer factory ([pkg/generated/informers])

    The generated factory of shared informers as a transition system: the
    calls that its clients make, in any order, and the goroutines that [Start]
    spawns.  An informer ([client-go/tools/cache]) is a location of a heap; of
    its inside, what the factory can observe: whether it started, whether its
    controller has synced, whether it stopped.  [Run] of an informer tests
    [HasStarted] and takes the lock again to start, so these are two steps. *)
From S2P Require Import Prelude GoStrings Strconv GoSort Values Resolver Metric Family Store Types Builder Events Clients.

#[local] Open Scope nat_scope.

(** ** Data *)

(** [reflect.Type]: its printed name. *)
Notation goType := string.

(** [reflect.TypeOf(&CRDMetricsResource{})]. *)
Definition CRDType : goType := "*v1alpha1.CRDMetricsResource".

(** A nil function is [None]. *)
Definition TweakListOptionsFunc : Type := option (ListOptions → ListOptions).
Definition TransformFunc : Type := option (CRDMetricsResource → result string CRDMetricsResource).

(** [cache.NamespaceIndex]. *)
Definition NamespaceIndex : string := "namespace".

(** [sharedIndexInformer].  The two closures of its [ListWatch] give the
    request for the options of its reflector.  The controller is nil until the
    informer runs, and then says whether it has synced. *)
Record Informer : Type := MkInformer {
  inf_ListFunc : ListOptions → Request;
  inf_WatchFunc : ListOptions → Request;
  inf_objectType : goType;
  inf_resyncPeriod : Z;
  inf_indexers : list string;
  inf_transform : TransformFunc;
  inf_started : bool;
  inf_controller : option bool;
  inf_stopped : bool;
}.

(** [cache.NewSharedIndexInformer]. *)
Definition NewSharedIndexInformer (ListFunc WatchFunc : ListOptions → Request)
    (objectType : goType) (resyncPeriod : Z) (indexers : list string) : Informer := {|
  inf_ListFunc := ListFunc; inf_WatchFunc := WatchFunc; inf_objectType := objectType;
  inf_resyncPeriod := resyncPeriod; inf_indexers := indexers; inf_transform := None;
  inf_started := false; inf_controller := None; inf_stopped := false;
|}.

(** [HasSynced]. *)
Definition HasSynced (i : Informer) : bool :=
  match inf_controller i with
  | Some synced => synced
  | None => false
  end.

(** [sharedInformerFactory]; its client is part of the requests. *)
Record Factory : Type := MkFactory {
  f_namespace : string;
  f_tweakListOptions : TweakListOptionsFunc;
  f_defaultResync : Z;
  f_customResync : gmap goType Z;
  f_transform : TransformFunc;
  f_informers : gmap goType nat;
  f_startedInformers : gmap goType bool;
  f_wg : nat;
  f_shuttingDown : bool;
}.

(** Where a goroutine of [Start] is: before [Run], between the test of
    [HasStarted] and the start, running, after [wg.Done()]. *)
Inductive phase : Type := Spawned | Checked | Running | Finished.

#[export] Instance phase_eq_dec : EqDecision phase.
Proof. solve_decision. Defined.

Record goroutine : Type := MkGoroutine {
  g_informer : nat;
  g_stopCh : nat;
  g_phase : phase;
}.

(** A call of [WaitForCacheSync]: what it still waits for, whether the head has
    been polled once, and the result so far. *)
Record waiter : Type := MkWaiter {
  wt_stopCh : nat;
  wt_informers : gmap goType nat;
  wt_pending : list (goType * nat);
  wt_polled : bool;
  wt_res : gmap goType bool;
}.

(** The factory, the informers on the heap, the goroutines, the calls of
    [WaitForCacheSync], and the channels that are closed. *)
Record FWorld : Type := MkFWorld {
  fw_factory : Factory;
  fw_heap : gmap nat Informer;
  fw_next : nat;
  fw_goroutines : list goroutine;
  fw_waiters : list waiter;
  fw_closed : gset nat;
}.

Definition set_factory (f : Factory) (w : FWorld) : FWorld :=
  MkFWorld f (fw_heap w) (fw_next w) (fw_goroutines w) (fw_waiters w) (fw_closed w).

Definition set_informer (l : nat) (i : Informer) (w : FWorld) : FWorld :=
  MkFWorld (fw_factory w) (<[l := i]> (fw_heap w)) (fw_next w) (fw_goroutines w) (fw_waiters w)
    (fw_closed w).

(** ** Construction ([factory.go]) *)

Definition SharedInformerOption : Type := Factory → Factory.

(** The keys of the map are objects, of which only the type matters; the list
    is the order of the range. *)
Definition WithCustomResyncConfig (resyncConfig : list (goType * Z)) : SharedInformerOption := λ f,
  MkFactory (f_namespace f) (f_tweakListOptions f) (f_defaultResync f)
    (foldl (λ m '(k, v), <[k := v]> m) (f_customResync f) resyncConfig)
    (f_transform f) (f_informers f) (f_startedInformers f) (f_wg f) (f_shuttingDown f).

Definition WithTweakListOptions (tweak : TweakListOptionsFunc) : SharedInformerOption := λ f,
  MkFactory (f_namespace f) tweak (f_defaultResync f) (f_customResync f)
    (f_transform f) (f_informers f) (f_startedInformers f) (f_wg f) (f_shuttingDown f).

Definition WithNamespace (namespace : string) : SharedInformerOption := λ f,
  MkFactory namespace (f_tweakListOptions f) (f_defaultResync f) (f_customResync f)
    (f_transform f) (f_informers f) (f_startedInformers f) (f_wg f) (f_shuttingDown f).

Definition WithTransform (transform : TransformFunc) : SharedInformerOption := λ f,
  MkFactory (f_namespace f) (f_tweakListOptions f) (f_defaultResync f) (f_customResync f)
    transform (f_informers f) (f_startedInformers f) (f_wg f) (f_shuttingDown f).

(** [v1.NamespaceAll] is the empty namespace. *)
Definition NewSharedInformerFactoryWithOptions (defaultResync : Z)
    (options : list SharedInformerOption) : Factory :=
  foldl (λ f opt, opt f)
    (MkFactory "" None defaultResync ∅ None ∅ ∅ 0 false) options.

Definition NewSharedInformerFactory (defaultResync : Z) : Factory :=
  NewSharedInformerFactoryWithOptions defaultResync [].

Definition NewFilteredSharedInformerFactory (defaultResync : Z) (namespace : string)
    (tweak : TweakListOptionsFunc) : Factory :=
  NewSharedInformerFactoryWithOptions defaultResync
    [WithNamespace namespace; WithTweakListOptions tweak].

Definition new_world (f : Factory) : FWorld := MkFWorld f ∅ 0 [] [] ∅.

(** ** Operations of the factory

    Each holds the lock of the factory from start to end. *)

(** A new informer on the heap. *)
Definition alloc_informer (i : Informer) : M FWorld nat := λ w,
  (Done (fw_next w),
   MkFWorld (fw_factory w) (<[fw_next w := i]> (fw_heap w)) (S (fw_next w))
     (fw_goroutines w) (fw_waiters w) (fw_closed w)).

(** [SetTransform] of an informer: its error. *)
Definition SetTransform (l : nat) (handler : TransformFunc) : M FWorld (option string) := λ w,
  match fw_heap w !! l with
  | None => (Panicked NilDereference, w)
  | Some i =>
    if inf_started i then (Done (Some "informer has already started"), w)
    else
      (Done None, set_informer l
         (MkInformer (inf_ListFunc i) (inf_WatchFunc i) (inf_objectType i) (inf_resyncPeriod i)
            (inf_indexers i) handler (inf_started i) (inf_controller i) (inf_stopped i)) w)
  end.

(** [NewInformerFunc]. *)
Definition NewInformerFunc : Type := Z → M FWorld nat.

(** [f.informers[informerType] = informer]. *)
Definition record_informer (informerType : goType) (l : nat) : M FWorld unit := modify (λ w,
  let f := fw_factory w in
  set_factory (MkFactory (f_namespace f) (f_tweakListOptions f) (f_defaultResync f)
    (f_customResync f) (f_transform f) (<[informerType := l]> (f_informers f))
    (f_startedInformers f) (f_wg f) (f_shuttingDown f)) w).

(** [InformerFor] the type of an object; the error of [SetTransform] is
    dropped. *)
Definition InformerFor (informerType : goType) (newFunc : NewInformerFunc) : M FWorld nat :=
  w ← get;
  let f := fw_factory w in
  match f_informers f !! informerType with
  | Some informer => mret informer
  | None =>
    let resyncPeriod := default (f_defaultResync f) (f_customResync f !! informerType) in
    informer ← newFunc resyncPeriod;
    _ ← SetTransform informer (f_transform f);
    record_informer informerType informer;;
    mret informer
  end.

(** One iteration of [Start]: the goroutine is spawned, not run. *)
Definition start_one (stopCh : nat) (w : FWorld) (entry : goType * nat) : FWorld :=
  let f := fw_factory w in
  if default false (f_startedInformers f !! entry.1) then w
  else
    MkFWorld
      (MkFactory (f_namespace f) (f_tweakListOptions f) (f_defaultResync f) (f_customResync f)
         (f_transform f) (f_informers f) (<[entry.1 := true]> (f_startedInformers f))
         (S (f_wg f)) (f_shuttingDown f))
      (fw_heap w) (fw_next w) (fw_goroutines w ++ [MkGoroutine entry.2 stopCh Spawned])
      (fw_waiters w) (fw_closed w).

Definition Start `{!MapRange} (site : list nat) (stopCh : nat) (w : FWorld) : FWorld :=
  if f_shuttingDown (fw_factory w) then w
  else foldl (start_one stopCh) w (range site (f_informers (fw_factory w))).

(** [Shutdown], up to the wait; it returns when [f_wg] is zero. *)
Definition Shutdown (w : FWorld) : FWorld :=
  let f := fw_factory w in
  set_factory (MkFactory (f_namespace f) (f_tweakListOptions f) (f_defaultResync f)
    (f_customResync f) (f_transform f) (f_informers f) (f_startedInformers f) (f_wg f) true) w.

(** The first part of [WaitForCacheSync]: the informers that were started. *)
Definition started_informers (f : Factory) : gmap goType nat :=
  filter (λ '(informerType, _), default false (f_startedInformers f !! informerType) = true)
    (f_informers f).

Definition WaitForCacheSync `{!MapRange} (site : list nat) (stopCh : nat) (w : FWorld) : FWorld :=
  let informers := started_informers (fw_factory w) in
  MkFWorld (fw_factory w) (fw_heap w) (fw_next w) (fw_goroutines w)
    (fw_waiters w ++ [MkWaiter stopCh informers (range site informers) false ∅]) (fw_closed w).

(** ** The typed informer ([crdmetricsresource.go], [interface.go], [generic.go]) *)

Definition apply_tweak (tweak : TweakListOptionsFunc) (options : ListOptions) : ListOptions :=
  match tweak with
  | Some tweak => tweak options
  | None => options
  end.

Definition NewFilteredCRDMetricsResourceInformer (namespace : string) (resyncPeriod : Z)
    (indexers : list string) (tweak : TweakListOptionsFunc) : Informer :=
  NewSharedIndexInformer
    (λ options, rest_List (newCRDMetricsResources namespace) (apply_tweak tweak options))
    (λ options, rest_Watch (newCRDMetricsResources namespace) (apply_tweak tweak options))
    CRDType resyncPeriod indexers.

Definition NewCRDMetricsResourceInformer (namespace : string) (resyncPeriod : Z)
    (indexers : list string) : Informer :=
  NewFilteredCRDMetricsResourceInformer namespace resyncPeriod indexers None.

(** [group], [version] and [cRDMetricsResourceInformer]: they carry the same
    three fields, of which the factory is the state here. *)
Record cRDMetricsResourceInformer : Type := {
  ci_namespace : string;
  ci_tweakListOptions : TweakListOptionsFunc;
}.

Definition group : Type := cRDMetricsResourceInformer.
Definition version : Type := cRDMetricsResourceInformer.

(** [Crdmetrics], [V1alpha1] and [CRDMetricsResources]. *)
Definition Crdmetrics (f : Factory) : group := {|
  ci_namespace := f_namespace f; ci_tweakListOptions := f_tweakListOptions f;
|}.

Definition V1alpha1 (g : group) : version := {|
  ci_namespace := ci_namespace g; ci_tweakListOptions := ci_tweakListOptions g;
|}.

Definition CRDMetricsResourcesInformer (v : version) : cRDMetricsResourceInformer := {|
  ci_namespace := ci_namespace v; ci_tweakListOptions := ci_tweakListOptions v;
|}.

(** [defaultInformer]. *)
Definition defaultInformer (f : cRDMetricsResourceInformer) : NewInformerFunc := λ resyncPeriod,
  alloc_informer (NewFilteredCRDMetricsResourceInformer (ci_namespace f) resyncPeriod
    [NamespaceIndex] (ci_tweakListOptions f)).

(** [Informer]. *)
Definition typed_Informer (f : cRDMetricsResourceInformer) : M FWorld nat :=
  InformerFor CRDType (defaultInformer f).

(** [factory.Crdmetrics().V1alpha1().CRDMetricsResources().Informer()]. *)
Definition crd_Informer : M FWorld nat :=
  w ← get;
  typed_Informer (CRDMetricsResourcesInformer (V1alpha1 (Crdmetrics (fw_factory w)))).

(** [genericInformer]. *)
Record genericInformer : Type := MkGenericInformer {
  gi_informer : nat;
  gi_resource : string * string;
}.

(** Its [Informer], and its [Lister], which reads the indexer of the informer:
    the lister and the informer whose cache it reads. *)
Definition generic_Informer (f : genericInformer) : nat := gi_informer f.

Definition generic_Lister (f : genericInformer) : (string * string) * nat :=
  (gi_resource f, generic_Informer f).

(** [cRDMetricsResourceInformer.Lister]. *)
Definition typed_Lister (f : cRDMetricsResourceInformer) : M FWorld (cRDMetricsResourceLister * nat) :=
  informer ← typed_Informer f;
  mret (NewCRDMetricsResourceLister, informer).

(** [ForResource]. *)
Definition ForResource (resource : GroupVersionResource)
    : M FWorld (result string genericInformer) :=
  if bool_decide (gvr_Group resource = SchemeGroupVersion.1)
     && bool_decide (gvr_Version resource = SchemeGroupVersion.2)
     && bool_decide (gvr_Resource resource = "crdmetricsresources")
  then
    informer ← crd_Informer;
    mret (Ok (MkGenericInformer informer (gvr_Group resource, gvr_Resource resource)))
  else mret (Err ("no informer found for " +:+ gvr_String resource)).

(** ** The goroutines and the waits *)

Definition set_phase (p : phase) (g : goroutine) : goroutine :=
  MkGoroutine (g_informer g) (g_stopCh g) p.

(** Goroutine [i] moves to a phase; [wg.Done()] at the end. *)
Definition move (i : nat) (p : phase) (w : FWorld) : FWorld :=
  let f := fw_factory w in
  MkFWorld
    (MkFactory (f_namespace f) (f_tweakListOptions f) (f_defaultResync f) (f_customResync f)
       (f_transform f) (f_informers f) (f_startedInformers f)
       (match p with Finished => pred (f_wg f) | _ => f_wg f end) (f_shuttingDown f))
    (fw_heap w) (fw_next w) (alter (set_phase p) i (fw_goroutines w)) (fw_waiters w) (fw_closed w).

Definition run_informer (i : Informer) : Informer :=
  MkInformer (inf_ListFunc i) (inf_WatchFunc i) (inf_objectType i) (inf_resyncPeriod i)
    (inf_indexers i) (inf_transform i) true (Some false) (inf_stopped i).

Definition sync_informer (i : Informer) : Informer :=
  MkInformer (inf_ListFunc i) (inf_WatchFunc i) (inf_objectType i) (inf_resyncPeriod i)
    (inf_indexers i) (inf_transform i) (inf_started i) (Some true) (inf_stopped i).

Definition stop_informer (i : Informer) : Informer :=
  MkInformer (inf_ListFunc i) (inf_WatchFunc i) (inf_objectType i) (inf_resyncPeriod i)
    (inf_indexers i) (inf_transform i) (inf_started i) (inf_controller i) true.

(** A step of goroutine [i], which runs [Run] of its informer: the test of
    [HasStarted] (with a warning and the end if it has), the start, and the end
    once its channel is closed. *)
Definition goroutine_next (i : nat) (w : FWorld) : option FWorld :=
  g ← fw_goroutines w !! i;
  inf ← fw_heap w !! g_informer g;
  match g_phase g with
  | Spawned => Some (move i (if inf_started inf then Finished else Checked) w)
  | Checked => Some (move i Running (set_informer (g_informer g) (run_informer inf) w))
  | Running =>
    if decide (g_stopCh g ∈ fw_closed w)
    then Some (move i Finished (set_informer (g_informer g) (stop_informer inf) w))
    else None
  | Finished => None
  end.

Definition set_waiter (i : nat) (x : waiter) (w : FWorld) : FWorld :=
  MkFWorld (fw_factory w) (fw_heap w) (fw_next w) (fw_goroutines w) (<[i := x]> (fw_waiters w))
    (fw_closed w).

(** The result of [cache.WaitForCacheSync] for the informer at the head. *)
Definition wait_result (b : bool) (x : waiter) : waiter :=
  match wt_pending x with
  | [] => x
  | (t, _) :: rest => MkWaiter (wt_stopCh x) (wt_informers x) rest false (<[t := b]> (wt_res x))
  end.

(** A poll of the head: true if it has synced, else it goes on; and, after a
    first poll, false once the stop channel is closed. *)
Definition wait_poll (w : FWorld) (x : waiter) : waiter :=
  match wt_pending x with
  | [] => x
  | (_, l) :: _ =>
    match HasSynced <$> fw_heap w !! l with
    | Some true => wait_result true x
    | _ => MkWaiter (wt_stopCh x) (wt_informers x) (wt_pending x) true (wt_res x)
    end
  end.

(** ** The factory as a transition system *)

(** What [NewSharedIndexInformer] gives. *)
Definition new_informer (i : Informer) : Prop :=
  inf_started i = false ∧ inf_controller i = None.

(** The steps of the goroutines. *)
Definition goroutine_step (w w' : FWorld) : Prop := ∃ i, goroutine_next i w = Some w'.

Section steps.
Context `{!MapRange}.

(** What else happens: the calls of the clients (the constructor of a new
    informer is any), the informers that sync, the channels that close, and the
    waits. *)
Inductive client_step : FWorld → FWorld → Prop :=
| step_InformerFor t mk l w w' :
  (∀ resync, new_informer (mk resync)) →
  InformerFor t (λ resync, alloc_informer (mk resync)) w = (Done l, w') → client_step w w'
| step_Start site stopCh w : client_step w (Start site stopCh w)
| step_Shutdown w : client_step w (Shutdown w)
| step_WaitForCacheSync site stopCh w : client_step w (WaitForCacheSync site stopCh w)
| step_close ch w :
  client_step w (MkFWorld (fw_factory w) (fw_heap w) (fw_next w) (fw_goroutines w) (fw_waiters w)
                   ({[ch]} ∪ fw_closed w))
| step_sync i g inf w :
  fw_goroutines w !! i = Some g → g_phase g = Running → fw_heap w !! g_informer g = Some inf →
  client_step w (set_informer (g_informer g) (sync_informer inf) w)
| step_poll i x w : fw_waiters w !! i = Some x → client_step w (set_waiter i (wait_poll w x) w)
| step_give_up i x w :
  fw_waiters w !! i = Some x → wt_polled x = true → wt_stopCh x ∈ fw_closed w →
  client_step w (set_waiter i (wait_result false x) w).

Definition factory_step (w w' : FWorld) : Prop := goroutine_step w w' ∨ client_step w w'.

(** The worlds that a factory can reach. *)
Definition factory_reachable (f : Factory) (w : FWorld) : Prop :=
  rtc factory_step (new_world f) w.

(** A run, with the number of steps of the goroutines in it. *)
Inductive factory_run : nat → FWorld → FWorld → Prop :=
| run_refl w : factory_run 0 w w
| run_client n w w' w'' : client_step w w' → factory_run n w' w'' → factory_run n w w''
| run_goroutine n w w' w'' : goroutine_step w w' → factory_run n w' w'' → factory_run (S n) w w''.
End steps.

(** The factories that the constructors give. *)
Definition fresh_factory (f : Factory) : Prop :=
  f_informers f = ∅ ∧ f_startedInformers f = ∅ ∧ f_wg f = 0.

(** ** The invariant *)

(** What a goroutine knows of its informer. *)
Definition phase_ok (closed : gset nat) (g : goroutine) (i : Informer) : Prop :=
  match g_phase g with
  | Spawned | Checked => new_informer i
  | Running => inf_started i = true
  | Finished => inf_started i = true ∧ g_stopCh g ∈ closed
  end.

(** The goroutines that have not ended. *)
Definition active (gs : list goroutine) : list goroutine :=
  filter (λ g, g_phase g ≠ Finished) gs.

(** Every informer is on the heap, under one type, and run by at most one
    goroutine, which exists once its type is marked as started; the wait group
    counts the goroutines that have not ended. *)
Record factory_ok (w : FWorld) : Prop := {
  fo_fresh : ∀ l, is_Some (fw_heap w !! l) → l < fw_next w;
  fo_heap : ∀ t l, f_informers (fw_factory w) !! t = Some l → is_Some (fw_heap w !! l);
  fo_inj : ∀ t1 t2 l, f_informers (fw_factory w) !! t1 = Some l →
    f_informers (fw_factory w) !! t2 = Some l → t1 = t2;
  fo_once : NoDup (g_informer <$> fw_goroutines w);
  fo_started : ∀ l, l ∈ g_informer <$> fw_goroutines w ↔
    ∃ t, started_informers (fw_factory w) !! t = Some l;
  fo_marked : ∀ t, f_startedInformers (fw_factory w) !! t = Some true →
    is_Some (f_informers (fw_factory w) !! t);
  fo_wg : f_wg (fw_factory w) = length (active (fw_goroutines w));
  fo_phase : ∀ g, g ∈ fw_goroutines w →
    ∃ i, fw_heap w !! g_informer g = Some i ∧ phase_ok (fw_closed w) g i;
  fo_idle : ∀ l i, fw_heap w !! l = Some i → l ∉ g_informer <$> fw_goroutines w → new_informer i;
}.

(** What a call of [WaitForCacheSync] has answered so far is right, and it
    still waits for the rest. *)
Record waiter_ok (w : FWorld) (x : waiter) : Prop := {
  wo_started : wt_informers x ⊆ started_informers (fw_factory w);
  wo_pending : ∀ t l, (t, l) ∈ wt_pending x → wt_informers x !! t = Some l;
  wo_dom : ∀ t l, wt_informers x !! t = Some l → (t, l) ∈ wt_pending x ∨ is_Some (wt_res x !! t);
  wo_res : ∀ t (b : bool), wt_res x !! t = Some b → ∃ l, wt_informers x !! t = Some l ∧
    if b then HasSynced <$> fw_heap w !! l = Some true else wt_stopCh x ∈ fw_closed w;
}.

(** What no step undoes. *)
Record fw_le (w w' : FWorld) : Prop := {
  le_informers : f_informers (fw_factory w) ⊆ f_informers (fw_factory w');
  le_started : started_informers (fw_factory w) ⊆ started_informers (fw_factory w');
  le_closed : fw_closed w ⊆ fw_closed w';
  le_synced : ∀ l, HasSynced <$> fw_heap w !! l = Some true →
    HasSynced <$> fw_heap w' !! l = Some true;
}.

(** ** Lemmas *)

#[export] Instance fw_le_refl : Reflexive fw_le.
Proof. by split. Qed.

#[export] Instance fw_le_trans : Transitive fw_le.
Proof. intros w1 w2 w3 [] []. split; eauto; by etrans. Qed.

Lemma started_lookup f t l :
  started_informers f !! t = Some l ↔
  f_informers f !! t = Some l ∧ f_startedInformers f !! t = Some true.
Proof.
  unfold started_informers. rewrite map_lookup_filter_Some.
  destruct (f_startedInformers f !! t) as [[]|]; naive_solver.
Qed.

Lemma waiter_ok_le w w' x : fw_le w w' → waiter_ok w x → waiter_ok w' x.
Proof.
  intros Hle [Hs Hp Hd Hr]. split; [|done|done|].
  - etrans; [done|apply (le_started _ _ Hle)].
  - intros t b Hb. destruct (Hr t b Hb) as (l & Hl & Hb'). exists l. split; [done|].
    destruct b; [by apply (le_synced _ _ Hle)|by apply (le_closed _ _ Hle)].
Qed.

Lemma g_informer_alter p i (gs : list goroutine) :
  g_informer <$> alter (set_phase p) i gs = g_informer <$> gs.
Proof.
  revert i. induction gs as [|g gs IH]; intros [|i]; try done.
  csimpl. f_equal. apply IH.
Qed.

Lemma active_cons g gs :
  length (active (g :: gs)) =
  (if decide (g_phase g = Finished) then 0 else 1) + length (active gs).
Proof.
  unfold active. rewrite filter_cons. destruct (decide (g_phase g = Finished)).
  - by rewrite decide_False by naive_solver.
  - by rewrite decide_True.
Qed.

Lemma active_alter p i (gs : list goroutine) g :
  gs !! i = Some g → g_phase g ≠ Finished →
  length (active (alter (set_phase p) i gs)) =
  if decide (p = Finished) then pred (length (active gs)) else length (active gs).
Proof.
  revert i. induction gs as [|h gs IH]; intros [|i]; simpl; [done..| |].
  - intros [= ->] Hg. change (alter (set_phase p) 0 (g :: gs)) with (set_phase p g :: gs).
    rewrite !active_cons, (decide_False (P := g_phase g = Finished)) by done. simpl. by case_decide.
  - intros Hi Hg. change (length (active (h :: alter (set_phase p) i gs)) =
      if decide (p = Finished) then pred (length (active (h :: gs)))
      else length (active (h :: gs))).
    rewrite !active_cons, (IH i Hi Hg). case_decide as Hp; case_decide; simpl; try done.
    assert (0 < length (active gs)) as Hpos; [|lia].
    assert (g ∈ active gs) as Hin by
      (apply list_elem_of_filter; split; [done|by eapply list_elem_of_lookup_2]).
    destruct (active gs); [by apply elem_of_nil in Hin|simpl; lia].
Qed.

Lemma elem_of_alter_phase p i (gs : list goroutine) g g' :
  gs !! i = Some g → NoDup (g_informer <$> gs) → g' ∈ alter (set_phase p) i gs →
  g' = set_phase p g ∨ (g' ∈ gs ∧ g_informer g' ≠ g_informer g).
Proof.
  intros Hi Hnd [j Hj]%list_elem_of_lookup_1. destruct (decide (i = j)) as [<-|Hne].
  - rewrite list_lookup_alter_eq, Hi in Hj. left. by injection Hj.
  - rewrite list_lookup_alter_ne in Hj by done. right. split; [by eapply list_elem_of_lookup_2|].
    intros Heq. apply Hne. eapply (NoDup_lookup _ i j (g_informer g) Hnd);
      rewrite list_lookup_fmap; [by rewrite Hi|by rewrite Hj, <- Heq].
Qed.

(** *** Each operation preserves the invariant *)

(** The world with a new informer for a type that had none. *)
Definition with_transform (handler : TransformFunc) (i : Informer) : Informer :=
  MkInformer (inf_ListFunc i) (inf_WatchFunc i) (inf_objectType i) (inf_resyncPeriod i)
    (inf_indexers i) handler (inf_started i) (inf_controller i) (inf_stopped i).

Definition added_informer (t : goType) (i : Informer) (w : FWorld) : FWorld :=
  let f := fw_factory w in
  MkFWorld
    (MkFactory (f_namespace f) (f_tweakListOptions f) (f_defaultResync f) (f_customResync f)
       (f_transform f) (<[t := fw_next w]> (f_informers f)) (f_startedInformers f) (f_wg f)
       (f_shuttingDown f))
    (<[fw_next w := with_transform (f_transform f) i]> (fw_heap w)) (S (fw_next w))
    (fw_goroutines w) (fw_waiters w) (fw_closed w).

Definition resync_of (t : goType) (f : Factory) : Z :=
  default (f_defaultResync f) (f_customResync f !! t).

(** [InformerFor] returns the informer of the type, or makes it; the error of
    [SetTransform], which the code drops, is always nil. *)
Lemma InformerFor_eq t mk w :
  (∀ resync, new_informer (mk resync)) →
  InformerFor t (λ resync, alloc_informer (mk resync)) w =
  match f_informers (fw_factory w) !! t with
  | Some l => (Done l, w)
  | None => (Done (fw_next w), added_informer t (mk (resync_of t (fw_factory w))) w)
  end.
Proof.
  intros Hmk. unfold InformerFor, mbind, M_bind, get, mret, M_ret. fold (resync_of t (fw_factory w)).
  destruct (f_informers (fw_factory w) !! t); [done|].
  unfold alloc_informer, SetTransform. cbn [fw_heap].
  rewrite lookup_insert_eq, (proj1 (Hmk _)). unfold set_informer, record_informer, modify.
  cbn [fw_heap fw_factory fw_next fw_goroutines fw_waiters fw_closed].
  rewrite insert_insert_eq. unfold added_informer, with_transform.
  by rewrite (proj1 (Hmk _)).
Qed.

Section invariant.
Context `{!MapRange}.

Lemma new_world_ok f : fresh_factory f → factory_ok (new_world f).
Proof.
  intros (Hi & Hs & Hw). split; simpl; rewrite ?Hi, ?Hs; try done.
  - intros l. by intros [??].
  - by constructor.
  - intros l. split; [by intros ?%elem_of_nil|]. intros [t Ht%started_lookup].
    rewrite Hi, lookup_empty in Ht. naive_solver.
  - by intros g ?%elem_of_nil.
Qed.

Lemma fo_none w t : factory_ok w → f_informers (fw_factory w) !! t = None →
  f_startedInformers (fw_factory w) !! t ≠ Some true.
Proof. intros Hok Hn Ht%(fo_marked _ Hok). rewrite Hn in Ht. by destruct Ht. Qed.

Lemma fo_next w t : factory_ok w → f_informers (fw_factory w) !! t ≠ Some (fw_next w).
Proof. intros Hok Ht%(fo_heap _ Hok)%(fo_fresh _ Hok). lia. Qed.

Lemma started_added t i w :
  factory_ok w → f_informers (fw_factory w) !! t = None →
  started_informers (fw_factory (added_informer t i w)) = started_informers (fw_factory w).
Proof.
  intros Hok Hn. apply map_eq. intros t'. apply option_eq. intros l.
  rewrite !started_lookup. simpl. destruct (decide (t = t')) as [<-|Hne].
  - pose proof (fo_none w t Hok Hn). naive_solver.
  - by rewrite lookup_insert_ne.
Qed.

Lemma added_informer_ok t i w :
  factory_ok w → f_informers (fw_factory w) !! t = None → new_informer i →
  factory_ok (added_informer t i w) ∧ fw_le w (added_informer t i w).
Proof.
  intros Hok Hn Hnew. pose proof (started_added t i w Hok Hn) as Hst.
  assert (fw_heap w !! fw_next w = None) as Hfree.
  { destruct (fw_heap w !! fw_next w) eqn:He; [|done].
    assert (fw_next w < fw_next w) by (apply (fo_fresh _ Hok); by eexists). lia. }
  assert (∀ l, is_Some (fw_heap w !! l) → fw_heap (added_informer t i w) !! l = fw_heap w !! l)
    as Hheap.
  { intros l Hl. simpl. rewrite lookup_insert_ne; [done|]. intros <-. rewrite Hfree in Hl.
    by destruct Hl. }
  split; split.
  - intros l. simpl. destruct (decide (l = fw_next w)) as [->|Hl]; [lia|].
    rewrite lookup_insert_ne by done. intros ?%(fo_fresh _ Hok). lia.
  - intros t' l. simpl. destruct (decide (t = t')) as [<-|Ht].
    + rewrite lookup_insert_eq. intros [= <-]. by rewrite lookup_insert_eq.
    + rewrite lookup_insert_ne by done. intros Hl%(fo_heap _ Hok).
      change (is_Some (fw_heap (added_informer t i w) !! l)). by rewrite Hheap.
  - intros t1 t2 l. simpl. pose proof (fo_next w t1 Hok). pose proof (fo_next w t2 Hok).
    destruct (decide (t = t1)) as [<-|], (decide (t = t2)) as [<-|];
      rewrite ?lookup_insert_eq, ?lookup_insert_ne by done; try naive_solver.
    apply (fo_inj _ Hok).
  - apply (fo_once _ Hok).
  - intros l. rewrite Hst. apply (fo_started _ Hok).
  - intros t' Ht'%(fo_marked _ Hok). simpl. destruct (decide (t = t')) as [<-|Ht].
    + by rewrite lookup_insert_eq.
    + by rewrite lookup_insert_ne.
  - apply (fo_wg _ Hok).
  - intros g (j & Hj & Hp)%(fo_phase _ Hok). exists j. split; [|done]. by rewrite Hheap, Hj.
  - intros l j. destruct (decide (l = fw_next w)) as [->|Hl].
    + simpl. rewrite lookup_insert_eq. by intros [= <-] _.
    + simpl. rewrite lookup_insert_ne by done. apply (fo_idle _ Hok).
  - simpl. by apply insert_subseteq.
  - by rewrite Hst.
  - done.
  - intros l Hl. rewrite Hheap; [done|]. destruct (fw_heap w !! l); [by eexists|done].
Qed.

(** The other informers keep theirs. *)
Lemma start_one_informers ch w e :
  f_informers (fw_factory (start_one ch w e)) = f_informers (fw_factory w).
Proof. unfold start_one. by destruct (default false _). Qed.

Lemma start_one_started ch w t l :
  f_startedInformers (fw_factory w) !! t ≠ Some true → f_informers (fw_factory w) !! t = Some l →
  started_informers (fw_factory (start_one ch w (t, l))) =
  <[t := l]> (started_informers (fw_factory w)).
Proof.
  intros Hs Hl. apply map_eq. intros t'. apply option_eq. intros l'.
  unfold start_one. cbn [fst snd].
  destruct (f_startedInformers (fw_factory w) !! t) as [[]|] eqn:Ht; [done|simpl..].
  all: rewrite started_lookup; simpl; destruct (decide (t = t')) as [<-|Hne].
  all: rewrite ?lookup_insert_eq, ?lookup_insert_ne by done.
  all: rewrite ?started_lookup; naive_solver.
Qed.

(** What the start of an informer changes. *)
Lemma start_one_world ch w t l :
  f_startedInformers (fw_factory w) !! t ≠ Some true →
  let w' := start_one ch w (t, l) in
  w' = MkFWorld (fw_factory w') (fw_heap w) (fw_next w)
         (fw_goroutines w ++ [MkGoroutine l ch Spawned]) (fw_waiters w) (fw_closed w) ∧
  f_wg (fw_factory w') = S (f_wg (fw_factory w)) ∧
  f_startedInformers (fw_factory w') = <[t := true]> (f_startedInformers (fw_factory w)).
Proof.
  intros Hs. cbv zeta. unfold start_one. cbn [fst snd].
  by destruct (f_startedInformers (fw_factory w) !! t) as [[]|] eqn:Ht.
Qed.

Lemma start_one_ok ch w t l :
  factory_ok w → f_informers (fw_factory w) !! t = Some l →
  factory_ok (start_one ch w (t, l)) ∧ fw_le w (start_one ch w (t, l)).
Proof.
  intros Hok Hl. destruct (decide (f_startedInformers (fw_factory w) !! t = Some true)) as [Hs|Hs].
  { unfold start_one. cbn [fst snd]. rewrite Hs. simpl. by split. }
  pose proof (start_one_started ch w t l Hs Hl) as Hst.
  assert (started_informers (fw_factory w) !! t = None) as Hnone.
  { apply eq_None_not_Some. intros [l' ?%started_lookup]. naive_solver. }
  assert (l ∉ g_informer <$> fw_goroutines w) as Hnin.
  { intros [t' Ht']%(fo_started _ Hok). apply started_lookup in Ht' as [Ht' Hs'].
    by rewrite (fo_inj _ Hok _ _ _ Ht' Hl) in Hs'. }
  destruct (fo_heap _ Hok _ _ Hl) as [i Hi].
  destruct (start_one_world ch w t l Hs) as (Heq & Hwg & Hmark).
  pose proof (start_one_informers ch w (t, l)) as Hinf.
  rewrite Heq. clear Heq. set (f' := fw_factory (start_one ch w (t, l))) in *. clearbody f'.
  split; split; cbn [fw_factory fw_heap fw_next fw_goroutines fw_waiters fw_closed];
    rewrite ?Hinf, ?fmap_app; try done.
  - apply (fo_fresh _ Hok).
  - apply (fo_heap _ Hok).
  - apply (fo_inj _ Hok).
  - apply NoDup_app. split; [apply (fo_once _ Hok)|]. split; [|by apply NoDup_singleton].
    intros l' Hl' ->%list_elem_of_singleton. done.
  - intros l'. rewrite elem_of_app, (fo_started _ Hok), Hst. simpl. rewrite list_elem_of_singleton.
    split.
    + intros [[t' Ht']| ->]; [|exists t; by rewrite lookup_insert_eq]. exists t'.
      rewrite lookup_insert_ne; [done|]. intros <-. by rewrite Hnone in Ht'.
    + intros [t' Ht']. destruct (decide (t = t')) as [<-|Hne].
      * rewrite lookup_insert_eq in Ht'. injection Ht' as <-. by right.
      * rewrite lookup_insert_ne in Ht' by done. left. by exists t'.
  - intros t'. rewrite Hmark. destruct (decide (t = t')) as [<-|Hne]; [by rewrite Hl|].
    rewrite lookup_insert_ne by done. apply (fo_marked _ Hok).
  - rewrite Hwg, (fo_wg _ Hok). unfold active. rewrite filter_app, length_app, filter_cons_True by done.
    simpl. lia.
  - intros g [Hg| ->%list_elem_of_singleton]%elem_of_app; [by apply (fo_phase _ Hok)|].
    exists i. split; [done|]. by apply (fo_idle _ Hok l).
  - intros l' j Hj Hn. apply (fo_idle _ Hok l' j Hj). set_solver.
  - rewrite Hst. by apply insert_subseteq.
Qed.

Lemma Start_ok site ch w : factory_ok w → factory_ok (Start site ch w) ∧ fw_le w (Start site ch w).
Proof.
  intros Hok. unfold Start. destruct (f_shuttingDown (fw_factory w)); [by split|].
  assert (Forall (λ e, f_informers (fw_factory w) !! e.1 = Some e.2)
            (range site (f_informers (fw_factory w)))) as Hall.
  { apply Forall_forall. intros [t l] Hin. simpl. apply elem_of_map_to_list.
    by rewrite <- (range_perm site). }
  revert Hall. generalize (range site (f_informers (fw_factory w))). intros es Hall.
  revert w Hok Hall. induction es as [|[t l] es IH]; intros w Hok Hall; simpl; [by split|].
  apply Forall_cons in Hall as [Hl Hall]. simpl in Hl.
  destruct (start_one_ok ch w t l Hok Hl) as [Hok' Hle'].
  destruct (IH _ Hok') as [Hok'' Hle''].
  - by rewrite start_one_informers.
  - split; [done|by etrans].
Qed.

(** A goroutine changes its informer and its own phase, nothing else. *)
Lemma goroutine_update_ok w w' l inf inf' :
  factory_ok w → fw_heap w !! l = Some inf → l ∈ g_informer <$> fw_goroutines w →
  f_informers (fw_factory w') = f_informers (fw_factory w) →
  f_startedInformers (fw_factory w') = f_startedInformers (fw_factory w) →
  fw_heap w' = <[l := inf']> (fw_heap w) → fw_next w' = fw_next w → fw_closed w' = fw_closed w →
  g_informer <$> fw_goroutines w' = g_informer <$> fw_goroutines w →
  f_wg (fw_factory w') = length (active (fw_goroutines w')) →
  (∀ g, g ∈ fw_goroutines w' →
     (g_informer g ≠ l ∧ g ∈ fw_goroutines w) ∨ (g_informer g = l ∧ phase_ok (fw_closed w) g inf')) →
  (HasSynced inf = true → HasSynced inf' = true) →
  factory_ok w' ∧ fw_le w w'.
Proof.
  intros Hok Hl Hin Hi Hs Hh Hn Hc Hg Hwg Hph Hsync.
  assert (started_informers (fw_factory w') = started_informers (fw_factory w)) as Hst.
  { unfold started_informers. by rewrite Hi, Hs. }
  assert (∀ l', is_Some (fw_heap w' !! l') ↔ is_Some (fw_heap w !! l')) as Hdom.
  { intros l'. rewrite Hh. destruct (decide (l = l')) as [<-|].
    - rewrite lookup_insert_eq, Hl. by split.
    - by rewrite lookup_insert_ne. }
  split; split; rewrite ?Hi, ?Hst, ?Hg, ?Hn, ?Hs, ?Hc; try done.
  - intros l' ?%Hdom. by apply (fo_fresh _ Hok).
  - intros t l' ?%(fo_heap _ Hok). by apply Hdom.
  - apply (fo_inj _ Hok).
  - apply (fo_once _ Hok).
  - apply (fo_started _ Hok).
  - apply (fo_marked _ Hok).
  - intros g Hg'. destruct (Hph g Hg') as [[Hne Hgw]|[Heq Hp]].
    + destruct (fo_phase _ Hok g Hgw) as (j & Hj & Hp). exists j. split; [|done].
      by rewrite Hh, lookup_insert_ne.
    + exists inf'. by rewrite Heq, Hh, lookup_insert_eq.
  - intros l' j. rewrite Hh. intros Hj Hnin. apply (fo_idle _ Hok l' j); [|done].
    rewrite lookup_insert_ne in Hj; [done|]. by intros <-.
  - intros l'. rewrite Hh. destruct (decide (l = l')) as [<-|].
    + rewrite lookup_insert_eq, Hl. simpl. intros [= ?]. by rewrite Hsync.
    + by rewrite lookup_insert_ne.
Qed.

Lemma move_ok w i g inf inf' p :
  factory_ok w → fw_goroutines w !! i = Some g → fw_heap w !! g_informer g = Some inf →
  g_phase g ≠ Finished → phase_ok (fw_closed w) (set_phase p g) inf' →
  (HasSynced inf = true → HasSynced inf' = true) →
  factory_ok (move i p (set_informer (g_informer g) inf' w)) ∧
  fw_le w (move i p (set_informer (g_informer g) inf' w)).
Proof.
  intros Hok Hg Hl Hne Hp Hsync.
  apply (goroutine_update_ok w _ (g_informer g) inf inf'); try done.
  - apply list_elem_of_fmap. exists g. split; [done|]. by eapply list_elem_of_lookup_2.
  - simpl. apply g_informer_alter.
  - simpl. rewrite (active_alter _ _ _ _ Hg Hne), (fo_wg _ Hok). by destruct p.
  - simpl. intros g' Hg'.
    apply (elem_of_alter_phase _ _ _ _ _ Hg (fo_once _ Hok)) in Hg' as [->|[Hin Hg']].
    + right. by split.
    + left. by split.
Qed.

Lemma set_informer_id l inf w : fw_heap w !! l = Some inf → set_informer l inf w = w.
Proof. intros Hl. unfold set_informer. rewrite insert_id by done. by destruct w. Qed.

Lemma goroutine_next_ok i w w' :
  factory_ok w → goroutine_next i w = Some w' → factory_ok w' ∧ fw_le w w'.
Proof.
  intros Hok. unfold goroutine_next.
  destruct (fw_goroutines w !! i) as [g|] eqn:Hg; [|done]. simpl.
  destruct (fo_phase _ Hok g) as (inf & Hinf & Hp); [by eapply list_elem_of_lookup_2|].
  rewrite Hinf. simpl. unfold phase_ok in Hp. destruct (g_phase g) eqn:Hph.
  - rewrite (proj1 Hp). intros [= <-]. rewrite <- (set_informer_id _ _ _ Hinf) at 1 3.
    by apply (move_ok w i g inf inf Checked); rewrite ?Hph.
  - intros [= <-]. apply (move_ok w i g inf (run_informer inf) Running); rewrite ?Hph; try done.
    unfold HasSynced. by rewrite (proj2 Hp).
  - case_decide as Hc; [|done]. intros [= <-].
    by apply (move_ok w i g inf (stop_informer inf) Finished); rewrite ?Hph.
  - done.
Qed.

Lemma client_step_ok w w' : client_step w w' → factory_ok w → factory_ok w' ∧ fw_le w w'.
Proof.
  intros [t mk l w0 w1 Hmk Hi|site ch w0|w0|site ch w0|ch w0|i g inf w0 Hg Hp Hl|i x w0 _|i x w0 _ _ _] Hok.
  - rewrite InformerFor_eq in Hi by done.
    destruct (f_informers (fw_factory w0) !! t) eqn:Ht; injection Hi as <- <-; [by split|].
    by apply added_informer_ok.
  - by apply Start_ok.
  - split; [by destruct Hok; split|by split].
  - split; [by destruct Hok; split|by split].
  - destruct Hok as [H1 H2 H3 H4 H5 H6 H7 H8 H9].
    split; split; try done; [|simpl; set_solver].
    intros g (inf & Hinf & Hp)%H8. exists inf. split; [done|]. revert Hp. unfold phase_ok.
    destruct (g_phase g); try done. simpl. set_solver.
  - apply (goroutine_update_ok w0 _ (g_informer g) inf (sync_informer inf)); try done.
    + apply list_elem_of_fmap. exists g. split; [done|]. by eapply list_elem_of_lookup_2.
    + apply (fo_wg _ Hok).
    + simpl. intros g' Hg'. destruct (decide (g_informer g' = g_informer g)) as [Heq|]; [right|by left].
      split; [done|]. destruct (fo_phase _ Hok g' Hg') as (inf' & Hinf' & Hp').
      rewrite Heq, Hl in Hinf'. injection Hinf' as <-.
      assert (g' = g) as ->.
      { apply list_elem_of_lookup_1 in Hg' as [j Hj].
        assert (i = j) as ->; [|congruence].
        eapply (NoDup_lookup _ i j (g_informer g) (fo_once _ Hok)); rewrite list_lookup_fmap;
          [by rewrite Hg|by rewrite Hj, <- Heq]. }
      revert Hp'. unfold phase_ok. by rewrite Hp.
  - split; [by destruct Hok; split|by split].
  - split; [by destruct Hok; split|by split].
Qed.

Lemma factory_step_ok w w' : factory_step w w' → factory_ok w → factory_ok w' ∧ fw_le w w'.
Proof.
  intros [[i Hi]|Hc] Hok; [by eapply goroutine_next_ok|by apply client_step_ok].
Qed.

Lemma factory_steps_ok w w' :
  rtc factory_step w w' → factory_ok w → factory_ok w' ∧ fw_le w w'.
Proof.
  induction 1 as [w|w w1 w' Hs _ IH]; intros Hok; [by split|].
  destruct (factory_step_ok _ _ Hs Hok) as [Hok1 Hle1]. destruct (IH Hok1) as [Hok' Hle'].
  split; [done|by etrans].
Qed.

Lemma reachable_factory_ok f w : fresh_factory f → factory_reachable f w → factory_ok w.
Proof. intros Hf Hr. by apply (factory_steps_ok _ _ Hr), new_world_ok. Qed.

(** *** The waits *)

Lemma Start_waiters site ch w :
  fw_waiters (Start site ch w) = fw_waiters w.
Proof.
  unfold Start. destruct (f_shuttingDown (fw_factory w)); [done|].
  generalize (range site (f_informers (fw_factory w))). intros es. revert w.
  induction es as [|e es IH]; intros w; simpl; [done|]. rewrite IH.
  unfold start_one. by destruct (default false _).
Qed.

Lemma goroutine_next_waiters i w w' : goroutine_next i w = Some w' → fw_waiters w' = fw_waiters w.
Proof.
  unfold goroutine_next. destruct (fw_goroutines w !! i) as [g|]; [|done]. simpl.
  destruct (fw_heap w !! g_informer g); [|done]. simpl.
  destruct (g_phase g); [| |case_decide|]; by try intros [= <-].
Qed.

Lemma wait_result_ok w x (b : bool) t l rest :
  wt_pending x = (t, l) :: rest →
  (if b then HasSynced <$> fw_heap w !! l = Some true else wt_stopCh x ∈ fw_closed w) →
  waiter_ok w x → waiter_ok w (wait_result b x).
Proof.
  intros Hp Hb [Hs Hpend Hd Hr]. unfold wait_result. rewrite Hp. split; simpl; [done|..].
  - intros t' l' Hin. apply Hpend. rewrite Hp. by right.
  - intros t' l' Hl'. destruct (Hd t' l' Hl') as [Hin|Hin].
    + rewrite Hp in Hin. apply elem_of_cons in Hin as [[= -> ->]|Hin]; [right|by left].
      by rewrite lookup_insert_eq.
    + right. destruct (decide (t = t')) as [<-|]; [by rewrite lookup_insert_eq|].
      by rewrite lookup_insert_ne.
  - intros t' b'. destruct (decide (t = t')) as [<-|]; [|rewrite lookup_insert_ne by done; apply Hr].
    rewrite lookup_insert_eq. intros [= <-]. exists l. split; [|done]. apply Hpend. rewrite Hp. by left.
Qed.

Lemma wait_poll_ok w x : waiter_ok w x → waiter_ok w (wait_poll w x).
Proof.
  intros Hx. unfold wait_poll. destruct (wt_pending x) as [|[t l] rest] eqn:Hp; [done|].
  assert (waiter_ok w (MkWaiter (wt_stopCh x) (wt_informers x) ((t, l) :: rest) true (wt_res x)))
    as Hkeep.
  { destruct Hx as [Hs Hpend Hd Hr]. rewrite Hp in *. by split. }
  destruct (HasSynced <$> fw_heap w !! l) as [[]|] eqn:Hsync; [|done..].
  by apply (wait_result_ok w x true t l rest).
Qed.

Lemma client_step_waiters w w' :
  client_step w w' → factory_ok w →
  Forall (waiter_ok w) (fw_waiters w) → Forall (waiter_ok w') (fw_waiters w').
Proof.
  intros Hstep Hok Hall. destruct (client_step_ok _ _ Hstep Hok) as [_ Hle].
  assert (Forall (waiter_ok w') (fw_waiters w)) as Hall'.
  { apply (Forall_impl _ _ _ Hall). intros x. by apply waiter_ok_le. }
  destruct Hstep as [t mk l w0 w1 Hmk Hi|site ch w0|w0|site ch w0|ch w0|i g inf w0 Hg Hp Hl
                    |i x w0 Hx|i x w0 Hx Hpol Hcl]; try done.
  - rewrite InformerFor_eq in Hi by done.
    by destruct (f_informers (fw_factory w0) !! t); injection Hi as <- <-.
  - by rewrite Start_waiters.
  - apply Forall_app. split; [done|]. constructor; [|done]. split; simpl; [done|..].
    + intros t l Hin. apply elem_of_map_to_list. by rewrite <- (range_perm site).
    + intros t l Hl. left. rewrite (range_perm site). by apply elem_of_map_to_list.
    + intros t b. by rewrite lookup_empty.
  - apply Forall_insert; [done|]. rewrite Forall_lookup in Hall.
    apply (waiter_ok_le _ _ _ Hle), wait_poll_ok. by apply (Hall i).
  - apply Forall_insert; [done|]. rewrite Forall_lookup in Hall. apply (waiter_ok_le _ _ _ Hle).
    destruct (wt_pending x) as [|[t l] rest] eqn:Hp.
    + unfold wait_result. rewrite Hp. by apply (Hall i).
    + apply (wait_result_ok _ _ _ t l rest Hp); [done|]. by apply (Hall i).
Qed.

Lemma reachable_waiters_ok f w :
  fresh_factory f → factory_reachable f w → Forall (waiter_ok w) (fw_waiters w).
Proof.
  intros Hf. unfold factory_reachable. pose proof (new_world_ok f Hf) as Hok.
  assert (Forall (waiter_ok (new_world f)) (fw_waiters (new_world f))) as Hall by constructor.
  revert Hok Hall. generalize (new_world f). intros w0 Hok Hall Hr. revert Hok Hall.
  induction Hr as [w0|w0 w1 w' Hs _ IH]; intros Hok Hall; [done|].
  destruct (factory_step_ok _ _ Hs Hok) as [Hok1 Hle]. apply IH; [done|].
  destruct Hs as [[i Hi]|Hc]; [|by eapply client_step_waiters].
  rewrite (goroutine_next_waiters _ _ _ Hi). apply (Forall_impl _ _ _ Hall).
  intros x. by apply waiter_ok_le.
Qed.

(** *** The end of the goroutines *)

(** The steps that a goroutine still has. *)
Definition phase_weight (p : phase) : nat :=
  match p with Spawned => 3 | Checked => 2 | Running => 1 | Finished => 0 end.

Definition weight (gs : list goroutine) : nat := sum_list_with (λ g, phase_weight (g_phase g)) gs.

Lemma weight_alter p i (gs : list goroutine) g :
  gs !! i = Some g →
  weight (alter (set_phase p) i gs) + phase_weight (g_phase g) = weight gs + phase_weight p.
Proof.
  revert i. induction gs as [|h gs IH]; intros [|i]; simpl; [done..| |].
  - intros [= ->]. change (alter (set_phase p) 0 (g :: gs)) with (set_phase p g :: gs).
    unfold weight. simpl. lia.
  - intros Hi. change (weight (h :: alter (set_phase p) i gs) + phase_weight (g_phase g) =
                       weight (h :: gs) + phase_weight p).
    specialize (IH i Hi). unfold weight in *. simpl. lia.
Qed.

Lemma weight_bound gs : weight gs <= 3 * length gs.
Proof.
  unfold weight. induction gs as [|g gs IH]; simpl; [lia|]. destruct (g_phase g); simpl; lia.
Qed.

Lemma goroutine_next_weight i w w' :
  factory_ok w → goroutine_next i w = Some w' →
  S (weight (fw_goroutines w')) <= weight (fw_goroutines w) ∧
  g_informer <$> fw_goroutines w' = g_informer <$> fw_goroutines w ∧
  f_shuttingDown (fw_factory w') = f_shuttingDown (fw_factory w).
Proof.
  intros Hok. unfold goroutine_next.
  destruct (fw_goroutines w !! i) as [g|] eqn:Hg; [|done]. simpl.
  destruct (fo_phase _ Hok g) as (inf & -> & Hp); [by eapply list_elem_of_lookup_2|]. simpl.
  unfold phase_ok in Hp. pose proof (λ p, weight_alter p i _ g Hg) as Hw.
  destruct (g_phase g); [rewrite (proj1 Hp)| |case_decide; [|done]|done]; intros [= <-]; simpl;
    rewrite g_informer_alter; split_and!; try done.
  - specialize (Hw Checked). simpl in Hw. lia.
  - specialize (Hw Running). simpl in Hw. lia.
  - specialize (Hw Finished). simpl in Hw. lia.
Qed.

Lemma client_step_shutdown w w' :
  client_step w w' → f_shuttingDown (fw_factory w) = true →
  fw_goroutines w' = fw_goroutines w ∧ f_shuttingDown (fw_factory w') = true.
Proof.
  intros [t mk l w0 w1 Hmk Hi|site ch w0|w0|site ch w0|ch w0|i g inf w0 Hg Hp Hl
         |i x w0 Hx|i x w0 Hx Hpol Hcl] Hs; try done.
  - rewrite InformerFor_eq in Hi by done.
    by destruct (f_informers (fw_factory w0) !! t); injection Hi as <- <-.
  - unfold Start. by rewrite Hs.
Qed.

(** A goroutine that has not ended can go on once its channel is closed. *)
Lemma goroutine_enabled w g :
  factory_ok w → g ∈ fw_goroutines w → g_phase g ≠ Finished → g_stopCh g ∈ fw_closed w →
  ∃ w', goroutine_step w w'.
Proof.
  intros Hok Hg Hne Hc. destruct (fo_phase _ Hok g Hg) as (inf & Hinf & _).
  apply list_elem_of_lookup_1 in Hg as [i Hi]. unfold goroutine_step, goroutine_next.
  destruct (g_phase g) eqn:Hp; [..|done]; eexists _, i; rewrite Hi; simpl; rewrite Hinf; simpl;
    rewrite Hp; try done. by rewrite decide_True.
Qed.

Lemma active_nil gs : Forall (λ g, g_phase g = Finished) gs → active gs = [].
Proof.
  induction 1 as [|g gs Hg _ IH]; [done|]. unfold active in *. rewrite filter_cons_False; [done|].
  by intros ?.
Qed.
End invariant.

(** ** Properties *)

Section properties.
Context `{!MapRange}.

(** C24: However the factory is used, by any number of clients in any order, no
    informer is run twice: the goroutines are for different informers, one that
    is about to run finds its informer new, so that the warning of a second run
    is never reached, and the wait group counts the goroutines that have not
    ended. *)
Theorem informers_run_once f w :
  fresh_factory f → factory_reachable f w →
  NoDup (g_informer <$> fw_goroutines w) ∧
  f_wg (fw_factory w) = length (active (fw_goroutines w)) ∧
  (∀ i g, fw_goroutines w !! i = Some g → g_phase g = Spawned →
     goroutine_next i w = Some (move i Checked w)).
Proof.
  intros Hf Hr. pose proof (reachable_factory_ok f w Hf Hr) as Hok.
  split; [apply (fo_once _ Hok)|]. split; [apply (fo_wg _ Hok)|].
  intros i g Hg Hp. destruct (fo_phase _ Hok g) as (inf & Hinf & Hph);
    [by eapply list_elem_of_lookup_2|].
  unfold phase_ok in Hph. rewrite Hp in Hph. unfold goroutine_next. rewrite Hg. simpl.
  rewrite Hinf. simpl. by rewrite Hp, (proj1 Hph).
Qed.

(** There is one informer per type: once [InformerFor] has returned an
    informer, it returns the same for that type ever after, and makes no other,
    whatever the calls and the goroutines in between. *)
Lemma informer_shared f w t mk mk' l w1 w2 :
  fresh_factory f → factory_reachable f w →
  (∀ resync, new_informer (mk resync)) → (∀ resync, new_informer (mk' resync)) →
  InformerFor t (λ resync, alloc_informer (mk resync)) w = (Done l, w1) →
  rtc factory_step w1 w2 →
  InformerFor t (λ resync, alloc_informer (mk' resync)) w2 = (Done l, w2).
Proof.
  intros Hf Hr Hmk Hmk' Hi Hr2. pose proof (reachable_factory_ok f w Hf Hr) as Hok.
  assert (factory_ok w1) as Hok1.
  { eapply (factory_step_ok w); [|done]. right. by apply (step_InformerFor t mk l). }
  destruct (factory_steps_ok _ _ Hr2 Hok1) as [_ Hle].
  assert (f_informers (fw_factory w1) !! t = Some l) as Hl.
  { rewrite InformerFor_eq in Hi by done.
    destruct (f_informers (fw_factory w) !! t) eqn:Ht; injection Hi as <- <-; [done|].
    simpl. by rewrite lookup_insert_eq. }
  rewrite InformerFor_eq by done.
  by rewrite (lookup_weaken _ _ _ _ Hl (le_informers _ _ Hle)).
Qed.

(** [WaitForCacheSync] answers for exactly the informers that were started
    when it was called; it says true of one only if its cache has synced (and it
    is synced ever after), and false only if the stop channel is closed. *)
Lemma WaitForCacheSync_spec f w x :
  fresh_factory f → factory_reachable f w → x ∈ fw_waiters w → wt_pending x = [] →
  dom (wt_res x) = dom (wt_informers x) ∧
  ∀ t (b : bool), wt_res x !! t = Some b →
    ∃ l, f_informers (fw_factory w) !! t = Some l ∧
      if b then HasSynced <$> fw_heap w !! l = Some true else wt_stopCh x ∈ fw_closed w.
Proof.
  intros Hf Hr Hx Hp. pose proof (reachable_waiters_ok f w Hf Hr) as Hall.
  rewrite Forall_forall in Hall. destruct (Hall x Hx) as [Hs Hpend Hd Hres]. split.
  - apply set_eq. intros t. rewrite !elem_of_dom. split.
    + intros [b Hb]. destruct (Hres t b Hb) as (l & Hl & _). by eexists.
    + intros [l Hl]. destruct (Hd t l Hl) as [Hin|?]; [|done]. rewrite Hp in Hin.
      by apply elem_of_nil in Hin.
  - intros t b Hb. destruct (Hres t b Hb) as (l & Hl & Hb'). exists l. split; [|done].
    pose proof (lookup_weaken _ _ _ _ Hl Hs) as Hst. by apply started_lookup in Hst as [? _].
Qed.

(** [Shutdown] returns.  Once it has been called no informer is started any
    more; whatever else is called, the goroutines take at most three steps each
    from then on, and when their stop channels are closed they can take steps
    until the wait group is zero. *)
Lemma Shutdown_returns f w n w' :
  fresh_factory f → factory_reachable f w → f_shuttingDown (fw_factory w) = true →
  factory_run n w w' →
  n <= 3 * length (fw_goroutines w) ∧
  g_informer <$> fw_goroutines w' = g_informer <$> fw_goroutines w ∧
  (Forall (λ g, g_stopCh g ∈ fw_closed w') (fw_goroutines w') →
   (∃ w'', goroutine_step w' w'') ∨ f_wg (fw_factory w') = 0).
Proof.
  intros Hf Hr Hs Hrun. pose proof (reachable_factory_ok f w Hf Hr) as Hok. clear Hf Hr f.
  assert (factory_ok w' ∧ n + weight (fw_goroutines w') <= weight (fw_goroutines w) ∧
          g_informer <$> fw_goroutines w' = g_informer <$> fw_goroutines w) as (Hok' & Hw & Hg).
  { induction Hrun as [w|n w w1 w' Hc _ IH|n w w1 w' [i Hi] _ IH]; [done| |].
    - destruct (client_step_shutdown _ _ Hc Hs) as [Heq Hs1].
      rewrite <- Heq. apply IH; [done|]. by eapply client_step_ok.
    - destruct (goroutine_next_weight _ _ _ Hok Hi) as (Hwt & Hg & Hs1).
      destruct IH as (Hok' & Hwt' & Hg').
      + by rewrite Hs1.
      + by eapply goroutine_next_ok.
      + split; [done|]. split; [lia|]. by rewrite Hg'. }
  pose proof (weight_bound (fw_goroutines w)). split; [lia|]. split; [done|]. intros Hcl.
  destruct (decide (Forall (λ g, g_phase g = Finished) (fw_goroutines w'))) as [Hall|Hsome].
  - right. by rewrite (fo_wg _ Hok'), (active_nil _ Hall).
  - left. apply not_Forall_Exists in Hsome; [|apply _]. apply Exists_exists in Hsome as (g & Hin & Hne).
    rewrite Forall_forall in Hcl. by apply (goroutine_enabled w' g); [..|apply Hcl].
Qed.

(** The informer of managed resources that a factory makes lists and watches
    them in the namespace of the factory with the options of its reflector, put
    through the tweak of the factory; it has the index by namespace that the
    lister uses, the resync period and the transform set for it.
    [ForResource] gives the same informer for the resource of the API and
    refuses any other. *)
Lemma crd_Informer_spec w :
  let f := fw_factory w in
  f_informers f !! CRDType = None →
  ∃ w' inf, crd_Informer w = (Done (fw_next w), w') ∧
    fw_heap w' !! fw_next w = Some inf ∧
    (∀ options, inf_ListFunc inf options =
       rest_List (newCRDMetricsResources (f_namespace f)) (apply_tweak (f_tweakListOptions f) options)) ∧
    (∀ options, inf_WatchFunc inf options =
       rest_Watch (newCRDMetricsResources (f_namespace f)) (apply_tweak (f_tweakListOptions f) options)) ∧
    inf_indexers inf = [NamespaceIndex] ∧ inf_resyncPeriod inf = resync_of CRDType f ∧
    inf_transform inf = f_transform f ∧ inf_started inf = false ∧
    (∀ gvr, ∃ r, ForResource gvr w' = (Done r, w') ∧
       (gvr = GVR SchemeGroupVersion.1 SchemeGroupVersion.2 "crdmetricsresources" →
          r = Ok (MkGenericInformer (fw_next w) (gvr_Group gvr, gvr_Resource gvr))) ∧
       (gvr ≠ GVR SchemeGroupVersion.1 SchemeGroupVersion.2 "crdmetricsresources" →
          ∃ err, r = Err err)).
Proof.
  intros f Hn.
  set (mk := λ resync, NewFilteredCRDMetricsResourceInformer (f_namespace f) resync [NamespaceIndex]
               (f_tweakListOptions f)).
  assert (∀ w0, f_namespace (fw_factory w0) = f_namespace f →
    f_tweakListOptions (fw_factory w0) = f_tweakListOptions f →
    crd_Informer w0 = InformerFor CRDType (λ resync, alloc_informer (mk resync)) w0) as Hcrd.
  { intros w0 Hns Htw. unfold crd_Informer, mbind, M_bind, get, typed_Informer, defaultInformer. simpl.
    by rewrite Hns, Htw. }
  assert (∀ resync, new_informer (mk resync)) as Hmk by done.
  exists (added_informer CRDType (mk (resync_of CRDType f)) w).
  eexists. rewrite (Hcrd w), (InformerFor_eq _ _ _ Hmk) by done. fold f. rewrite Hn.
  split; [done|]. split; [simpl; by rewrite lookup_insert_eq|]. split_and!; try done.
  intros gvr. unfold ForResource.
  destruct (decide (gvr = GVR SchemeGroupVersion.1 SchemeGroupVersion.2 "crdmetricsresources"))
    as [->|Hne].
  - eexists. simpl. unfold mbind, M_bind. rewrite Hcrd, (InformerFor_eq _ _ _ Hmk) by done. simpl.
    rewrite lookup_insert_eq. by split_and!.
  - exists (Err ("no informer found for " +:+ gvr_String gvr)).
    assert (bool_decide (gvr_Group gvr = SchemeGroupVersion.1)
     && bool_decide (gvr_Version gvr = SchemeGroupVersion.2)
     && bool_decide (gvr_Resource gvr = "crdmetricsresources") = false) as ->.
    { apply not_true_is_false. rewrite !andb_true_iff, !bool_decide_eq_true.
      intros [[H1 H2] H3]. apply Hne. destruct gvr; simpl in *. by subst. }
    split_and!; [done|done|by eexists].
Qed.
(** Every lister reads the cache of the one informer of the factory, and
    asking for a lister before the informer makes that informer. *)
Lemma typed_Lister_shares w f l w' :
  typed_Lister f w = (Done l, w') →
  f_informers (fw_factory w') !! CRDType = Some l.2 ∧
  typed_Informer f w' = (Done l.2, w') ∧ typed_Lister f w' = (Done l, w').
Proof.
  unfold typed_Lister, typed_Informer, mbind, M_bind, mret, M_ret.
  set (mk := λ resync, NewFilteredCRDMetricsResourceInformer (ci_namespace f) resync [NamespaceIndex]
               (ci_tweakListOptions f)).
  assert (∀ resync, new_informer (mk resync)) as Hmk by done.
  change (defaultInformer f) with (λ resync, alloc_informer (mk resync)).
  assert (∀ w1 i, f_informers (fw_factory w1) !! CRDType = Some i →
    InformerFor CRDType (λ resync, alloc_informer (mk resync)) w1 = (Done i, w1)) as Hfor.
  { intros w1 i Hi. by rewrite (InformerFor_eq _ _ _ Hmk), Hi. }
  destruct (f_informers (fw_factory w) !! CRDType) as [i|] eqn:Hi.
  - rewrite (Hfor _ _ Hi). intros [= <- <-]. simpl. by rewrite (Hfor _ _ Hi).
  - rewrite (InformerFor_eq _ _ _ Hmk), Hi. intros [= <- <-].
    assert (f_informers (fw_factory (added_informer CRDType (mk (resync_of CRDType (fw_factory w))) w))
      !! CRDType = Some (fw_next w)) as Ha by (simpl; by rewrite lookup_insert_eq).
    rewrite Ha, (Hfor _ _ Ha). done.
Qed.
End properties.

(** ** Witnesses

    The life of the factory of the controller: its informer is made, started
    and synced, and the factory is shut down. *)
Module InformersExample.

Definition controller_factory : Factory := NewSharedInformerFactory 0.

Lemma controller_factory_fresh : fresh_factory controller_factory.
Proof. split; [reflexivity|split; reflexivity]. Qed.

Definition w_new : FWorld := new_world controller_factory.

Definition crd_mk (resync : Z) : Informer :=
  NewFilteredCRDMetricsResourceInformer "" resync [NamespaceIndex] None.

Definition next_or (o : option FWorld) (w : FWorld) : FWorld := default w o.

Definition w_made : FWorld := (crd_Informer w_new).2.
Definition w_started : FWorld := Start [] 7 w_made.
Definition w_checked : FWorld := next_or (goroutine_next 0 w_started) w_started.
Definition w_running : FWorld := next_or (goroutine_next 0 w_checked) w_checked.
Definition w_waiting : FWorld := WaitForCacheSync [] 7 w_running.
Definition w_synced : FWorld :=
  match fw_heap w_waiting !! 0 with
  | Some inf => set_informer 0 (sync_informer inf) w_waiting
  | None => w_waiting
  end.
Definition w_answered : FWorld :=
  match fw_waiters w_synced with
  | x :: _ => set_waiter 0 (wait_poll w_synced x) w_synced
  | [] => w_synced
  end.
Definition w_shutdown : FWorld := Shutdown w_answered.

Lemma w_made_reachable : factory_reachable controller_factory w_made.
Proof.
  apply rtc_once. right. apply (step_InformerFor CRDType crd_mk 0); [|reflexivity].
  intros resync. split; reflexivity.
Qed.

Lemma w_started_reachable : factory_reachable controller_factory w_started.
Proof. eapply rtc_r; [exact w_made_reachable|]. right. apply step_Start. Qed.

Lemma w_answered_reachable : factory_reachable controller_factory w_answered.
Proof.
  apply (rtc_r _ w_synced); [|right; eapply (step_poll 0); reflexivity].
  apply (rtc_r _ w_waiting);
    [|right; eapply (step_sync 0 (MkGoroutine 0 7 Running)); reflexivity].
  apply (rtc_r _ w_running); [|right; apply step_WaitForCacheSync].
  apply (rtc_r _ w_checked); [|left; exists 0; reflexivity].
  apply (rtc_r _ w_started); [|left; exists 0; reflexivity].
  exact w_started_reachable.
Qed.

Lemma w_shutdown_reachable : factory_reachable controller_factory w_shutdown.
Proof. eapply rtc_r; [exact w_answered_reachable|]. right. apply step_Shutdown. Qed.

Lemma informers_run_once_witness :
  NoDup (g_informer <$> fw_goroutines w_started) ∧
  f_wg (fw_factory w_started) = length (active (fw_goroutines w_started)) ∧
  (∀ i g, fw_goroutines w_started !! i = Some g → g_phase g = Spawned →
     goroutine_next i w_started = Some (move i Checked w_started)).
Proof.
  apply (informers_run_once controller_factory);
    [exact controller_factory_fresh|exact w_started_reachable].
Defined.

Lemma informer_shared_witness :
  InformerFor CRDType (λ resync, alloc_informer (crd_mk resync)) w_started = (Done 0, w_started).
Proof.
  apply (informer_shared controller_factory w_new CRDType crd_mk crd_mk 0 w_made w_started).
  - exact controller_factory_fresh.
  - apply rtc_refl.
  - intros resync. split; reflexivity.
  - intros resync. split; reflexivity.
  - reflexivity.
  - apply rtc_once. right. apply step_Start.
Defined.

Lemma WaitForCacheSync_spec_witness :
  ∃ x, fw_waiters w_answered = [x] ∧ wt_res x !! CRDType = Some true ∧
    ∃ l, f_informers (fw_factory w_answered) !! CRDType = Some l ∧
      HasSynced <$> fw_heap w_answered !! l = Some true.
Proof.
  eexists. split; [reflexivity|]. split; [reflexivity|].
  refine (proj2 (WaitForCacheSync_spec controller_factory w_answered _
    controller_factory_fresh w_answered_reachable _ _) CRDType true _).
  - left.
  - reflexivity.
  - reflexivity.
Defined.

Lemma Shutdown_returns_witness :
  ∃ w', factory_run 1 w_shutdown w' ∧ 1 <= 3 * length (fw_goroutines w_shutdown) ∧
    f_wg (fw_factory w') = 0.
Proof.
  eexists. split; [|split].
  - eapply run_client; [apply (step_close 7)|].
    eapply run_goroutine; [exists 0; reflexivity|]. apply run_refl.
  - refine (proj1 (Shutdown_returns controller_factory w_shutdown 1 _
      controller_factory_fresh w_shutdown_reachable _ _)).
    + reflexivity.
    + eapply run_client; [apply (step_close 7)|].
      eapply run_goroutine; [exists 0; reflexivity|]. apply run_refl.
  - reflexivity.
Defined.

Lemma crd_Informer_spec_witness :
  ∃ w' inf, crd_Informer w_new = (Done 0, w') ∧ fw_heap w' !! 0 = Some inf ∧
    inf_indexers inf = [NamespaceIndex].
Proof.
  destruct (crd_Informer_spec w_new) as (w' & inf & H1 & H2 & _ & _ & H3 & _).
  - reflexivity.
  - exists w', inf. split; [exact H1|]. split; [exact H2|exact H3].
Defined.
End InformersExample.
