(* ===== verification/Heap.v ===== *)
(** * Binary heaps ([container/heap])

    The heap of Go's library over its interface, as the delaying queue uses it.
    The functions only see [Len], [Less], [Swap], [Push] and [Pop]; the class of
    laws says what these do to the elements, and the theorems about the heap
    are proved against it. *)
From S2P Require Import Prelude.

(** ** The interface and the functions *)

(** [heap.Interface]; [None] is the panic of [Pop] on an empty slice. *)
Class heap_Interface (H E : Type) : Type := {
  Len : H → nat;
  Less : nat → nat → H → bool;
  Swap : nat → nat → H → H;
  Push : E → H → H;
  Pop : H → option (E * H);
}.

Definition parent (j : nat) : nat := (j - 1) / 2.

Section heap.
Context {H E : Type} `{!heap_Interface H E}.

(** [up]: [S j] rounds are enough, since [j] decreases. *)
Fixpoint up_loop (fuel j : nat) (h : H) : H :=
  match fuel with
  | 0 => h
  | S fuel =>
    let i := parent j in
    if bool_decide (i = j) || negb (Less j i h) then h
    else up_loop fuel i (Swap i j h)
  end.

Definition up (j : nat) (h : H) : H := up_loop (S j) j h.

(** [down]: [n] rounds are enough, since [i] increases; it returns whether [i0]
    has moved. *)
Fixpoint down_loop (fuel i n : nat) (h : H) : nat * H :=
  match fuel with
  | 0 => (i, h)
  | S fuel =>
    let j1 := 2 * i + 1 in
    if n <=? j1 then (i, h)
    else
      let j2 := j1 + 1 in
      let j := if (j2 <? n) && Less j2 j1 h then j2 else j1 in
      if negb (Less j i h) then (i, h)
      else down_loop fuel j n (Swap i j h)
  end.

Definition down (i0 n : nat) (h : H) : bool * H :=
  let '(i, h) := down_loop n i0 n h in (i0 <? i, h).

(** [heap.Push], [heap.Pop] and [heap.Fix]. *)
Definition heap_Push (x : E) (h : H) : H :=
  let h := Push x h in up (Len h - 1) h.

Definition heap_Pop (h : H) : option (E * H) :=
  if Len h =? 0 then None
  else
    let n := Len h - 1 in
    let h := Swap 0 n h in
    let '(_, h) := down 0 n h in
    Pop h.

Definition heap_Fix (i : nat) (h : H) : H :=
  let '(moved, h) := down i (Len h) h in
  if moved then h else up i h.
End heap.

(** ** The laws

    A heap holds a list of elements, whose keys depend on a part [rest] of the
    heap that moving them leaves alone. *)
Class HeapLaws (H E R : Type) `{!heap_Interface H E} : Type := {
  elems : H → list E;
  rest : H → R;
  key : R → E → Z;
  heap_inv : H → Prop;
  pushable : E → H → Prop;
  Len_elems h : Len h = length (elems h);
  Less_key h i j x y :
    elems h !! i = Some x → elems h !! j = Some y →
    Less i j h = (key (rest h) x <? key (rest h) y)%Z;
  Swap_elems h i j x y :
    heap_inv h → elems h !! i = Some x → elems h !! j = Some y →
    heap_inv (Swap i j h) ∧ rest (Swap i j h) = rest h ∧
    elems (Swap i j h) = <[i := y]> (<[j := x]> (elems h));
  Push_elems h x :
    heap_inv h → pushable x h →
    heap_inv (Push x h) ∧ rest (Push x h) = rest h ∧ elems (Push x h) = elems h ++ [x];
  Pop_elems h l x :
    heap_inv h → elems h = l ++ [x] →
    ∃ h', Pop h = Some (x, h') ∧ heap_inv h' ∧ rest h' = rest h ∧ elems h' = l;
}.

(** ** The order, on the keys by position *)

Definition heap_on (n : nat) (k : nat → Z) : Prop :=
  ∀ x, 0 < x < n → (k (parent x) <= k x)%Z.

(** The order but at [i]: above it, below it, or both. *)
Definition heap_but_above (n : nat) (k : nat → Z) (i : nat) : Prop :=
  (∀ x, 0 < x < n → x ≠ i → (k (parent x) <= k x)%Z) ∧
  (∀ x, 0 < x < n → parent x = i → 0 < i → (k (parent i) <= k x)%Z).

Definition heap_but (n : nat) (k : nat → Z) (i : nat) : Prop :=
  (∀ x, 0 < x < n → x ≠ i → parent x ≠ i → (k (parent x) <= k x)%Z) ∧
  (∀ x, 0 < x < n → parent x = i → 0 < i → (k (parent i) <= k x)%Z).

Definition heap_but_below (n : nat) (k : nat → Z) (i : nat) : Prop :=
  (∀ x, 0 < x < n → parent x ≠ i → (k (parent x) <= k x)%Z) ∧
  (∀ x, 0 < x < n → parent x = i → 0 < i → (k (parent i) <= k x)%Z).

Definition swapped (i j : nat) (k : nat → Z) : nat → Z := λ x,
  if decide (x = i) then k j else if decide (x = j) then k i else k x.

Lemma parent_lt x : 0 < x → parent x < x.
Proof. intros Hx. unfold parent. apply Nat.Div0.div_lt_upper_bound. lia. Qed.

Lemma parent_children x i : 0 < x → parent x = i ↔ x = 2 * i + 1 ∨ x = 2 * i + 2.
Proof.
  intros Hx. unfold parent. pose proof (Nat.div_mod (x - 1) 2 ltac:(done)) as Hd.
  pose proof (Nat.mod_upper_bound (x - 1) 2 ltac:(done)). lia.
Qed.

Lemma heap_but_below_but n k i : heap_but_below n k i → heap_but n k i.
Proof. intros [H1 H2]. split; auto. Qed.

Lemma heap_but_above_but n k i : heap_but_above n k i → heap_but n k i.
Proof. intros [H1 H2]. split; auto. Qed.

(** The root is the least. *)
Lemma heap_on_root n k x : heap_on n k → x < n → (k 0%nat <= k x)%Z.
Proof.
  intros Hk. induction x as [x IH] using lt_wf_ind. intros Hx.
  destruct (decide (x = 0)) as [->|Hne]; [done|].
  pose proof (parent_lt x ltac:(lia)). etrans; [apply (IH (parent x)); lia|]. apply Hk. lia.
Qed.

(** What a swap with the parent does. *)
Ltac swapped_cases :=
  unfold swapped; repeat (case_decide; simplify_eq; try lia);
  try match goal with Hp : parent _ = _ |- _ => rewrite Hp in *; lia end; auto with lia.

Lemma up_swap n k j :
  heap_but_above n k j → 0 < j < n → (k j < k (parent j))%Z →
  heap_but_above n (swapped (parent j) j k) (parent j).
Proof.
  intros [H1 H2] Hj Hlt. pose proof (parent_lt j ltac:(lia)) as Hp. split.
  - intros x Hx Hne. pose proof (parent_lt x ltac:(lia)).
    destruct (decide (x = j)) as [->|Hxj]; [swapped_cases|].
    specialize (H1 x Hx Hxj). specialize (H2 x Hx). swapped_cases.
  - intros x Hx Hpx Hpos. pose proof (parent_lt (parent j) Hpos).
    pose proof (H1 (parent j) ltac:(lia) ltac:(lia)) as Hpp.
    destruct (decide (x = j)) as [->|Hxj]; [swapped_cases|].
    specialize (H1 x Hx Hxj). pose proof (parent_lt x ltac:(lia)). rewrite Hpx in H1. swapped_cases.
Qed.

Lemma up_stop n k j :
  heap_but_above n k j → (0 < j → (k (parent j) <= k j)%Z) → heap_on n k.
Proof.
  intros [H1 _] Hj x Hx. destruct (decide (x = j)) as [->|Hne]; [apply Hj; lia|auto].
Qed.

(** A swap with the least child. *)
Lemma down_swap n k i j :
  heap_but n k i → 0 < j < n → parent j = i →
  (∀ x, 0 < x < n → parent x = i → (k j <= k x)%Z) → (k j < k i)%Z →
  heap_but_below n (swapped i j k) j.
Proof.
  intros [H1 H2] Hj Hpj Hmin Hlt. pose proof (parent_lt j ltac:(lia)) as Hp. rewrite Hpj in Hp. split.
  - intros x Hx Hpx. pose proof (parent_lt x ltac:(lia)).
    destruct (decide (x = j)) as [->|Hxj]; [rewrite Hpj; swapped_cases|].
    destruct (decide (parent x = i)) as [Hxi|Hxi].
    + specialize (Hmin x Hx Hxi). rewrite Hxi. swapped_cases.
    + destruct (decide (x = i)) as [->|Hxi'].
      * specialize (H2 j Hj Hpj ltac:(lia)). swapped_cases.
      * specialize (H1 x Hx Hxi' Hxi). swapped_cases.
  - intros x Hx Hpx Hpos. pose proof (parent_lt x ltac:(lia)).
    assert (k (parent x) <= k x)%Z by (apply H1; lia). rewrite Hpj. rewrite Hpx in *. swapped_cases.
Qed.

Lemma down_stop n k i :
  heap_but_below n k i → (∀ x, 0 < x < n → parent x = i → (k i <= k x)%Z) → heap_on n k.
Proof.
  intros [H1 _] Hi x Hx. destruct (decide (parent x = i)) as [Hp|Hne]; [rewrite Hp|]; auto.
Qed.

Lemma down_stop_above n k i :
  heap_but n k i → (∀ x, 0 < x < n → parent x = i → (k i <= k x)%Z) → heap_but_above n k i.
Proof.
  intros [H1 H2] Hi. split; [|done]. intros x Hx Hne.
  destruct (decide (parent x = i)) as [Hp|Hp]; [rewrite Hp|]; auto.
Qed.

#[export] Instance heap_on_proper n : Proper (pointwise_relation nat eq ==> impl) (heap_on n).
Proof. intros k k' Hk Hon x Hx. rewrite <- !Hk. auto. Qed.

#[export] Instance heap_but_above_proper n :
  Proper (pointwise_relation nat eq ==> eq ==> impl) (heap_but_above n).
Proof. intros k k' Hk i ? <- [H1 H2]. split; intros; rewrite <- !Hk; auto. Qed.

#[export] Instance heap_but_below_proper n :
  Proper (pointwise_relation nat eq ==> eq ==> impl) (heap_but_below n).
Proof. intros k k' Hk i ? <- [H1 H2]. split; intros; rewrite <- !Hk; auto. Qed.

Lemma swap_Permutation {A} (l : list A) i j x y :
  l !! i = Some x → l !! j = Some y → <[i := y]> (<[j := x]> l) ≡ₚ l.
Proof.
  intros Hi Hj. pose proof (lookup_lt_Some _ _ _ Hi). pose proof (lookup_lt_Some _ _ _ Hj).
  apply Permutation_inj. split; [by rewrite !length_insert|].
  exists (λ a, if decide (a = i) then j else if decide (a = j) then i else a). split.
  - intros a b. repeat case_decide; congruence.
  - intros a. destruct (decide (a = i)) as [->|Ha].
    + by rewrite list_lookup_insert_eq, Hj by (by rewrite length_insert).
    + rewrite list_lookup_insert_ne by done. destruct (decide (a = j)) as [->|Hb].
      * by rewrite list_lookup_insert_eq, Hi.
      * by rewrite list_lookup_insert_ne.
Qed.

(** ** The functions keep the order *)
Section laws.
Context {H E R : Type} `{!heap_Interface H E} `{!HeapLaws H E R}.

(** The key at a position. *)
Definition at_pos (h : H) (i : nat) : Z := default 0%Z (key (rest h) <$> elems h !! i).

Definition ordered (h : H) : Prop := heap_on (Len h) (at_pos h).

(** The elements have only been moved. *)
Record moved (h h' : H) : Prop := {
  moved_inv : heap_inv h';
  moved_rest : rest h' = rest h;
  moved_elems : elems h' ≡ₚ elems h;
}.

Lemma moved_refl h : heap_inv h → moved h h.
Proof. by split. Qed.

Lemma moved_trans h1 h2 h3 : moved h1 h2 → moved h2 h3 → moved h1 h3.
Proof. intros [] []. split; [done|congruence|]. by etrans. Qed.

Lemma moved_Len h h' : moved h h' → Len h' = Len h.
Proof. intros []. rewrite !Len_elems. by apply Permutation_length. Qed.

Lemma elems_at h i : i < Len h → ∃ x, elems h !! i = Some x ∧ at_pos h i = key (rest h) x.
Proof.
  rewrite Len_elems. intros [x Hx]%lookup_lt_is_Some. exists x. unfold at_pos. by rewrite Hx.
Qed.

Lemma Less_at h i j : i < Len h → j < Len h → Less i j h = (at_pos h i <? at_pos h j)%Z.
Proof.
  intros (x & Hx & ->)%elems_at (y & Hy & ->)%elems_at. by apply Less_key.
Qed.

Lemma Swap_at h i j :
  heap_inv h → i < Len h → j < Len h →
  moved h (Swap i j h) ∧ pointwise_relation nat eq (at_pos (Swap i j h)) (swapped i j (at_pos h)) ∧
  elems (Swap i j h) !! j = elems h !! i ∧
  ∀ x, x ≠ i → x ≠ j → elems (Swap i j h) !! x = elems h !! x.
Proof.
  intros Hinv Hi Hj. pose proof Hi as Hi'. pose proof Hj as Hj'. rewrite Len_elems in Hi', Hj'.
  apply elems_at in Hi as (x & Hx & Hkx), Hj as (y & Hy & Hky).
  destruct (Swap_elems h i j x y Hinv Hx Hy) as (Hinv' & Hr & He). split_and!.
  - split; [done|done|]. rewrite He. by apply swap_Permutation.
  - intros a. unfold swapped. rewrite Hkx, Hky. unfold at_pos. rewrite Hr, He.
    case_decide as Ha; [subst a|rewrite list_lookup_insert_ne by done; case_decide as Hb].
    + by rewrite list_lookup_insert_eq by (by rewrite length_insert).
    + subst a. by rewrite list_lookup_insert_eq.
    + by rewrite list_lookup_insert_ne.
  - rewrite He, Hx. destruct (decide (i = j)) as [->|Hne].
    + rewrite list_lookup_insert_eq by (by rewrite length_insert). congruence.
    + by rewrite list_lookup_insert_ne, list_lookup_insert_eq.
  - intros a Hai Haj. by rewrite He, !list_lookup_insert_ne.
Qed.

Lemma up_spec j h :
  heap_inv h → j < Len h → heap_but_above (Len h) (at_pos h) j →
  moved h (up j h) ∧ ordered (up j h).
Proof.
  unfold up. assert (j < S j) as Hf by lia. revert Hf. generalize (S j) as fuel. intros fuel.
  revert j h. induction fuel as [|fuel IH]; intros j h Hf Hinv Hj Hbut; [lia|]. simpl.
  assert (parent j <= j) as Hp.
  { destruct (decide (j = 0)) as [->|]; [done|]. pose proof (parent_lt j). lia. }
  destruct (bool_decide (parent j = j) || negb (Less j (parent j) h)) eqn:Hb.
  - split; [by apply moved_refl|]. eapply up_stop; [done|]. intros Hpos.
    apply orb_true_iff in Hb as [Hb|Hb].
    + apply bool_decide_eq_true in Hb. pose proof (parent_lt j). lia.
    + rewrite Less_at in Hb by lia. apply negb_true_iff, Z.ltb_ge in Hb. done.
  - apply orb_false_iff in Hb as [Hne Hlt]. apply bool_decide_eq_false in Hne.
    assert (0 < j) as Hpos by (destruct j; [done|lia]).
    rewrite Less_at in Hlt by lia. apply negb_false_iff, Z.ltb_lt in Hlt.
    destruct (Swap_at h (parent j) j Hinv) as (Hm & Hat & _); [lia|done|].
    pose proof (moved_Len _ _ Hm) as HL.
    destruct (IH (parent j) (Swap (parent j) j h)) as [Hm' Ho]; [lia|apply Hm|lia| |].
    + rewrite HL, Hat. by apply up_swap.
    + split; [by eapply moved_trans|done].
Qed.

(** The child that [down] compares with is the least. *)
Lemma least_child n h i :
  2 * i + 1 < n → n <= Len h →
  let j1 := 2 * i + 1 in
  let j := if (j1 + 1 <? n) && Less (j1 + 1) j1 h then j1 + 1 else j1 in
  0 < j < n ∧ parent j = i ∧ i < j ∧
  ∀ x, 0 < x < n → parent x = i → (at_pos h j <= at_pos h x)%Z.
Proof.
  intros Hn HL j1 j.
  assert ((j = j1 + 1 ∧ j1 + 1 < n ∧ (at_pos h (j1 + 1) <= at_pos h j1)%Z) ∨
          (j = j1 ∧ (j1 + 1 < n → (at_pos h j1 <= at_pos h (j1 + 1))%Z))) as Hj.
  { unfold j. destruct (Nat.ltb_spec (j1 + 1) n); simpl; [|right; split; [done|lia]].
    rewrite Less_at by (unfold j1; lia).
    destruct (Z.ltb_spec (at_pos h (j1 + 1)) (at_pos h j1)); [left|right]; split_and!; auto with lia. }
  clearbody j. split; [unfold j1 in *; lia|]. split; [apply parent_children; unfold j1 in *; lia|].
  split; [unfold j1 in *; lia|]. intros x Hx Hp. apply parent_children in Hp; [|lia].
  assert (x = j1 ∨ x = j1 + 1) as [-> | ->] by (unfold j1; lia); destruct Hj as [(-> & ? & ?)|[-> Hj]];
    auto with lia.
Qed.

(** [down] moves what is at [i], and then the order holds, or leaves it there,
    below its children. *)
Lemma down_loop_spec fuel n i h :
  n - i <= fuel → heap_inv h → n <= Len h → heap_but n (at_pos h) i →
  let '(i', h') := down_loop fuel i n h in
  moved h h' ∧ i <= i' ∧ (∀ x, n <= x → elems h' !! x = elems h !! x) ∧
  (i' = i → h' = h ∧ ∀ x, 0 < x < n → parent x = i → (at_pos h i <= at_pos h x)%Z) ∧
  (i < i' → heap_on n (at_pos h')).
Proof.
  revert i h. induction fuel as [|fuel IH]; intros i h Hf Hinv HL Hbut; cbn [down_loop].
  { split; [by apply moved_refl|]. split_and!; [done|done| |lia]. intros _. split; [done|].
    intros x Hx Hp%parent_children; lia. }
  destruct (Nat.leb_spec n (2 * i + 1)) as [Hn|Hn].
  { split; [by apply moved_refl|]. split_and!; [done|done| |lia]. intros _. split; [done|].
    intros x Hx Hp%parent_children; lia. }
  destruct (least_child n h i Hn HL) as (Hj & Hp & Hij & Hmin). cbv zeta in *.
  set (j := if (2 * i + 1 + 1 <? n) && Less (2 * i + 1 + 1) (2 * i + 1) h
            then 2 * i + 1 + 1 else 2 * i + 1) in *. clearbody j.
  rewrite Less_at by lia. destruct (Z.ltb_spec (at_pos h j) (at_pos h i)) as [Hlt|Hle]; simpl.
  - destruct (Swap_at h i j Hinv) as (Hm & Hat & _ & Hother); [lia..|].
    assert (heap_but_below n (at_pos (Swap i j h)) j) as Hbelow.
    { rewrite Hat. by apply down_swap. }
    specialize (IH j (Swap i j h) ltac:(lia) (moved_inv _ _ Hm)).
    rewrite (moved_Len _ _ Hm) in IH. specialize (IH HL (heap_but_below_but _ _ _ Hbelow)).
    destruct (down_loop fuel j n (Swap i j h)) as [i' h'].
    destruct IH as (Hm' & Hji & Helems & Hstay & Hon). split; [by eapply moved_trans|].
    split; [lia|]. split; [intros x Hx; rewrite Helems, Hother by lia; done|]. split; [lia|].
    intros _. destruct (decide (i' = j)) as [->|Hne]; [|apply Hon; lia].
    destruct (Hstay eq_refl) as [-> Hleast]. by eapply down_stop.
  - split; [by apply moved_refl|]. split_and!; [done|done| |lia]. intros _. split; [done|].
    intros x Hx Hpx. etrans; [exact Hle|]. by apply Hmin.
Qed.

Lemma heap_Fix_spec i h :
  heap_inv h → i < Len h → heap_but (Len h) (at_pos h) i →
  moved h (heap_Fix i h) ∧ ordered (heap_Fix i h).
Proof.
  intros Hinv Hi Hbut. unfold heap_Fix, down.
  pose proof (down_loop_spec (Len h) (Len h) i h ltac:(lia) Hinv ltac:(lia) Hbut) as Hd.
  destruct (down_loop _ _ _ _) as [i' h']. destruct Hd as (Hm & Hle & _ & Hstay & Hon).
  destruct (Nat.ltb_spec i i') as [Hlt|Hge].
  - split; [done|]. unfold ordered. rewrite (moved_Len _ _ Hm). auto.
  - destruct Hstay as [-> Hleast]; [lia|]. apply up_spec; [done..|]. by apply down_stop_above.
Qed.

Lemma heap_Push_spec x h :
  heap_inv h → pushable x h → ordered h →
  heap_inv (heap_Push x h) ∧ rest (heap_Push x h) = rest h ∧
  elems (heap_Push x h) ≡ₚ x :: elems h ∧ ordered (heap_Push x h).
Proof.
  intros Hinv Hx Ho. unfold heap_Push.
  destruct (Push_elems h x Hinv Hx) as (Hinv' & Hr & He).
  assert (Len (Push x h) = S (Len h)) as HL.
  { rewrite !Len_elems, He, length_app. simpl. lia. }
  assert (∀ a, a < Len h → at_pos (Push x h) a = at_pos h a) as Hat.
  { intros a Ha. rewrite Len_elems in Ha. unfold at_pos. by rewrite Hr, He, lookup_app_l. }
  rewrite HL. replace (S (Len h) - 1) with (Len h) by lia.
  destruct (up_spec (Len h) (Push x h) Hinv') as [[Hi' Hr' He'] Ho']; [lia| |].
  - rewrite HL. split.
    + intros a Ha Hne. pose proof (parent_lt a ltac:(lia)). rewrite !Hat by lia. apply Ho. lia.
    + intros a Ha Hp. pose proof (parent_lt a ltac:(lia)). lia.
  - split_and!; [done|by rewrite Hr'| |done]. rewrite He', He. symmetry. apply Permutation_cons_append.
Qed.

(** The first element is the least. *)
Lemma ordered_first h x y :
  ordered h → elems h !! 0 = Some x → y ∈ elems h → (key (rest h) x <= key (rest h) y)%Z.
Proof.
  intros Ho Hx [b Hy]%list_elem_of_lookup. pose proof (lookup_lt_Some _ _ _ Hy) as Hb.
  rewrite <- Len_elems in Hb. pose proof (heap_on_root _ _ b Ho Hb) as Hroot.
  unfold at_pos in Hroot. by rewrite Hx, Hy in Hroot.
Qed.
(** [heap.Pop] gives the least element. *)
Lemma heap_Pop_spec h :
  heap_inv h → ordered h → 0 < Len h →
  ∃ x h', heap_Pop h = Some (x, h') ∧ heap_inv h' ∧ rest h' = rest h ∧
    elems h !! 0 = Some x ∧ elems h ≡ₚ x :: elems h' ∧ ordered h' ∧
    ∀ y, y ∈ elems h → (key (rest h) x <= key (rest h) y)%Z.
Proof.
  intros Hinv Ho Hpos. unfold heap_Pop, down. set (n := Len h - 1).
  destruct (Nat.eqb_spec (Len h) 0); [lia|].
  destruct (Swap_at h 0 n Hinv) as (Hm & Hat & Hlast & _); [lia..|].
  assert (heap_but n (at_pos (Swap 0 n h)) 0) as Hbut.
  { split; [|lia]. intros x Hx Hx0 Hpx. rewrite !Hat. pose proof (parent_lt x ltac:(lia)).
    specialize (Ho x ltac:(lia)). swapped_cases. }
  pose proof (down_loop_spec n n 0 (Swap 0 n h) ltac:(lia) (moved_inv _ _ Hm)) as Hd.
  rewrite (moved_Len _ _ Hm) in Hd. specialize (Hd ltac:(lia) Hbut).
  destruct (down_loop _ _ _ _) as [i' h1]. destruct Hd as (Hm1 & _ & Hfix & Hstay & Hon).
  assert (heap_on n (at_pos h1)) as Hon1.
  { destruct (decide (0 < i')); [auto|]. destruct Hstay as [-> Hleast]; [lia|].
    intros x Hx. destruct (decide (parent x = 0)) as [Hpx|Hpx]; [rewrite Hpx; auto|].
    apply Hbut; [done|lia|done]. }
  pose proof (moved_trans _ _ _ Hm Hm1) as Hall. pose proof (moved_Len _ _ Hall) as HL.
  destruct (elems_at h 0 Hpos) as (x & Hx & Hkx).
  assert (elems h1 !! n = Some x) as Hx1 by (by rewrite Hfix, Hlast).
  destruct (elems h1) as [|y l _] eqn:He using rev_ind; [done|].
  rewrite Len_elems, He, length_app in HL. simpl in HL.
  assert (y = x) as ->.
  { assert (n = length l) as Hnl by lia. rewrite Hnl, lookup_app_r, Nat.sub_diag in Hx1 by lia. by injection Hx1. }
  destruct (Pop_elems h1 l x (moved_inv _ _ Hall) He) as (h2 & -> & Hinv2 & Hr2 & He2).
  assert (rest h2 = rest h) as Hr by (rewrite Hr2; apply Hall).
  exists x, h2. split_and!; try done.
  - rewrite He2, <- (moved_elems _ _ Hall), He. symmetry. apply Permutation_cons_append.
  - unfold ordered. rewrite Len_elems, He2. intros a Ha. pose proof (parent_lt a ltac:(lia)).
    assert (∀ b, b < length l → at_pos h2 b = at_pos h1 b) as Hsame.
    { intros b Hb. unfold at_pos. by rewrite Hr2, He2, He, lookup_app_l. }
    rewrite !Hsame by lia. apply Hon1. lia.
  - intros z. by apply ordered_first.
Qed.

End laws.
