(* ===== verification/Workqueue.v ===== *)
(** * The work queue ([vendor/k8s.io/client-go/util/workqueue])

    The queue that [NewController] builds: the deduplicating queue
    ([queue.go]), the retries that wait for their delay
    ([delaying_queue.go]), and the two rate limiters
    ([default_rate_limiters.go]) with the parameters of the controller.  Every
    method holds the lock of the queue, so each is one step.  The token bucket
    depends on the wall clock: its delay is an argument. *)
From S2P Require Import Prelude.

(** ** Data *)

(** [[2]string]: a key and the name of an event. *)
Definition item : Type := string * string.

Record queue : Type := MkQueue {
  q_queue : list item;
  q_dirty : gset item;
  q_processing : gset item;
  q_shuttingDown : bool;
  q_waiting : list (item * Z);
  q_failures : gmap item nat;
}.

Definition newQueue : queue := MkQueue [] ∅ ∅ false [] ∅.

(** ** [queue.go] *)

(** [Add]; the [Touch] of the default queue does nothing. *)
Definition Add (x : item) (q : queue) : queue :=
  if q_shuttingDown q then q
  else if decide (x ∈ q_dirty q) then q
  else if decide (x ∈ q_processing q) then
    MkQueue (q_queue q) ({[x]} ∪ q_dirty q) (q_processing q) (q_shuttingDown q)
      (q_waiting q) (q_failures q)
  else
    MkQueue (q_queue q ++ [x]) ({[x]} ∪ q_dirty q) (q_processing q) (q_shuttingDown q)
      (q_waiting q) (q_failures q).

(** [Get] blocks, reports the shutdown, or takes the first item. *)
Inductive got : Type :=
| Blocked
| Shutdown
| Item (x : item) (q : queue).

Definition Get (q : queue) : got :=
  match q_queue q with
  | [] => if q_shuttingDown q then Shutdown else Blocked
  | x :: rest =>
    Item x (MkQueue rest (q_dirty q ∖ {[x]}) ({[x]} ∪ q_processing q) (q_shuttingDown q)
              (q_waiting q) (q_failures q))
  end.

(** [Done]. *)
Definition Finish (x : item) (q : queue) : queue :=
  if decide (x ∈ q_dirty q) then
    MkQueue (q_queue q ++ [x]) (q_dirty q) (q_processing q ∖ {[x]}) (q_shuttingDown q)
      (q_waiting q) (q_failures q)
  else
    MkQueue (q_queue q) (q_dirty q) (q_processing q ∖ {[x]}) (q_shuttingDown q)
      (q_waiting q) (q_failures q).

(** [ShutDown]. *)
Definition ShutDown (q : queue) : queue :=
  MkQueue (q_queue q) (q_dirty q) (q_processing q) true (q_waiting q) (q_failures q).

(** ** Rate limiters *)

Definition Millisecond : Z := 1000000.
Definition Minute : Z := 60 * 1000 * Millisecond.
Definition MaxInt64 : Z := 2 ^ 63 - 1.

Definition baseDelay : Z := 5 * Millisecond.
Definition maxDelay : Z := 5 * Minute.

(** The exponential backoff after [exp] failures.  [float64(baseDelay)] times a
    power of two is exact, and its comparison with [MaxInt64], which rounds to
    [2^63], is that of the integers: no such product is [2^63]. *)
Definition backoff (exp : nat) : Z :=
  let backoff := (baseDelay * 2 ^ Z.of_nat exp)%Z in
  if (2 ^ 63 <? backoff)%Z then maxDelay
  else if (maxDelay <? backoff)%Z then maxDelay
  else backoff.

Definition NumRequeues (x : item) (q : queue) : nat := default 0 (q_failures q !! x).

Definition set_failures (f : gmap item nat) (q : queue) : queue :=
  MkQueue (q_queue q) (q_dirty q) (q_processing q) (q_shuttingDown q) (q_waiting q) f.

Definition set_waiting (w : list (item * Z)) (q : queue) : queue :=
  MkQueue (q_queue q) (q_dirty q) (q_processing q) (q_shuttingDown q) w (q_failures q).

(** [When] of the maximum of the two limiters; [bucket] is the delay of the
    token bucket. *)
Definition When (bucket : Z) (x : item) (q : queue) : Z * queue :=
  let exp := NumRequeues x q in
  (Z.max (backoff exp) bucket, set_failures (<[x := S exp]> (q_failures q)) q).

(** [Forget]. *)
Definition Forget (x : item) (q : queue) : queue := set_failures (delete x (q_failures q)) q.

(** ** [delaying_queue.go] *)

(** [AddAfter]: the item joins those that wait. *)
Definition AddAfter (x : item) (duration : Z) (q : queue) : queue :=
  if q_shuttingDown q then q
  else if (duration <=? 0)%Z then Add x q
  else set_waiting (q_waiting q ++ [(x, duration)]) q.

Definition AddRateLimited (bucket : Z) (x : item) (q : queue) : queue :=
  let '(duration, q) := When bucket x q in
  AddAfter x duration q.

(** A step of [waitingLoop]: the waiting entry [i] is ready, whenever that is. *)
Definition fire (i : nat) (q : queue) : queue :=
  match q_waiting q !! i with
  | Some (x, _) => Add x (set_waiting (delete i (q_waiting q)) q)
  | None => q
  end.

(** ** The queue as a transition system

    [Add] is a call of an informer handler, for any item, at any time; the
    additions of [waitingLoop] are [fire].  This is for the invariants: every
    state that the program can bring the queue to is reachable here.  What the
    goroutine may add, and when, is in [Delaying], whose specification
    [timed_loop] has no such [Add]. *)

Inductive queue_step : queue → queue → Prop :=
| step_Add x q : queue_step q (Add x q)
| step_Get x q q' : Get q = Item x q' → queue_step q q'
| step_Finish x q : x ∈ q_processing q → queue_step q (Finish x q)
| step_ShutDown q : queue_step q (ShutDown q)
| step_AddRateLimited bucket x q : queue_step q (AddRateLimited bucket x q)
| step_Forget x q : queue_step q (Forget x q)
| step_fire i q : queue_step q (fire i q).

(** The invariant that [queue.go] documents: the queue lists, once each, the
    items that need processing and are not being processed. *)
Definition queue_ok (q : queue) : Prop :=
  NoDup (q_queue q) ∧
  ∀ x, x ∈ q_queue q ↔ x ∈ q_dirty q ∧ x ∉ q_processing q.

(** ** Lemmas *)

Lemma Add_ok x q : queue_ok q → queue_ok (Add x q).
Proof.
  intros [Hnd Hq]. unfold Add. destruct (q_shuttingDown q); [done|].
  case_decide as Hd; [done|]. case_decide as Hp; (split; simpl; [|]).
  - done.
  - intros y. rewrite Hq. set_solver.
  - apply NoDup_app. split; [done|]. split; [|apply NoDup_singleton].
    intros y Hy ->%list_elem_of_singleton. apply Hq in Hy. set_solver.
  - intros y. rewrite elem_of_app, Hq, list_elem_of_singleton. set_solver.
Qed.

Lemma Get_ok x q q' : queue_ok q → Get q = Item x q' → queue_ok q' ∧ x ∈ q_dirty q.
Proof.
  intros [Hnd Hq]. unfold Get. destruct (q_queue q) as [|y rest]; [by destruct (q_shuttingDown q)|].
  intros [= -> <-]. apply NoDup_cons in Hnd as [Hnin Hnd].
  assert (x ∈ q_dirty q) as Hx by (apply Hq; by left).
  split; [|done]. split; simpl; [done|]. intros z.
  specialize (Hq z). rewrite elem_of_cons in Hq.
  destruct (decide (z = x)) as [->|]; set_solver.
Qed.

Lemma Finish_ok x q : x ∈ q_processing q → queue_ok q → queue_ok (Finish x q).
Proof.
  intros Hx [Hnd Hq]. unfold Finish. case_decide as Hd; (split; simpl; [|]).
  - apply NoDup_app. split; [done|]. split; [|apply NoDup_singleton].
    intros y Hy ->%list_elem_of_singleton. apply Hq in Hy. set_solver.
  - intros y. rewrite elem_of_app, Hq, list_elem_of_singleton.
    destruct (decide (y = x)) as [->|]; set_solver.
  - done.
  - intros y. rewrite Hq. destruct (decide (y = x)) as [->|]; set_solver.
Qed.

Lemma set_failures_ok f q : queue_ok q → queue_ok (set_failures f q).
Proof. done. Qed.

Lemma set_waiting_ok w q : queue_ok q → queue_ok (set_waiting w q).
Proof. done. Qed.

#[export] Hint Resolve Add_ok Finish_ok set_failures_ok set_waiting_ok : core.

Lemma AddRateLimited_ok bucket x q : queue_ok q → queue_ok (AddRateLimited bucket x q).
Proof.
  intros Hq. unfold AddRateLimited, AddAfter. simpl. repeat case_match; auto.
Qed.

Lemma queue_step_ok q q' : queue_step q q' → queue_ok q → queue_ok q'.
Proof.
  intros [] Hq; eauto using AddRateLimited_ok.
  - by eapply Get_ok.
  - unfold fire. repeat case_match; auto.
Qed.

Lemma newQueue_ok : queue_ok newQueue.
Proof. split; [apply NoDup_nil_2|]. intros x. simpl. rewrite elem_of_nil. set_solver. Qed.

Lemma queue_reachable_ok q : rtc queue_step newQueue q → queue_ok q.
Proof.
  generalize newQueue_ok. generalize newQueue. intros q0 H0. induction 1; eauto using queue_step_ok.
Qed.

(** An item that is handed out was not being processed, and now is. *)
Lemma Get_exclusive x q q' :
  queue_ok q → Get q = Item x q' → x ∉ q_processing q ∧ q_processing q' = {[x]} ∪ q_processing q.
Proof.
  intros [_ Hq]. unfold Get. destruct (q_queue q) as [|y rest]; [by destruct (q_shuttingDown q)|].
  intros [= -> <-]. split; [|done]. apply Hq. by left.
Qed.

Lemma Finish_processing x q : q_processing (Finish x q) = q_processing q ∖ {[x]}.
Proof. unfold Finish. by case_decide. Qed.

Lemma backoff_le exp : (backoff exp <= maxDelay)%Z.
Proof. unfold backoff. repeat case_match; lia. Qed.

Lemma backoff_min exp : backoff exp = Z.min (baseDelay * 2 ^ Z.of_nat exp) maxDelay.
Proof.
  unfold backoff. destruct (Z.ltb_spec (2 ^ 63) (baseDelay * 2 ^ Z.of_nat exp)).
  - rewrite Z.min_r; [done|]. unfold maxDelay, Minute, Millisecond. lia.
  - destruct (Z.ltb_spec maxDelay (baseDelay * 2 ^ Z.of_nat exp)); lia.
Qed.

Lemma Finish_spec x q :
  x ∉ q_processing (Finish x q) ∧ NumRequeues x (Finish x q) = NumRequeues x q ∧
  q_waiting (Finish x q) = q_waiting q.
Proof. unfold Finish. case_decide; simpl; (split; [set_solver|done]). Qed.

Lemma backoff_pos exp : (baseDelay <= backoff exp)%Z.
Proof.
  rewrite backoff_min. pose proof (Z.pow_pos_nonneg 2 (Z.of_nat exp)).
  unfold baseDelay, maxDelay, Minute, Millisecond. lia.
Qed.

(** A retry counts as a failure and waits. *)
Lemma AddRateLimited_spec bucket x q :
  NumRequeues x (AddRateLimited bucket x q) = S (NumRequeues x q) ∧
  (q_shuttingDown q = false → ∃ d, (baseDelay <= d)%Z ∧
     (x, d) ∈ q_waiting (AddRateLimited bucket x q)).
Proof.
  unfold AddRateLimited, AddAfter, When. simpl.
  pose proof (backoff_pos (NumRequeues x q)) as Hb.
  destruct (Z.leb_spec (Z.max (backoff (NumRequeues x q)) bucket) 0) as [Hle|_].
  { unfold baseDelay, Millisecond in Hb. lia. }
  destruct (q_shuttingDown q); simpl; unfold NumRequeues; simpl; rewrite lookup_insert_eq;
    (split; [done|]); [done|]. intros _. eexists. split; [|apply elem_of_app; right; by left].
  fold (NumRequeues x q). lia.
Qed.

(** ** Properties *)

(** In every reachable state of the queue, an item that [Get] hands out is
    not being processed already: no two workers have the same item, and the
    queue never lists an item twice. *)
Lemma queue_exclusive q x q' :
  rtc queue_step newQueue q → Get q = Item x q' →
  x ∉ q_processing q ∧ x ∈ q_processing q' ∧ NoDup (q_queue q').
Proof.
  intros Hq Hg. pose proof (queue_reachable_ok q Hq) as Hok.
  destruct (Get_ok _ _ _ Hok Hg) as [[Hnd _] _]. destruct Hok as [_ Hok].
  unfold Get in Hg. destruct (q_queue q) as [|y rest]; [by destruct (q_shuttingDown q)|].
  injection Hg as -> <-. split; [|split; [set_solver|done]].
  apply Hok. by left.
Qed.

(** No addition is lost.  An item added to a queue that is not shutting
    down needs processing, and it is listed unless it is being processed; in
    that case the end of its processing lists it again. *)
Lemma queue_no_lost_item q x :
  rtc queue_step newQueue q → q_shuttingDown q = false →
  x ∈ q_dirty (Add x q) ∧
  (x ∉ q_processing q → x ∈ q_queue (Add x q)) ∧
  (x ∈ q_processing q → x ∈ q_queue (Finish x (Add x q))).
Proof.
  intros Hq Hs. pose proof (queue_reachable_ok q Hq) as Hok.
  pose proof (Add_ok x q Hok) as [_ Ha].
  assert (x ∈ q_dirty (Add x q)) as Hd.
  { unfold Add. rewrite Hs. repeat case_decide; set_solver. }
  assert (q_processing (Add x q) = q_processing q) as Hp.
  { unfold Add. rewrite Hs. by repeat case_decide. }
  split; [done|]. split; intros Hx.
  - apply Ha. by rewrite Hp.
  - unfold Finish. rewrite decide_True by done. simpl. apply elem_of_app. right. by left.
Qed.

(** The items are pairs of a key and an event, so two workers can be
    handling two events of the same resource at the same time. *)
Lemma queue_same_key_concurrently :
  ∃ q, rtc queue_step newQueue q ∧
    ("web", "updateEvent") ∈ q_processing q ∧
    ("web", "deleteEvent") ∈ q_processing q.
Proof.
  set (u := ("web", "updateEvent")). set (d := ("web", "deleteEvent")).
  eexists. split.
  - eapply rtc_l; [apply (step_Add u)|]. eapply rtc_l; [apply (step_Add d)|].
    eapply rtc_l; [by apply (step_Get u)|]. eapply rtc_l; [by apply (step_Get d)|].
    apply rtc_refl.
  - simpl. set_solver.
Qed.

(** C39: The backoff of an item is between five milliseconds and five minutes,
    doubles with each failure until it reaches that maximum, never decreases,
    and no failure count overflows it.  The delay of a retry is the larger of
    the backoff and the delay that the token bucket asks for, which nothing
    bounds: at least five milliseconds, and more than five minutes only when the
    token bucket asks for that.  A retry counts as a failure, and after [Forget]
    the backoff is five milliseconds again. *)
Theorem backoff_spec exp :
  (baseDelay <= backoff exp <= maxDelay)%Z ∧
  backoff (S exp) = Z.min (2 * backoff exp) maxDelay ∧
  (∀ bucket x q, let '(delay, q') := When bucket x q in
    delay = Z.max (backoff (NumRequeues x q)) bucket ∧
    (baseDelay <= delay)%Z ∧ (maxDelay < delay → delay = bucket)%Z ∧
    NumRequeues x q' = S (NumRequeues x q) ∧
    (When bucket x (Forget x q)).1 = Z.max baseDelay bucket).
Proof.
  split; [|split].
  - split; [apply backoff_pos|apply backoff_le].
  - rewrite !backoff_min, Nat2Z.inj_succ, Z.pow_succ_r by lia.
    unfold maxDelay, Minute, Millisecond, baseDelay. lia.
  - intros bucket x q. pose proof (backoff_pos (NumRequeues x q)).
    pose proof (backoff_le (NumRequeues x q)). unfold When, NumRequeues, Forget in *. simpl.
    rewrite lookup_insert_eq, lookup_delete_eq. split_and!; try done; try lia.
Qed.

(** ** Witnesses *)

Lemma queue_exclusive_witness :
  let q := Add ("web", "addEvent") newQueue in
  ∃ q', Get q = Item ("web", "addEvent") q' ∧
    ("web", "addEvent") ∈ q_processing q'.
Proof.
  intros q. eexists. split; [reflexivity|].
  assert (rtc queue_step newQueue q) as Hq.
  { apply rtc_once. apply step_Add. }
  destruct (queue_exclusive q _ _ Hq eq_refl) as (_ & H & _). exact H.
Defined.

Lemma queue_no_lost_item_witness :
  ("web", "addEvent") ∈ q_queue (Add ("web", "addEvent") newQueue).
Proof.
  destruct (queue_no_lost_item newQueue ("web", "addEvent") (rtc_refl _ _) eq_refl)
    as (_ & H & _).
  apply H. apply not_elem_of_empty.
Defined.
