(* ===== verification/Delaying.v ===== *)
(** * The delaying queue ([client-go/util/workqueue/delaying_queue.go])

    [Workqueue] lets an item that waits for its delay be added at any time.
    Here is how it is done: [AddAfter] sends an entry with its time on a
    channel, and the goroutine [waitingLoop] keeps the entries in a heap, one
    per item, and adds the items whose time has come.  Entries are pointers
    that the heap and the map of the loop share.  The clock is part of the
    state; the select statements are steps that may be taken in any order.
    The specification is a timed queue ([timed]): a queue, and a multiset of
    items with the times that they wait for. *)
From stdpp Require Import gmultiset.
From S2P Require Import Prelude Heap Workqueue.

(** ** The priority queue *)

(** [waitFor]. *)
Record waitFor : Type := MkWaitFor {
  wf_data : item;
  wf_readyAt : Z;
  wf_index : Z;
}.

(** [waitForPriorityQueue], and the entries that pointers lead to. *)
Record waitForPriorityQueue : Type := MkPQ {
  pq_slice : list nat;
  pq_entries : gmap nat waitFor;
}.

Definition set_index (i : Z) (e : waitFor) : waitFor := MkWaitFor (wf_data e) (wf_readyAt e) i.

Definition readyAt (p : nat) (entries : gmap nat waitFor) : Z :=
  default 0%Z (wf_readyAt <$> entries !! p).

(** Its methods; an index is never out of range, nor a pointer nil. *)
Definition pq_Less (i j : nat) (pq : waitForPriorityQueue) : bool :=
  match pq_slice pq !! i, pq_slice pq !! j with
  | Some p, Some q => (readyAt p (pq_entries pq) <? readyAt q (pq_entries pq))%Z
  | _, _ => false
  end.

Definition pq_Swap (i j : nat) (pq : waitForPriorityQueue) : waitForPriorityQueue :=
  match pq_slice pq !! i, pq_slice pq !! j with
  | Some p, Some q =>
    MkPQ (<[i := q]> (<[j := p]> (pq_slice pq)))
      (alter (set_index (Z.of_nat j)) p (alter (set_index (Z.of_nat i)) q (pq_entries pq)))
  | _, _ => pq
  end.

Definition pq_Push (p : nat) (pq : waitForPriorityQueue) : waitForPriorityQueue :=
  MkPQ (pq_slice pq ++ [p])
    (alter (set_index (Z.of_nat (length (pq_slice pq)))) p (pq_entries pq)).

Definition pq_Pop (pq : waitForPriorityQueue) : option (nat * waitForPriorityQueue) :=
  match last (pq_slice pq) with
  | Some p =>
    Some (p, MkPQ (take (length (pq_slice pq) - 1) (pq_slice pq))
               (alter (set_index (-1)) p (pq_entries pq)))
  | None => None
  end.

#[export] Instance pq_Interface : heap_Interface waitForPriorityQueue nat := {|
  Len pq := length (pq_slice pq);
  Less := pq_Less;
  Swap := pq_Swap;
  Push := pq_Push;
  Pop := pq_Pop;
|}.

(** [Peek]. *)
Definition Peek (pq : waitForPriorityQueue) : option nat := pq_slice pq !! 0.

(** [insert]: an item that waits already keeps one entry, with the earlier of
    the two times. *)
Definition insert (q : waitForPriorityQueue) (knownEntries : gmap item nat) (entry : nat)
    : waitForPriorityQueue * gmap item nat :=
  match pq_entries q !! entry with
  | None => (q, knownEntries)
  | Some e =>
    match knownEntries !! wf_data e with
    | Some existing =>
      if (wf_readyAt e <? readyAt existing (pq_entries q))%Z then
        let entries := alter (λ old, MkWaitFor (wf_data old) (wf_readyAt e) (wf_index old)) existing
                         (pq_entries q) in
        let index := default 0%Z (wf_index <$> entries !! existing) in
        (heap_Fix (Z.to_nat index) (MkPQ (pq_slice q) entries), knownEntries)
      else (q, knownEntries)
    | None => (heap_Push entry q, <[wf_data e := entry]> knownEntries)
    end
  end.

(** ** The queue *)

(** Where [waitingLoop] is: at the top; adding the entries that are ready;
    in the select, with the time of its timer; receiving what is left in the
    channel; or it has returned. *)
Inductive loop_phase : Type :=
| AtTop
| AddingReady (now : Z)
| Selecting (nextReadyAt : option Z)
| Draining
| Returned.

(** [delayingType], with the local variables of [waitingLoop], the clock, and
    the calls of [AddAfter] that are at their select. *)
Record delayingType : Type := MkDelaying {
  dl_queue : queue;
  dl_now : Z;
  dl_stopCh : bool;
  dl_sending : list nat;
  dl_waitingForAddCh : list nat;
  dl_waitingForQueue : waitForPriorityQueue;
  dl_waitingEntryByData : gmap item nat;
  dl_next : nat;
  dl_phase : loop_phase;
}.

Definition chan_size : nat := 1000.

Definition newDelayingQueue (now : Z) : delayingType :=
  MkDelaying newQueue now false [] [] (MkPQ [] ∅) ∅ 0 AtTop.

Definition with_queue (q : queue) (d : delayingType) : delayingType :=
  MkDelaying q (dl_now d) (dl_stopCh d) (dl_sending d) (dl_waitingForAddCh d)
    (dl_waitingForQueue d) (dl_waitingEntryByData d) (dl_next d) (dl_phase d).

Definition with_phase (phase : loop_phase) (d : delayingType) : delayingType :=
  MkDelaying (dl_queue d) (dl_now d) (dl_stopCh d) (dl_sending d) (dl_waitingForAddCh d)
    (dl_waitingForQueue d) (dl_waitingEntryByData d) (dl_next d) phase.

Definition with_channels (sending chan : list nat) (d : delayingType) : delayingType :=
  MkDelaying (dl_queue d) (dl_now d) (dl_stopCh d) sending chan
    (dl_waitingForQueue d) (dl_waitingEntryByData d) (dl_next d) (dl_phase d).

Definition with_waiting (pq : waitForPriorityQueue) (known : gmap item nat) (d : delayingType)
    : delayingType :=
  MkDelaying (dl_queue d) (dl_now d) (dl_stopCh d) (dl_sending d) (dl_waitingForAddCh d)
    pq known (dl_next d) (dl_phase d).

(** [AddAfter], up to its select: a positive delay makes an entry. *)
Definition AddAfter (x : item) (duration : Z) (d : delayingType) : delayingType :=
  if q_shuttingDown (dl_queue d) then d
  else if (duration <=? 0)%Z then with_queue (Add x (dl_queue d)) d
  else
    let entry := MkWaitFor x (dl_now d + duration) 0 in
    let pq := dl_waitingForQueue d in
    MkDelaying (dl_queue d) (dl_now d) (dl_stopCh d) (dl_sending d ++ [dl_next d])
      (dl_waitingForAddCh d) (MkPQ (pq_slice pq) (<[dl_next d := entry]> (pq_entries pq)))
      (dl_waitingEntryByData d) (S (dl_next d)) (dl_phase d).

Definition AddRateLimited (bucket : Z) (x : item) (d : delayingType) : delayingType :=
  let '(duration, q) := When bucket x (dl_queue d) in
  AddAfter x duration (with_queue q d).

(** The entry that the loop receives is inserted, or added when it is ready. *)
Definition receive (p : nat) (d : delayingType) : delayingType :=
  let pq := dl_waitingForQueue d in
  match pq_entries pq !! p with
  | None => d
  | Some e =>
    if (dl_now d <? wf_readyAt e)%Z then
      let '(pq, known) := insert pq (dl_waitingEntryByData d) p in with_waiting pq known d
    else with_queue (Add (wf_data e) (dl_queue d)) d
  end.

(** One round of the loop over the entries that are ready; when there is none
    left, the timer is set. *)
Definition add_ready (now : Z) (d : delayingType) : delayingType :=
  let pq := dl_waitingForQueue d in
  match Peek pq with
  | None => with_phase (Selecting None) d
  | Some p =>
    let t := readyAt p (pq_entries pq) in
    if (now <? t)%Z then with_phase (Selecting (Some t)) d
    else
      match heap_Pop pq with
      | None => d
      | Some (p, pq) =>
        match pq_entries pq !! p with
        | None => d
        | Some e =>
          with_queue (Add (wf_data e) (dl_queue d))
            (with_waiting pq (delete (wf_data e) (dl_waitingEntryByData d)) d)
        end
      end
  end.

(** The steps of [waitingLoop]. *)
Inductive loop_step : delayingType → delayingType → Prop :=
| loop_top_stop d :
  dl_phase d = AtTop → q_shuttingDown (dl_queue d) = true → loop_step d (with_phase Returned d)
| loop_top d :
  dl_phase d = AtTop → q_shuttingDown (dl_queue d) = false →
  loop_step d (with_phase (AddingReady (dl_now d)) d)
| loop_ready d now : dl_phase d = AddingReady now → loop_step d (add_ready now d)
| loop_stop d next :
  dl_phase d = Selecting next → dl_stopCh d = true → loop_step d (with_phase Returned d)
| loop_heartbeat d next : dl_phase d = Selecting next → loop_step d (with_phase AtTop d)
| loop_timer d t :
  dl_phase d = Selecting (Some t) → (t <= dl_now d)%Z → loop_step d (with_phase AtTop d)
| loop_receive d next p chan :
  dl_phase d = Selecting next → dl_waitingForAddCh d = p :: chan →
  loop_step d (with_phase Draining (receive p (with_channels (dl_sending d) chan d)))
| loop_drain d p chan :
  dl_phase d = Draining → dl_waitingForAddCh d = p :: chan →
  loop_step d (receive p (with_channels (dl_sending d) chan d))
| loop_drained d :
  dl_phase d = Draining → dl_waitingForAddCh d = [] → loop_step d (with_phase AtTop d).

(** The steps of the callers, and the clock. *)
Inductive caller_step : delayingType → delayingType → Prop :=
| caller_Add x d : caller_step d (with_queue (Add x (dl_queue d)) d)
| caller_Get x q d : Get (dl_queue d) = Item x q → caller_step d (with_queue q d)
| caller_Finish x d :
  x ∈ q_processing (dl_queue d) → caller_step d (with_queue (Finish x (dl_queue d)) d)
| caller_Forget x d : caller_step d (with_queue (Forget x (dl_queue d)) d)
| caller_AddRateLimited bucket x d : caller_step d (AddRateLimited bucket x d)
| caller_send d i p :
  dl_sending d !! i = Some p → length (dl_waitingForAddCh d) < chan_size →
  caller_step d (with_channels (delete i (dl_sending d)) (dl_waitingForAddCh d ++ [p]) d)
| caller_stopped d i :
  dl_stopCh d = true →
  caller_step d (with_channels (delete i (dl_sending d)) (dl_waitingForAddCh d) d)
| caller_ShutDown d : caller_step d (with_queue (ShutDown (dl_queue d)) d)
| caller_close d :
  q_shuttingDown (dl_queue d) = true →
  caller_step d (MkDelaying (dl_queue d) (dl_now d) true (dl_sending d) (dl_waitingForAddCh d)
    (dl_waitingForQueue d) (dl_waitingEntryByData d) (dl_next d) (dl_phase d))
| caller_clock d now :
  (dl_now d <= now)%Z →
  caller_step d (MkDelaying (dl_queue d) now (dl_stopCh d) (dl_sending d) (dl_waitingForAddCh d)
    (dl_waitingForQueue d) (dl_waitingEntryByData d) (dl_next d) (dl_phase d)).

Definition dl_step (d d' : delayingType) : Prop := loop_step d d' ∨ caller_step d d'.

Definition dl_reachable (d : delayingType) : Prop := ∃ now, rtc dl_step (newDelayingQueue now) d.

(** ** The laws of the priority queue *)

(** What the heap does not change: the data and the time of each entry. *)
Definition contents (pq : waitForPriorityQueue) : gmap nat (item * Z) :=
  (λ e, (wf_data e, wf_readyAt e)) <$> pq_entries pq.

Definition key_of (r : gmap nat (item * Z)) (p : nat) : Z := default 0%Z (snd <$> r !! p).

(** Each entry of the slice knows its index. *)
Definition pq_inv (pq : waitForPriorityQueue) : Prop :=
  ∀ i p, pq_slice pq !! i = Some p →
    ∃ e, pq_entries pq !! p = Some e ∧ wf_index e = Z.of_nat i.

Definition pq_pushable (p : nat) (pq : waitForPriorityQueue) : Prop :=
  is_Some (pq_entries pq !! p) ∧ p ∉ pq_slice pq.

Lemma readyAt_key p pq : readyAt p (pq_entries pq) = key_of (contents pq) p.
Proof. unfold readyAt, key_of, contents. rewrite lookup_fmap. by destruct (pq_entries pq !! p). Qed.

Lemma contents_set_index i p entries :
  (λ e, (wf_data e, wf_readyAt e)) <$> alter (set_index i) p entries =
  (λ e, (wf_data e, wf_readyAt e)) <$> (entries : gmap nat waitFor).
Proof.
  apply map_eq. intros q. rewrite !lookup_fmap.
  destruct (decide (q = p)) as [->|Hne].
  - rewrite lookup_alter_eq. by destruct (entries !! p).
  - by rewrite lookup_alter_ne.
Qed.

Lemma pq_inv_index pq i j p :
  pq_inv pq → pq_slice pq !! i = Some p → pq_slice pq !! j = Some p → i = j.
Proof. intros Hpq (e & He & Hi)%Hpq (e' & He' & Hj)%Hpq. rewrite He in He'. simplify_eq. lia. Qed.

Lemma pq_inv_NoDup pq : pq_inv pq → NoDup (pq_slice pq).
Proof. intros Hpq. apply NoDup_alt. intros i j p. by apply pq_inv_index. Qed.

#[export] Instance pq_Laws : HeapLaws waitForPriorityQueue nat (gmap nat (item * Z)).
Proof.
  refine {| elems := pq_slice; rest := contents; key := key_of; heap_inv := pq_inv;
            pushable := pq_pushable |}; [done|..]; simpl.
  - intros pq i j p q Hp Hq. unfold pq_Less. by rewrite Hp, Hq, !readyAt_key.
  - intros pq i j p q Hpq Hp Hq. unfold pq_Swap. rewrite Hp, Hq. simpl.
    split; [|split; [unfold contents; simpl; by rewrite !contents_set_index|done]].
    pose proof (lookup_lt_Some _ _ _ Hp). pose proof (lookup_lt_Some _ _ _ Hq).
    intros a r. simpl. destruct (decide (a = i)) as [->|Hai].
    + rewrite list_lookup_insert_eq by (by rewrite length_insert). intros [= <-].
      destruct (Hpq _ _ Hq) as (e & He & Hidx). destruct (decide (p = q)) as [->|Hne].
      * rewrite !lookup_alter_eq, He. simpl. eexists. split; [done|]. simpl.
        by rewrite (pq_inv_index _ _ _ _ Hpq Hp Hq).
      * rewrite lookup_alter_ne, lookup_alter_eq, He by done. by eexists.
    + rewrite list_lookup_insert_ne by done. destruct (decide (a = j)) as [->|Haj].
      * rewrite list_lookup_insert_eq by done. intros [= <-].
        destruct (Hpq _ _ Hp) as (e & He & _). rewrite lookup_alter_eq.
        destruct (decide (p = q)) as [->|Hne]; [exfalso; eapply Hai, (pq_inv_index pq); eauto|].
        rewrite lookup_alter_ne, He by done. by eexists.
      * rewrite list_lookup_insert_ne by done. intros Hr.
        assert (p ≠ r) as Hpr by (intros ->; eapply Hai, (pq_inv_index pq); eauto).
        assert (q ≠ r) as Hqr by (intros ->; eapply Haj, (pq_inv_index pq); eauto).
        rewrite !lookup_alter_ne by done. by apply Hpq.
  - intros pq p Hpq [[e He] Hp]. unfold pq_Push, contents. simpl. rewrite contents_set_index.
    split; [|done]. intros a r. simpl. intros [Hr|[Ha Hr]]%lookup_app_Some.
    + rewrite lookup_alter_ne; [by apply Hpq|]. intros ->. apply Hp. by eapply list_elem_of_lookup_2.
    + apply list_lookup_singleton_Some in Hr as [Hr ->]. rewrite lookup_alter_eq, He. eexists.
      split; [done|]. simpl. lia.
  - intros pq l p Hpq He. unfold pq_Pop. rewrite He, last_snoc, length_app. simpl.
    replace (length l + 1 - 1) with (length l) by lia. rewrite take_app_length. eexists.
    split; [done|]. unfold contents. simpl. rewrite contents_set_index. split; [|done].
    intros a r Hr. simpl in *. pose proof (lookup_lt_Some _ _ _ Hr) as Hlt.
    assert (pq_slice pq !! a = Some r) as Ha by (rewrite He; by apply lookup_app_l_Some).
    rewrite lookup_alter_ne; [by apply Hpq|]. intros <-.
    assert (pq_slice pq !! length l = Some p) as Hl
      by (rewrite He, lookup_app_r, Nat.sub_diag by done; done).
    pose proof (pq_inv_index _ _ _ _ Hpq Ha Hl). lia.
Defined.

(** ** The entries that wait in the heap *)

(** The heap is ordered, and the map finds the entry of each item. *)
Record waiting_ok (pq : waitForPriorityQueue) (known : gmap item nat) : Prop := {
  wo_inv : pq_inv pq;
  wo_ordered : ordered pq;
  wo_known x p : known !! x = Some p ↔ p ∈ pq_slice pq ∧ fst <$> contents pq !! p = Some x;
}.

Lemma contents_entry pq p x t :
  contents pq !! p = Some (x, t) →
  ∃ e, pq_entries pq !! p = Some e ∧ wf_data e = x ∧ wf_readyAt e = t.
Proof.
  unfold contents. rewrite lookup_fmap. destruct (pq_entries pq !! p) as [e|]; [|done].
  intros [= <- <-]. by exists e.
Qed.

(** The time of an entry is changed, in place. *)
Definition retime (p : nat) (t : Z) (pq : waitForPriorityQueue) : waitForPriorityQueue :=
  MkPQ (pq_slice pq) (alter (λ old, MkWaitFor (wf_data old) t (wf_index old)) p (pq_entries pq)).

Lemma contents_retime p t pq x t0 :
  contents pq !! p = Some (x, t0) → contents (retime p t pq) = <[p := (x, t)]> (contents pq).
Proof.
  intros Hp. pose proof Hp as Hp'. apply contents_entry in Hp' as (e & He & <- & _).
  apply map_eq. intros q. unfold contents, retime. simpl. rewrite lookup_fmap.
  destruct (decide (q = p)) as [->|Hne].
  - by rewrite lookup_alter_eq, lookup_insert_eq, He.
  - by rewrite lookup_alter_ne, lookup_insert_ne, lookup_fmap.
Qed.

Lemma pq_inv_retime p t pq : pq_inv pq → pq_inv (retime p t pq).
Proof.
  intros Hpq i q (e & He & Hi)%Hpq. simpl. destruct (decide (q = p)) as [->|Hne].
  - rewrite lookup_alter_eq, He. by eexists.
  - rewrite lookup_alter_ne by done. by eexists.
Qed.

Lemma key_of_insert p q x t r : key_of (<[p := (x, t)]> r) q = if decide (q = p) then t else key_of r q.
Proof.
  unfold key_of. case_decide as Hq; [subst; by rewrite lookup_insert_eq|by rewrite lookup_insert_ne].
Qed.

(** After the time of the entry at [i] has become earlier, only the order above
    it is lost. *)
Lemma retime_but pq i p x t0 t :
  pq_inv pq → ordered pq → pq_slice pq !! i = Some p → contents pq !! p = Some (x, t0) →
  (t <= t0)%Z → heap_but (length (pq_slice pq)) (at_pos (retime p t pq)) i.
Proof.
  intros Hpq Ho Hi Hp Ht.
  assert (∀ a, a ≠ i → at_pos (retime p t pq) a = at_pos pq a) as Hat.
  { intros a Ha. unfold at_pos. simpl. rewrite (contents_retime _ _ _ _ _ Hp).
    destruct (pq_slice pq !! a) as [q|] eqn:Hq; [|done]. simpl. rewrite key_of_insert.
    rewrite decide_False; [done|]. intros ->. by eapply Ha, pq_inv_index. }
  split.
  - intros a Ha Hai Hpa. rewrite !Hat by done. by apply Ho.
  - intros a Ha Hpa Hpos. pose proof (parent_lt i Hpos). pose proof (parent_lt a ltac:(lia)).
    rewrite !Hat by lia. etrans; [apply (Ho i); simpl; lia|]. rewrite <- Hpa. by apply Ho.
Qed.

Lemma insert_spec pq known p x t :
  waiting_ok pq known → contents pq !! p = Some (x, t) → p ∉ pq_slice pq →
  let '(pq', known') := insert pq known p in
  waiting_ok pq' known' ∧
  match known !! x with
  | None => pq_slice pq' ≡ₚ p :: pq_slice pq ∧ contents pq' = contents pq
  | Some p' =>
    pq_slice pq' ≡ₚ pq_slice pq ∧
    contents pq' = <[p' := (x, Z.min t (key_of (contents pq) p'))]> (contents pq)
  end.
Proof.
  intros [Hinv Ho Hknown] Hp Hnin. destruct (contents_entry _ _ _ _ Hp) as (e & He & Hx & Ht).
  unfold insert. rewrite He, Hx, Ht. destruct (known !! x) as [p'|] eqn:Hk.
  - pose proof (proj1 (Hknown x p') Hk) as [Hin Hdata].
    apply list_elem_of_lookup in Hin as [i Hi].
    destruct (contents pq !! p') as [[x' t']|] eqn:Hp'; [|done]. injection Hdata as ->.
    rewrite readyAt_key. unfold key_of. rewrite Hp'. simpl.
    destruct (Z.ltb_spec t t') as [Hlt|Hge].
    + destruct (Hinv _ _ Hi) as (e' & He' & Hidx). rewrite lookup_alter_eq, He'. simpl. rewrite Hidx, Nat2Z.id.
      fold (retime p' t pq).
      destruct (heap_Fix_spec i (retime p' t pq)) as [[Hinv' Hr Hel] Ho'].
      * by apply pq_inv_retime.
      * simpl. by eapply lookup_lt_Some.
      * apply (retime_but pq i p' x t'); auto with lia.
      * simpl in *. rewrite (contents_retime _ _ _ _ _ Hp') in Hr.
        rewrite Hr, Z.min_l by lia. split; [|done]. split; [done|done|].
        intros y q. rewrite Hknown, Hr, Hel. destruct (decide (q = p')) as [->|Hne].
        -- by rewrite lookup_insert_eq, Hp'.
        -- by rewrite lookup_insert_ne.
    + rewrite Z.min_r, insert_id by done. done.
  - destruct (@heap_Push_spec _ _ _ _ pq_Laws p pq Hinv) as (Hinv' & Hr & Hel & Ho'); [by split; [eexists|]|done|].
    simpl in *. split; [|done]. split; [done|done|]. intros y q. rewrite Hr, Hel, elem_of_cons.
    destruct (decide (y = x)) as [->|Hy].
    + rewrite lookup_insert_eq. split.
      * intros [= <-]. rewrite Hp. auto.
      * intros [[->|Hq] Hd]; [done|]. assert (known !! x = Some q) by (by apply Hknown). congruence.
    + rewrite lookup_insert_ne, Hknown by done. split; [intros [??]; auto|].
      intros [[->|Hq] Hd]; [|done]. rewrite Hp in Hd. simpl in Hd. congruence.
Qed.

(** What is taken from the heap is the earliest. *)
Lemma Pop_ready pq known p :
  waiting_ok pq known → Peek pq = Some p →
  ∃ pq' x t, heap_Pop pq = Some (p, pq') ∧ contents pq !! p = Some (x, t) ∧
    contents pq' = contents pq ∧ pq_slice pq ≡ₚ p :: pq_slice pq' ∧
    waiting_ok pq' (delete x known).
Proof.
  intros [Hinv Ho Hknown] Hpeek. unfold Peek in Hpeek.
  destruct (@heap_Pop_spec _ _ _ _ pq_Laws pq Hinv Ho) as (p' & pq' & Hpop & Hinv' & Hr & H0 & Hel & Ho' & _).
  { simpl. by eapply lookup_lt_Some. }
  simpl in *. rewrite Hpeek in H0. injection H0 as <-.
  destruct (Hinv _ _ Hpeek) as (e & He & _).
  assert (contents pq !! p = Some (wf_data e, wf_readyAt e)) as Hc.
  { unfold contents. by rewrite lookup_fmap, He. }
  exists pq', (wf_data e), (wf_readyAt e). split_and!; try done. split; [done|done|].
  pose proof (pq_inv_NoDup _ Hinv) as Hnd. rewrite Hel in Hnd. apply NoDup_cons in Hnd as [Hnin _].
  intros y q. rewrite Hr. destruct (decide (y = wf_data e)) as [->|Hy].
  - rewrite lookup_delete_eq. split; [done|]. intros [Hq Hd].
    assert (known !! wf_data e = Some q) as Hkq by (apply Hknown; rewrite Hel; by split; [right|]).
    assert (known !! wf_data e = Some p) as Hkp by (apply Hknown; rewrite Hel, Hc; by split; [left|]).
    rewrite Hkq in Hkp. by injection Hkp as ->.
  - rewrite lookup_delete_ne, Hknown, Hel, elem_of_cons by done. split; [|intros [??]; auto].
    intros [[->|Hq] Hd]; [|done]. rewrite Hc in Hd. simpl in Hd. congruence.
Qed.

(** ** What waits

    The entries that wait are those being sent, those in the channel, and those
    in the heap; [waiting] lists their items with their times. *)
Definition entries_of (d : delayingType) : list nat :=
  dl_sending d ++ dl_waitingForAddCh d ++ pq_slice (dl_waitingForQueue d).

Definition entry_of (r : gmap nat (item * Z)) (p : nat) : item * Z :=
  default (("", "") : item, 0%Z) (r !! p).

Definition waiting (d : delayingType) : list (item * Z) :=
  entry_of (contents (dl_waitingForQueue d)) <$> entries_of d.

(** The invariant: besides the heap, pointers are used once and lead to
    entries, and the timer of the loop is set for the earliest entry. *)
Record dl_ok (d : delayingType) : Prop := {
  ok_waiting : waiting_ok (dl_waitingForQueue d) (dl_waitingEntryByData d);
  ok_NoDup : NoDup (entries_of d);
  ok_valid p : p ∈ entries_of d → is_Some (contents (dl_waitingForQueue d) !! p);
  ok_fresh p : is_Some (contents (dl_waitingForQueue d) !! p) → p < dl_next d;
  ok_timer next : dl_phase d = Selecting next →
    next = key_of (contents (dl_waitingForQueue d)) <$> Peek (dl_waitingForQueue d);
  ok_returned : dl_phase d = Returned → q_shuttingDown (dl_queue d) = true;
  ok_stopped : dl_stopCh d = true → q_shuttingDown (dl_queue d) = true;
  ok_ready now : dl_phase d = AddingReady now → (now <= dl_now d)%Z;
}.

(** What a step does to the items that wait and to the queue. *)
Inductive effect (d d' : delayingType) : Prop :=
| effect_none : waiting d' ≡ₚ waiting d → dl_queue d' = dl_queue d → effect d d'
| effect_add x t :
  waiting d ≡ₚ (x, t) :: waiting d' → (t <= dl_now d)%Z →
  dl_queue d' = Add x (dl_queue d) → effect d d'
| effect_merge x t t' l :
  waiting d ≡ₚ (x, t) :: (x, t') :: l → waiting d' ≡ₚ (x, Z.min t t') :: l →
  dl_queue d' = dl_queue d → effect d d'.

Lemma entry_of_lookup (r : gmap nat (item * Z)) p x t : r !! p = Some (x, t) → entry_of r p = (x, t).
Proof. unfold entry_of. by intros ->. Qed.

Lemma entry_of_fresh (r : gmap nat (item * Z)) p e (l : list nat) : p ∉ l → entry_of (<[p := e]> r) <$> l = entry_of r <$> l.
Proof.
  intros Hp. apply list_fmap_ext. intros i q Hq. unfold entry_of.
  rewrite lookup_insert_ne; [done|]. intros ->. by eapply Hp, list_elem_of_lookup_2.
Qed.

Lemma contents_Some d p :
  dl_ok d → p ∈ entries_of d → ∃ x t, contents (dl_waitingForQueue d) !! p = Some (x, t).
Proof. intros Hd [[x t] Hp]%(ok_valid _ Hd). eauto. Qed.

(** Steps that leave the heap alone and keep, or drop, what is sent. *)
Lemma dl_ok_channels d sending chan :
  sending ++ chan ⊆+ dl_sending d ++ dl_waitingForAddCh d → dl_ok d →
  dl_ok (with_channels sending chan d).
Proof.
  intros Hsub [Hw Hnd Hv Hf Ht Hr Hs Hn]. unfold entries_of in *.
  assert (sending ++ chan ++ pq_slice (dl_waitingForQueue d) ⊆+
          dl_sending d ++ dl_waitingForAddCh d ++ pq_slice (dl_waitingForQueue d)) as Hsub'.
  { rewrite !(assoc_L (++)). by apply submseteq_app. }
  split; try done; unfold entries_of; simpl.
  - apply submseteq_Permutation in Hsub' as [l Hl]. rewrite Hl in Hnd. by apply NoDup_app in Hnd as [? _].
  - intros p Hp. apply Hv. by eapply elem_of_submseteq.
Qed.

Lemma dl_ok_queue d q :
  (q_shuttingDown (dl_queue d) = true → q_shuttingDown q = true) → dl_ok d → dl_ok (with_queue q d).
Proof. intros Hq [Hw Hnd Hv Hf Ht Hr Hs Hn]. split; auto. Qed.

Lemma dl_ok_phase d phase :
  (∀ next, phase = Selecting next →
     next = key_of (contents (dl_waitingForQueue d)) <$> Peek (dl_waitingForQueue d)) →
  (phase = Returned → q_shuttingDown (dl_queue d) = true) →
  (∀ now, phase = AddingReady now → (now <= dl_now d)%Z) → dl_ok d → dl_ok (with_phase phase d).
Proof. intros Ht Hr Hn [Hw Hnd Hv Hf _ _ Hs _]. split; auto. Qed.

Lemma Add_keeps_shuttingDown x q : q_shuttingDown (Add x q) = q_shuttingDown q.
Proof. unfold Add. by repeat case_match. Qed.

Lemma with_phase_id d phase : dl_phase d = phase → with_phase phase d = d.
Proof. intros <-. by destruct d. Qed.

Lemma receive_with_phase p phase d : receive p (with_phase phase d) = with_phase phase (receive p d).
Proof.
  unfold receive. simpl. destruct (pq_entries _ !! p); [|done]. case_match; [|done].
  by destruct (insert _ _ _).
Qed.

(** The head of the channel. *)
Lemma received_entry d p chan :
  dl_ok d → dl_waitingForAddCh d = p :: chan →
  let d1 := with_channels (dl_sending d) chan d in
  ∃ x t, contents (dl_waitingForQueue d) !! p = Some (x, t) ∧ dl_ok d1 ∧
    p ∉ pq_slice (dl_waitingForQueue d) ∧ entries_of d ≡ₚ p :: entries_of d1 ∧
    waiting d ≡ₚ (x, t) :: waiting d1.
Proof.
  intros Hd Hch d1.
  assert (entries_of d ≡ₚ p :: entries_of d1) as He.
  { unfold entries_of. simpl. rewrite Hch. simpl. symmetry. apply Permutation_middle. }
  destruct (contents_Some d p Hd) as (x & t & Hp); [rewrite He; by left|].
  exists x, t. split; [done|]. split.
  { apply dl_ok_channels; [|done]. rewrite Hch, <- Permutation_middle. by apply submseteq_cons. }
  pose proof (ok_NoDup _ Hd) as Hnd. rewrite He in Hnd. apply NoDup_cons in Hnd as [Hnin _].
  split; [intros Hin; apply Hnin; unfold entries_of; rewrite !elem_of_app; by right; right|].
  split; [done|]. unfold waiting. rewrite He. simpl. by rewrite (entry_of_lookup _ _ _ _ Hp).
Qed.

Lemma receive_effect d p chan :
  dl_ok d → dl_phase d = Draining → dl_waitingForAddCh d = p :: chan →
  let d' := receive p (with_channels (dl_sending d) chan d) in dl_ok d' ∧ effect d d'.
Proof.
  intros Hd Hph Hch. destruct (received_entry _ _ _ Hd Hch) as (x & t & Hp & Hd1 & Hnin & He & Hwait).
  set (d1 := with_channels (dl_sending d) chan d) in *. cbv zeta.
  destruct (contents_entry _ _ _ _ Hp) as (e & Hpe & Hx & Ht).
  unfold receive. simpl. rewrite Hpe, Ht, Hx.
  destruct (Z.ltb_spec (dl_now d) t) as [Hlt|Hle].
  2: { split; [by apply dl_ok_queue; [rewrite Add_keeps_shuttingDown|]|]. by eapply effect_add. }
  pose proof (insert_spec _ _ p x t (ok_waiting _ Hd) Hp Hnin) as Hi.
  destruct (insert _ _ p) as [pq' known']. destruct Hi as [Hw' Hi].
  destruct Hd1 as [_ Hnd Hv Hf _ Hr Hs Hn].
  assert (NoDup (p :: entries_of d1)) as Hnd' by (rewrite <- He; apply Hd).
  destruct (dl_waitingEntryByData d !! x) as [p'|] eqn:Hk.
  - destruct Hi as [Hsl Hc]. apply (wo_known _ _ (ok_waiting _ Hd)) in Hk as [Hin Hk].
    destruct (contents _ !! p') as [[x' t']|] eqn:Hp'; [|done]. injection Hk as ->.
    assert (entries_of (with_waiting pq' known' d1) ≡ₚ entries_of d1) as He'.
    { unfold entries_of. simpl. by rewrite Hsl. }
    assert (p' ∈ entries_of d1) as Hin1 by (unfold entries_of; rewrite !elem_of_app; by right; right).
    split.
    + split; try done; simpl.
      * by rewrite He'.
      * intros q. rewrite He', Hc. intros Hq. destruct (decide (q = p')) as [->|].
        -- rewrite lookup_insert_eq. by eexists.
        -- rewrite lookup_insert_ne by done. by apply Hv.
      * intros q. rewrite Hc. destruct (decide (q = p')) as [->|]; [intros _; by apply Hf, Hv|].
        rewrite lookup_insert_ne by done. apply Hf.
      * by rewrite Hph.
    + apply elem_of_Permutation in Hin1 as [l Hl]. rewrite Hl in Hnd, He'.
      apply NoDup_cons in Hnd as [Hp'l _].
      eapply (effect_merge _ _ x t t' (entry_of (contents (dl_waitingForQueue d)) <$> l)); [| |done].
      * rewrite Hwait. unfold waiting at 1. rewrite Hl. simpl. by rewrite (entry_of_lookup _ _ _ _ Hp').
      * unfold waiting. rewrite He'. simpl. rewrite Hc, entry_of_fresh by done.
        unfold entry_of at 1. rewrite lookup_insert_eq. simpl. unfold key_of. by rewrite Hp'.
  - destruct Hi as [Hsl Hc].
    assert (entries_of (with_waiting pq' known' d1) ≡ₚ entries_of d) as He'.
    { rewrite He. unfold entries_of. simpl. rewrite Hsl. by rewrite <- !Permutation_middle. }
    split.
    + split; try done; simpl.
      * rewrite He'. apply Hd.
      * intros q. rewrite He', Hc. apply Hd.
      * intros q. rewrite Hc. apply Hf.
      * by rewrite Hph.
    + apply effect_none; [|done]. unfold waiting. rewrite He'. simpl. by rewrite Hc.
Qed.

Lemma add_ready_effect d now :
  dl_ok d → dl_phase d = AddingReady now →
  dl_ok (add_ready now d) ∧ effect d (add_ready now d).
Proof.
  intros Hd Hph. pose proof (ok_ready _ Hd _ Hph) as Hnow. unfold add_ready. destruct (Peek (dl_waitingForQueue d)) as [p|] eqn:Hpeek.
  2: { split; [|by apply effect_none]. apply dl_ok_phase; [|done..]. intros next [= <-]. by rewrite Hpeek. }
  rewrite readyAt_key. destruct (Z.ltb_spec now (key_of (contents (dl_waitingForQueue d)) p)) as [Hlt|Hle].
  { split; [|by apply effect_none]. apply dl_ok_phase; [|done..]. intros next [= <-]. by rewrite Hpeek. }
  destruct (Pop_ready _ _ _ (ok_waiting _ Hd) Hpeek) as (pq' & x & t & -> & Hp & Hc & Hsl & Hw').
  pose proof Hp as Hp'. rewrite <- Hc in Hp'. apply contents_entry in Hp' as (e & -> & Hx & Ht). rewrite Hx.
  unfold key_of in Hle. rewrite Hp in Hle. simpl in Hle.
  assert (entries_of d ≡ₚ p :: dl_sending d ++ dl_waitingForAddCh d ++ pq_slice pq') as He.
  { unfold entries_of. rewrite Hsl. by rewrite <- !Permutation_middle. }
  destruct Hd as [_ Hnd Hv Hf _ Hr Hs Hn].
  pose proof Hnd as Hnd'. rewrite He in Hnd'. apply NoDup_cons in Hnd' as [_ Hnd'].
  split.
  - apply dl_ok_queue; [by rewrite Add_keeps_shuttingDown|]. split; try done; simpl.
    + intros q Hq. rewrite Hc. apply Hv. rewrite He. by right.
    + intros q. rewrite Hc. apply Hf.
    + by rewrite Hph.
  - apply (effect_add _ _ x t); [|lia|done]. unfold waiting at 1. rewrite He. simpl.
    rewrite (entry_of_lookup _ _ _ _ Hp). unfold waiting, entries_of. simpl. by rewrite Hc.
Qed.

(** ** Steps *)

Lemma loop_step_effect d d' : dl_ok d → loop_step d d' → dl_ok d' ∧ effect d d'.
Proof.
  intros Hd Hstep. destruct Hstep as [d Hph Hs|d Hph Hs|d now Hph|d next Hph Hs|d next Hph|d t Hph Ht
    |d next p chan Hph Hch|d p chan Hph Hch|d Hph Hch].
  - split; [|by apply effect_none]. by apply dl_ok_phase.
  - split; [|by apply effect_none]. apply dl_ok_phase; try done. by intros now [= <-].
  - by apply add_ready_effect.
  - split; [|by apply effect_none]. apply dl_ok_phase; try done. intros _. by apply (ok_stopped _ Hd).
  - split; [|by apply effect_none]. by apply dl_ok_phase.
  - split; [|by apply effect_none]. by apply dl_ok_phase.
  - rewrite <- receive_with_phase.
    destruct (receive_effect (with_phase Draining d) p chan) as [Hd' He]; [by apply dl_ok_phase|done|done|].
    split; [done|]. destruct He; by econstructor.
  - by apply receive_effect.
  - split; [|by apply effect_none]. by apply dl_ok_phase.
Qed.

(** An entry that is not in the heap yet changes nothing in it. *)
Definition with_entry (p : nat) (e : waitFor) (pq : waitForPriorityQueue) : waitForPriorityQueue :=
  MkPQ (pq_slice pq) (<[p := e]> (pq_entries pq)).

Lemma contents_with_entry p e pq :
  contents (with_entry p e pq) = <[p := (wf_data e, wf_readyAt e)]> (contents pq).
Proof. unfold contents, with_entry. simpl. by rewrite fmap_insert. Qed.

Lemma waiting_ok_fresh p e pq known :
  p ∉ pq_slice pq → waiting_ok pq known → waiting_ok (with_entry p e pq) known.
Proof.
  intros Hp [Hinv Ho Hk].
  assert (∀ i q, pq_slice pq !! i = Some q → q ≠ p) as Hne.
  { intros i q Hq ->. by eapply Hp, list_elem_of_lookup_2. }
  split.
  - intros i q Hq. simpl. rewrite lookup_insert_ne by (apply not_eq_sym; eauto). by apply Hinv.
  - unfold ordered in *. simpl in *.
    assert (pointwise_relation nat eq (at_pos pq) (at_pos (with_entry p e pq))) as <-; [|done].
    intros i. unfold at_pos. simpl. rewrite contents_with_entry.
    destruct (pq_slice pq !! i) as [q|] eqn:Hq; [|done]. simpl. rewrite key_of_insert.
    by rewrite decide_False by eauto.
  - intros x q. rewrite Hk, contents_with_entry. simpl. destruct (decide (q = p)) as [->|Hqp].
    + naive_solver.
    + by rewrite lookup_insert_ne.
Qed.

(** A new entry waits for its delay. *)
Lemma AddAfter_waits x duration d :
  dl_ok d → q_shuttingDown (dl_queue d) = false → (0 < duration)%Z →
  dl_ok (AddAfter x duration d) ∧
  waiting (AddAfter x duration d) ≡ₚ (x, dl_now d + duration)%Z :: waiting d ∧
  dl_queue (AddAfter x duration d) = dl_queue d.
Proof.
  intros Hd Hs Hdur. unfold AddAfter. rewrite Hs. destruct (Z.leb_spec duration 0); [lia|].
  set (entry := MkWaitFor x (dl_now d + duration) 0).
  fold (with_entry (dl_next d) entry (dl_waitingForQueue d)).
  set (d' := MkDelaying _ _ _ _ _ _ _ _ _).
  assert (dl_next d ∉ entries_of d) as Hnew.
  { intros Hin%(ok_valid _ Hd)%(ok_fresh _ Hd). lia. }
  assert (entries_of d' ≡ₚ dl_next d :: entries_of d) as He.
  { unfold entries_of. simpl. rewrite <- !(assoc_L (++)). simpl. symmetry. apply Permutation_middle. }
  split; [|split; [|done]].
  - destruct Hd as [Hw Hnd Hv Hf Ht Hr Hst Hn]. split; try done.
    + apply waiting_ok_fresh; [|done]. intros Hin. apply Hnew. unfold entries_of.
      rewrite !elem_of_app. by right; right.
    + rewrite He. by constructor.
    + intros p. rewrite He, elem_of_cons. simpl. rewrite contents_with_entry.
      intros [->|Hp]; [rewrite lookup_insert_eq; by eexists|].
      rewrite lookup_insert_ne by (by intros <-). by apply Hv.
    + intros p. simpl. rewrite contents_with_entry. destruct (decide (p = dl_next d)) as [->|Hp]; [lia|].
      rewrite lookup_insert_ne by done. intros Hp'%Hf. lia.
    + intros next Hph. rewrite (Ht next Hph). simpl. rewrite contents_with_entry.
      unfold Peek. simpl. destruct (pq_slice _ !! 0) as [p|] eqn:Hp; [|done]. simpl.
      rewrite key_of_insert, decide_False; [done|]. intros ->. apply Hnew. unfold entries_of.
      rewrite !elem_of_app. right; right. by eapply list_elem_of_lookup_2.
  - unfold waiting. rewrite He. simpl. rewrite contents_with_entry, entry_of_fresh by done.
    unfold entry_of at 1. by rewrite lookup_insert_eq.
Qed.

Lemma AddRateLimited_cases bucket x d :
  dl_ok d →
  let q := (When bucket x (dl_queue d)).2 in
  let duration := (When bucket x (dl_queue d)).1 in
  (0 < duration)%Z ∧
  if q_shuttingDown (dl_queue d) then AddRateLimited bucket x d = with_queue q d
  else
    dl_ok (AddRateLimited bucket x d) ∧
    waiting (AddRateLimited bucket x d) ≡ₚ (x, dl_now d + duration)%Z :: waiting d ∧
    dl_queue (AddRateLimited bucket x d) = q.
Proof.
  intros Hd q duration.
  assert (0 < duration)%Z as Hpos.
  { unfold duration, When. simpl. pose proof (backoff_pos (NumRequeues x (dl_queue d))).
    unfold baseDelay, Millisecond in *. lia. }
  split; [done|].
  change (AddRateLimited bucket x d) with (AddAfter x duration (with_queue q d)).
  destruct (q_shuttingDown (dl_queue d)) eqn:Hs.
  - unfold AddAfter. simpl. by rewrite Hs.
  - destruct (AddAfter_waits x duration (with_queue q d)) as (Hok & Hw & Hq); [|done..|done].
    by apply dl_ok_queue; [rewrite Hs|].
Qed.

Lemma caller_step_ok d d' : dl_ok d → caller_step d d' → dl_ok d'.
Proof.
  intros Hd Hstep. destruct Hstep as [x d|x q d Hg|x d Hx|x d|bucket x d|d i p Hi Hlen|d i Hst|d|d Hs|d now Hnow].
  - apply dl_ok_queue; [|done]. by rewrite Add_keeps_shuttingDown.
  - apply dl_ok_queue; [|done]. unfold Get in Hg. destruct (q_queue _); [by case_match|].
    by injection Hg as _ <-.
  - apply dl_ok_queue; [|done]. unfold Finish. by case_decide.
  - by apply dl_ok_queue.
  - destruct (AddRateLimited_cases bucket x d Hd) as [_ Hc].
    destruct (q_shuttingDown (dl_queue d)) eqn:Hs; [|apply Hc].
    rewrite Hc. by apply dl_ok_queue.
  - apply dl_ok_channels; [|done]. rewrite (assoc_L (++)), <- Permutation_cons_append.
    apply delete_Permutation in Hi. rewrite Hi at 2. done.
  - apply dl_ok_channels; [|done]. apply submseteq_app; [apply submseteq_delete|done].
  - by apply dl_ok_queue.
  - destruct Hd. by split.
  - destruct Hd. split; try done. simpl. intros now' Hph. etrans; [by apply ok_ready0|done].
Qed.

Lemma newDelayingQueue_ok now : dl_ok (newDelayingQueue now).
Proof.
  split; try done; simpl.
  - split; simpl.
    + by intros [|i] p.
    + intros i. simpl. lia.
    + intros x p. rewrite lookup_empty, elem_of_nil. naive_solver.
  - constructor.
  - intros p. by rewrite elem_of_nil.
  - intros p. unfold contents. simpl. rewrite fmap_empty, lookup_empty. by intros [].
Qed.

Lemma dl_step_ok d d' : dl_ok d → dl_step d d' → dl_ok d'.
Proof. intros Hd [Hl|Hc]; [by eapply loop_step_effect|by eapply caller_step_ok]. Qed.

Lemma dl_reachable_ok d : dl_reachable d → dl_ok d.
Proof.
  intros [now Hr]. pose proof (newDelayingQueue_ok now) as H0.
  induction Hr; eauto using dl_step_ok.
Qed.

(** ** The queue of [Workqueue] *)

(** A queue whose waiting items are at least those that wait here: when an
    item that waits is retried again, only one entry is kept. *)
Definition represents (d : delayingType) (q : queue) : Prop :=
  ∃ w, q = set_waiting w (dl_queue d) ∧ (waiting d).*1 ⊆+ w.*1.

Lemma Add_waiting x w q : Add x (set_waiting w q) = set_waiting w (Add x q).
Proof. unfold Add. simpl. by repeat case_match. Qed.

Lemma Get_waiting x w q q' : Get q = Item x q' → Get (set_waiting w q) = Item x (set_waiting w q').
Proof. unfold Get. simpl. destruct (q_queue q); [by case_match|]. by intros [= -> <-]. Qed.

Lemma Finish_waiting x w q : Finish x (set_waiting w q) = set_waiting w (Finish x q).
Proof. unfold Finish. simpl. by case_decide. Qed.

Lemma represents_add d d' q x t :
  waiting d ≡ₚ (x, t) :: waiting d' → dl_queue d' = Add x (dl_queue d) → represents d q →
  ∃ q', rtc queue_step q q' ∧ represents d' q'.
Proof.
  intros Hw Hq (w & -> & Hsub). rewrite Hw in Hsub. simpl in Hsub.
  assert (x ∈ w.*1) as Hx by (eapply elem_of_submseteq; [by left|done]).
  apply list_elem_of_fmap in Hx as ([x' r] & Hx & Hin). simpl in Hx. subst x'.
  apply list_elem_of_lookup in Hin as [i Hi].
  exists (set_waiting (delete i w) (Add x (dl_queue d))). split.
  - apply rtc_once. pose proof (step_fire i (set_waiting w (dl_queue d))) as Hfire.
    unfold fire in Hfire. simpl in Hfire. rewrite Hi in Hfire.
    by rewrite <- Add_waiting.
  - exists (delete i w). split; [by rewrite Hq|].
    apply delete_Permutation in Hi. rewrite Hi in Hsub. simpl in Hsub.
    by apply (submseteq_app_inv_l _ _ [x]) in Hsub.
Qed.

Lemma represents_effect d d' q :
  effect d d' → represents d q → ∃ q', rtc queue_step q q' ∧ represents d' q'.
Proof.
  intros [Hw Hq|x t Hw _ Hq|x t t' l Hw Hw' Hq] Hr.
  - destruct Hr as (w & -> & Hsub). exists (set_waiting w (dl_queue d)). split; [done|].
    exists w. by rewrite Hq, Hw.
  - by eapply represents_add.
  - destruct Hr as (w & -> & Hsub). exists (set_waiting w (dl_queue d)). split; [done|].
    exists w. rewrite Hq. split; [done|]. rewrite Hw'. rewrite Hw in Hsub. simpl in *.
    etrans; [|exact Hsub]. by apply submseteq_cons.
Qed.

Lemma send_waiting d i p :
  dl_sending d !! i = Some p →
  waiting (with_channels (delete i (dl_sending d)) (dl_waitingForAddCh d ++ [p]) d) ≡ₚ waiting d.
Proof.
  intros Hi%delete_Permutation. apply fmap_Permutation. unfold entries_of. simpl. rewrite Hi at 2.
  rewrite <- (assoc_L (++)). simpl. by rewrite <- !Permutation_middle.
Qed.

(** A step of a caller on the queue alone. *)
Lemma represents_queue d d' q :
  waiting d' ≡ₚ waiting d →
  (∀ w, queue_step (set_waiting w (dl_queue d)) (set_waiting w (dl_queue d'))) →
  represents d q → ∃ q', rtc queue_step q q' ∧ represents d' q'.
Proof.
  intros Hw Hstep (w & -> & Hsub). exists (set_waiting w (dl_queue d')). split; [by apply rtc_once|].
  exists w. by rewrite Hw.
Qed.

Lemma represents_caller d d' q :
  dl_ok d → caller_step d d' → represents d q → ∃ q', rtc queue_step q q' ∧ represents d' q'.
Proof.
  intros Hd Hstep Hr. destruct Hstep as [x d|x q1 d Hg|x d Hx|x d|bucket x d|d i p Hi Hlen|d i Hst|d|d Hs|d now Hnow].
  - apply (represents_queue d); [done| |exact Hr]. intros w. simpl. rewrite <- Add_waiting. constructor.
  - apply (represents_queue d); [done| |exact Hr]. intros w. simpl. econstructor. by apply Get_waiting.
  - apply (represents_queue d); [done| |exact Hr]. intros w. simpl. rewrite <- Finish_waiting. by constructor.
  - apply (represents_queue d); [done| |exact Hr]. intros w. simpl.
    apply (step_Forget x (set_waiting w (dl_queue d))).
  - destruct (AddRateLimited_cases bucket x d Hd) as [Hpos Hc]. destruct Hr as (w & -> & Hsub).
    exists (Workqueue.AddRateLimited bucket x (set_waiting w (dl_queue d))).
    split; [by apply rtc_once; constructor|].
    unfold Workqueue.AddRateLimited, Workqueue.AddAfter. simpl in *.
    change (NumRequeues x (set_waiting w (dl_queue d))) with (NumRequeues x (dl_queue d)).
    destruct (Z.leb_spec (Z.max (backoff (NumRequeues x (dl_queue d))) bucket) 0); [lia|].
    destruct (q_shuttingDown (dl_queue d)).
    + rewrite Hc. by exists w.
    + destruct Hc as (_ & Hw & Hq). eexists. split; [by rewrite Hq|]. rewrite Hw. simpl.
      rewrite fmap_app. simpl. rewrite <- Permutation_cons_append. by apply submseteq_skip.
  - destruct Hr as (w & -> & Hsub). exists (set_waiting w (dl_queue d)). split; [done|].
    exists w. split; [done|]. by rewrite send_waiting.
  - destruct Hr as (w & -> & Hsub). exists (set_waiting w (dl_queue d)). split; [done|].
    exists w. split; [done|]. etrans; [|exact Hsub]. apply fmap_submseteq, fmap_submseteq.
    unfold entries_of. simpl. apply submseteq_app; [apply submseteq_delete|done].
  - apply (represents_queue d); [done| |exact Hr]. intros w. simpl.
    apply (step_ShutDown (set_waiting w (dl_queue d))).
  - exists q. by split.
  - exists q. by split.
Qed.

(** ** The timed queue

    What the delaying queue promises: a queue, and a multiset of items that wait
    for their times, in which an item may have several entries. *)
Record timed : Type := MkTimed {
  td_queue : queue;
  td_waiting : gmultiset (item * Z);
  td_now : Z;
  td_stopped : bool;
}.

Definition newTimed (now : Z) : timed := MkTimed newQueue ∅ now false.

(** What happens by itself: an item whose time has come is added, once, and
    two entries of an item become the earlier one. *)
Inductive timed_loop : timed → timed → Prop :=
| timed_add x t q W now stopped :
  (t <= now)%Z →
  timed_loop (MkTimed q ({[+ (x, t) +]} ⊎ W) now stopped) (MkTimed (Add x q) W now stopped)
| timed_merge x t t' q W now stopped :
  timed_loop (MkTimed q ({[+ (x, t) +]} ⊎ ({[+ (x, t') +]} ⊎ W)) now stopped)
    (MkTimed q ({[+ (x, Z.min t t') +]} ⊎ W) now stopped).

(** What the callers and the clock do.  A retry waits for its delay, unless
    the queue is shutting down; it is given up only when the queue has been
    stopped. *)
Inductive timed_call : timed → timed → Prop :=
| timed_Add x q W now stopped :
  timed_call (MkTimed q W now stopped) (MkTimed (Add x q) W now stopped)
| timed_Get x q q' W now stopped :
  Get q = Item x q' → timed_call (MkTimed q W now stopped) (MkTimed q' W now stopped)
| timed_Finish x q W now stopped :
  x ∈ q_processing q →
  timed_call (MkTimed q W now stopped) (MkTimed (Finish x q) W now stopped)
| timed_Forget x q W now stopped :
  timed_call (MkTimed q W now stopped) (MkTimed (Forget x q) W now stopped)
| timed_retry bucket x duration q q' W now stopped :
  When bucket x q = (duration, q') → q_shuttingDown q = false →
  timed_call (MkTimed q W now stopped)
    (MkTimed q' ({[+ (x, now + duration)%Z +]} ⊎ W) now stopped)
| timed_retry_late bucket x q W now stopped :
  q_shuttingDown q = true →
  timed_call (MkTimed q W now stopped) (MkTimed (When bucket x q).2 W now stopped)
| timed_give_up e q W now :
  timed_call (MkTimed q ({[+ e +]} ⊎ W) now true) (MkTimed q W now true)
| timed_ShutDown q W now stopped :
  timed_call (MkTimed q W now stopped) (MkTimed (ShutDown q) W now stopped)
| timed_stop q W now stopped :
  q_shuttingDown q = true → timed_call (MkTimed q W now stopped) (MkTimed q W now true)
| timed_clock q W now now' stopped :
  (now <= now')%Z → timed_call (MkTimed q W now stopped) (MkTimed q W now' stopped).

(** Nothing, or one step. *)
Definition maybe (R : timed → timed → Prop) (s s' : timed) : Prop := s' = s ∨ R s s'.

(** What a delaying queue stands for. *)
Definition timed_of (d : delayingType) : timed :=
  MkTimed (dl_queue d) (list_to_set_disj (waiting d)) (dl_now d) (dl_stopCh d).

Lemma timed_of_eq d d' :
  waiting d' ≡ₚ waiting d → dl_queue d' = dl_queue d → dl_now d' = dl_now d →
  dl_stopCh d' = dl_stopCh d → timed_of d' = timed_of d.
Proof. unfold timed_of. by intros Hw%list_to_set_disj_perm -> -> ->; rewrite Hw. Qed.

Lemma loop_step_stopCh d d' : loop_step d d' → dl_stopCh d' = dl_stopCh d.
Proof.
  destruct 1; try done; unfold add_ready, receive; simpl;
    repeat (case_match; simplify_eq/=; try done).
Qed.

Lemma timed_effect d d' :
  effect d d' → dl_now d' = dl_now d → dl_stopCh d' = dl_stopCh d →
  maybe timed_loop (timed_of d) (timed_of d').
Proof.
  intros [Hw Hq|x t Hw Ht Hq|x t t' l Hw Hw' Hq] Hnow Hst.
  - left. by apply timed_of_eq.
  - right. unfold timed_of. rewrite Hq, Hnow, Hst, (list_to_set_disj_perm _ _ Hw).
    by apply timed_add.
  - right. unfold timed_of. rewrite Hq, Hnow, Hst, (list_to_set_disj_perm _ _ Hw),
      (list_to_set_disj_perm _ _ Hw'). apply timed_merge.
Qed.

Lemma delete_out_of_range {A} (l : list A) i : l !! i = None → delete i l = l.
Proof. revert i. induction l as [|x l IH]; intros [|i]; simpl; try done. intros Hi. by f_equal; apply IH. Qed.

(** A call that gives up its entry. *)
Lemma give_up_waiting d i p :
  dl_sending d !! i = Some p →
  ∃ e, waiting d ≡ₚ e :: waiting (with_channels (delete i (dl_sending d)) (dl_waitingForAddCh d) d).
Proof.
  intros Hi%delete_Permutation. exists (entry_of (contents (dl_waitingForQueue d)) p).
  unfold waiting. rewrite <- fmap_cons. apply fmap_Permutation. unfold entries_of. simpl.
  by rewrite Hi at 1.
Qed.

Lemma timed_caller d d' : dl_ok d → caller_step d d' → maybe timed_call (timed_of d) (timed_of d').
Proof.
  intros Hd Hstep. destruct Hstep as [x d|x q1 d Hg|x d Hx|x d|bucket x d|d i p Hi Hlen|d i Hst|d|d Hs|d now Hnow].
  - right; apply timed_Add.
  - right; by eapply timed_Get.
  - right; by apply timed_Finish.
  - right; apply timed_Forget.
  - right. destruct (AddRateLimited_cases bucket x d Hd) as [_ Hc].
    assert (dl_now (AddRateLimited bucket x d) = dl_now d ∧
            dl_stopCh (AddRateLimited bucket x d) = dl_stopCh d) as [Hn Hst].
    { unfold AddRateLimited, AddAfter. simpl. by repeat case_match. }
    destruct (q_shuttingDown (dl_queue d)) eqn:Hs.
    + rewrite Hc. by apply timed_retry_late.
    + destruct Hc as (_ & Hw & Hq). unfold timed_of. rewrite Hq, Hn, Hst, (list_to_set_disj_perm _ _ Hw).
      eapply timed_retry; [apply surjective_pairing|done].
  - left. apply timed_of_eq; [by apply send_waiting|done..].
  - destruct (dl_sending d !! i) as [p|] eqn:Hi.
    + destruct (give_up_waiting d i p Hi) as [e He]. right. unfold timed_of at 1.
      rewrite (list_to_set_disj_perm _ _ He), Hst. unfold timed_of. simpl. rewrite Hst.
      apply timed_give_up.
    + left. apply timed_of_eq; [|done..]. unfold waiting, entries_of. simpl.
      by rewrite delete_out_of_range.
  - right; apply timed_ShutDown.
  - right; by apply timed_stop.
  - right; by apply timed_clock.
Qed.

(** ** Progress *)

(** The item has been added, or is due. *)
Record due (x : item) (now : Z) (d : delayingType) : Prop := {
  due_ok : dl_ok d;
  due_open : q_shuttingDown (dl_queue d) = false;
  due_now : dl_now d = now;
  due_item : x ∈ q_dirty (dl_queue d) ∨ ∃ t, (t <= now)%Z ∧ (x, t) ∈ waiting d;
}.

(** A step of the loop, or a send of [AddAfter]. *)
Inductive progress_step : delayingType → delayingType → Prop :=
| progress_loop d d' : loop_step d d' → progress_step d d'
| progress_send d i p :
  dl_sending d !! i = Some p → length (dl_waitingForAddCh d) < chan_size →
  progress_step d (with_channels (delete i (dl_sending d)) (dl_waitingForAddCh d ++ [p]) d).

Definition work (d : delayingType) : nat :=
  3 * length (dl_sending d) + 2 * length (dl_waitingForAddCh d)
  + length (pq_slice (dl_waitingForQueue d)).

Lemma Add_dirty x y q : q_shuttingDown q = false → x = y ∨ x ∈ q_dirty q → x ∈ q_dirty (Add y q).
Proof. intros Hs Hx. unfold Add. rewrite Hs. repeat case_decide; simpl; set_solver. Qed.

(** An effect leaves an item waiting, no later than before, or adds it. *)
Lemma effect_waiting d d' x t :
  effect d d' → (x, t) ∈ waiting d →
  (∃ t', (t' <= t)%Z ∧ (x, t') ∈ waiting d') ∨
  (dl_queue d' = Add x (dl_queue d) ∧ (t <= dl_now d)%Z).
Proof.
  intros [Hw Hq|y r Hw Hr Hq|y r r' l Hw Hw' Hq] Hin.
  - left. exists t. by rewrite Hw.
  - rewrite Hw in Hin. apply elem_of_cons in Hin as [[= -> ->]|Hin]; [by right|].
    left. by exists t.
  - left. rewrite Hw in Hin. rewrite !elem_of_cons in Hin.
    destruct Hin as [[= -> ->]|[[= -> ->]|Hin]]; [exists (Z.min r r')|exists (Z.min r r')|exists t];
      (split; [lia|]); rewrite Hw'; [by left|by left|by right].
Qed.

(** A caller drops an item only when the queue has been shut down. *)
Lemma caller_waiting d d' x t :
  dl_ok d → caller_step d d' → (x, t) ∈ waiting d →
  (∃ t', (t' <= t)%Z ∧ (x, t') ∈ waiting d') ∨
  (dl_queue d' = Add x (dl_queue d) ∧ (t <= dl_now d)%Z) ∨ dl_stopCh d = true.
Proof.
  intros Hd Hc Hin. destruct Hc as [y d|y q d Hg|y d Hy|y d|bucket y d|d i p Hi Hlen|d i Hst|d|d Hs|d now Hnow];
    try (left; by exists t).
  - left. exists t. split; [done|]. destruct (AddRateLimited_cases bucket y d Hd) as [_ Hcases].
    destruct (q_shuttingDown (dl_queue d)); [by rewrite Hcases|].
    destruct Hcases as (_ & -> & _). by right.
  - left. exists t. split; [done|]. by rewrite send_waiting.
  - by right; right.
Qed.

Lemma loop_step_now d d' : loop_step d d' → dl_now d' = dl_now d.
Proof.
  destruct 1; try done; unfold add_ready, receive; simpl;
    repeat (case_match; simplify_eq/=; try done).
Qed.

Lemma effect_due x now d d' :
  dl_ok d' → dl_now d' = dl_now d → effect d d' → due x now d → due x now d'.
Proof.
  intros Hok Hnow He [_ Hs Hn Hx].
  assert (∀ y, q_shuttingDown (Add y (dl_queue d)) = false) as Hadd.
  { intros y. by rewrite Add_keeps_shuttingDown. }
  split; [done| |congruence|].
  - destruct He as [? ->|? ? ? ? ->|? ? ? ? ? ? ->]; auto.
  - destruct Hx as [Hx|(t & Ht & Hin)].
    + left. destruct He as [? ->|? ? ? ? ->|? ? ? ? ? ? ->]; auto using Add_dirty.
    + destruct (effect_waiting _ _ _ _ He Hin) as [(t' & Ht' & Hin')|[-> _]].
      * right. exists t'. split; [lia|done].
      * left. apply Add_dirty; auto.
Qed.

Lemma loop_step_due x now d d' : loop_step d d' → due x now d → due x now d'.
Proof.
  intros Hstep Hd. destruct (loop_step_effect _ _ (due_ok _ _ _ Hd) Hstep) as [Hok He].
  eapply effect_due; [done|by apply loop_step_now|done|done].
Qed.

Lemma receive_work d p chan :
  dl_ok d → dl_waitingForAddCh d = p :: chan →
  let d' := receive p (with_channels (dl_sending d) chan d) in
  dl_phase d' = dl_phase d ∧ work d' < work d.
Proof.
  intros Hd Hch. destruct (received_entry _ _ _ Hd Hch) as (x & t & Hp & _ & Hnin & _).
  destruct (contents_entry _ _ _ _ Hp) as (e & Hpe & _). unfold receive, work. simpl. rewrite Hpe.
  destruct (dl_now d <? wf_readyAt e)%Z; simpl; [|split; [done|rewrite Hch; simpl; lia]].
  pose proof (insert_spec _ _ p x t (ok_waiting _ Hd) Hp Hnin) as Hi.
  destruct (insert _ _ p) as [pq' known']. destruct Hi as [_ Hi]. simpl. split; [done|].
  rewrite Hch. simpl. destruct (dl_waitingEntryByData d !! x); destruct Hi as [Hl%Permutation_length _];
    simpl in Hl; lia.
Qed.

(** Adding what is ready either takes an entry from the heap or sets the
    timer; the heap then holds no entry that is ready. *)
Lemma add_ready_work d now :
  dl_ok d → dl_phase d = AddingReady now →
  (dl_phase (add_ready now d) = AddingReady now ∧ work (add_ready now d) < work d) ∨
  (∃ next, add_ready now d = with_phase (Selecting next) d ∧
     ∀ p, p ∈ pq_slice (dl_waitingForQueue d) →
       (now < key_of (contents (dl_waitingForQueue d)) p)%Z).
Proof.
  intros Hd Hph. unfold add_ready. destruct (Peek (dl_waitingForQueue d)) as [p|] eqn:Hpeek.
  2: { right. eexists. split; [done|]. unfold Peek in Hpeek. intros q Hq.
       destruct (pq_slice _); [by apply elem_of_nil in Hq|done]. }
  rewrite readyAt_key. destruct (Z.ltb_spec now (key_of (contents (dl_waitingForQueue d)) p)) as [Hlt|_].
  - right. eexists. split; [done|]. intros q Hq. destruct (ok_waiting _ Hd) as [_ Ho _].
    pose proof (@ordered_first _ _ _ _ pq_Laws _ p q Ho Hpeek Hq) as Hle. simpl in Hle. lia.
  - left. destruct (Pop_ready _ _ _ (ok_waiting _ Hd) Hpeek) as (pq' & x & t & -> & Hp & Hc & Hsl & _).
    rewrite <- Hc in Hp. apply contents_entry in Hp as (e & -> & _). split; [done|].
    unfold work. simpl. apply Permutation_length in Hsl. simpl in Hsl. lia.
Qed.

(** The loop comes back to its top. *)
Lemma to_top x now d :
  due x now d → ∃ d', rtc progress_step d d' ∧ due x now d' ∧ dl_phase d' = AtTop ∧ work d' <= work d.
Proof.
  remember (work d) as n eqn:Hn. assert (work d <= n) as Hle by lia. clear Hn. revert d Hle.
  induction n as [n IH] using lt_wf_ind. intros d Hle Hd.
  assert (∀ d1, loop_step d d1 → work d1 < n →
    ∃ d', rtc progress_step d d' ∧ due x now d' ∧ dl_phase d' = AtTop ∧ work d' <= n) as Hgo.
  { intros d1 Hstep Hlt.
    destruct (IH (work d1) ltac:(lia) d1 ltac:(lia) (loop_step_due _ _ _ _ Hstep Hd)) as (d' & Hr & ? & ? & ?).
    exists d'. split_and!; try done; [|lia]. eapply rtc_l; [by apply progress_loop|done]. }
  assert (∀ next d1, d1 = with_phase (Selecting next) d → loop_step d d1 →
    ∃ d', rtc progress_step d d' ∧ due x now d' ∧ dl_phase d' = AtTop ∧ work d' <= n) as Hselect.
  { intros next d1 -> Hstep. exists (with_phase AtTop (with_phase (Selecting next) d)).
    assert (loop_step (with_phase (Selecting next) d) (with_phase AtTop (with_phase (Selecting next) d)))
      as Hbeat by by eapply loop_heartbeat.
    split; [eapply rtc_l; [by apply progress_loop|by apply rtc_once, progress_loop]|].
    split; [by eapply loop_step_due; [|eapply loop_step_due]|done]. }
  pose proof (due_ok _ _ _ Hd) as Hok. destruct (dl_phase d) as [|now'|next| |] eqn:Hph.
  - by exists d.
  - pose proof (loop_ready d now' Hph) as Hstep.
    destruct (add_ready_work d now' Hok Hph) as [[_ Hlt]|(next & Heq & _)].
    + apply (Hgo _ Hstep). lia.
    + by apply (Hselect next _ Heq).
  - exists (with_phase AtTop d). pose proof (loop_heartbeat d next Hph) as Hstep.
    split; [by apply rtc_once, progress_loop|]. by split; [eapply loop_step_due|].
  - destruct (dl_waitingForAddCh d) as [|p chan] eqn:Hch.
    + exists (with_phase AtTop d). pose proof (loop_drained d Hph Hch) as Hstep.
      split; [by apply rtc_once, progress_loop|]. by split; [eapply loop_step_due|].
    + apply (Hgo _ (loop_drain d p chan Hph Hch)).
      destruct (receive_work d p chan Hok Hch) as [_ Hlt]. lia.
  - pose proof (ok_returned _ Hok Hph). pose proof (due_open _ _ _ Hd). congruence.
Qed.

(** From its top, the loop adds the item or has less to do. *)
Lemma round_progress x now d :
  due x now d → dl_phase d = AtTop → x ∉ q_dirty (dl_queue d) →
  ∃ d', rtc progress_step d d' ∧ due x now d' ∧ dl_phase d' = AtTop ∧ work d' < work d.
Proof.
  intros Hd Hph Hx.
  assert (∀ d1 d2, rtc progress_step d d1 → due x now d2 → progress_step d1 d2 → work d2 < work d →
    ∃ d', rtc progress_step d d' ∧ due x now d' ∧ dl_phase d' = AtTop ∧ work d' < work d) as Hgo.
  { intros d1 d2 Hr Hd2 Hstep Hlt. destruct (to_top x now d2 Hd2) as (d' & Hr' & ? & ? & ?).
    exists d'. split_and!; try done; [|lia]. etrans; [exact Hr|]. by eapply rtc_l. }
  set (d1 := with_phase (AddingReady (dl_now d)) d).
  assert (loop_step d d1) as H1 by (apply loop_top; [done|apply Hd]).
  assert (due x now d1) as Hd1 by by eapply loop_step_due.
  assert (loop_step d1 (add_ready (dl_now d) d1)) as H2 by by apply loop_ready.
  destruct (add_ready_work d1 (dl_now d) (due_ok _ _ _ Hd1) eq_refl) as [[_ Hlt]|(next & Heq & Hlater)].
  { eapply (Hgo d1); [by apply rtc_once, progress_loop|by eapply loop_step_due|by apply progress_loop|done]. }
  rewrite Heq in H2. set (d2 := with_phase (Selecting next) d1) in *.
  assert (due x now d2) as Hd2 by by eapply loop_step_due.
  assert (rtc progress_step d d2) as Hr2.
  { eapply rtc_l; [by apply progress_loop|]. by apply rtc_once, progress_loop. }
  destruct (dl_waitingForAddCh d) as [|p chan] eqn:Hch.
  - destruct (dl_sending d) as [|p sending] eqn:Hsend.
    + exfalso. destruct (due_item _ _ _ Hd) as [|(t & Ht & Hin)]; [done|].
      unfold waiting, entries_of in Hin. rewrite Hsend, Hch in Hin. simpl in Hin.
      apply list_elem_of_fmap in Hin as (p & Hp & Hin). specialize (Hlater p Hin). simpl in Hlater.
      destruct (contents_Some d p (due_ok _ _ _ Hd)) as (x' & t' & Hc).
      { unfold entries_of. rewrite !elem_of_app. by right; right. }
      unfold key_of in Hlater. rewrite Hc in Hlater. rewrite (entry_of_lookup _ _ _ _ Hc) in Hp.
      injection Hp as <- <-. simpl in Hlater. rewrite (due_now _ _ _ Hd) in Hlater. lia.
    + set (d3 := with_channels (delete 0 (dl_sending d2)) (dl_waitingForAddCh d2 ++ [p]) d2).
      assert (dl_sending d2 !! 0 = Some p) as Hp by (simpl; by rewrite Hsend).
      assert (length (dl_waitingForAddCh d2) < chan_size) as Hlen
        by (simpl; rewrite Hch; unfold chan_size; simpl; lia).
      assert (due x now d3) as Hd3.
      { eapply (effect_due x now d2); [|done|by apply effect_none; [apply send_waiting|]|done].
        eapply caller_step_ok; [apply Hd2|]. by apply caller_send. }
      eapply (Hgo d2 d3); [done|done|by apply progress_send|].
      unfold work, d3. simpl. rewrite Hsend, Hch. simpl. lia.
  - pose proof (loop_receive d2 next p chan eq_refl Hch) as Hrec.
    eapply (Hgo d2); [done|by eapply loop_step_due|by apply progress_loop|].
    rewrite <- receive_with_phase.
    destruct (receive_work (with_phase Draining d2) p chan) as [_ Hlt]; [by apply dl_ok_phase; [..|apply Hd2]|done|].
    done.
Qed.

(** ** Properties *)


(** The items of a delaying queue are those of a queue of [Workqueue] whose
    waiting items are at least those that wait here: the entries of an item
    that were merged are still there in the latter, which adds waiting items at
    any time.  So what holds in the reachable states of [Workqueue] holds of the
    items here. *)
Lemma delaying_queue d :
  dl_reachable d →
  ∃ w, rtc queue_step newQueue (set_waiting w (dl_queue d)) ∧ (waiting d).*1 ⊆+ w.*1.
Proof.
  intros [now Hr].
  assert (∀ d0 q0, dl_ok d0 → represents d0 q0 → rtc dl_step d0 d →
    ∃ q, rtc queue_step q0 q ∧ represents d q) as Hsim.
  { intros d0 q0 Hok Hrep Hsteps. revert q0 Hrep. induction Hsteps as [d0|d0 d1 d Hstep _ IH];
      intros q0 Hrep; [by exists q0|].
    assert (∃ q1, rtc queue_step q0 q1 ∧ represents d1 q1) as (q1 & Hq1 & Hrep1).
    { destruct Hstep as [Hl|Hc]; [|by eapply represents_caller].
      eapply represents_effect; [by eapply loop_step_effect|done]. }
    destruct (IH Hr (dl_step_ok _ _ Hok Hstep) q1 Hrep1) as (q & Hq & Hrep').
    exists q. split; [by etrans|done]. }
  destruct (Hsim (newDelayingQueue now) newQueue) as (q & Hq & w & -> & Hsub).
  - apply newDelayingQueue_ok.
  - by exists [].
  - done.
  - by exists w.
Qed.

(** No retry is lost, early or overslept.  Until the queue is shut down, an
    item that waits for a time waits, at the next step, for that time or an
    earlier one, or it has just been added because that time has come; the loop
    adds only such items; and while the loop sleeps, its timer is set to the
    earliest time in the heap. *)
Lemma delays_respected d d' :
  dl_reachable d → dl_step d d' →
  (∀ x t, (x, t) ∈ waiting d →
     (∃ t', (t' <= t)%Z ∧ (x, t') ∈ waiting d') ∨
     (dl_queue d' = Add x (dl_queue d) ∧ (t <= dl_now d)%Z) ∨ dl_stopCh d = true) ∧
  (loop_step d d' → dl_queue d' = dl_queue d ∨
     ∃ x t, (x, t) ∈ waiting d ∧ (t <= dl_now d)%Z ∧ dl_queue d' = Add x (dl_queue d)) ∧
  (∀ next p, dl_phase d = Selecting next → p ∈ pq_slice (dl_waitingForQueue d) →
     ∃ t, next = Some t ∧ (t <= readyAt p (pq_entries (dl_waitingForQueue d)))%Z).
Proof.
  intros Hr%dl_reachable_ok Hstep. split; [|split].
  - intros x t Hin. destruct Hstep as [Hl|Hc].
    + destruct (effect_waiting d d' x t) as [?|?]; auto. by eapply loop_step_effect.
    + by apply caller_waiting.
  - intros Hl. destruct (loop_step_effect _ _ Hr Hl) as [_ [Hw Hq|x t Hw Ht Hq|x t t' l Hw Hw' Hq]]; auto.
    right. exists x, t. split; [rewrite Hw; by left|done].
  - intros next p Hph Hp. rewrite (ok_timer _ Hr _ Hph). unfold Peek.
    destruct (pq_slice (dl_waitingForQueue d)) as [|p0 l] eqn:Hsl; [by apply elem_of_nil in Hp|].
    eexists. split; [done|]. rewrite readyAt_key. rewrite <- Hsl in Hp.
    apply (@ordered_first _ _ _ _ pq_Laws); [apply Hr|simpl; by rewrite Hsl|done].
Qed.

(** C35: Every retry is made: whatever state the queue is in, unless it shuts
    down, once the time of an item has come the loop and the callers that are
    sending can go on to a state where the item needs processing. *)
Theorem retry_added d x t :
  dl_reachable d → q_shuttingDown (dl_queue d) = false → (x, t) ∈ waiting d → (t <= dl_now d)%Z →
  ∃ d', rtc progress_step d d' ∧ x ∈ q_dirty (dl_queue d').
Proof.
  intros Hr%dl_reachable_ok Hs Hin Ht.
  assert (due x (dl_now d) d) as Hd by (split; [done..|]; right; by exists t).
  destruct (to_top _ _ _ Hd) as (d0 & Hr0 & Hd0 & Hph & _).
  cut (∃ d', rtc progress_step d0 d' ∧ x ∈ q_dirty (dl_queue d')).
  { intros (d' & Hr' & Hx). exists d'. split; [by etrans|done]. }
  clear Hr0 Hd Hin Hs Hr Ht. remember (work d0) as n eqn:Hn. revert d0 Hn Hd0 Hph.
  induction n as [n IH] using lt_wf_ind. intros d0 -> Hd0 Hph.
  destruct (decide (x ∈ q_dirty (dl_queue d0))) as [Hx|Hx]; [by exists d0|].
  destruct (round_progress _ _ _ Hd0 Hph Hx) as (d1 & Hr1 & Hd1 & Hph1 & Hlt).
  destruct (IH (work d1) Hlt d1 eq_refl Hd1 Hph1) as (d' & Hr' & Hx').
  exists d'. split; [by etrans|done].
Qed.

(** ** Witnesses

    A retry of an item waits five milliseconds in the channel, which pass. *)
Module DelayingExample.

Definition web : item := ("web", "updateEvent").

Definition retried : delayingType := AddRateLimited 0 web (newDelayingQueue 0).

Definition sent : delayingType := with_channels [] [0] retried.

Definition later : delayingType :=
  MkDelaying (dl_queue sent) baseDelay false [] [0] (dl_waitingForQueue sent) ∅ 1 AtTop.

Lemma later_reachable : dl_reachable later.
Proof.
  exists 0%Z. eapply rtc_l; [right; apply (caller_AddRateLimited 0 web)|].
  eapply rtc_l; [right; apply (caller_send retried 0 0); [reflexivity|apply (bool_decide_unpack _); vm_compute; exact I]|].
  eapply rtc_l; [right; apply (caller_clock sent baseDelay); vm_compute; discriminate|].
  apply rtc_refl.
Qed.

Lemma web_waits : (web, baseDelay) ∈ waiting later.
Proof. apply (bool_decide_unpack _). vm_compute. exact I. Qed.

(** The loop adds the item, through the channel and the heap. *)
Definition readied : delayingType := with_phase (AddingReady baseDelay) later.


Lemma delays_respected_witness :
  ∃ t', (t' <= baseDelay)%Z ∧ (web, t') ∈ waiting (with_phase (AddingReady baseDelay) later).
Proof.
  destruct (delays_respected later (with_phase (AddingReady baseDelay) later) later_reachable)
    as (Hkept & _ & _).
  - left. apply (loop_top later); reflexivity.
  - destruct (Hkept web baseDelay web_waits) as [Hw|[[Hq _]|Hs]]; [exact Hw| |discriminate Hs].
    apply (f_equal q_queue) in Hq. discriminate Hq.
Defined.

Lemma retry_added_witness :
  ∃ d', rtc progress_step later d' ∧ web ∈ q_dirty (dl_queue d').
Proof.
  apply (retry_added later web baseDelay later_reachable); [reflexivity|exact web_waits|].
  simpl. lia.
Defined.

(** The loop receives an item twice and keeps the earlier time. *)
Example earlier_kept :
  let pq := MkPQ [] {[0 := MkWaitFor web 30 0; 1 := MkWaitFor web 20 0]} in
  let '(pq, known) := insert pq ∅ 0 in
  let '(pq, known) := insert pq known 1 in
  pq_slice pq = [0] ∧ readyAt 0 (pq_entries pq) = 20%Z.
Proof. vm_compute. by split. Qed.
End DelayingExample.
