(* ===== verification/Controller.v ===== *)
(** * The controller ([internal/controller.go])

    The informer's handlers put pairs of a key and an event on the queue; the
    workers take them, look the resource up in the informer's cache, and
    handle the event.  The cache is read through [Lister]; the state of the
    controller is its queue and the system of [Events]. *)
From S2P Require Import Prelude GoStrings Strconv GoSort Values Resolver Metric Family Store Types Builder Events Workqueue.

(** ** Keys ([client-go/tools/cache]) *)

(** What an informer hands to its handlers: a managed resource, the tombstone
    of a missed deletion, an [ExplicitKey], or something else. *)
Inductive informer_obj : Type :=
| InformerCRD (r : CRDMetricsResource)
| DeletedFinalStateUnknown (key : string) (obj : CRDMetricsResource)
| ExplicitKey (key : string)
| InformerOther.

(** [ObjectName.String]. *)
Definition object_key (namespace name : string) : string :=
  if decide (namespace = "") then name else namespace +:+ "/" +:+ name.

(** [MetaNamespaceKeyFunc]: a tombstone has no metadata of its own. *)
Definition MetaNamespaceKeyFunc (obj : informer_obj) : result string string :=
  match obj with
  | ExplicitKey key => Ok key
  | InformerCRD r => Ok (object_key (res_Namespace r) (res_Name r))
  | DeletedFinalStateUnknown _ _ | InformerOther =>
    Err "object has no meta: object does not implement the Object interfaces"
  end.

(** [SplitMetaNamespaceKey]. *)
Definition SplitMetaNamespaceKey (key : string) : result string (string * string) :=
  match Split key "/" with
  | [name] => Ok ("", name)
  | [namespace; name] => Ok (namespace, name)
  | _ => Err ("unexpected key format: " +:+ key)
  end.

(** ** The informer's handlers *)

Definition enqueueCRDMetrics (obj : informer_obj) (event : eventType) (q : queue) : queue :=
  match MetaNamespaceKeyFunc obj with
  | Err _ => q
  | Ok key => Add (key, event_String event) q
  end.

Definition AddFunc (obj : informer_obj) (q : queue) : queue := enqueueCRDMetrics obj addEvent q.

(** [UpdateFunc]: the spec of a resource is its configuration. *)
Definition UpdateFunc (oldI newI : informer_obj) (q : queue) : queue :=
  match oldI, newI with
  | InformerCRD oldCRDMetrics, InformerCRD newCRDMetrics =>
    if bool_decide (res_ResourceVersion oldCRDMetrics = res_ResourceVersion newCRDMetrics)
       || bool_decide (res_Configuration oldCRDMetrics = res_Configuration newCRDMetrics)
    then q
    else enqueueCRDMetrics newI updateEvent q
  | _, _ => q
  end.

Definition DeleteFunc (obj : informer_obj) (q : queue) : queue :=
  enqueueCRDMetrics obj deleteEvent q.

(** ** Workers *)

(** The errors of a lister: [errors.IsNotFound] or not. *)
Inductive lister_error : Type :=
| NotFound
| ListerError (err : string).

Class Lister (E : Type) : Type := {
  lister_Get : string → string → E → result lister_error CRDMetricsResource;
}.

(** The dynamic type of the argument of [handleObject]. *)
Inductive handled : Type :=
| HandledNil
| HandledMeta (o : Object)
| HandledTombstone (inner : option Object)
| HandledOther.

(** The state of the controller. *)
Record Ctl (E : Type) : Type := MkCtl {
  ctl_queue : queue;
  ctl_sys : Sys E;
}.
Arguments MkCtl {E} _ _.
Arguments ctl_queue {E} _.
Arguments ctl_sys {E} _.

Section controller.
Context {E : Type} `{!API E} `{!Lister E} `{!BuildInfo} `{!Yaml}.

Definition handle_object_by_type (object : Object) (event : string) (tryNoCache : bool)
    : M (Sys E) (option string) :=
  match object with
  | CRDObject _ => handleEvent event object tryNoCache
  | OtherObject => mret None
  end.

(** [handleObject]: the error it returns. *)
Definition handleObject (objectI : handled) (event : string) (tryNoCache : bool)
    : M (Sys E) (option string) :=
  match objectI with
  | HandledNil => mret None
  | HandledMeta object => handle_object_by_type object event tryNoCache
  | HandledTombstone (Some object) => handle_object_by_type object event tryNoCache
  | HandledTombstone None => mret None
  | HandledOther => mret None
  end.

(** [syncHandler]: the error it returns. *)
Definition syncHandler (key event : string) (tryNoCache : bool) : M (Sys E) (option string) :=
  match SplitMetaNamespaceKey key with
  | Err _ => mret None
  | Ok (namespace, name) =>
    got ← on_env (λ e, (lister_Get namespace name e, e));
    match got with
    | Err (ListerError err) =>
      mret (Some ("error getting CRDMetricsResource " +:+ object_key namespace name
                  +:+ ": " +:+ err))
    | Err NotFound =>
      handleObject (HandledMeta (CRDObject (named_resource name))) event tryNoCache
    | Ok resource => handleObject (HandledMeta (CRDObject resource)) event tryNoCache
    end
  end.

(** What [processNextWorkItem] does with an item it got, [Done] being deferred:
    it also runs when the handler panics.  [bucket] is the delay of the token
    bucket. *)
Definition process_item (bucket : Z) (x : item) (tryNoCache : bool) : M (Ctl E) unit := λ c,
  match syncHandler x.1 x.2 tryNoCache (ctl_sys c) with
  | (Done (Some _), s) =>
    (Done tt, MkCtl (Finish x (AddRateLimited bucket x (ctl_queue c))) s)
  | (Done None, s) => (Done tt, MkCtl (Finish x (Forget x (ctl_queue c))) s)
  | (Panicked p, s) => (Panicked p, MkCtl (Finish x (ctl_queue c)) s)
  end.

(** [processNextWorkItem]: [None] while [Get] blocks. *)
Definition processNextWorkItem (bucket : Z) (tryNoCache : bool) : M (Ctl E) (option bool) := λ c,
  match Get (ctl_queue c) with
  | Blocked => (Done None, c)
  | Shutdown => (Done (Some false), c)
  | Item x q =>
    (process_item bucket x tryNoCache;; mret (Some true)) (MkCtl q (ctl_sys c))
  end.
End controller.

(** ** Lemmas *)

Lemma split_object_key namespace name :
  Count namespace "/" = 0 → Count name "/" = 0 →
  SplitMetaNamespaceKey (object_key namespace name) = Ok (namespace, name).
Proof.
  intros Hns Hn. unfold SplitMetaNamespaceKey, object_key. case_decide as He.
  - rewrite Split_no_sep by done. by rewrite He.
  - change ("/" +:+ name) with (String "/" name).
    rewrite Split_app_sep, (Split_no_sep name) by done. done.
Qed.

Section lemmas.
Context {E : Type} `{!API E} `{!APILaws E} `{!Lister E} `{!BuildInfo} `{!Yaml}.

(** Every configuration on the server can be built. *)
Definition all_buildable (e : E) : Prop := ∀ k, buildable_at e k.

(** The configuration on the server of the resource of a key has a null item
    that the event builds. *)
Definition null_key (key event : string) (e : E) : Prop :=
  ∃ ns n r uid raw scs,
    SplitMetaNamespaceKey key = Ok (ns, n) ∧
    (lister_Get ns n e = Ok r ∨ lister_Get ns n e = Err NotFound ∧ r = named_resource n) ∧
    specs e !! (res_Namespace r, res_Name r) = Some (uid, raw) ∧ null_item event raw scs.

Lemma all_buildable_null_key key event e : all_buildable e → ¬ null_key key event e.
Proof.
  intros Hb (ns & n & r & uid & raw & scs & _ & _ & Hk & Hnull).
  by apply (buildable_not_null event raw scs (λ _, Hb _ uid raw Hk)).
Qed.

Lemma ends_handleEvent event r tryNoCache (s : Sys E) :
  ends (handleEvent event (CRDObject r) tryNoCache) (λ err _, err = None)
    (λ p _, p = NilDereference ∧ ∃ uid raw scs,
       specs (sys_env s) !! (res_Namespace r, res_Name r) = Some (uid, raw) ∧
       null_item event raw scs) s.
Proof.
  eapply ends_mono; [apply handleEvent_ends|by intros err s' [-> _]|].
  intros p s' (-> & uid & raw & scs & ? & _ & ? & _). split; [done|]. by exists uid, raw, scs.
Qed.

(** The only errors of [syncHandler] are those of the lister. *)
Lemma ends_syncHandler key event tryNoCache (s : Sys E) :
  let failed := ∃ ns n e, SplitMetaNamespaceKey key = Ok (ns, n) ∧
                  lister_Get ns n (sys_env s) = Err (ListerError e) in
  ends (syncHandler key event tryNoCache)
    (λ err _, is_Some err ↔ failed)
    (λ p _, p = NilDereference ∧ ¬ failed ∧ null_key key event (sys_env s)) s.
Proof.
  intros failed. assert (∀ P : Prop, (¬ P) → is_Some (@None string) ↔ P) as Hnone.
  { intros P HP. split; [by intros [??]|done]. }
  assert (∀ ns n r, SplitMetaNamespaceKey key = Ok (ns, n) →
    lister_Get ns n (sys_env s) = Ok r ∨
      lister_Get ns n (sys_env s) = Err NotFound ∧ r = named_resource n →
    ends (handleEvent event (CRDObject r) tryNoCache) (λ err _, is_Some err ↔ failed)
      (λ p _, p = NilDereference ∧ ¬ failed ∧ null_key key event (sys_env s)) s) as Hhandle.
  { intros ns n r Hk Hl. assert (¬ failed) as Hno.
    { intros (? & ? & ? & Hk' & Hl'). rewrite Hk in Hk'. injection Hk' as <- <-. naive_solver congruence. }
    eapply ends_mono; [apply ends_handleEvent|by intros ? _ ->; apply Hnone|].
    intros p s' (-> & uid & raw & scs & Hs & Hnull). split; [done|]. split; [done|].
    by exists ns, n, r, uid, raw, scs. }
  unfold syncHandler. destruct (SplitMetaNamespaceKey key) as [[ns n]|e] eqn:Hk.
  - apply (ends_bind _ _ (λ got s', got = lister_Get ns n (sys_env s) ∧ s' = s)).
    { apply wp_on_env. intros a e [= <- <-]. by destruct s. }
    intros got s' [-> ->].
    destruct (lister_Get ns n (sys_env s)) as [r|[|err]] eqn:Hl; cbv iota.
    + by apply (Hhandle ns n r); [|left].
    + by apply (Hhandle ns n (named_resource n)); [|right].
    + split; [|eauto]. intros _. by exists ns, n, err.
  - apply Hnone. by intros (? & ? & ? & ? & ?).
Qed.
End lemmas.

(** ** Properties *)

(** The key of a resource splits back into its namespace and name, for
    names without a slash, as all of Kubernetes' are; with or without a
    namespace. *)
Lemma key_roundtrip r key :
  Count (res_Namespace r) "/" = 0 → Count (res_Name r) "/" = 0 →
  MetaNamespaceKeyFunc (InformerCRD r) = Ok key →
  SplitMetaNamespaceKey key = Ok (res_Namespace r, res_Name r).
Proof. intros Hns Hn [= <-]. by apply split_object_key. Qed.

(** An update is queued if and only if both the resource version and the
    configuration changed (and the queue accepts it); a resync, or a write to
    other fields, is not. *)
Lemma UpdateFunc_spec old new q :
  q_shuttingDown q = false →
  let x := (object_key (res_Namespace new) (res_Name new), "updateEvent") in
  (res_ResourceVersion old ≠ res_ResourceVersion new ∧
   res_Configuration old ≠ res_Configuration new →
     x ∈ q_dirty (UpdateFunc (InformerCRD old) (InformerCRD new) q)) ∧
  (res_ResourceVersion old = res_ResourceVersion new ∨
   res_Configuration old = res_Configuration new →
     UpdateFunc (InformerCRD old) (InformerCRD new) q = q).
Proof.
  intros Hs x. unfold UpdateFunc. split.
  - intros [Hrv Hc]. rewrite !bool_decide_eq_false_2 by done. simpl.
    unfold enqueueCRDMetrics. simpl. fold x. unfold Add. rewrite Hs. repeat case_decide; set_solver.
  - intros [Heq|Heq]; rewrite (bool_decide_eq_true_2 _ Heq); [done|].
    by rewrite orb_true_r.
Qed.

(** A deletion that the informer observed is queued; one that it missed
    arrives as a tombstone, which has no key, and is dropped, so that the
    branch of [handleObject] for tombstones is never taken. *)
Lemma DeleteFunc_spec key r q :
  DeleteFunc (DeletedFinalStateUnknown key r) q = q ∧
  DeleteFunc (InformerCRD r) q =
    Add (object_key (res_Namespace r) (res_Name r), "deleteEvent") q.
Proof. done. Qed.

Section properties.
Context {E : Type} `{!API E} `{!APILaws E} `{!Lister E} `{!BuildInfo} `{!Yaml}.

(** C27: The controller does not feed itself: the writes that handling an event
    makes to the server, seen by the informer as an update of any resource,
    put nothing on the queue. *)
Theorem own_writes_not_queued event r tryNoCache (s : Sys E) :
  buildable_at (sys_env s) (res_Namespace r, res_Name r) →
  wp (handleEvent event (CRDObject r) tryNoCache)
    (λ _ s', ∀ k old new q,
       cluster (sys_env s) !! k = Some old → cluster (sys_env s') !! k = Some new →
       UpdateFunc (InformerCRD old) (InformerCRD new) q = q) s.
Proof.
  intros Hb. apply (wp_mono _ _ _ _ (wp_handleEvent_specs event r tryNoCache s Hb)).
  intros _ s' Hspecs k old new q Hold Hnew.
  apply (f_equal (.!! k)) in Hspecs. unfold specs in Hspecs.
  rewrite !lookup_fmap, Hold, Hnew in Hspecs. injection Hspecs as _ Hc.
  unfold UpdateFunc. rewrite Hc, (bool_decide_eq_true_2 (res_Configuration old = _)) by done.
  by rewrite orb_true_r.
Qed.

(** C37: The deletion of a managed resource does not drop its stores.  Its event
    is handled for a resource rebuilt from its name alone, without namespace
    nor UID, which the server does not have any more, so the handler stops at
    its first request, before the stores, and reports success. *)
Theorem deletion_keeps_stores namespace name tryNoCache (s : Sys E) :
  Count namespace "/" = 0 → Count name "/" = 0 →
  lister_Get namespace name (sys_env s) = Err NotFound →
  specs (sys_env s) !! ("", name) = None →
  wp (syncHandler (object_key namespace name) "deleteEvent" tryNoCache)
    (λ err s', err = None ∧ sys_world s' = sys_world s) s.
Proof.
  intros Hns Hn Hl Hno. unfold syncHandler. rewrite split_object_key by done.
  wp_step. apply wp_on_env. intros a e [= <- <-]. rewrite Hl. cbv iota.
  by apply (handleEvent_vanished "deleteEvent" (named_resource name) tryNoCache (MkSys _ _)).
Qed.

(** C21: Processing an item always ends by marking it done.  It panics only when
    the event builds the configuration that the server holds for the item's
    resource and that configuration has a null item.  Otherwise the item is
    retried, after a delay of at least five milliseconds and with one more
    failure on its account, if and only if the lister failed; in every other
    case, malformed keys and failed reconciliations included, its failures are
    forgotten. *)
Theorem process_item_spec bucket x tryNoCache (c : Ctl E) :
  let failed := ∃ ns n e, SplitMetaNamespaceKey x.1 = Ok (ns, n) ∧
                  lister_Get ns n (sys_env (ctl_sys c)) = Err (ListerError e) in
  let '(o, c') := process_item bucket x tryNoCache c in
  x ∉ q_processing (ctl_queue c') ∧
  match o with
  | Done _ =>
    (failed → NumRequeues x (ctl_queue c') = S (NumRequeues x (ctl_queue c)) ∧
       (q_shuttingDown (ctl_queue c) = false → ∃ d, (baseDelay <= d)%Z ∧
          (x, d) ∈ q_waiting (ctl_queue c'))) ∧
    (¬ failed → NumRequeues x (ctl_queue c') = 0 ∧
       q_waiting (ctl_queue c') = q_waiting (ctl_queue c))
  | Panicked p =>
    p = NilDereference ∧ ¬ failed ∧ null_key x.1 x.2 (sys_env (ctl_sys c)) ∧
    NumRequeues x (ctl_queue c') = NumRequeues x (ctl_queue c) ∧
    q_waiting (ctl_queue c') = q_waiting (ctl_queue c)
  end.
Proof.
  intros failed. unfold process_item.
  pose proof (ends_syncHandler x.1 x.2 tryNoCache (ctl_sys c)) as Hsync. unfold ends in Hsync.
  destruct (syncHandler _ _ _ _) as [[[err|]|p] s'].
  - assert (failed) as Hf by by apply Hsync.
    pose proof (AddRateLimited_spec bucket x (ctl_queue c)) as (Hn & Hw).
    destruct (Finish_spec x (AddRateLimited bucket x (ctl_queue c))) as (Hp & Hn' & Hw').
    split; [done|]. split; [|done]. intros _. simpl. rewrite Hn', Hn, Hw'. by split.
  - assert (¬ failed) as Hf.
    { intros Hf. apply Hsync in Hf. by destruct Hf. }
    destruct (Finish_spec x (Forget x (ctl_queue c))) as (Hp & Hn' & Hw').
    split; [done|]. split; [done|]. intros _. simpl. rewrite Hn', Hw'. split; [|done].
    unfold NumRequeues, Forget. simpl. by rewrite lookup_delete_eq.
  - destruct Hsync as (-> & Hf & Hnull), (Finish_spec x (ctl_queue c)) as (Hp & Hn & Hw).
    by split_and!.
Qed.

End properties.

(** C22: An event whose metadata update fails, as it does when another client
    has written the resource in the meantime, is lost.  The poll around the
    update ends at the first error, the handler reports success, and the item
    is taken for done: it is not retried, no condition is set, and the stores
    stay as they were. *)
Theorem conflict_drops_event {E} `{!API E} `{!Lister E} `{!BuildInfo} `{!Yaml}
    bucket tryNoCache (q q' : queue) (s : Sys E) ns n event r got e1 e2 e3 err :
  Count ns "/" = 0 → Count n "/" = 0 →
  Get q = Item (object_key ns n, event) q' →
  lister_Get ns n (sys_env s) = Ok r →
  env_Tick (sys_env s) = (Tick, e1) →
  api_Get (res_Namespace r) (res_Name r) e1 = (Ok got, e2) →
  api_Update (res_Namespace got)
    (set_Labels (Some (metadata_labels (res_Labels got))) got) e2 = (Err err, e3) →
  processNextWorkItem bucket tryNoCache (MkCtl q s) =
    (Done (Some true),
     MkCtl (Finish (object_key ns n, event) (Forget (object_key ns n, event) q'))
       (MkSys (sys_world s) e3)).
Proof.
  intros Hns Hn Hget Hl Htick Hg Hu. unfold processNextWorkItem. simpl. rewrite Hget.
  assert (syncHandler (object_key ns n) event tryNoCache s = (Done None, MkSys (sys_world s) e3)) as Hs.
  { unfold syncHandler. rewrite split_object_key by done.
    unfold mbind, M_bind, on_env at 1. simpl. rewrite Hl. simpl. unfold updateMetadata, mbind, M_bind.
    unfold poll_rounds. rewrite updateMetadata_one_round.
    unfold mbind, M_bind, on_env at 1. simpl. rewrite Htick. simpl.
    unfold metadata_condition, mbind, M_bind, on_env. simpl. rewrite Hg. simpl.
    rewrite DeepCopy_eq. simpl. rewrite Hu. done. }
  unfold mbind, M_bind, process_item. simpl. by rewrite Hs.
Qed.

(** ** Witnesses *)

Module ControllerExample.
Export EventsExample.

(** A cache that is always up to date. *)
#[export] Instance server_Lister : Lister Mem.Server := {|
  lister_Get ns n e :=
    match Mem.read e !! (ns, n) with
    | Some r => Ok r
    | None => Err NotFound
    end;
|}.

Lemma key_roundtrip_witness :
  SplitMetaNamespaceKey "default/web" = Ok ("default", "web") ∧
  SplitMetaNamespaceKey "web" = Ok ("", "web").
Proof.
  split.
  - apply (key_roundtrip (Mem.keyed "default" "web" (managed "")) "default/web"); reflexivity.
  - apply (key_roundtrip (named_resource "web") "web"); reflexivity.
Defined.

Lemma UpdateFunc_spec_witness :
  let updated := set_ResourceVersion "5" (managed "new") in
  ("web", "updateEvent") ∈
    q_dirty (UpdateFunc (InformerCRD (managed "old")) (InformerCRD updated) newQueue).
Proof.
  intros updated. destruct (UpdateFunc_spec (managed "old") updated newQueue) as [H _].
  - reflexivity.
  - apply H. split; discriminate.
Defined.

Lemma own_writes_not_queued_witness :
  wp (handleEvent "addEvent" (CRDObject (managed "stores: [...]")) false)
    (λ _ s', ∀ k old new q,
       cluster (sys_env (start "stores: [...]")) !! k = Some old →
       cluster (sys_env s') !! k = Some new →
       UpdateFunc (InformerCRD old) (InformerCRD new) q = q) (start "stores: [...]").
Proof.
  apply (own_writes_not_queued "addEvent" (managed "stores: [...]") false (start "stores: [...]")).
  apply server_buildable. discriminate.
Defined.

Lemma deletion_keeps_stores_witness :
  let w := build_world "uid-1" false [config] empty_world in
  wp (syncHandler "web" "deleteEvent" false)
    (λ err s', err = None ∧ w_stores (sys_world s') = {["uid-1" := [0]]})
    (MkSys w (Mem.MkServer ∅ 4 1000)).
Proof.
  intros w.
  assert (∀ k, Mem.read (Mem.MkServer ∅ 4 1000) !! k = None) as Hempty.
  { intros k. unfold Mem.read. by rewrite map_lookup_imap. }
  assert (lister_Get "" "web" (Mem.MkServer ∅ 4 1000) = Err NotFound) as Hl.
  { simpl. by rewrite Hempty. }
  assert (specs (sys_env (MkSys w (Mem.MkServer ∅ 4 1000))) !! ("", "web") = None) as Hno.
  { unfold specs. rewrite lookup_fmap. simpl. by rewrite Hempty. }
  apply (wp_mono _ _ _ _ (deletion_keeps_stores "" "web" false
    (MkSys w (Mem.MkServer ∅ 4 1000)) eq_refl eq_refl Hl Hno)).
  intros err s' [-> ->]. split; [reflexivity|].
  apply (bool_decide_unpack _). vm_compute. exact I.
Defined.

(** A server on which someone else always writes first. *)
Inductive Contended : Type := MkContended (server : Mem.Server).

#[export] Instance contended_API : API Contended := {|
  api_Get ns n '(MkContended e) := let '(r, e) := api_Get ns n e in (r, MkContended e);
  api_Update ns r e := (Err "the object has been modified", e);
  api_UpdateStatus ns r e := (Err "the object has been modified", e);
  env_Now '(MkContended e) := let '(t, e) := env_Now e in (t, MkContended e);
  env_Tick e := (Tick, e);
|}.

#[export] Instance contended_Lister : Lister Contended := {|
  lister_Get ns n '(MkContended e) := lister_Get ns n e;
|}.

Definition contended_start : Sys Contended :=
  MkSys empty_world (MkContended (sys_env (start "stores: [...]"))).

Lemma conflict_drops_event_witness :
  ∃ c', processNextWorkItem 0 false (MkCtl (Add ("web", "addEvent") newQueue) contended_start) =
      (Done (Some true), c') ∧
    q_queue (ctl_queue c') = [] ∧ q_waiting (ctl_queue c') = [] ∧ sys_world (ctl_sys c') = empty_world.
Proof.
  eexists. split.
  - eapply (conflict_drops_event 0 false _ _ contended_start "" "web" "addEvent");
      vm_compute; reflexivity.
  - split; [|split]; vm_compute; reflexivity.
Defined.
End ControllerExample.
