(* ===== verification/Probe.v ===== *)
(** * Health probes ([internal/probe.go])

    The three probes differ by their path; each asks the API server for the
    same path and answers 200 or 503.  The client is a parameter: the error of
    a GET of a path.  Logging is not modelled. *)
From S2P Require Import Prelude.

(** ** Data *)

Record healthz : Type := MkHealthz {
  healthz_source : string;
  healthz_asString : string;
}.

Record livez : Type := MkLivez {
  livez_source : string;
  livez_asString : string;
}.

Record readyz : Type := MkReadyz {
  readyz_source : string;
  readyz_asString : string;
}.

(** The methods of each implementation, but for [probe] below. *)
Definition healthz_getSource (h : healthz) : string := healthz_source h.
Definition healthz_getAsString (h : healthz) : string := healthz_asString h.

Definition livez_getSource (l : livez) : string := livez_source l.
Definition livez_getAsString (l : livez) : string := livez_asString l.

Definition readyz_getSource (r : readyz) : string := readyz_source r.
Definition readyz_getAsString (r : readyz) : string := readyz_asString r.

(** The interface [probe], by its implementations, and its methods, which
    dispatch to them. *)
Inductive probe : Type :=
| Healthz (h : healthz)
| Livez (l : livez)
| Readyz (r : readyz).

Definition getSource (p : probe) : string :=
  match p with
  | Healthz h => healthz_getSource h
  | Livez l => livez_getSource l
  | Readyz r => readyz_getSource r
  end.

Definition getAsString (p : probe) : string :=
  match p with
  | Healthz h => healthz_getAsString h
  | Livez l => livez_getAsString l
  | Readyz r => readyz_getAsString r
  end.

Definition newHealthz (source : string) : probe :=
  Healthz {| healthz_source := source; healthz_asString := "/healthz" |}.

Definition newLivez (source : string) : probe :=
  Livez {| livez_source := source; livez_asString := "/livez" |}.

Definition newReadyz (source : string) : probe :=
  Readyz {| readyz_source := source; readyz_asString := "/readyz" |}.

(** The REST client: what a GET of an absolute path comes to. *)
Class RESTClient : Type := {
  rest_Get : string → result string unit;
}.

Definition StatusOK : Z := 200.
Definition StatusServiceUnavailable : Z := 503.

(** [http.StatusText], for the statuses the program sends. *)
Definition StatusText (code : Z) : string :=
  if decide (code = StatusOK) then "OK"
  else if decide (code = StatusServiceUnavailable) then "Service Unavailable"
  else "".

(** What a handler does to its [http.ResponseWriter]: the calls it makes. *)
Inductive response_op : Type :=
| WriteHeader (statusCode : Z)
| Write (body : string).

(** ** [genericProbe] *)

Definition genericProbe `{!RESTClient} (p : probe) : list response_op :=
  match rest_Get (getAsString p) with
  | Err _ =>
    [WriteHeader StatusServiceUnavailable; Write (StatusText StatusServiceUnavailable)]
  | Ok _ => [WriteHeader StatusOK; Write (StatusText StatusOK)]
  end.

(** The method [probe] of each implementation, and its dispatch. *)
Definition healthz_probe `{!RESTClient} (h : healthz) : list response_op := genericProbe (Healthz h).
Definition livez_probe `{!RESTClient} (l : livez) : list response_op := genericProbe (Livez l).
Definition readyz_probe `{!RESTClient} (r : readyz) : list response_op := genericProbe (Readyz r).

Definition probe_probe `{!RESTClient} (p : probe) : list response_op :=
  match p with
  | Healthz h => healthz_probe h
  | Livez l => livez_probe l
  | Readyz r => readyz_probe r
  end.

(** The status and the body that the client of the probe sees: the first
    [WriteHeader] counts, and [Write] before it means 200. *)
Fixpoint response_of (ops : list response_op) (status : option Z) (body : string) : Z * string :=
  match ops with
  | [] => (default StatusOK status, body)
  | WriteHeader code :: ops =>
    response_of ops (Some (default code status)) body
  | Write s :: ops => response_of ops (Some (default StatusOK status)) (body +:+ s)
  end.

(** ** Properties *)

(** A probe answers 200 [OK] exactly when the API server answers its own
    endpoint of the same path, and 503 [Service Unavailable] otherwise; the
    status is sent once, before the body.  The path is fixed by the kind of the
    probe, and the source does not matter. *)
Lemma genericProbe_spec `{!RESTClient} p :
  response_of (probe_probe p) None "" =
    (match rest_Get (getAsString p) with
     | Ok _ => (200%Z, "OK")
     | Err _ => (503%Z, "Service Unavailable")
     end) ∧
  (∃ code body, probe_probe p = [WriteHeader code; Write body]) ∧
  ∀ source, getAsString (newHealthz source) = "/healthz" ∧
    getAsString (newLivez source) = "/livez" ∧ getAsString (newReadyz source) = "/readyz".
Proof.
  assert (probe_probe p = genericProbe p) as -> by by destruct p.
  unfold genericProbe. destruct (rest_Get _); (split; [done|split; [eauto|done]]).
Qed.
