(* ===== verification/Server.v ===== *)
(** * The servers ([internal/server.go])

    The main server exposes the stores of every managed resource, the self
    server the telemetry of the process.  Routes are data here; the metrics
    handler of the main server is modelled in full, over the world of
    [Builder].  Profiling, telemetry and content negotiation are the
    libraries'. *)
From S2P Require Import Prelude GoStrings Strconv GoSort Values Resolver Metric Family Store Writer Types Builder Probe.

(** ** Routes *)

Inductive route : Type :=
| PprofIndex | PprofCmdline | PprofProfile | PprofSymbol | PprofTrace
| TelemetryMetrics
| ResourceMetrics
| ProbeRoute (p : probe).

Definition Second : Z := 1000000000.

(** The fields of [http.Server] that the program sets, the handler being the
    routes of the mux. *)
Record http_Server : Type := {
  srv_prefix : string;
  srv_Handler : list (string * route);
  srv_ReadHeaderTimeout : Z;
  srv_Addr : string;
}.

(** [promHTTPLogger], and what [Println] logs: an error, the message [err], and
    the source.  [%s] prints the slice of the arguments, in brackets. *)
Record promHTTPLogger : Type := MkLogger {
  log_source : string;
}.

Record log_entry : Type := {
  entry_err : string;
  entry_msg : string;
  entry_keysAndValues : list (string * string);
}.

Definition Println (l : promHTTPLogger) (v : list string) : log_entry := {|
  entry_err := "[" +:+ Join v " " +:+ "]";
  entry_msg := "err";
  entry_keysAndValues := [("source", log_source l)];
|}.

Record selfServer : Type := MkSelfServer {
  self_logger : promHTTPLogger;
  self_addr : string;
}.

(** The map of the stores is that of the controller, in the world; of the
    vector of durations, the names of its labels. *)
Record mainServer : Type := MkMainServer {
  main_logger : promHTTPLogger;
  main_addr : string;
  main_requestsDurationVec : list string;
}.

Definition newSelfServer (addr : string) : selfServer := MkSelfServer (MkLogger "self") addr.

Definition newMainServer (addr : string) (requestsDurationVec : list string) : mainServer :=
  MkMainServer (MkLogger "main") addr requestsDurationVec.

(** [selfServer.build]: [None] when the gatherer is not a registry. *)
Definition build_self (s : selfServer) (gatherer_is_registry : bool) : option http_Server :=
  let source := log_source (self_logger s) in
  let mux := [("/debug/pprof/", PprofIndex); ("/debug/pprof/cmdline", PprofCmdline);
              ("/debug/pprof/profile", PprofProfile); ("/debug/pprof/symbol", PprofSymbol);
              ("/debug/pprof/trace", PprofTrace)] in
  if negb gatherer_is_registry then None
  else
    let mux := mux ++ [("/metrics", TelemetryMetrics)] in
    let readyzProber := newReadyz source in
    let mux := mux ++ [(getAsString readyzProber, ProbeRoute readyzProber)] in
    Some {| srv_prefix := source; srv_Handler := mux; srv_ReadHeaderTimeout := 5 * Second;
            srv_Addr := self_addr s |}.

(** [mainServer.build]. *)
Definition build_main (s : mainServer) : http_Server :=
  let source := log_source (main_logger s) in
  let mux := [("/metrics", ResourceMetrics)] in
  let healthzProber := newHealthz source in
  let mux := mux ++ [(getAsString healthzProber, ProbeRoute healthzProber)] in
  let livezProber := newLivez source in
  let mux := mux ++ [(getAsString livezProber, ProbeRoute livezProber)] in
  {| srv_prefix := source; srv_Handler := mux; srv_ReadHeaderTimeout := 5 * Second;
     srv_Addr := main_addr s |}.

(** The interface [server]: a server is built for a gatherer. *)
Class server (S : Type) : Type := {
  server_build : S → bool → option http_Server;
}.

#[export] Instance selfServer_server : server selfServer := {| server_build := build_self |}.

#[export] Instance mainServer_server : server mainServer := {|
  server_build s _ := Some (build_main s);
|}.

(** ** The metrics handler *)

(** [expfmt]: whether the format negotiated for a request is the text format,
    and the content type of that format. *)
Class Expfmt : Type := {
  request : Type;
  negotiated_TextPlain : request → bool;
  text_format : string;
}.

(** The response: its content type, when set, and its body. *)
Record response (W : Type) : Type := MkResponse {
  rw_ContentType : option string;
  rw_body : W;
}.
Arguments MkResponse {W} _ _.
Arguments rw_ContentType {W} _.
Arguments rw_body {W} _.

(** The stores that a list of pointers leads to. *)
Definition deref (w : World) (locs : list nat) : outcome (list StoreType) :=
  mapM (λ l, match w_heap w !! l with
             | Some s => Done s
             | None => Panicked NilDereference
             end) locs.

Section handler.
Context `{!MapRange} `{!Expfmt} {W : Type} `{!IOWriter W}.

(** The loop over the map of the stores: the errors it logs, and the writer. *)
Fixpoint write_resources (site : list nat) (n : nat) (w : World)
    (entries : list (string * list nat)) (body : W) : outcome (list write_error * W) :=
  match entries with
  | [] => mret ([], body)
  | (_, locs) :: entries =>
    stores ← deref w locs;
    '(r, body) ← writeAllTo (site ++ [n]) stores body;
    '(errs, body) ← write_resources site (S n) w entries body;
    mret (match r with Err e => e :: errs | Ok _ => errs end, body)
  end.

(** The handler of [/metrics] of the main server. *)
Definition metricsHandler (site : list nat) (w : World) (r : request) (resp : response W)
    : outcome (list write_error * response W) :=
  let ct := if negb (negotiated_TextPlain r) then Some text_format else rw_ContentType resp in
  '(errs, body) ← write_resources site 0 w (range site (w_stores w)) (rw_body resp);
  mret (errs, MkResponse ct body).
End handler.

(** ** The invariant of the world

    Pointers lead to stores, and every store is well formed. *)
Record world_ok (w : World) : Prop := {
  ok_fresh : ∀ l, is_Some (w_heap w !! l) → l < w_next w;
  ok_stores : map_Forall (λ _ locs, Forall (λ l, is_Some (w_heap w !! l)) locs) (w_stores w);
  ok_reflectors : Forall (λ r, is_Some (w_heap w !! refl_store r)) (w_reflectors w);
  ok_heap : map_Forall (λ _ s, store_wf s) (w_heap w);
}.

(** ** Lemmas *)

Lemma deref_Done w locs :
  Forall (λ l, is_Some (w_heap w !! l)) locs →
  map_Forall (λ _ s, store_wf s) (w_heap w) →
  ∃ stores, deref w locs = Done stores ∧ Forall store_wf stores ∧
    Forall2 (λ l s, w_heap w !! l = Some s) locs stores.
Proof.
  intros Hl Hh. induction Hl as [|l locs [s Hs] _ (stores & Hd & Hwf & H2)].
  { by exists []. }
  exists (s :: stores). unfold deref in *. simpl. rewrite Hs, Hd. simpl.
  split; [done|]. split; constructor; try done. by apply (Hh l).
Qed.

(** What the pointers of each resource lead to. *)
Definition stores_of (w : World) (locs : list nat) : list StoreType :=
  match deref w locs with
  | Done stores => stores
  | Panicked _ => []
  end.

Section lemmas.
Context `{!MapRange} `{!Expfmt}.

Lemma write_resources_Done {W} `{!IOWriter W} site n w entries (body : W) :
  map_Forall (λ _ s, store_wf s) (w_heap w) →
  Forall (λ entry : string * list nat, Forall (λ l, is_Some (w_heap w !! l)) entry.2) entries →
  ∃ res, write_resources site n w entries body = Done res.
Proof.
  intros Hh Hl. revert n body. induction Hl as [|[uid locs] entries Hl _ IH]; intros n body; simpl.
  { eauto. }
  destruct (deref_Done w locs Hl Hh) as (stores & -> & Hwf & _). simpl.
  rewrite writeAllTo_chunks by done. simpl.
  destruct (write_chunks _ body) as [r body'].
  destruct (IH (S n) body') as [[errs b] ->]. simpl. eauto.
Qed.

Lemma write_resources_buffer site n w entries (body : string) :
  map_Forall (λ _ s, store_wf s) (w_heap w) →
  Forall (λ entry : string * list nat, Forall (λ l, is_Some (w_heap w !! l)) entry.2) entries →
  write_resources site n w entries body =
  Done ([], body +:+ string_concat
    (imap (λ i entry, exposition (site ++ [n + i]) (stores_of w entry.2)) entries)).
Proof.
  intros Hh Hl. revert n body. induction Hl as [|[uid locs] entries Hl _ IH]; intros n body; simpl.
  { by rewrite append_nil_r. }
  unfold stores_of at 1. simpl in Hl.
  destruct (deref_Done w locs Hl Hh) as (stores & -> & Hwf & _). simpl.
  rewrite writeAllTo_chunks by done. simpl. rewrite write_chunks_buffer. rewrite IH. simpl.
  rewrite Nat.add_0_r, append_assoc. do 3 f_equal. unfold string_concat. simpl. f_equal. f_equal.
  apply imap_ext. intros i entry _. simpl. by rewrite Nat.add_succ_r.
Qed.

Lemma range_entries_ok site w :
  world_ok w →
  Forall (λ entry : string * list nat, Forall (λ l, is_Some (w_heap w !! l)) entry.2)
    (range site (w_stores w)).
Proof.
  intros Hw. rewrite range_perm. apply Forall_forall. intros [uid locs] Hin.
  apply elem_of_map_to_list in Hin. apply (ok_stores _ Hw _ _ Hin).
Qed.

Lemma metricsHandler_total {W} `{!IOWriter W} site w r (resp : response W) :
  world_ok w → ∃ errs resp', metricsHandler site w r resp = Done (errs, resp').
Proof.
  intros Hw. unfold metricsHandler.
  destruct (write_resources_Done site 0 w (range site (w_stores w)) (rw_body resp))
    as [[errs body] ->]; [apply (ok_heap _ Hw)|by apply range_entries_ok|].
  simpl. eauto.
Qed.

(** A scrape into a buffer. *)
Lemma metricsHandler_buffer site w r (resp : response string) :
  world_ok w →
  metricsHandler site w r resp =
  Done ([], MkResponse
    (if negotiated_TextPlain r then rw_ContentType resp else Some text_format)
    (rw_body resp +:+ string_concat
       (imap (λ i entry, exposition (site ++ [i]) (stores_of w entry.2))
          (range site (w_stores w))))).
Proof.
  intros Hw. unfold metricsHandler.
  rewrite write_resources_buffer; [|apply (ok_heap _ Hw)|by apply range_entries_ok].
  simpl. by destruct (negotiated_TextPlain r).
Qed.
End lemmas.

(** ** Properties *)

(** A scrape of the main server writes, for every managed resource, the
    exposition of its stores, whole and one after the other, and nothing else;
    no error is logged.  The content type is that of the text format when the
    client negotiated another one, and is left unset otherwise. *)
Lemma metricsHandler_exposition `{!MapRange} `{!Expfmt} site w r (resp : response string) :
  world_ok w →
  metricsHandler site w r resp =
  Done ([], MkResponse
    (if negotiated_TextPlain r then rw_ContentType resp else Some text_format)
    (rw_body resp +:+ string_concat
       (imap (λ i entry, exposition (site ++ [i]) (stores_of w entry.2))
          (range site (w_stores w))))).
Proof. apply metricsHandler_buffer. Qed.

(** The main server routes the metrics and the liveness and health probes,
    the self server the telemetry, the profiles and the readiness probe, each
    path once; the self server needs a registry for a gatherer. *)
Lemma server_routes (self : selfServer) (main : mainServer) :
  (srv_Handler (build_main main)).*1 = ["/metrics"; "/healthz"; "/livez"] ∧
  build_self self false = None ∧
  ∃ srv, build_self self true = Some srv ∧
    NoDup (srv_Handler srv).*1 ∧
    (∀ p route, (p, route) ∈ srv_Handler srv → (p, route) ∉ srv_Handler (build_main main)).
Proof.
  split; [done|]. split; [done|]. eexists. split; [done|]. split.
  - apply (bool_decide_unpack _). vm_compute. exact I.
  - intros p route Hin Hin'. simpl in *. set_solver.
Qed.
