(* ===== verification/Instrument.v ===== *)
(** * The instrumentation of the main server ([internal/server.go])

    The metrics handler is wrapped by [promhttp.InstrumentHandlerDuration]:
    the handler writes to a delegator, which remembers the status, and the
    duration of the request is observed under its code and its method. *)
From S2P Require Import Prelude GoStrings Strconv GoSort Values Resolver Metric Family Store Writer Types Builder Probe Server.

(** ** Response writers *)

(** [http.ResponseWriter]: a writer with a status line. *)
Class ResponseWriter (W : Type) `{!IOWriter W} : Type := {
  io_WriteHeader : Z → W → W;
}.

(** What is documented of [Write]: it calls [WriteHeader(200)] if it has not
    been called, so that calling it before changes nothing. *)
Class ResponseWriterLaws (W : Type) `{!IOWriter W} `{!ResponseWriter W} : Prop := {
  write_header_first (s : string) (w : W) : io_Write s (io_WriteHeader 200 w) = io_Write s w;
}.

(** [responseWriterDelegator], without an observer of the header. *)
Record Delegator (W : Type) : Type := MkDelegator {
  d_ResponseWriter : W;
  d_status : Z;
  d_written : Z;
  d_wroteHeader : bool;
}.
Arguments MkDelegator {W} _ _ _ _.
Arguments d_ResponseWriter {W} _.
Arguments d_status {W} _.
Arguments d_written {W} _.
Arguments d_wroteHeader {W} _.

Section delegator.
Context {W : Type} `{!IOWriter W} `{!ResponseWriter W}.

Definition newDelegator (w : W) : Delegator W := MkDelegator w 0 0 false.

Definition d_WriteHeader (code : Z) (r : Delegator W) : Delegator W :=
  MkDelegator (io_WriteHeader code (d_ResponseWriter r)) code (d_written r) true.

(** [Write]: [n] bytes are written also when there is an error. *)
Definition d_Write (b : string) (r : Delegator W) : result (nat * string) nat * Delegator W :=
  let r := if d_wroteHeader r then r else d_WriteHeader 200 r in
  let '(res, w) := io_Write b (d_ResponseWriter r) in
  let n := match res with Ok n => n | Err (n, _) => n end in
  (res, MkDelegator w (d_status r) (d_written r + Z.of_nat n) (d_wroteHeader r)).

#[export] Instance delegator_IOWriter : IOWriter (Delegator W) := {| io_Write := d_Write |}.
End delegator.

(** ** Labels *)

(** A label of a vector, in [checkLabels]. *)
Definition check_label (name : string) (found : bool * bool) : outcome (bool * bool) :=
  if decide (name = "code") then Done (true, found.2)
  else if decide (name = "method") then Done (found.1, true)
  else Panicked (PanicError "metric partitioned with non-supported labels").

(** [checkLabels]: whether there is a label for the code, and for the method. *)
Fixpoint checkLabels (names : list string) (found : bool * bool) : outcome (bool * bool) :=
  match names with
  | [] => mret found
  | name :: names =>
    found ← check_label name found;
    checkLabels names found
  end.

(** [sanitizeCode]; the codes that it lists one by one are printed as they
    are, like those of the range. *)
Definition sanitizeCode (s : Z) : string :=
  if decide (s = 200 ∨ s = 0)%Z then "200"
  else if decide (100 ≤ s ∧ s ≤ 599)%Z then Itoa s
  else "unknown".

Definition known_methods : list (string * string) :=
  [("GET", "get"); ("PUT", "put"); ("HEAD", "head"); ("POST", "post"); ("DELETE", "delete");
   ("CONNECT", "connect"); ("OPTIONS", "options"); ("NOTIFY", "notify"); ("TRACE", "trace");
   ("PATCH", "patch")].

(** [sanitizeMethod], without extra methods. *)
Definition sanitizeMethod (m : string) : string :=
  match List.find (λ p, bool_decide (m = p.1) || bool_decide (m = p.2)) known_methods with
  | Some (_, method) => method
  | None => "unknown"
  end.

(** [labels]. *)
Definition labels (code method : bool) (reqMethod : string) (status : Z) : gmap string string :=
  let labels := if code then <["code" := sanitizeCode status]> ∅ else ∅ in
  if method then <["method" := sanitizeMethod reqMethod]> labels else labels.

(** [prometheus.ObserverVec]: the durations observed, by labels, in order. *)
Notation ObserverVec := (gmap (gmap string string) (list Z)).

Definition Observe (l : gmap string string) (duration : Z) (obs : ObserverVec) : ObserverVec :=
  <[l := default [] (obs !! l) ++ [duration]]> obs.

(** ** The handler *)

Section handler.
Context `{!MapRange} `{!Expfmt} {W : Type} `{!IOWriter W} `{!ResponseWriter W}.

(** The function that [InstrumentHandlerDuration] returns around the metrics
    handler, for a request with its method and the time that it takes. *)
Definition instrumented (code method : bool) (site : list nat) (w : World) (reqMethod : string)
    (r : request) (duration : Z) (resp : response W) (obs : ObserverVec)
    : outcome (list write_error * response W * ObserverVec) :=
  if code then
    '(errs, out) ← metricsHandler site w r
                     (MkResponse (rw_ContentType resp) (newDelegator (rw_body resp)));
    let d := rw_body out in
    mret (errs, MkResponse (rw_ContentType out) (d_ResponseWriter d),
          Observe (labels code method reqMethod (d_status d)) duration obs)
  else
    '(errs, out) ← metricsHandler site w r resp;
    mret (errs, out, Observe (labels code method reqMethod 0) duration obs).

(** A request for [/metrics]: the labels are checked once, when the server is
    built. *)
Definition InstrumentHandlerDuration (s : mainServer) (site : list nat) (w : World)
    (reqMethod : string) (r : request) (duration : Z) (resp : response W) (obs : ObserverVec)
    : outcome (list write_error * response W * ObserverVec) :=
  '(code, method) ← checkLabels (main_requestsDurationVec s) (false, false);
  instrumented code method site w reqMethod r duration resp obs.
End handler.

(** ** Lemmas *)

Section lemmas.
Context `{!MapRange} `{!Expfmt} {W : Type} `{!IOWriter W} `{!ResponseWriter W}
  `{!ResponseWriterLaws W}.

(** What the delegator stands for, and the only statuses it can have here. *)
Definition delegates (d : Delegator W) (w : W) : Prop :=
  if d_wroteHeader d then d_ResponseWriter d = w ∧ d_status d = 200%Z
  else d_ResponseWriter d = w ∧ d_status d = 0%Z.

Lemma d_Write_delegates b d w :
  delegates d w →
  (io_Write b d).1 = (io_Write b w).1 ∧ delegates (io_Write b d).2 (io_Write b w).2.
Proof.
  unfold delegates. simpl. unfold d_Write.
  destruct d as [wd st n [|]]; simpl; intros [-> ->].
  - by destruct (io_Write b w) as [[?|[??]] w'].
  - rewrite write_header_first. by destruct (io_Write b w) as [[?|[??]] w'].
Qed.

Lemma write_chunks_delegates cs d w :
  delegates d w →
  (write_chunks cs d).1 = (write_chunks cs w).1 ∧
  delegates (write_chunks cs d).2 (write_chunks cs w).2.
Proof.
  revert d w. induction cs as [|c cs IH]; intros d w Hd; [done|].
  pose proof (d_Write_delegates (chunk_text c) d w Hd) as [Hr Hd']. cbn [write_chunks].
  destruct (io_Write (chunk_text c) d) as [[n|[n e]] d'], (io_Write (chunk_text c) w) as [[n'|[n' e']] w'];
    simpl in *; simplify_eq; [by apply IH|done].
Qed.

Lemma write_resources_delegates site n wld entries d w :
  map_Forall (λ _ s, store_wf s) (w_heap wld) →
  Forall (λ entry : string * list nat, Forall (λ l, is_Some (w_heap wld !! l)) entry.2) entries →
  delegates d w →
  ∃ errs d' w', write_resources site n wld entries d = Done (errs, d') ∧
    write_resources site n wld entries w = Done (errs, w') ∧ delegates d' w'.
Proof.
  intros Hh Hl. revert n d w. induction Hl as [|[uid locs] entries Hl _ IH]; intros n d w Hd.
  { by exists [], d, w. }
  destruct (deref_Done wld locs Hl Hh) as (stores & Hdr & Hwf & _). cbn [write_resources].
  rewrite Hdr. simpl. rewrite !writeAllTo_chunks by done. simpl.
  destruct (write_chunks_delegates (all_chunks (site ++ [n]) stores) d w Hd) as [Hr Hd'].
  destruct (write_chunks _ d) as [rd d1], (write_chunks _ w) as [rw w1]. simpl in *. subst rw.
  destruct (IH (S n) d1 w1 Hd') as (errs & d' & w' & -> & -> & Hd''). simpl. eauto 10.
Qed.
End lemmas.

(** ** Properties *)

(** C26: The instrumentation is transparent: with the labels of the program, the
    response and the errors are those of the metrics handler alone, for any
    writer that keeps the contract of [Write], and exactly one duration is
    observed.  It is filed under code 200 even when the response could not be
    written. *)
Theorem instrumentation_transparent `{!MapRange} `{!Expfmt} {W} `{!IOWriter W}
    `{!ResponseWriter W} `{!ResponseWriterLaws W} addr site w reqMethod r duration
    (resp : response W) obs :
  world_ok w →
  ∃ errs out, metricsHandler site w r resp = Done (errs, out) ∧
    InstrumentHandlerDuration (newMainServer addr ["method"; "code"]) site w reqMethod r duration
      resp obs =
    Done (errs, out,
          Observe {["code" := "200"; "method" := sanitizeMethod reqMethod]} duration obs).
Proof.
  intros Hw. unfold InstrumentHandlerDuration, instrumented, metricsHandler. simpl.
  destruct (write_resources_delegates site 0 w (range site (w_stores w))
              (newDelegator (rw_body resp)) (rw_body resp))
    as (errs & d' & w' & -> & -> & Hd); [apply (ok_heap _ Hw)|by apply range_entries_ok|done|].
  simpl. eexists _, _. split; [done|].
  assert (sanitizeCode (d_status d') = "200" ∧ d_ResponseWriter d' = w') as [Hcode ->].
  { unfold delegates in Hd. by destruct (d_wroteHeader d'); destruct Hd as [-> ->]. }
  unfold labels. by rewrite Hcode.
Qed.

(** Other labels than the two end the process when the server is built. *)
Lemma other_label_panics `{!MapRange} `{!Expfmt} {W} `{!IOWriter W} `{!ResponseWriter W}
    addr name names site w reqMethod r duration (resp : response W) obs :
  name ≠ "code" → name ≠ "method" →
  InstrumentHandlerDuration (newMainServer addr (name :: names)) site w reqMethod r duration
    resp obs = Panicked (PanicError "metric partitioned with non-supported labels").
Proof.
  intros Hc Hm. unfold InstrumentHandlerDuration. simpl. unfold check_label.
  by rewrite !decide_False by done.
Qed.

Lemma sanitizeMethod_known m :
  sanitizeMethod m ∈ "unknown" :: known_methods.*2.
Proof.
  unfold sanitizeMethod. destruct (List.find _ known_methods) as [[a b]|] eqn:Hf; [|by left].
  right. apply find_some in Hf as [Hin _]. apply list_elem_of_fmap. exists (a, b). split; [done|].
  by apply list_elem_of_In.
Qed.

(** ** Witnesses *)

Module InstrumentExample.
Export WriterExample.

#[export] Instance any_Expfmt : Expfmt := {|
  request := unit; negotiated_TextPlain _ := true; text_format := "text/plain";
|}.

(** A response over a connection that takes a number of bytes. *)
#[export] Instance limited_ResponseWriter : ResponseWriter (nat * string) := {| io_WriteHeader _ w := w |}.

#[export] Instance limited_ResponseWriterLaws : ResponseWriterLaws (nat * string).
Proof. by split. Qed.

Lemma instrumentation_transparent_witness :
  ∃ errs out, metricsHandler [] empty_world (tt : @request any_Expfmt) (MkResponse None (10, "")) = Done (errs, out) ∧
    InstrumentHandlerDuration (newMainServer "" ["method"; "code"]) [] empty_world "GET" (tt : @request any_Expfmt) 7
      (MkResponse None (10, "")) ∅ =
    Done (errs, out, Observe {["code" := "200"; "method" := sanitizeMethod "GET"]} 7 ∅).
Proof.
  apply (instrumentation_transparent "" [] empty_world "GET" (tt : @request any_Expfmt) 7 (MkResponse None (10, "")) ∅).
  split; simpl; try done; [|apply map_Forall_empty..].
  intros l. rewrite lookup_empty. by intros [??].
Defined.
End InstrumentExample.
