(* ===== verification/Mux.v ===== *)
(** * The dispatch of requests ([net/http], over the routes of [internal/server.go])

    The servers register their routes with an [http.ServeMux].  Its patterns
    have no method, host or wildcard here, so a request is dispatched on its
    path: the path is cleaned, and the longest pattern that matches it serves,
    where a pattern that ends with a slash matches all the paths below it.  A
    path that is not clean is redirected, and so is one that needs a final
    slash.  Escapes in paths are left out: a path is its own escape. *)
From S2P Require Import Prelude GoStrings Strconv GoSort Values Resolver Metric Family Store Writer Types Builder Probe Server.

#[local] Open Scope nat_scope.

(** ** [cleanPath] *)

(** [path.Clean] on the elements of a rooted path; the last one first. *)
Definition clean_step (out : list string) (element : string) : list string :=
  if decide (element = "" ∨ element = ".") then out
  else if decide (element = "..") then tail out
  else element :: out.

Definition clean_elements (elements : list string) : list string :=
  reverse (foldl clean_step [] elements).

(** The path ends with a slash. *)
Definition slash_end (p : string) : bool := bool_decide (last (Split p "/") = Some "").

Definition cleanPath (p : string) : string :=
  let out := clean_elements (Split p "/") in
  let np := "/" +:+ Join out "/" in
  if slash_end p && negb (bool_decide (out = [])) then np +:+ "/" else np.

(** ** [ServeMux] *)

Definition mux : Type := list (string * route).

Definition pattern_matches (pattern path : string) : bool :=
  bool_decide (pattern = path)
  || slash_end pattern && bool_decide (is_Some (drop_prefix pattern path)).

(** The longest pattern that matches. *)
Fixpoint mux_match (m : mux) (path : string) : option (string * route) :=
  match m with
  | [] => None
  | (pattern, r) :: m =>
    match mux_match m path with
    | Some (pattern', r') =>
      if pattern_matches pattern path && (String.length pattern' <? String.length pattern)
      then Some (pattern, r)
      else Some (pattern', r')
    | None => if pattern_matches pattern path then Some (pattern, r) else None
    end
  end.

Inductive dispatched : Type :=
| Served (r : route)
| Redirected (location : string)
| NotFound.

(** [findHandler]. *)
Definition findHandler (m : mux) (escapedPath : string) : dispatched :=
  let path := cleanPath escapedPath in
  let n := mux_match m path in
  if negb (bool_decide (fst <$> n = Some path)) && negb (slash_end path)
     && bool_decide (path +:+ "/" ∈ m.*1)
  then Redirected (path +:+ "/")
  else if negb (bool_decide (path = escapedPath)) then Redirected path
  else match n with
       | Some (_, r) => Served r
       | None => NotFound
       end.

(** ** Lemmas *)

Definition plain (element : string) : Prop :=
  element ≠ "" ∧ element ≠ "." ∧ element ≠ ".." ∧ Count element "/" = 0.

Lemma clean_step_plain out element :
  Count element "/" = 0 → Forall plain out → Forall plain (clean_step out element).
Proof.
  intros Hc Hout. unfold clean_step. case_decide as H1; [done|].
  case_decide; [destruct Hout; by simpl|]. constructor; [|done].
  split_and!; naive_solver.
Qed.

Lemma Split_no_sep_elements s sep : Forall (λ e, Count e sep = 0) (Split s sep).
Proof.
  induction s as [|c s IH]; [by repeat constructor|]. simpl.
  case_decide as Hc; [by constructor|].
  destruct IH as [|e es He Hes]; constructor; simpl; try done; by rewrite decide_False.
Qed.

Lemma clean_elements_plain s : Forall plain (clean_elements (Split s "/")).
Proof.
  unfold clean_elements. apply Forall_reverse.
  assert (∀ out, Forall plain out → Forall plain (foldl clean_step out (Split s "/"))) as H
    by (induction (Split_no_sep_elements s "/"); intros out Hout; simpl; [done|];
        by auto using clean_step_plain).
  by apply H.
Qed.

Lemma clean_elements_id out : Forall plain out → clean_elements ("" :: out) = out.
Proof.
  intros Hout. unfold clean_elements. simpl.
  assert (∀ acc, foldl clean_step acc out = reverse out ++ acc) as ->.
  { induction Hout as [|e out He Hout IH]; intros acc; [done|]. simpl. rewrite IH.
    destruct He as (? & ? & ? & _). unfold clean_step at 1.
    rewrite decide_False by naive_solver. rewrite decide_False by done.
    by rewrite reverse_cons, <- app_assoc. }
  by rewrite app_nil_r, reverse_involutive.
Qed.

(** A cleaned path, from its elements and whether it ends with a slash. *)
Definition joined (out : list string) (final : bool) : string :=
  "/" +:+ Join (if final then out ++ [""] else out) "/".

Lemma Join_snoc out e : out ≠ [] → Join (out ++ [e]) "/" = Join out "/" +:+ "/" +:+ e.
Proof.
  induction out as [|x out IH]; [done|]. intros _. destruct out as [|y out]; [done|].
  change (x +:+ String "/" (Join ((y :: out) ++ [e]) "/") =
          (x +:+ String "/" (Join (y :: out) "/")) +:+ "/" +:+ e).
  rewrite IH by done. by rewrite append_assoc, append_cons.
Qed.

Lemma cleanPath_joined p :
  ∃ out final, Forall plain out ∧ (final = true → out ≠ []) ∧ cleanPath p = joined out final.
Proof.
  unfold cleanPath. set (out := clean_elements _).
  exists out, (slash_end p && negb (bool_decide (out = []))).
  split; [apply clean_elements_plain|]. split.
  { rewrite andb_true_iff, negb_true_iff, bool_decide_eq_false. naive_solver. }
  destruct (bool_decide_reflect (out = [])) as [Hout|Hout];
    [by rewrite andb_false_r|]. rewrite andb_true_r.
  destruct (slash_end p); [|done]. unfold joined. rewrite Join_snoc by done.
  by rewrite append_assoc.
Qed.

Lemma Split_joined out final :
  Forall plain out → (final = true → out ≠ []) →
  Split (joined out final) "/" =
  "" :: match out with [] => [""] | _ => if final then out ++ [""] else out end.
Proof.
  intros Hout Hf. unfold joined. change ("/" +:+ ?s) with (String "/" s).
  rewrite Split_cons_sep. f_equal.
  assert (Forall (λ s, Count s "/" = 0) out) as Hc
    by (apply (Forall_impl _ _ _ Hout); by intros ? (_ & _ & _ & ?)).
  destruct final.
  - rewrite Split_Join; [by destruct out; naive_solver|by destruct out|].
    apply Forall_app. by repeat constructor.
  - destruct out; [done|]. by apply Split_Join.
Qed.

Lemma slash_end_joined out final :
  Forall plain out → (final = true → out ≠ []) →
  slash_end (joined out final) = final || bool_decide (out = []).
Proof.
  intros Hout Hf. unfold slash_end. rewrite Split_joined by done.
  destruct out as [|x out]; [by destruct final|]. destruct final.
  - by rewrite app_comm_cons, last_snoc.
  - simpl. apply bool_decide_false. change (last (x :: out) ≠ Some "").
    intros Hl. apply last_Some_elem_of in Hl.
    rewrite Forall_forall in Hout. by destruct (Hout _ Hl) as (? & _).
Qed.

Lemma cleanPath_id out final :
  Forall plain out → (final = true → out ≠ []) → cleanPath (joined out final) = joined out final.
Proof.
  intros Hout Hf. unfold cleanPath.
  rewrite slash_end_joined, Split_joined by done.
  assert (clean_elements ("" :: match out with [] => [""]
            | _ => if final then out ++ [""] else out end) = out) as ->.
  { destruct out as [|x out]; [done|].
    destruct final; [|by apply clean_elements_id].
    unfold clean_elements. rewrite app_comm_cons, foldl_app. simpl foldl at 1.
    unfold clean_step at 1. rewrite decide_True by by left.
    by apply (clean_elements_id (x :: out)). }
  destruct out as [|x out]; [by destruct final|].
  rewrite bool_decide_false, orb_false_r, andb_true_r by done.
  destruct final; [|done]. unfold joined. by rewrite Join_snoc, append_assoc.
Qed.

Lemma cleanPath_idem p : cleanPath (cleanPath p) = cleanPath p.
Proof.
  destruct (cleanPath_joined p) as (out & final & Hout & Hf & ->). by apply cleanPath_id.
Qed.

Lemma cleanPath_slash p :
  slash_end (cleanPath p) = false →
  cleanPath (cleanPath p +:+ "/") = cleanPath p +:+ "/" ∧
  slash_end (cleanPath p +:+ "/") = true.
Proof.
  destruct (cleanPath_joined p) as (out & final & Hout & Hf & ->).
  rewrite slash_end_joined by done. rewrite orb_false_iff, bool_decide_eq_false.
  intros [-> Hne].
  assert (joined out false +:+ "/" = joined out true) as ->.
  { unfold joined. by rewrite Join_snoc, append_assoc. }
  rewrite cleanPath_id, slash_end_joined by done. done.
Qed.

Lemma mux_match_Some m path pattern r :
  mux_match m path = Some (pattern, r) →
  (pattern, r) ∈ m ∧ pattern_matches pattern path = true.
Proof.
  revert pattern r. induction m as [|[q s] m IH]; intros pattern r; simpl; [done|].
  rewrite elem_of_cons.
  destruct (mux_match m path) as [[q' r']|]; repeat case_match; intros [= <- <-]; simplify_eq;
    try rewrite andb_true_iff in *; naive_solver.
Qed.

Lemma mux_match_None m path pattern r :
  mux_match m path = None → (pattern, r) ∈ m → pattern_matches pattern path = false.
Proof.
  induction m as [|[q s] m IH]; simpl; [by intros _ ?%elem_of_nil|].
  destruct (mux_match m path) as [[q' r']|]; [by repeat case_match|].
  destruct (pattern_matches q path) eqn:Hq; [done|]. intros _ [[= -> ->]|?]%elem_of_cons; eauto.
Qed.

(** No pattern that matches is longer. *)
Lemma mux_match_longest m path pattern r q s :
  mux_match m path = Some (pattern, r) → (q, s) ∈ m → pattern_matches q path = true →
  String.length q <= String.length pattern.
Proof.
  revert pattern r. induction m as [|[q0 s0] m IH]; intros pattern r; simpl; [done|].
  intros Hm [[= <- <-]|Hin]%elem_of_cons Hq.
  - rewrite Hq in Hm. destruct (mux_match m path) as [[q' r']|]; simpl in Hm; [|by simplify_eq].
    destruct (Nat.ltb_spec (String.length q') (String.length q)); simplify_eq; lia.
  - destruct (mux_match m path) as [[q' r']|] eqn:Hm';
      [|by pose proof (mux_match_None _ _ _ _ Hm' Hin); congruence].
    pose proof (IH _ _ eq_refl Hin Hq).
    destruct (pattern_matches q0 path); simpl in Hm; [|by simplify_eq].
    destruct (Nat.ltb_spec (String.length q') (String.length q0)); simplify_eq; lia.
Qed.

Lemma drop_prefix_length q p rest :
  drop_prefix q p = Some rest → String.length p = String.length q + String.length rest.
Proof.
  revert p. induction q as [|c q IH]; intros [|d p]; simpl; try done; [by intros [= <-]..|].
  case_decide; [|done]. intros ?%IH. lia.
Qed.

Lemma drop_prefix_same q p rest :
  drop_prefix q p = Some rest → String.length p <= String.length q → q = p.
Proof.
  revert p. induction q as [|c q IH]; intros [|d p]; simpl; try done; [lia|].
  case_decide; [|done]. subst. intros H ?. f_equal. apply (IH p); [done|lia].
Qed.

(** A pattern that is the path serves it. *)
Lemma mux_match_exact m path r :
  NoDup m.*1 → (path, r) ∈ m → mux_match m path = Some (path, r).
Proof.
  intros Hnd Hin. destruct (mux_match m path) as [[q s]|] eqn:Hm.
  - assert (pattern_matches path path = true) as Hpp
      by (unfold pattern_matches; by rewrite bool_decide_true).
    pose proof (mux_match_longest _ _ _ _ _ _ Hm Hin Hpp).
    apply mux_match_Some in Hm as [Hin' Hq]. assert (q = path) as ->.
    { unfold pattern_matches in Hq. apply orb_true_iff in Hq as [Hq|Hq];
        [by apply bool_decide_eq_true in Hq|].
      apply andb_true_iff in Hq as [_ [rest Hd]%bool_decide_eq_true].
      apply (drop_prefix_same _ _ _ Hd). done. }
    do 2 f_equal. apply list_elem_of_lookup in Hin as [i Hi], Hin' as [j Hj].
    assert (i = j) as ->.
    { eapply NoDup_lookup; [exact Hnd| |]; rewrite list_lookup_fmap; [by rewrite Hi|by rewrite Hj]. }
    congruence.
  - apply (mux_match_None _ _ path r) in Hm; [|done].
    unfold pattern_matches in Hm. by rewrite bool_decide_true in Hm.
Qed.

(** ** Properties *)

(** A client that is redirected is redirected once: the location it gets is
    clean, and is served or not found. *)
Lemma redirected_once m path location :
  NoDup m.*1 → findHandler m path = Redirected location →
  cleanPath location = location ∧ ∀ again, findHandler m location ≠ Redirected again.
Proof.
  intros Hnd. unfold findHandler at 1. set (c := cleanPath path).
  destruct (negb (bool_decide (fst <$> mux_match m c = Some c)) && _ && _) eqn:Hslash.
  - intros [= <-]. rewrite !andb_true_iff, !negb_true_iff in Hslash.
    destruct Hslash as [[_ Hc] _].
    destruct (cleanPath_slash path Hc) as [Hid Hend]. fold c in Hid, Hend. split; [done|]. intros again.
    unfold findHandler. rewrite Hid, Hend, andb_false_r. simpl.
    rewrite bool_decide_true by done. simpl. by destruct (mux_match _ _) as [[]|].
  - case_match; [|by destruct (mux_match m c) as [[]|]]. intros [= <-].
    assert (cleanPath c = c) as Hid by apply cleanPath_idem. split; [done|]. intros again.
    unfold findHandler. rewrite Hid, Hslash. simpl. rewrite bool_decide_true by done. simpl.
    by destruct (mux_match _ _) as [[]|].
Qed.

(** A path is served by a route when it is clean and the route is that of the
    path, or of the longest pattern above it. *)
Lemma findHandler_Served m path r :
  NoDup m.*1 → findHandler m path = Served r →
  cleanPath path = path ∧
  ((path, r) ∈ m ∨
   path ∉ m.*1 ∧ ∃ pattern rest, (pattern, r) ∈ m ∧ slash_end pattern = true ∧
     drop_prefix pattern path = Some rest).
Proof.
  intros Hnd. unfold findHandler. set (c := cleanPath path).
  destruct (_ && _ && _); [done|].
  destruct (bool_decide_reflect (c = path)) as [Hc|]; [simpl|done].
  destruct (mux_match m c) as [[q s]|] eqn:Hm; [|done]. intros [= ->].
  split; [done|]. rewrite Hc in Hm.
  destruct (decide (path ∈ m.*1)) as [Hin|Hin].
  - left. apply list_elem_of_fmap in Hin as ([p' r'] & -> & Hin). simpl in *.
    rewrite (mux_match_exact _ _ _ Hnd Hin) in Hm. by simplify_eq.
  - right. split; [done|]. apply mux_match_Some in Hm as [Hq Hm].
    unfold pattern_matches in Hm. apply orb_true_iff in Hm as [Hm|Hm].
    + apply bool_decide_eq_true in Hm as ->. by destruct Hin; apply (list_elem_of_fmap_2 fst) in Hq.
    + apply andb_true_iff in Hm as [Hs [rest Hd]%bool_decide_eq_true]. eauto 10.
Qed.

(** Below the only pattern that ends with a slash. *)
Lemma findHandler_below m path pattern r rest :
  (pattern, r) ∈ m → slash_end pattern = true →
  (∀ q s, (q, s) ∈ m → slash_end q = true → q = pattern ∧ s = r) →
  path ∉ m.*1 → cleanPath path = path → drop_prefix pattern path = Some rest →
  findHandler m path = Served r.
Proof.
  intros Hin Hs Honly Hnin Hc Hd. unfold findHandler. rewrite Hc.
  assert (mux_match m path = Some (pattern, r)) as ->.
  { destruct (mux_match m path) as [[q s]|] eqn:Hm.
    - apply mux_match_Some in Hm as [Hq Hm]. unfold pattern_matches in Hm.
      apply orb_true_iff in Hm as [Hm|Hm].
      + apply bool_decide_eq_true in Hm as ->. destruct Hnin.
        by apply (list_elem_of_fmap_2 fst) in Hq.
      + apply andb_true_iff in Hm as [Hm _]. by destruct (Honly q s Hq Hm) as [-> ->].
    - apply (mux_match_None _ _ _ _ Hm) in Hin. unfold pattern_matches in Hin.
      rewrite Hs, Hd, (bool_decide_true (is_Some _)) in Hin by eauto.
      by rewrite orb_true_r in Hin. }
  assert (slash_end path || bool_decide (path +:+ "/" ∈ m.*1) = slash_end path) as Hr.
  { destruct (slash_end path) eqn:Hp; [done|]. apply bool_decide_false. intros Hx.
    apply list_elem_of_fmap in Hx as ([q s] & Hq & Hx). simpl in Hq. subst q.
    rewrite <- Hc in Hp. destruct (cleanPath_slash path Hp) as [_ Hend]. rewrite Hc in Hend.
    destruct (Honly _ _ Hx Hend) as [Heq _]. apply drop_prefix_length in Hd.
    rewrite <- Heq in Hd. rewrite length_append in Hd. simpl in Hd. lia. }
  assert (negb (slash_end path) && bool_decide (path +:+ "/" ∈ m.*1) = false) as Hn.
  { destruct (slash_end path); [done|]. simpl in *. by rewrite Hr. }
  rewrite <- andb_assoc, Hn, andb_false_r. by rewrite bool_decide_true.
Qed.

(** The main server serves its three paths and nothing else; the self server
    serves its exact paths, and the index of the profiles for everything else
    below it. *)
Lemma servers_dispatch (self : selfServer) (main : mainServer) :
  (∀ path r, findHandler (srv_Handler (build_main main)) path = Served r ↔
     (path, r) ∈ srv_Handler (build_main main)) ∧
  ∃ srv, build_self self true = Some srv ∧
    ∀ path r, findHandler (srv_Handler srv) path = Served r ↔
      (path, r) ∈ srv_Handler srv ∨
      r = PprofIndex ∧ path ∉ (srv_Handler srv).*1 ∧ cleanPath path = path ∧
        is_Some (drop_prefix "/debug/pprof/" path).
Proof.
  split.
  - intros path r. split.
    + intros [_ [?|(_ & q & rest & Hq & Hs & _)]]%findHandler_Served; [done| |].
      * simpl in Hq. rewrite !elem_of_cons, elem_of_nil in Hq. destruct_or? Hq; by simplify_eq.
      * apply (bool_decide_unpack _). vm_compute. exact I.
    + simpl. rewrite !elem_of_cons, elem_of_nil. intros H. by destruct_or? H; simplify_eq.
  - eexists. split; [done|]. intros path r. split.
    + intros [Hc [?|(Hnin & q & rest & Hq & Hs & Hd)]]%findHandler_Served; [by left| |].
      * right. simpl in Hq. rewrite !elem_of_cons, elem_of_nil in Hq.
        destruct_or? Hq; simplify_eq; try done; split_and!; try done; by exists rest.
      * apply (bool_decide_unpack _). vm_compute. exact I.
    + intros [Hin|(-> & Hnin & Hc & rest & Hd)].
      * simpl in Hin. rewrite !elem_of_cons, elem_of_nil in Hin. by destruct_or? Hin; simplify_eq.
      * apply (findHandler_below _ _ "/debug/pprof/" _ rest); try done; [by left|].
        intros q s Hq. simpl in Hq. rewrite !elem_of_cons, elem_of_nil in Hq.
        by destruct_or? Hq; simplify_eq.
Qed.

(** ** Examples *)

Example unclean_path :
  findHandler (srv_Handler (build_main (newMainServer "" []))) "//a/../metrics" = Redirected "/metrics".
Proof. vm_compute. reflexivity. Qed.

Example below_the_index :
  (λ srv, (findHandler (srv_Handler srv) "/debug/pprof", findHandler (srv_Handler srv) "/debug/pprof/heap"))
  <$> build_self (newSelfServer "") true = Some (Redirected "/debug/pprof/", Served PprofIndex).
Proof. vm_compute. reflexivity. Qed.
