(* ===== verification/System.v ===== *)
(** * The running system

    The workers and the reflectors share the world: the stores on the heap and
    the map from resources to stores.  A step of the system is one atomic
    piece of an event handler (dropping the stores of a resource, building one
    configured store) or one operation of a reflector on its store, under the
    lock of the store.  [Race] takes the accesses of the workers to the map
    apart, and [Locking] those of the reflectors and the scrapes to the
    stores. *)
From S2P Require Import Prelude GoStrings Strconv GoSort Values Resolver Metric Family Store Writer Types Builder Events Probe Server.

(** ** Steps *)

Definition update_heap (l : nat) (s : StoreType) (w : World) : World :=
  set_heap (<[l := s]> (w_heap w)) w.

Section system.
Context `{!SortSlice} `{!MapRange} `{!CEL} {Obj : Type} `{!KubeObject Obj}.

(** [P] restricts the configurations that the workers build. *)
Inductive world_step (P : StoreType → Prop) : World → World → Prop :=
| step_drop uid w : world_step P w (drop_world uid w)
| step_build uid tryNoCache sc w :
  P sc → world_step P w (build_world uid tryNoCache [sc] w)
| step_reflect i r site (op : store_op Obj) s res s' w :
  w_reflectors w !! i = Some r → w_heap w !! refl_store r = Some s →
  store_apply site op s = Done (res, s') →
  world_step P w (update_heap (refl_store r) s' w).

(** The reachable worlds. *)
Definition reachable (P : StoreType → Prop) (w : World) : Prop :=
  rtc (world_step P) empty_world w.

(** A store whose operations cannot panic. *)
Definition world_covered (w : World) : Prop := map_Forall (λ _ s, store_covered s) (w_heap w).

(** ** Lemmas *)

Lemma empty_world_ok : world_ok empty_world.
Proof.
  split; simpl; try done; [|apply map_Forall_empty..].
  intros l. rewrite lookup_empty. by intros [??].
Qed.

Lemma drop_world_ok uid w : world_ok w → world_ok (drop_world uid w).
Proof.
  intros [Hf Hs Hr Hh]. unfold drop_world. destruct (w_stores w !! uid); [|by split].
  split; try done. by apply map_Forall_delete.
Qed.

Lemma build_one_lookup uid tryNoCache sc w l :
  w_heap (build_world uid tryNoCache [sc] w) !! l =
  if decide (l = w_next w) then Some (built_store sc) else w_heap w !! l.
Proof.
  simpl. rewrite insert_empty, <- insert_union_singleton_l. case_decide as Hl.
  - subst. apply lookup_insert_eq.
  - by rewrite lookup_insert_ne.
Qed.

Lemma build_one_ok uid tryNoCache sc w :
  world_ok w → world_ok (build_world uid tryNoCache [sc] w).
Proof.
  intros [Hf Hs Hr Hh].
  assert (∀ l, is_Some (w_heap w !! l) →
    is_Some (w_heap (build_world uid tryNoCache [sc] w) !! l)) as Hmono.
  { intros l Hl. rewrite build_one_lookup. by case_decide. }
  assert (is_Some (w_heap (build_world uid tryNoCache [sc] w) !! w_next w)) as Hnew.
  { rewrite build_one_lookup, decide_True by done. done. }
  split.
  - intros l. rewrite build_one_lookup. simpl. case_decide; [lia|]. intros Hl%Hf. lia.
  - simpl w_stores. apply map_Forall_insert_2.
    + apply Forall_app. split; [|by repeat constructor].
      destruct (w_stores w !! uid) as [locs|] eqn:Hu; [|constructor].
      apply (Forall_impl _ _ _ (Hs _ _ Hu)). apply Hmono.
    + apply (map_Forall_impl _ _ _ Hs). intros _ locs Hl. apply (Forall_impl _ _ _ Hl), Hmono.
  - simpl w_reflectors. apply Forall_app. split.
    + apply (Forall_impl _ _ _ Hr). intros r. apply Hmono.
    + constructor; [|constructor]. simpl refl_store. by rewrite Nat.add_0_r.
  - intros l s. rewrite build_one_lookup. case_decide; [|apply Hh].
    intros [= <-]. apply built_store_wf.
Qed.

Lemma update_heap_ok l s s' w :
  w_heap w !! l = Some s → store_wf s' → world_ok w → world_ok (update_heap l s' w).
Proof.
  intros Hl Hwf [Hf Hs Hr Hh].
  assert (∀ l', is_Some (w_heap w !! l') ↔ is_Some (<[l := s']> (w_heap w) !! l')) as Hdom.
  { intros l'. destruct (decide (l = l')) as [<-|].
    - rewrite Hl, lookup_insert_eq. by split.
    - by rewrite lookup_insert_ne. }
  split; simpl.
  - intros l'. rewrite <- Hdom. apply Hf.
  - apply (map_Forall_impl _ _ _ Hs). intros _ locs Hlocs.
    apply (Forall_impl _ _ _ Hlocs). intros l'. apply Hdom.
  - apply (Forall_impl _ _ _ Hr). intros r. apply Hdom.
  - by apply map_Forall_insert_2.
Qed.

Lemma world_step_ok P w w' : world_step P w w' → world_ok w → world_ok w'.
Proof.
  intros [uid w0|uid tryNoCache sc w0 _|i r site op s res s' w0 _ Hs Hop] Hw.
  - by apply drop_world_ok.
  - by apply build_one_ok.
  - eapply update_heap_ok; [done| |done].
    apply (store_apply_inv site op _ _ _ Hop). by apply (ok_heap _ Hw (refl_store r)).
Qed.

Lemma world_steps_ok P w w' : rtc (world_step P) w w' → world_ok w → world_ok w'.
Proof. induction 1; eauto using world_step_ok. Qed.

Lemma reachable_ok P w : reachable P w → world_ok w.
Proof. intros Hr. by apply (world_steps_ok _ _ _ Hr), empty_world_ok. Qed.

Lemma build_world_cons uid tryNoCache sc scs w :
  build_world uid tryNoCache (sc :: scs) w =
  build_world uid tryNoCache scs (build_world uid tryNoCache [sc] w).
Proof.
  pose proof (build_all_app uid tryNoCache [sc] (Some <$> scs) w) as Heq.
  change ((Some <$> [sc]) ++ (Some <$> scs)) with (Some <$> (sc :: scs)) in Heq.
  rewrite !build_all_world in Heq. exact (f_equal snd Heq).
Qed.

Lemma build_world_steps (P : StoreType → Prop) uid tryNoCache scs w :
  Forall P scs → rtc (world_step P) w (build_world uid tryNoCache scs w).
Proof.
  intros HP. revert w. induction HP as [|sc scs Hsc _ IH]; intros w.
  - by rewrite build_world_nil.
  - rewrite build_world_cons. eapply rtc_l; [by apply step_build|]. apply IH.
Qed.

(** An event is handled step by step. *)
Lemma handled_world_steps `{!Yaml} (P : StoreType → Prop) event uid raw tryNoCache w :
  (∀ cs, yaml_Unmarshal raw = (cs, None) → Forall P (omap id cs)) →
  rtc (world_step P) w (handled_world event uid raw tryNoCache w).
Proof.
  intros HP. assert (rtc (world_step P) w (drop_world uid w)) as Hdrop.
  { apply rtc_once, step_drop. }
  unfold handled_world. destruct (_ || _).
  - destruct (yaml_Unmarshal raw) as [cs [err|]] eqn:Hy; [done|].
    etrans; [done|]. by apply build_world_steps, HP.
  - by destruct (bool_decide _); [|apply rtc_refl].
Qed.

Lemma world_step_covered P w w' :
  (∀ sc, P sc → store_covered sc) → world_step P w w' → world_covered w → world_covered w'.
Proof.
  intros HP [uid w0|uid tryNoCache sc w0 Hsc|i r site op s res s' w0 _ Hs Hop] Hw.
  - unfold drop_world. by destruct (w_stores w0 !! uid).
  - intros l s. rewrite build_one_lookup. case_decide; [|apply Hw].
    intros [= <-]. by apply built_store_covered, HP.
  - apply map_Forall_insert_2; [|done].
    destruct (store_apply_covered site op s) as (res' & s'' & Hop' & Hc); [by apply (Hw _ _ Hs)|].
    rewrite Hop in Hop'. by injection Hop' as _ <-.
Qed.

Lemma reachable_covered P w :
  (∀ sc, P sc → store_covered sc) → reachable P w → world_covered w.
Proof.
  intros HP. unfold reachable. assert (world_covered empty_world) as Hw0 by apply map_Forall_empty.
  revert Hw0. generalize empty_world. intros w0 Hw0 Hr. revert Hw0.
  induction Hr; eauto using world_step_covered.
Qed.

(** The stores of a resource are listed in the order in which they were
    built. *)
Definition stores_sorted (w : World) : Prop :=
  map_Forall (λ _ locs, StronglySorted lt locs) (w_stores w).

Lemma world_step_sorted P w w' :
  world_step P w w' → world_ok w → stores_sorted w → stores_sorted w'.
Proof.
  intros [uid w0|uid tryNoCache sc w0 Hsc|i r site op s res s' w0 _ Hs Hop] Hok Hw.
  - unfold drop_world. destruct (w_stores w0 !! uid); [|done]. by apply map_Forall_delete.
  - apply map_Forall_insert_2; [|done]. apply StronglySorted_app.
    destruct (w_stores w0 !! uid) as [locs|] eqn:Hu; simpl.
    + split; [|split; [by apply (Hw uid)|repeat constructor]].
      intros l l' Hl Hl'%list_elem_of_singleton. pose proof (ok_stores _ Hok _ _ Hu) as Hall.
      rewrite Forall_forall in Hall. apply Hall, (ok_fresh _ Hok) in Hl. lia.
    + split; [by intros l l' Hl%not_elem_of_nil|repeat constructor].
  - done.
Qed.

Lemma reachable_sorted P w : reachable P w → stores_sorted w.
Proof.
  intros Hr. unfold reachable in Hr.
  assert (∀ w0, rtc (world_step P) w0 w → world_ok w0 → stores_sorted w0 → stores_sorted w) as Hsteps.
  { induction 1; eauto using world_step_ok, world_step_sorted. }
  apply (Hsteps _ Hr); [apply empty_world_ok|apply map_Forall_empty].
Qed.

(** A reflector whose store is covered. *)
Lemma reflector_total P w i r site (op : store_op Obj) :
  (∀ sc, P sc → store_covered sc) → reachable P w → w_reflectors w !! i = Some r →
  ∃ s res s', w_heap w !! refl_store r = Some s ∧ store_apply site op s = Done (res, s').
Proof.
  intros HP Hw Hi. pose proof (reachable_ok P w Hw) as Hok.
  pose proof (ok_reflectors _ Hok) as Hr. rewrite Forall_lookup in Hr.
  destruct (Hr _ _ Hi) as [s Hs].
  destruct (store_apply_covered site op s) as (res & s' & Hop & _); [|by exists s, res, s'].
  by apply (reachable_covered P w HP Hw _ _ Hs).
Qed.

Lemma world_step_mono P w w' :
  world_step P w w' →
  w_reflectors w `prefix_of` w_reflectors w' ∧ dom (w_heap w) ⊆ dom (w_heap w').
Proof.
  intros [uid w0|uid tryNoCache sc w0 _|i r site op s res s' w0 _ Hs Hop]; simpl.
  - unfold drop_world. by destruct (w_stores w0 !! uid).
  - split; [by apply prefix_app_r|]. rewrite dom_union_L. set_solver.
  - split; [done|]. rewrite dom_insert_L. set_solver.
Qed.

Lemma world_steps_mono P w w' :
  rtc (world_step P) w w' →
  w_reflectors w `prefix_of` w_reflectors w' ∧ dom (w_heap w) ⊆ dom (w_heap w').
Proof.
  induction 1 as [w|w w1 w' [Hr1 Hd1]%world_step_mono _ [Hr2 Hd2]]; [done|].
  split; [by etrans|by etrans].
Qed.

(** ** Properties *)

(** C4: Whatever the configurations, the events and the operations of the
    reflectors, and in whatever order, a scrape never panics: in every
    reachable world the metrics handler runs to its end, for any writer,
    whether or not its writes fail. *)
Theorem reachable_scrape_safe `{!Expfmt} {W} `{!IOWriter W} P w site r (resp : response W) :
  reachable P w → ∃ errs resp', metricsHandler site w r resp = Done (errs, resp').
Proof. intros Hw. by apply metricsHandler_total, (reachable_ok P). Qed.

(** If every configuration that is built gives a key to each of its label
    values, level by level, then no operation of a reflector panics in any
    reachable world. *)
Lemma reachable_reflector_safe P w i r site (op : store_op Obj) :
  (∀ sc, P sc → store_covered sc) → reachable P w → w_reflectors w !! i = Some r →
  ∃ s res s', w_heap w !! refl_store r = Some s ∧ store_apply site op s = Done (res, s').
Proof. apply reflector_total. Qed.

(** Handling an event is a sequence of steps of the system, so that the
    worlds it goes through are reachable, whatever the other workers and the
    reflectors do in between. *)
Lemma handled_world_refines `{!Yaml} (P : StoreType → Prop) event uid raw tryNoCache w :
  (∀ cs, yaml_Unmarshal raw = (cs, None) → Forall P (omap id cs)) →
  rtc (world_step P) w (handled_world event uid raw tryNoCache w).
Proof. apply handled_world_steps. Qed.

(** Nothing is ever released: the reflectors of dropped stores run on, and
    the stores they feed stay on the heap, through any further steps. *)
Lemma reflectors_never_stop P w w' :
  rtc (world_step P) w w' →
  w_reflectors w `prefix_of` w_reflectors w' ∧ dom (w_heap w) ⊆ dom (w_heap w').
Proof. apply world_steps_mono. Qed.
End system.

Arguments world_step {_ _ _} Obj {_} P _ _.
Arguments reachable {_ _ _} Obj {_} P _.

(** ** Witnesses *)

Module SystemExample.
Export EventsExample WriterExample.

#[export] Instance sample_Expfmt : Expfmt := {|
  request := bool;
  negotiated_TextPlain := id;
  text_format := "text/plain; version=0.0.4; charset=utf-8";
|}.

Definition openmetrics_request : @request sample_Expfmt := false.
Definition text_request : @request sample_Expfmt := true.

(** A store is built, its reflector adds an object, and the resource is
    updated. *)
Definition built : World := build_world "uid-1" false [config] empty_world.

Lemma built_reachable : reachable object store_covered built.
Proof.
  apply rtc_once. apply step_build. apply (bool_decide_unpack _). vm_compute. exact I.
Qed.

Definition fed : World :=
  match Add [] deployment (built_store config) with
  | Done (_, s) => update_heap 0 s built
  | Panicked _ => built
  end.

Lemma fed_reachable : reachable object store_covered fed.
Proof.
  eapply rtc_r; [apply built_reachable|]. unfold fed.
  destruct (Add_Done [] deployment (built_store config) deployment) as [];
    [apply (bool_decide_unpack _); vm_compute; exact I|reflexivity|].
  destruct (Add [] deployment (built_store config)) as [[res s]|p] eqn:Hadd.
  - by apply (step_reflect _ 0 (built_reflector false config 0) [] (OpAdd deployment)
                (built_store config) res s built).
  - exfalso. revert Hadd. vm_compute. discriminate.
Qed.

Lemma reachable_scrape_safe_witness :
  ∃ errs resp', metricsHandler [] fed openmetrics_request (MkResponse None (1, "")) = Done (errs, resp').
Proof.
  apply (reachable_scrape_safe (Obj := object) store_covered fed [] openmetrics_request
           (MkResponse None (1, ""))).
  exact fed_reachable.
Defined.

Lemma reachable_reflector_safe_witness :
  ∃ s res s', w_heap fed !! 0 = Some s ∧
    store_apply [] (OpUpdate deployment) s = Done (res, s').
Proof.
  apply (reachable_reflector_safe store_covered fed 0 (built_reflector false config 0) []
           (OpUpdate deployment)).
  - intros sc Hsc. exact Hsc.
  - exact fed_reachable.
  - vm_compute. reflexivity.
Defined.

Lemma handled_world_refines_witness :
  rtc (world_step object store_covered) fed
    (handled_world "updateEvent" "uid-1" "stores: [...]" false fed).
Proof.
  apply (handled_world_refines (Obj := object)). intros cs [= <-].
  constructor; [apply (bool_decide_unpack _); vm_compute; exact I|constructor].
Defined.

Lemma reflectors_never_stop_witness :
  w_reflectors fed `prefix_of`
    w_reflectors (handled_world "updateEvent" "uid-1" "stores: [...]" false fed) ∧
  dom (w_heap fed) ⊆ dom (w_heap (handled_world "updateEvent" "uid-1" "stores: [...]" false fed)).
Proof.
  apply (reflectors_never_stop (Obj := object) (λ _, True)).
  unfold handled_world. simpl. eapply rtc_l; [apply step_drop|].
  apply rtc_once. by apply step_build.
Defined.

Lemma metricsHandler_exposition_witness :
  metricsHandler [] fed text_request (MkResponse None "") =
  Done ([], MkResponse None
    ("" +:+ string_concat
       (imap (λ i entry, exposition ([] ++ [i]) (stores_of fed entry.2))
          (range [] (w_stores fed))))).
Proof.
  apply (metricsHandler_exposition [] fed text_request (MkResponse None "")).
  apply (reachable_ok (Obj := object) store_covered). exact fed_reachable.
Defined.
End SystemExample.
