(* ===== verification/Locking.v ===== *)
(** * The locks of the stores ([internal/store.go], [internal/writer.go])

    [System] takes an operation of a reflector, and [Server] the writing of the
    stores of a resource, as one piece.  Here they are apart, step by step, as
    the goroutines of the reflectors and of the requests run: [Add] and
    [Delete] hold the write lock of their store, [writeAllTo] takes the read
    lock of each store in turn, performs its writes, each of which reads the
    stores as they are at that moment, and releases the locks when it returns.
    The mutexes are those of [sync.RWMutex]: a call to [Lock] that waits for
    the readers keeps other readers out. *)
From stdpp Require Import gmultiset.
From S2P Require Import Prelude GoStrings Strconv GoSort Values Resolver Metric Family Store Writer Types Builder Events Probe Server System.

(** ** [sync.RWMutex] *)

(** Who holds the mutex, or waits for it in [Lock].  The readers are counted;
    the model also keeps which scrape each of them is.  The writer is the one
    that has announced itself to the readers, and [true] once they are gone. *)
Record RWMutex : Type := MkRWMutex {
  rw_readers : gmultiset nat;
  rw_writer : option (nat * bool);
}.

(** The zero value. *)
Definition unlocked : RWMutex := MkRWMutex ∅ None.

(** [RLock] by the scrape [k]; it waits while a writer holds the mutex or waits
    for it. *)
Definition RLock (k : nat) (m : RWMutex) : option RWMutex :=
  match rw_writer m with
  | Some _ => None
  | None => Some (MkRWMutex ({[+ k +]} ⊎ rw_readers m) None)
  end.

Definition RUnlock (k : nat) (m : RWMutex) : RWMutex :=
  MkRWMutex (rw_readers m ∖ {[+ k +]}) (rw_writer m).

(** [Lock] by the writer [i] first excludes other writers and new readers... *)
Definition announce (i : nat) (m : RWMutex) : option RWMutex :=
  match rw_writer m with
  | Some _ => None
  | None => Some (MkRWMutex (rw_readers m) (Some (i, false)))
  end.

(** ... and then waits for the readers that are there. *)
Definition acquire (i : nat) (m : RWMutex) : option RWMutex :=
  if decide (rw_writer m = Some (i, false) ∧ rw_readers m = ∅)
  then Some (MkRWMutex ∅ (Some (i, true))) else None.

Definition Unlock (m : RWMutex) : RWMutex := MkRWMutex (rw_readers m) None.

(** ** [writeAllTo], write by write *)

(** Where a call is: before the store [j] of [todo]; in the loop over the
    headers of the store at [l], before the header [i]; in the loop over the
    objects of that store, for the family [i]; or at its end. *)
Inductive position : Type :=
| AtStores (j : nat) (todo : list nat)
| AtHeaders (j l i : nat) (headers : list string) (todo : list nat)
| AtFamilies (j l i : nat) (keys : list string) (headers : list string) (todo : list nat)
| AtEnd (r : result write_error unit).

Section position.
Context `{!MapRange} {W : Type} `{!IOWriter W}.

(** [m.stores[j]], dereferenced. *)
Definition load (heap : gmap nat StoreType) (l : nat) : outcome StoreType :=
  match heap !! l with
  | Some s => Done s
  | None => Panicked NilDereference
  end.

(** The next step of the call: at most one access to a store and one write.
    An object that was removed since the loop over the objects began is not
    produced by the loop. *)
Definition write_next (site : list nat) (heap : gmap nat StoreType) (p : position) (w : W)
    : outcome (position * W) :=
  match p with
  | AtStores j [] => mret (AtEnd (Ok tt), w)
  | AtStores j (l :: todo) => s ← load heap l; mret (AtHeaders j l 0 (store_headers s) todo, w)
  | AtHeaders j l i [] todo => mret (AtStores (S j) todo, w)
  | AtHeaders j l i (header :: headers) todo =>
    let header := header_line header in
    match io_Write header w with
    | (Err (n, e), w) => mret (AtEnd (Err (HelpWriteError header n e)), w)
    | (Ok _, w) =>
      s ← load heap l;
      mret (AtFamilies j l i (range ((site ++ [j]) ++ [i]) (store_metrics s)).*1 headers todo, w)
    end
  | AtFamilies j l i [] headers todo => mret (AtHeaders j l (S i) headers todo, w)
  | AtFamilies j l i (key :: keys) headers todo =>
    s ← load heap l;
    match store_metrics s !! key with
    | None => mret (AtFamilies j l i keys headers todo, w)
    | Some metricFamilies =>
      text ← index metricFamilies i;
      match io_Write text w with
      | (Err (n, e), w) => mret (AtEnd (Err (FamilyWriteError n e)), w)
      | (Ok _, w) => mret (AtFamilies j l i keys headers todo, w)
      end
    end
  | AtEnd r => mret (AtEnd r, w)
  end.

(** What is left of the call, if the stores do not change. *)
Definition stores_at (heap : gmap nat StoreType) (locs : list nat) : list StoreType :=
  omap (heap !!.) locs.

Definition and_then (o : outcome (result write_error unit * W))
    (k : W → outcome (result write_error unit * W)) : outcome (result write_error unit * W) :=
  '(r, w) ← o;
  match r with
  | Err e => mret (Err e, w)
  | Ok _ => k w
  end.

Definition entries_at (keys : list string) (m : gmap string (list string))
    : list (string * list string) :=
  omap (λ key, pair key <$> m !! key) keys.

Definition rest (site : list nat) (heap : gmap nat StoreType) (p : position) (w : W)
    : outcome (result write_error unit * W) :=
  let stores j todo := write_stores site j (stores_at heap todo) in
  let headers j l i hs todo w :=
    s ← load heap l;
    and_then (write_headers (site ++ [j]) s i hs w) (stores (S j) todo) in
  match p with
  | AtStores j todo => stores j todo w
  | AtHeaders j l i hs todo => headers j l i hs todo w
  | AtFamilies j l i keys hs todo =>
    s ← load heap l;
    and_then (write_families i (entries_at keys (store_metrics s)) w) (headers j l (S i) hs todo)
  | AtEnd r => mret (r, w)
  end.

(** The stores that are still to be read. *)
Definition position_locs (p : position) : list nat :=
  match p with
  | AtStores _ todo => todo
  | AtHeaders _ l _ _ todo | AtFamilies _ l _ _ _ todo => l :: todo
  | AtEnd _ => []
  end.

Lemma entries_at_range site (m : gmap string (list string)) :
  entries_at (range site m).*1 m = range site m.
Proof.
  unfold entries_at.
  assert (∀ k a, (k, a) ∈ range site m → m !! k = Some a) as Hin.
  { intros k a. rewrite range_perm. apply elem_of_map_to_list. }
  induction (range site m) as [|[k a] entries IH]; [done|]. csimpl.
  rewrite (Hin k a) by apply list_elem_of_here. simpl. f_equal. apply IH.
  intros k' a' He. apply Hin. by apply list_elem_of_further.
Qed.

Lemma write_next_rest site heap p (w : W) :
  Forall (λ l, is_Some (heap !! l)) (position_locs p) →
  rest site heap p w = ('(p, w) ← write_next site heap p w; rest site heap p w).
Proof.
  intros Hl. destruct p as [j [|l todo]|j l i [|h hs] todo|j l i [|key keys] hs todo|r];
    try reflexivity.
  all: apply Forall_cons in Hl as [[s Hs] _]; cbn -[write_families]; unfold load; rewrite Hs; simpl; try done.
  - unfold load. by rewrite Hs.
  - destruct (io_Write _ w) as [[n|[n e]] w']; [|done]. simpl. unfold load. rewrite Hs. simpl.
    rewrite entries_at_range. by destruct (write_families _ _ _) as [[[u|e] w'']|].
  - destruct (store_metrics s !! key) as [texts|]; simpl; unfold load; [|by rewrite Hs].
    destruct (index texts i) as [text|]; [|done]. simpl.
    destruct (io_Write text w) as [[n|[n e]] w']; [|done]. simpl. unfold load. by rewrite Hs.
Qed.

Lemma rest_ext site heap heap' p (w : W) :
  Forall (λ l, heap' !! l = heap !! l) (position_locs p) → rest site heap' p w = rest site heap p w.
Proof.
  assert (∀ locs, Forall (λ l, heap' !! l = heap !! l) locs →
    stores_at heap' locs = stores_at heap locs) as Hstores.
  { intros locs Hl. unfold stores_at. induction Hl as [|l locs Hl _ IH]; [done|]. csimpl. by rewrite Hl, IH. }
  intros Hl. destruct p as [j todo|j l i hs todo|j l i keys hs todo|r]; simpl in *; [|..|done];
    [by rewrite Hstores|..]; apply Forall_cons in Hl as [Hl Htodo]; unfold load;
    rewrite Hl, (Hstores _ Htodo); done.
Qed.
End position.

(** ** The goroutines *)

(** The goroutine of a reflector: its store, the operations it has yet to do,
    and where it is in the first of them. *)
Inductive critical : Type :=
| Outside
| Waiting
| Inside (found : StoreType).

Record Reflecting (Obj : Type) : Type := MkReflecting {
  rf_store : nat;
  rf_ops : list (list nat * store_op Obj);
  rf_phase : critical;
}.
Arguments MkReflecting {Obj} _ _ _.
Arguments rf_store {Obj} _.
Arguments rf_ops {Obj} _.
Arguments rf_phase {Obj} _.

(** A request: the stores of a resource, and where [writeAllTo] is with them.
    The read locks that it holds are listed from the last one taken, the order
    in which the deferred calls release them. *)
Inductive scraping : Type :=
| Acquiring (held todo : list nat)
| Writing (p : position)
| Releasing (held : list nat) (r : result write_error unit).

Record Scrape (W : Type) : Type := MkScrape {
  sc_site : list nat;
  sc_stores : list nat;
  sc_phase : scraping;
  sc_writer : W;
}.
Arguments MkScrape {W} _ _ _ _.
Arguments sc_site {W} _.
Arguments sc_stores {W} _.
Arguments sc_phase {W} _.
Arguments sc_writer {W} _.

Record Locked (Obj W : Type) : Type := MkLocked {
  lk_heap : gmap nat StoreType;
  lk_locks : gmap nat RWMutex;
  lk_reflectors : list (Reflecting Obj);
  lk_scrapes : list (Scrape W);
}.
Arguments MkLocked {Obj W} _ _ _ _.
Arguments lk_heap {Obj W} _.
Arguments lk_locks {Obj W} _.
Arguments lk_reflectors {Obj W} _.
Arguments lk_scrapes {Obj W} _.

(** The mutex of a store. *)
Definition mutex_of (locks : gmap nat RWMutex) (l : nat) : RWMutex := default unlocked (locks !! l).

(** [Replace] and [Resync] do not touch the mutex. *)
Definition takes_lock {Obj} (op : store_op Obj) : bool :=
  match op with
  | OpAdd _ | OpUpdate _ | OpDelete _ => true
  | OpReplace _ _ | OpResync => false
  end.

(** The read locks of a scrape. *)
Definition read_locks {W} (sc : Scrape W) : list nat :=
  match sc_phase sc with
  | Acquiring held _ => held
  | Writing _ => reverse (sc_stores sc)
  | Releasing held _ => held
  end.

(** Whose step it is. *)
Inductive actor : Type :=
| AReflector (i : nat)
| AScrape (k : nat).

#[global] Instance actor_dec : EqDecision actor.
Proof. solve_decision. Defined.

Section steps.
Context `{!SortSlice} `{!MapRange} `{!CEL} {Obj : Type} `{!KubeObject Obj} {W : Type} `{!IOWriter W}.

(** The steps.  Between [Lock] and [Unlock] an operation writes to its store
    any number of times ([rf_write]); what it leaves there in the meantime is
    left open.  [Unlock] comes with the last write. *)
Inductive locked_step : actor → Locked Obj W → Locked Obj W → Prop :=
| rf_skip i l site op ops r s s' heap locks rfs scs :
  rfs !! i = Some (MkReflecting l ((site, op) :: ops) Outside) → takes_lock op = false →
  store_apply site op s = Done (r, s') →
  locked_step (AReflector i) (MkLocked heap locks rfs scs)
    (MkLocked heap locks (<[i := MkReflecting l ops Outside]> rfs) scs)
| rf_lock i l site op ops m heap locks rfs scs :
  rfs !! i = Some (MkReflecting l ((site, op) :: ops) Outside) → takes_lock op = true →
  announce i (mutex_of locks l) = Some m →
  locked_step (AReflector i) (MkLocked heap locks rfs scs)
    (MkLocked heap (<[l := m]> locks)
       (<[i := MkReflecting l ((site, op) :: ops) Waiting]> rfs) scs)
| rf_acquire i l ops m s heap locks rfs scs :
  rfs !! i = Some (MkReflecting l ops Waiting) →
  acquire i (mutex_of locks l) = Some m → heap !! l = Some s →
  locked_step (AReflector i) (MkLocked heap locks rfs scs)
    (MkLocked heap (<[l := m]> locks) (<[i := MkReflecting l ops (Inside s)]> rfs) scs)
| rf_write i l ops s s' heap locks rfs scs :
  rfs !! i = Some (MkReflecting l ops (Inside s)) →
  locked_step (AReflector i) (MkLocked heap locks rfs scs)
    (MkLocked (<[l := s']> heap) locks rfs scs)
| rf_unlock i l site op ops s r s' heap locks rfs scs :
  rfs !! i = Some (MkReflecting l ((site, op) :: ops) (Inside s)) →
  store_apply site op s = Done (r, s') →
  locked_step (AReflector i) (MkLocked heap locks rfs scs)
    (MkLocked (<[l := s']> heap) (<[l := Unlock (mutex_of locks l)]> locks)
       (<[i := MkReflecting l ops Outside]> rfs) scs)
| sc_lock k site stores held l todo m w heap locks rfs scs :
  scs !! k = Some (MkScrape site stores (Acquiring held (l :: todo)) w) →
  RLock k (mutex_of locks l) = Some m →
  locked_step (AScrape k) (MkLocked heap locks rfs scs)
    (MkLocked heap (<[l := m]> locks) rfs
       (<[k := MkScrape site stores (Acquiring (l :: held) todo) w]> scs))
| sc_start k site stores held w heap locks rfs scs :
  scs !! k = Some (MkScrape site stores (Acquiring held []) w) →
  locked_step (AScrape k) (MkLocked heap locks rfs scs)
    (MkLocked heap locks rfs (<[k := MkScrape site stores (Writing (AtStores 0 stores)) w]> scs))
| sc_write k site stores p w p' w' heap locks rfs scs :
  scs !! k = Some (MkScrape site stores (Writing p) w) →
  write_next site heap p w = Done (p', w') →
  locked_step (AScrape k) (MkLocked heap locks rfs scs)
    (MkLocked heap locks rfs (<[k := MkScrape site stores (Writing p') w']> scs))
| sc_return k site stores r w heap locks rfs scs :
  scs !! k = Some (MkScrape site stores (Writing (AtEnd r)) w) →
  locked_step (AScrape k) (MkLocked heap locks rfs scs)
    (MkLocked heap locks rfs (<[k := MkScrape site stores (Releasing (reverse stores) r) w]> scs))
| sc_unlock k site stores l held r w heap locks rfs scs :
  scs !! k = Some (MkScrape site stores (Releasing (l :: held) r) w) →
  locked_step (AScrape k) (MkLocked heap locks rfs scs)
    (MkLocked heap (<[l := RUnlock k (mutex_of locks l)]> locks) rfs
       (<[k := MkScrape site stores (Releasing held r) w]> scs)).

Definition any_step (σ σ' : Locked Obj W) : Prop := ∃ who, locked_step who σ σ'.

(** Before anything runs. *)
Definition starting (heap : gmap nat StoreType) (rfs : list (nat * list (list nat * store_op Obj)))
    (scs : list (list nat * list nat * W)) : Locked Obj W :=
  MkLocked heap ∅ ((λ rf, MkReflecting rf.1 rf.2 Outside) <$> rfs)
    ((λ sc, MkScrape sc.1.1 sc.1.2 (Acquiring [] sc.1.2) sc.2) <$> scs).

(** ** The same without locks

    An operation of a reflector and a call of [writeAllTo] are one step each.
    A result is there once the call was made. *)
Record Atomic : Type := MkAtomic {
  at_heap : gmap nat StoreType;
  at_ops : list (nat * list (list nat * store_op Obj));
  at_results : list (option (outcome (result write_error unit * W)));
}.

Inductive atomic_step (scs : list (list nat * list nat * W)) : Atomic → Atomic → Prop :=
| at_apply i l site op ops s r s' heap rfs results :
  rfs !! i = Some (l, (site, op) :: ops) → heap !! l = Some s →
  store_apply site op s = Done (r, s') →
  atomic_step scs (MkAtomic heap rfs results)
    (MkAtomic (<[l := s']> heap) (<[i := (l, ops)]> rfs) results)
| at_scrape k site stores w heap rfs results :
  scs !! k = Some (site, stores, w) → results !! k = Some None →
  atomic_step scs (MkAtomic heap rfs results)
    (MkAtomic heap rfs (<[k := Some (writeAllTo site (stores_at heap stores) w)]> results)).

Definition atomic_start (heap : gmap nat StoreType) (rfs : list (nat * list (list nat * store_op Obj)))
    (scs : list (list nat * list nat * W)) : Atomic :=
  MkAtomic heap rfs (replicate (length scs) None).

(** What a scrape has come to, when it has returned. *)
Definition returned (sc : Scrape W) : option (result write_error unit * W) :=
  match sc_phase sc with
  | Releasing [] r => Some (r, sc_writer sc)
  | _ => None
  end.
End steps.

(** ** The invariant of the locks *)

Lemma mutex_of_insert locks l m l' :
  mutex_of (<[l := m]> locks) l' = if decide (l = l') then m else mutex_of locks l'.
Proof.
  unfold mutex_of. case_decide as Hl; [subst; by rewrite lookup_insert_eq|by rewrite lookup_insert_ne].
Qed.

(** What a reflector has of its mutex. *)
Definition wants (c : critical) : option bool :=
  match c with
  | Outside => None
  | Waiting => Some false
  | Inside _ => Some true
  end.

Section invariant.
Context {Obj W : Type}.
Implicit Types (rfs : list (Reflecting Obj)) (scs : list (Scrape W)).

(** Each mutex knows the reflector that holds it or waits for it... *)
Definition writers_agree (locks : gmap nat RWMutex) rfs : Prop :=
  ∀ l i b, rw_writer (mutex_of locks l) = Some (i, b) ↔
    ∃ rf, rfs !! i = Some rf ∧ rf_store rf = l ∧ wants (rf_phase rf) = Some b.

(** ... and the scrapes that hold it, each as often as it has locked it. *)
Definition readers_agree (locks : gmap nat RWMutex) scs : Prop :=
  ∀ l k, multiplicity k (rw_readers (mutex_of locks l)) =
    from_option (λ sc, count_occ Nat.eq_dec (read_locks sc) l) 0 (scs !! k).

(** A writer that is inside is alone. *)
Definition exclusive (locks : gmap nat RWMutex) : Prop :=
  ∀ l i, rw_writer (mutex_of locks l) = Some (i, true) → rw_readers (mutex_of locks l) = ∅.

Lemma writers_agree_update locks rfs i rf rf' m :
  writers_agree locks rfs → rfs !! i = Some rf → rf_store rf' = rf_store rf →
  (∀ i0 b, rw_writer m = Some (i0, b) ↔
     if decide (i0 = i) then wants (rf_phase rf') = Some b
     else rw_writer (mutex_of locks (rf_store rf)) = Some (i0, b)) →
  writers_agree (<[rf_store rf := m]> locks) (<[i := rf']> rfs).
Proof.
  unfold writers_agree. intros Hag Hi Hst Hm l i0 b. rewrite mutex_of_insert.
  pose proof (lookup_lt_Some _ _ _ Hi) as Hlt. destruct (decide (i0 = i)) as [->|Hne].
  - rewrite list_lookup_insert_eq by done. case_decide as Hl.
    + rewrite Hm, decide_True by done. split; [|naive_solver]. intros Hw. exists rf'. by rewrite Hst.
    + rewrite Hag. split; intros (rf0 & ? & ? & ?); simplify_eq.
  - rewrite list_lookup_insert_ne by done. case_decide as Hl; [|apply Hag]. subst l.
    rewrite Hm, decide_False by done. apply Hag.
Qed.

Lemma readers_agree_update locks scs k sc sc' l m :
  readers_agree locks scs → scs !! k = Some sc →
  (∀ k0, k0 ≠ k → multiplicity k0 (rw_readers m) = multiplicity k0 (rw_readers (mutex_of locks l))) →
  multiplicity k (rw_readers m) = count_occ Nat.eq_dec (read_locks sc') l →
  (∀ l', l' ≠ l → count_occ Nat.eq_dec (read_locks sc') l' = count_occ Nat.eq_dec (read_locks sc) l') →
  readers_agree (<[l := m]> locks) (<[k := sc']> scs).
Proof.
  intros Hag Hk Hother Hsame Hrest l' k0. rewrite mutex_of_insert.
  pose proof (lookup_lt_Some _ _ _ Hk) as Hlt. destruct (decide (k0 = k)) as [->|Hne].
  - rewrite list_lookup_insert_eq by done. simpl. case_decide as Hl; [by subst|].
    by rewrite Hag, Hk, Hrest.
  - rewrite list_lookup_insert_ne by done. case_decide; [|apply Hag]. subst. by rewrite Hother.
Qed.

Lemma readers_agree_same locks scs k sc sc' :
  readers_agree locks scs → scs !! k = Some sc → read_locks sc' = read_locks sc →
  readers_agree locks (<[k := sc']> scs).
Proof.
  intros Hag Hk Hh l k0. rewrite Hag. destruct (decide (k0 = k)) as [->|Hne].
  - rewrite list_lookup_insert_eq by by eapply lookup_lt_Some. rewrite Hk. simpl. by rewrite Hh.
  - by rewrite list_lookup_insert_ne.
Qed.

(** A change of a mutex that leaves its readers. *)
Lemma readers_agree_lock locks scs l m :
  readers_agree locks scs → rw_readers m = rw_readers (mutex_of locks l) →
  readers_agree (<[l := m]> locks) scs.
Proof. intros Hag Hm l' k. rewrite mutex_of_insert. case_decide; [subst; by rewrite Hm|apply Hag]. Qed.

(** A change of a mutex that leaves its writer. *)
Lemma writers_agree_lock locks rfs l m :
  writers_agree locks rfs → rw_writer m = rw_writer (mutex_of locks l) →
  writers_agree (<[l := m]> locks) rfs.
Proof. intros Hag Hm l' i b. rewrite mutex_of_insert. case_decide; [subst; by rewrite Hm|apply Hag]. Qed.

Lemma writers_agree_same locks rfs i rf rf' :
  writers_agree locks rfs → rfs !! i = Some rf → rf_store rf' = rf_store rf →
  wants (rf_phase rf') = wants (rf_phase rf) → writers_agree locks (<[i := rf']> rfs).
Proof.
  unfold writers_agree. intros Hag Hi Hst Hw l i0 b. rewrite Hag. destruct (decide (i0 = i)) as [->|Hne].
  - rewrite list_lookup_insert_eq by by eapply lookup_lt_Some. rewrite Hi.
    split; intros (rf0 & [= <-] & <- & Hb); eexists; (split; [done|split; congruence]).
  - by rewrite list_lookup_insert_ne.
Qed.

Lemma exclusive_lock locks l m :
  exclusive locks → (∀ i, rw_writer m = Some (i, true) → rw_readers m = ∅) →
  exclusive (<[l := m]> locks).
Proof. intros Hex Hm l' i. rewrite !mutex_of_insert. case_decide; [apply Hm|apply Hex]. Qed.

(** A scrape that holds a lock keeps the writers out. *)
Lemma held_excludes locks scs k sc l i :
  readers_agree locks scs → exclusive locks → scs !! k = Some sc → l ∈ read_locks sc →
  rw_writer (mutex_of locks l) ≠ Some (i, true).
Proof.
  intros Hag Hex Hk Hl Hw. apply Hex in Hw. specialize (Hag l k). rewrite Hw, Hk, multiplicity_empty in Hag.
  simpl in Hag. apply list_elem_of_In, (count_occ_In Nat.eq_dec) in Hl. lia.
Qed.
End invariant.

(** ** The simulation *)

(** What holds of every goroutine after a step of one of them. *)
Lemma list_update {A} (P : nat → A → Prop) (l : list A) i x :
  (∀ j y, l !! j = Some y → j ≠ i → P j y) → P i x → ∀ j y, <[i := x]> l !! j = Some y → P j y.
Proof.
  intros Hother Hi j y. rewrite list_lookup_insert. case_decide as Hd.
  - destruct Hd as [<- _]. by intros [= <-].
  - intros Hj. apply Hother; [done|]. intros ->. apply Hd. split; [done|]. by eapply lookup_lt_Some.
Qed.

Ltac per_goroutine :=
  match goal with |- ∀ (i : nat) x, _ → @?P i x => apply (list_update P) end.

Section simulation.
Context `{!SortSlice} `{!MapRange} `{!CEL} {Obj : Type} `{!KubeObject Obj} {W : Type} `{!IOWriter W}.
Context (scs0 : list (list nat * list nat * W)).
Implicit Types (rf : Reflecting Obj) (rfs : list (Reflecting Obj)) (sc : Scrape W).

(** A scrape that has its locks has been called, and will return what the call
    returned. *)
Definition scrape_ok (heap : gmap nat StoreType) (orig : list nat * list nat * W)
    (res : option (outcome (result write_error unit * W))) sc : Prop :=
  sc_site sc = orig.1.1 ∧ sc_stores sc = orig.1.2 ∧
  match sc_phase sc with
  | Acquiring held todo => sc_stores sc = reverse held ++ todo ∧ sc_writer sc = orig.2 ∧ res = None
  | Writing p =>
    position_locs p ⊆ sc_stores sc ∧ res = Some (rest (sc_site sc) heap p (sc_writer sc))
  | Releasing _ r => res = Some (Done (r, sc_writer sc))
  end.

(** The heap without locks has each store as it was before the writer that is
    inside, and the operation that a reflector is doing still to come. *)
Record consistent (σ : Locked Obj W) (α : Atomic) : Prop := {
  cs_writers : writers_agree (lk_locks σ) (lk_reflectors σ);
  cs_readers : readers_agree (lk_locks σ) (lk_scrapes σ);
  cs_exclusive : exclusive (lk_locks σ);
  cs_exist i rf : lk_reflectors σ !! i = Some rf → is_Some (lk_heap σ !! rf_store rf);
  cs_stores k sc : lk_scrapes σ !! k = Some sc →
    Forall (λ l, is_Some (lk_heap σ !! l)) (sc_stores sc);
  cs_busy i rf : lk_reflectors σ !! i = Some rf → rf_phase rf ≠ Outside → rf_ops rf ≠ [];
  cs_ops : at_ops α = (λ rf, (rf_store rf, rf_ops rf)) <$> lk_reflectors σ;
  cs_inside i rf s : lk_reflectors σ !! i = Some rf → rf_phase rf = Inside s →
    at_heap α !! rf_store rf = Some s;
  cs_outside l : (∀ i, rw_writer (mutex_of (lk_locks σ) l) ≠ Some (i, true)) →
    at_heap α !! l = lk_heap σ !! l;
  cs_scrapes k sc : lk_scrapes σ !! k = Some sc → ∃ orig res,
    scs0 !! k = Some orig ∧ at_results α !! k = Some res ∧ scrape_ok (lk_heap σ) orig res sc;
}.

(** The stores of the reflectors are there without the locks too. *)
Lemma consistent_exist σ α i rf :
  consistent σ α → lk_reflectors σ !! i = Some rf → is_Some (at_heap α !! rf_store rf).
Proof.
  intros Hc Hi. destruct (rw_writer (mutex_of (lk_locks σ) (rf_store rf))) as [[i' [|]]|] eqn:Hw.
  1: { apply (cs_writers _ _ Hc) in Hw as (rf' & Hi' & Hst & Hwant).
       destruct (rf_phase rf') as [| |s] eqn:Hph; simplify_eq/=.
       rewrite <- Hst, (cs_inside _ _ Hc _ _ _ Hi' Hph). done. }
  all: rewrite (cs_outside _ _ Hc) by (by rewrite Hw); by eapply cs_exist.
Qed.

(** A writer is the only one inside. *)
Lemma consistent_unique σ α i rf i' rf' s s' :
  consistent σ α → lk_reflectors σ !! i = Some rf → rf_phase rf = Inside s →
  lk_reflectors σ !! i' = Some rf' → rf_phase rf' = Inside s' → rf_store rf' = rf_store rf → i' = i.
Proof.
  intros Hc Hi Hph Hi' Hph' Hst.
  assert (rw_writer (mutex_of (lk_locks σ) (rf_store rf)) = Some (i, true)) as Hw.
  { apply (cs_writers _ _ Hc). exists rf. by rewrite Hph. }
  assert (rw_writer (mutex_of (lk_locks σ) (rf_store rf)) = Some (i', true)) as Hw'.
  { apply (cs_writers _ _ Hc). exists rf'. by rewrite Hph'. }
  congruence.
Qed.

(** A writer that is inside does not change what the scrapes read. *)
Lemma scrape_ok_write σ α i rf s s' k sc orig res :
  consistent σ α → lk_reflectors σ !! i = Some rf → rf_phase rf = Inside s →
  lk_scrapes σ !! k = Some sc → scrape_ok (lk_heap σ) orig res sc →
  scrape_ok (<[rf_store rf := s']> (lk_heap σ)) orig res sc.
Proof.
  intros Hc Hi Hph Hk (Hsite & Hst & Hok). split; [done|]. split; [done|].
  destruct (sc_phase sc) as [h todo|p|h r] eqn:Hp; [done| |done].
  destruct Hok as [Hsub ->]. split; [done|]. f_equal. symmetry. apply rest_ext, Forall_forall.
  intros l Hl. apply lookup_insert_ne. intros <-.
  refine (held_excludes _ _ k sc (rf_store rf) i (cs_readers _ _ Hc) (cs_exclusive _ _ Hc) Hk _ _).
  - unfold read_locks. rewrite Hp. rewrite elem_of_reverse. by apply Hsub.
  - apply (cs_writers _ _ Hc). exists rf. by rewrite Hph.
Qed.

Lemma exist_write (heap : gmap nat StoreType) (l l' : nat) (s : StoreType) :
  is_Some (heap !! l') → is_Some (<[l := s]> heap !! l').
Proof. intros Hl. apply lookup_insert_is_Some. destruct (decide (l = l')); auto. Qed.


Lemma sim_skip i l site op ops r s s' heap locks rfs scs α :
  consistent (MkLocked heap locks rfs scs) α →
  rfs !! i = Some (MkReflecting l ((site, op) :: ops) Outside) → takes_lock op = false →
  store_apply site op s = Done (r, s') →
  ∃ α', rtc (atomic_step scs0) α α' ∧
    consistent (MkLocked heap locks (<[i := MkReflecting l ops Outside]> rfs) scs) α'.
Proof.
  intros Hc Hi Hop Happ. destruct (consistent_exist _ _ _ _ Hc Hi) as [s0 Hs0]. simpl in Hs0.
  destruct α as [h rops results]. pose proof (cs_ops _ _ Hc) as Hops. simpl in *.
  exists (MkAtomic h (<[i := (l, ops)]> rops) results). split.
  - apply rtc_once. rewrite <- (insert_id h l s0 Hs0) at 2.
    eapply (at_apply _ i l site op); [by rewrite Hops, list_lookup_fmap, Hi|done|].
    by destruct op.
  - destruct Hc as [Hw Hr He Hex Hst Hb _ Hin Hout Hsc]. simpl in *. constructor; simpl; try done.
    + by eapply writers_agree_same.
    + per_goroutine; [intros; by eapply Hex|]. by apply (Hex _ _ Hi).
    + per_goroutine; [intros j rf Hj _; by apply (Hb j)|]. done.
    + by rewrite list_fmap_insert, Hops.
    + intros i0 rf0 s1. revert i0 rf0. per_goroutine; [|done]. intros j rf Hj _. by apply Hin with j.
Qed.

Lemma sim_lock i l op ops m heap locks rfs scs α :
  consistent (MkLocked heap locks rfs scs) α →
  rfs !! i = Some (MkReflecting l (op :: ops) Outside) → announce i (mutex_of locks l) = Some m →
  consistent (MkLocked heap (<[l := m]> locks)
    (<[i := MkReflecting l (op :: ops) Waiting]> rfs) scs) α.
Proof.
  intros Hc Hi Hm. unfold announce in Hm. destruct (rw_writer (mutex_of locks l)) eqn:Hnone; [done|].
  injection Hm as <-. destruct Hc as [Hw Hr He Hex Hst Hb Hops Hin Hout Hsc]. simpl in *.
  constructor; simpl; try done.
  - apply (writers_agree_update _ _ _ (MkReflecting l (op :: ops) Outside)); [done..|].
    intros i0 b. simpl. rewrite Hnone. case_decide; naive_solver.
  - by apply readers_agree_lock.
  - by apply exclusive_lock.
  - per_goroutine; [intros; by eapply Hex|]. by apply (Hex _ _ Hi).
  - per_goroutine; [intros j rf Hj _; by apply (Hb j)|]. done.
  - rewrite list_fmap_insert, Hops. simpl. symmetry. apply list_insert_id.
    by rewrite list_lookup_fmap, Hi.
  - intros i0 rf0 s1. revert i0 rf0. per_goroutine; [|done]. intros j rf Hj _. by apply Hin with j.
  - intros l'. rewrite mutex_of_insert. case_decide; [|apply Hout]. subst. intros _. apply Hout.
    by rewrite Hnone.
Qed.

Lemma sim_acquire i l ops m s heap locks rfs scs α :
  consistent (MkLocked heap locks rfs scs) α →
  rfs !! i = Some (MkReflecting l ops Waiting) → acquire i (mutex_of locks l) = Some m →
  heap !! l = Some s →
  consistent (MkLocked heap (<[l := m]> locks)
    (<[i := MkReflecting l ops (Inside s)]> rfs) scs) α.
Proof.
  intros Hc Hi Hm Hs. unfold acquire in Hm. case_decide as Hacq; [|done]. destruct Hacq as [Hwait Hempty].
  injection Hm as <-. destruct Hc as [Hw Hr He Hex Hst Hb Hops Hin Hout Hsc]. simpl in *.
  constructor; simpl; try done.
  - apply (writers_agree_update _ _ _ (MkReflecting l ops Waiting)); [done..|].
    intros i0 b. simpl. rewrite Hwait. case_decide; naive_solver.
  - by apply readers_agree_lock.
  - by apply exclusive_lock.
  - per_goroutine; [intros; by eapply Hex|]. by apply (Hex _ _ Hi).
  - per_goroutine; [intros j rf Hj _; by apply (Hb j)|]. intros _. by apply (Hb _ _ Hi).
  - rewrite list_fmap_insert, Hops. simpl. symmetry. apply list_insert_id.
    by rewrite list_lookup_fmap, Hi.
  - intros i0 rf0 s1. revert i0 rf0. per_goroutine; [intros j rf Hj _; by apply Hin with j|].
    simpl. intros [= <-]. rewrite Hout; [done|]. by rewrite Hwait.
  - intros l'. rewrite mutex_of_insert. case_decide; [|apply Hout]. subst. intros Hno. by destruct (Hno i).
Qed.

Lemma sim_write i l ops s s' heap locks rfs scs α :
  consistent (MkLocked heap locks rfs scs) α →
  rfs !! i = Some (MkReflecting l ops (Inside s)) →
  consistent (MkLocked (<[l := s']> heap) locks rfs scs) α.
Proof.
  intros Hc Hi. pose proof (λ k sc orig res, scrape_ok_write _ _ i _ s s' k sc orig res Hc Hi eq_refl) as Hscw.
  pose proof Hc as [Hw Hr He Hex Hst Hb Hops Hin Hout Hsc]. simpl in *.
  assert (rw_writer (mutex_of locks l) = Some (i, true)) as Hl.
  { apply Hw. by eexists. }
  constructor; simpl; try done.
  - intros i0 rf0 Hi0. by apply exist_write, (Hex i0).
  - intros k sc Hk. apply (Forall_impl _ _ _ (Hst _ _ Hk)). intros l'. apply exist_write.
  - intros l' Hno. rewrite lookup_insert_ne; [by apply Hout|]. intros <-. by apply (Hno i).
  - intros k sc Hk. destruct (Hsc _ _ Hk) as (orig & res & ? & ? & ?). exists orig, res. eauto.
Qed.

Lemma sim_unlock i l site op ops s r s' heap locks rfs scs α :
  consistent (MkLocked heap locks rfs scs) α →
  rfs !! i = Some (MkReflecting l ((site, op) :: ops) (Inside s)) →
  store_apply site op s = Done (r, s') →
  ∃ α', rtc (atomic_step scs0) α α' ∧
    consistent (MkLocked (<[l := s']> heap) (<[l := Unlock (mutex_of locks l)]> locks)
      (<[i := MkReflecting l ops Outside]> rfs) scs) α'.
Proof.
  intros Hc0 Hi Happ. pose proof (sim_write _ _ _ _ s' _ _ _ _ _ Hc0 Hi) as Hc.
  pose proof Hc as [Hw Hr He Hex Hst Hb Hops Hin Hout Hsc]. simpl in *.
  pose proof (Hin _ _ _ Hi eq_refl) as Hs. simpl in Hs.
  assert (rw_writer (mutex_of locks l) = Some (i, true)) as Hl.
  { apply Hw. by eexists. }
  destruct α as [h rops results]. simpl in *.
  exists (MkAtomic (<[l := s']> h) (<[i := (l, ops)]> rops) results). split.
  - apply rtc_once. eapply at_apply; [|done..]. by rewrite Hops, list_lookup_fmap, Hi.
  - constructor; simpl; try done.
    + apply (writers_agree_update _ _ _ (MkReflecting l ((site, op) :: ops) (Inside s))); [done..|].
      intros i0 b. simpl. rewrite Hl. case_decide; naive_solver.
    + by apply readers_agree_lock.
    + by apply exclusive_lock.
    + per_goroutine; [intros; by eapply Hex|]. by apply (Hex _ _ Hi).
    + per_goroutine; [intros j rf Hj _; by apply (Hb j)|]. done.
    + by rewrite list_fmap_insert, Hops.
    + intros i0 rf0 s1. revert i0 rf0. per_goroutine; [|done]. intros j rf Hj Hne Hph.
      rewrite lookup_insert_ne; [by apply (Hin j)|]. intros ->. apply Hne.
      by apply (consistent_unique _ _ _ _ _ _ _ _ Hc Hi eq_refl Hj Hph).
    + intros l'. rewrite mutex_of_insert. case_decide as Hd.
      * subst. intros _. by rewrite !lookup_insert_eq.
      * rewrite lookup_insert_ne by done. apply Hout.
Qed.

(** The invariants of the scrapes after a step of one of them, which may lock
    or unlock a mutex for reading. *)
Lemma sim_scrape k sc sc' l m heap locks rfs scs h rops results res' :
  consistent (MkLocked heap locks rfs scs) (MkAtomic h rops results) →
  scs !! k = Some sc → sc_stores sc' = sc_stores sc → rw_writer m = rw_writer (mutex_of locks l) →
  (∀ i, rw_writer m = Some (i, true) → rw_readers m = ∅) →
  readers_agree (<[l := m]> locks) (<[k := sc']> scs) →
  (∀ orig res, scs0 !! k = Some orig → results !! k = Some res → scrape_ok heap orig res sc →
     scrape_ok heap orig res' sc') →
  consistent (MkLocked heap (<[l := m]> locks) rfs (<[k := sc']> scs))
    (MkAtomic h rops (<[k := res']> results)).
Proof.
  intros [Hw Hr He Hex Hst Hb Hops Hin Hout Hsc] Hk Hstores Hm Hmx Hag Hok. simpl in *.
  constructor; simpl; try done.
  - by apply writers_agree_lock.
  - by apply exclusive_lock.
  - per_goroutine; [intros j sc0 Hj _; by apply (Hst j)|]. rewrite Hstores. by apply (Hst k).
  - intros l'. rewrite mutex_of_insert. case_decide; [subst; rewrite Hm|]; apply Hout.
  - per_goroutine.
    + intros j sc0 Hj Hne. rewrite list_lookup_insert_ne by done. by apply Hsc.
    + destruct (Hsc _ _ Hk) as (orig & res & Ho & Hres & Hok0). exists orig, res'.
      split; [done|]. split; [|by eapply Hok].
      apply list_lookup_insert_eq. by eapply lookup_lt_Some.
Qed.

Lemma mutex_of_same locks l l' : mutex_of (<[l := mutex_of locks l]> locks) l' = mutex_of locks l'.
Proof. rewrite mutex_of_insert. by case_decide; subst. Qed.

(** A step of a scrape that touches no mutex. *)
Lemma sim_local k sc sc' heap locks rfs scs h rops results res' :
  consistent (MkLocked heap locks rfs scs) (MkAtomic h rops results) →
  scs !! k = Some sc → sc_stores sc' = sc_stores sc → read_locks sc' = read_locks sc →
  (∀ orig res, scs0 !! k = Some orig → results !! k = Some res → scrape_ok heap orig res sc →
     scrape_ok heap orig res' sc') →
  consistent (MkLocked heap locks rfs (<[k := sc']> scs)) (MkAtomic h rops (<[k := res']> results)).
Proof.
  intros [Hw Hr He Hex Hst Hb Hops Hin Hout Hsc] Hk Hstores Hheld Hok. simpl in *.
  constructor; simpl; try done.
  - by eapply readers_agree_same.
  - per_goroutine; [intros j sc0 Hj _; by apply (Hst j)|]. rewrite Hstores. by apply (Hst k).
  - per_goroutine.
    + intros j sc0 Hj Hne. rewrite list_lookup_insert_ne by done. by apply Hsc.
    + destruct (Hsc _ _ Hk) as (orig & res & Ho & Hres & Hok0). exists orig, res'.
      split; [done|]. split; [|by eapply Hok].
      apply list_lookup_insert_eq. by eapply lookup_lt_Some.
Qed.

Lemma sim_rlock k site stores held l todo m w heap locks rfs scs α :
  consistent (MkLocked heap locks rfs scs) α →
  scs !! k = Some (MkScrape site stores (Acquiring held (l :: todo)) w) →
  RLock k (mutex_of locks l) = Some m →
  consistent (MkLocked heap (<[l := m]> locks) rfs
    (<[k := MkScrape site stores (Acquiring (l :: held) todo) w]> scs)) α.
Proof.
  intros Hc Hk Hm. unfold RLock in Hm. destruct (rw_writer (mutex_of locks l)) eqn:Hnone; [done|].
  injection Hm as <-. destruct α as [h rops results].
  destruct (cs_scrapes _ _ Hc _ _ Hk) as (orig & res & _ & Hres & Hok). simpl in Hres.
  rewrite <- (list_insert_id results k res Hres).
  eapply sim_scrape; [done..| |].
  - apply (readers_agree_update _ _ _ _ _ _ _ (cs_readers _ _ Hc) Hk); simpl.
    + intros k0 Hne. rewrite multiplicity_disj_union, multiplicity_singleton_ne by done. done.
    + rewrite multiplicity_disj_union, multiplicity_singleton, decide_True by done.
      pose proof (cs_readers _ _ Hc l k) as Hag. simpl in Hag. rewrite Hag, Hk. simpl.
      by destruct (Nat.eq_dec l l).
    + intros l' Hne. by destruct (Nat.eq_dec l l').
  - intros orig' res' _ Hres' (? & ? & Hst & ? & ->). rewrite Hres in Hres'. injection Hres' as ->.
    split_and!; try done. simpl in *. by rewrite Hst, reverse_cons, <- app_assoc.
Qed.

Lemma sim_runlock k site stores l held r w heap locks rfs scs α :
  consistent (MkLocked heap locks rfs scs) α →
  scs !! k = Some (MkScrape site stores (Releasing (l :: held) r) w) →
  consistent (MkLocked heap (<[l := RUnlock k (mutex_of locks l)]> locks) rfs
    (<[k := MkScrape site stores (Releasing held r) w]> scs)) α.
Proof.
  intros Hc Hk. destruct α as [h rops results].
  destruct (cs_scrapes _ _ Hc _ _ Hk) as (orig & res & _ & Hres & Hok). simpl in Hres.
  rewrite <- (list_insert_id results k res Hres).
  eapply sim_scrape; [done..| | |].
  - simpl. intros i Hi. apply (cs_exclusive _ _ Hc) in Hi. simpl in Hi. rewrite Hi. multiset_solver.
  - apply (readers_agree_update _ _ _ _ _ _ _ (cs_readers _ _ Hc) Hk); simpl.
    + intros k0 Hne. rewrite multiplicity_difference, multiplicity_singleton_ne by done. lia.
    + rewrite multiplicity_difference, multiplicity_singleton, decide_True by done.
      pose proof (cs_readers _ _ Hc l k) as Hag. simpl in Hag. rewrite Hag, Hk. simpl.
      unfold read_locks. simpl. destruct (Nat.eq_dec l l); [lia|done].
    + intros l' Hne. by destruct (Nat.eq_dec l l').
  - intros orig' res' _ Hres' Hok'. rewrite Hres in Hres'. injection Hres' as ->. exact Hok'.
Qed.

Lemma stores_at_ext (heap heap' : gmap nat StoreType) locs :
  Forall (λ l, heap' !! l = heap !! l) locs → stores_at heap' locs = stores_at heap locs.
Proof.
  intros Hl. unfold stores_at. induction Hl as [|l locs Hl _ IH]; [done|]. csimpl. by rewrite Hl, IH.
Qed.

Lemma writeAllTo_stores site stores (w : W) : writeAllTo site stores w = write_stores site 0 stores w.
Proof. by destruct stores. Qed.

Lemma sim_start k site stores held w heap locks rfs scs α :
  consistent (MkLocked heap locks rfs scs) α →
  scs !! k = Some (MkScrape site stores (Acquiring held []) w) →
  ∃ α', rtc (atomic_step scs0) α α' ∧
    consistent (MkLocked heap locks rfs
      (<[k := MkScrape site stores (Writing (AtStores 0 stores)) w]> scs)) α'.
Proof.
  intros Hc Hk. destruct α as [h rops results].
  destruct (cs_scrapes _ _ Hc _ _ Hk) as ([[site' stores'] w'] & res & Ho & Hres & Hok).
  destruct Hok as (Hsite & Hstores & Hheld & Hw' & ->). simpl in *.
  rewrite app_nil_r in Hheld. subst w' stores' site' stores.
  assert (stores_at h (reverse held) = stores_at heap (reverse held)) as Hat.
  { apply stores_at_ext, Forall_forall. intros l Hl. apply (cs_outside _ _ Hc). intros i.
    eapply held_excludes; [apply Hc|apply Hc|exact Hk|].
    by rewrite elem_of_reverse in Hl. }
  eexists. split; [by apply rtc_once, (at_scrape _ k site (reverse held) w)|].
  eapply sim_local; [done|exact Hk|done| |].
  - unfold read_locks. simpl. by rewrite reverse_involutive.
  - intros orig res Ho' _ (? & ? & _ & ? & _). simpl in *. split_and!; try done.
    by rewrite writeAllTo_stores, Hat.
Qed.

Lemma write_next_locs site heap p (w : W) p' w' :
  write_next site heap p w = Done (p', w') → position_locs p' ⊆ position_locs p.
Proof.
  intros Hn. destruct p as [j [|l todo]|j l i [|h hs] todo|j l i [|key keys] hs todo|r];
    simpl in Hn; unfold load, index in Hn.
  all: repeat (case_match; simplify_eq/=); unfold mret, outcome_ret in Hn; simplify_eq/=; set_solver.
Qed.

Lemma sim_next k site stores p w p' w' heap locks rfs scs α :
  consistent (MkLocked heap locks rfs scs) α →
  scs !! k = Some (MkScrape site stores (Writing p) w) →
  write_next site heap p w = Done (p', w') →
  consistent (MkLocked heap locks rfs (<[k := MkScrape site stores (Writing p') w']> scs)) α.
Proof.
  intros Hc Hk Hn. destruct α as [h rops results].
  destruct (cs_scrapes _ _ Hc _ _ Hk) as (orig & res & Ho & Hres & Hok). simpl in Hres.
  rewrite <- (list_insert_id results k res Hres).
  eapply sim_local; [done..|]. intros orig' res' _ Hres' (Hsite & Hstores & Hp & Hrest).
  rewrite Hres in Hres'. injection Hres' as ->. unfold scrape_ok. simpl in *.
  split_and!; [done..| |].
  - etrans; [by eapply write_next_locs|done].
  - rewrite Hrest, write_next_rest, Hn; [done|].
    apply Forall_forall. intros l Hl. pose proof (cs_stores _ _ Hc _ _ Hk) as He. simpl in He.
    rewrite Forall_forall in He. by apply He, Hp.
Qed.

Lemma sim_return k site stores r w heap locks rfs scs α :
  consistent (MkLocked heap locks rfs scs) α →
  scs !! k = Some (MkScrape site stores (Writing (AtEnd r)) w) →
  consistent (MkLocked heap locks rfs
    (<[k := MkScrape site stores (Releasing (reverse stores) r) w]> scs)) α.
Proof.
  intros Hc Hk. destruct α as [h rops results].
  destruct (cs_scrapes _ _ Hc _ _ Hk) as (orig & res & Ho & Hres & Hok). simpl in Hres.
  rewrite <- (list_insert_id results k res Hres).
  eapply sim_local; [done..|]. intros orig' res' _ Hres' (Hsite & Hstores & _ & Hrest).
  rewrite Hres in Hres'. by injection Hres' as ->.
Qed.

(** Every step is a step of the system without locks, or none. *)
Lemma simulation who σ σ' α :
  locked_step who σ σ' → consistent σ α →
  ∃ α', rtc (atomic_step scs0) α α' ∧ consistent σ' α'.
Proof.
  intros [] Hc; eauto using sim_skip, sim_unlock, sim_start; exists α; (split; [done|]).
  - by eapply sim_lock.
  - by eapply sim_acquire.
  - by eapply sim_write.
  - by eapply sim_rlock.
  - by eapply sim_next.
  - by eapply sim_return.
  - by eapply sim_runlock.
Qed.

Lemma simulation_steps σ σ' α :
  rtc any_step σ σ' → consistent σ α → ∃ α', rtc (atomic_step scs0) α α' ∧ consistent σ' α'.
Proof.
  intros Hsteps. revert α. induction Hsteps as [|? ? ? Hany _ IH]; intros α Hc; [by exists α|].
  destruct Hany as [who Hstep]. destruct (simulation _ _ _ _ Hstep Hc) as (α1 & Ha1 & Hc1).
  destruct (IH _ Hc1) as (α' & Ha2 & Hc'). exists α'. split; [by etrans|done].
Qed.
End simulation.

(** ** Everything ends *)

Section ends.
Context `{!MapRange} {W : Type} `{!IOWriter W} (site : list nat) (heap : gmap nat StoreType).

Definition write_step (x y : position * W) : Prop := write_next site heap x.1 x.2 = Done y.

(** A call that returns gets to its end, if the stores do not change. *)
Definition ends (p : position) : Prop :=
  Forall (λ l, is_Some (heap !! l)) (position_locs p) →
  ∀ w r w', rest site heap p w = Done (r, w') → rtc write_step (p, w) (AtEnd r, w').

Lemma ends_next p :
  (∀ w p' w', write_next site heap p w = Done (p', w') → ends p') → ends p.
Proof.
  intros Hnext Hl w r w' Hr. pose proof Hr as Hrest. rewrite write_next_rest in Hr by done.
  destruct (write_next site heap p w) as [[p1 w1]|] eqn:Hn; [|done]. simpl in Hr.
  eapply rtc_l; [exact Hn|]. apply (Hnext _ _ _ Hn); [|done].
  rewrite Forall_forall in Hl |- *. intros l Hin. apply Hl. by eapply write_next_locs.
Qed.

Lemma ends_end r : ends (AtEnd r).
Proof. intros _ w r' w' [= -> ->]. done. Qed.

Lemma ends_families j l i keys hs todo :
  (∀ i, ends (AtHeaders j l i hs todo)) → ends (AtFamilies j l i keys hs todo).
Proof.
  intros Hhs. induction keys as [|key keys IH]; apply ends_next; intros w p' w' Hn; simpl in Hn.
  - injection Hn as <- _. apply Hhs.
  - unfold load, index in Hn.
    repeat (case_match; simplify_eq/=); unfold mret, outcome_ret in Hn; simplify_eq/=;
      eauto using ends_end.
Qed.

Lemma ends_headers j l hs todo i :
  ends (AtStores (S j) todo) → ends (AtHeaders j l i hs todo).
Proof.
  intros Hs. revert i. induction hs as [|h hs IH]; intros i; apply ends_next; intros w p' w' Hn; simpl in Hn.
  - by injection Hn as <- _.
  - unfold load in Hn.
    repeat (case_match; simplify_eq/=); unfold mret, outcome_ret in Hn; simplify_eq/=;
      eauto using ends_end, ends_families.
Qed.

Lemma ends_stores j todo : ends (AtStores j todo).
Proof.
  revert j. induction todo as [|l todo IH]; intros j; apply ends_next; intros w p' w' Hn; simpl in Hn.
  - injection Hn as <- _. apply ends_end.
  - unfold load in Hn. case_match; [|done]. injection Hn as <- _. by apply ends_headers.
Qed.

Lemma ends_all p : ends p.
Proof.
  destruct p; eauto using ends_stores, ends_headers, ends_families, ends_end.
Qed.
End ends.

(** How many steps a goroutine has yet to take, the writes of a scrape being
    one. *)
Definition rf_left {Obj} (rf : Reflecting Obj) : nat :=
  3 * length (rf_ops rf) - match rf_phase rf with Outside => 0 | Waiting => 1 | Inside _ => 2 end.

Definition sc_left {W} (sc : Scrape W) : nat :=
  match sc_phase sc with
  | Acquiring _ todo => 2 + length (sc_stores sc) + length todo
  | Writing _ => 1 + length (sc_stores sc)
  | Releasing held _ => length held
  end.

Definition steps_left {Obj W} (σ : Locked Obj W) : nat :=
  sum_list_with rf_left (lk_reflectors σ) + sum_list_with sc_left (lk_scrapes σ).

Lemma sum_list_update {A} (f : A → nat) (l : list A) i x x' :
  l !! i = Some x → f x' < f x → sum_list_with f (<[i := x']> l) < sum_list_with f l.
Proof.
  revert i. induction l as [|y l IH]; intros [|i] Hi Hf; simplify_eq/=; [lia|].
  specialize (IH _ Hi Hf). lia.
Qed.

Lemma sum_list_positive {A} (f : A → nat) (l : list A) :
  0 < sum_list_with f l → ∃ i x, l !! i = Some x ∧ 0 < f x.
Proof.
  induction l as [|y l IH]; simpl; [lia|]. intros Hs. destruct (decide (0 < f y)).
  - by exists 0, y.
  - destruct IH as (i & x & ? & ?); [lia|]. by exists (S i), x.
Qed.

Section progress.
Context `{!SortSlice} `{!MapRange} `{!CEL} {Obj : Type} `{!KubeObject Obj} {W : Type} `{!IOWriter W}.
Context (scs0 : list (list nat * list nat * W)).
Implicit Types (rf : Reflecting Obj) (sc : Scrape W) (σ : Locked Obj W) (α : @Atomic Obj W).

(** Operations and calls that do not panic. *)
Record safe α : Prop := {
  sf_heap : map_Forall (λ _ s, store_wf s ∧ store_covered s) (at_heap α);
  sf_results k o : at_results α !! k = Some (Some o) → ∃ r, o = Done r;
}.

Lemma atomic_step_safe α α' : atomic_step scs0 α α' → safe α → safe α'.
Proof.
  intros [i l site op ops s r s' heap rfs results Hi Hl Happ|k site stores w heap rfs results Hk Hres]
    [Hh Hr]; split; simpl in *; try done.
  - apply map_Forall_insert_2; [|done]. destruct (Hh _ _ Hl) as [Hwf Hcov]. split.
    + by apply (store_apply_inv site op _ _ _ Happ).
    + destruct (store_apply_covered site op s Hcov) as (r' & s'' & Heq & Hcov').
      rewrite Happ in Heq. by injection Heq as _ <-.
  - intros k0 o. rewrite list_lookup_insert. case_decide; [|apply Hr]. intros [= <-].
    rewrite writeAllTo_chunks; [by eexists|]. apply Forall_forall. intros s Hs.
    apply list_elem_of_omap in Hs as (l & _ & Hl). by apply (Hh l).
Qed.

Lemma atomic_steps_safe α α' : rtc (atomic_step scs0) α α' → safe α → safe α'.
Proof. induction 1; eauto using atomic_step_safe. Qed.

(** Some steps lead to a state with less to do. *)
Definition progress σ : Prop := ∃ σ', rtc any_step σ σ' ∧ steps_left σ' < steps_left σ.

Lemma writing_run k site stores heap locks rfs scs x x' :
  rtc (write_step site heap) x x' →
  scs !! k = Some (MkScrape site stores (Writing x.1) x.2) →
  rtc any_step (MkLocked heap locks rfs scs)
    (MkLocked (Obj := Obj) heap locks rfs
       (<[k := MkScrape site stores (Writing x'.1) x'.2]> scs)).
Proof.
  intros Hrun. revert scs. induction Hrun as [x|x [p1 w1] x' Hstep _ IH]; intros scs Hk.
  - by rewrite (list_insert_id scs k _ Hk).
  - eapply rtc_l; [exists (AScrape k); by eapply sc_write|].
    rewrite <- (list_insert_insert_eq scs k (MkScrape site stores (Writing x'.1) x'.2)
      (MkScrape site stores (Writing p1) w1)).
    apply IH, list_lookup_insert_eq. by eapply lookup_lt_Some.
Qed.

Lemma locked_eta σ : MkLocked (lk_heap σ) (lk_locks σ) (lk_reflectors σ) (lk_scrapes σ) = σ.
Proof. by destruct σ. Qed.

Context (σ : Locked Obj W) (α : @Atomic Obj W).
Hypothesis (Hcons : consistent scs0 σ α) (Hsafe : safe α).
Hypothesis (Hsorted : ∀ k sc, lk_scrapes σ !! k = Some sc → StronglySorted lt (sc_stores sc)).

Lemma step_reflector_progress who i rf rf' heap' locks' :
  lk_reflectors σ !! i = Some rf → rf_left rf' < rf_left rf →
  locked_step who (MkLocked (lk_heap σ) (lk_locks σ) (lk_reflectors σ) (lk_scrapes σ))
    (MkLocked heap' locks' (<[i := rf']> (lk_reflectors σ)) (lk_scrapes σ)) →
  progress σ.
Proof.
  rewrite locked_eta. intros Hi Hlt Hs. eexists. split; [by apply rtc_once; eexists|].
  unfold steps_left. simpl. pose proof (sum_list_update rf_left _ _ _ _ Hi Hlt). lia.
Qed.

Lemma step_scrape_progress k sc sc' locks' :
  lk_scrapes σ !! k = Some sc → sc_left sc' < sc_left sc →
  rtc any_step σ (MkLocked (lk_heap σ) locks' (lk_reflectors σ) (<[k := sc']> (lk_scrapes σ))) →
  progress σ.
Proof.
  intros Hk Hlt Hs. eexists. split; [exact Hs|].
  unfold steps_left. simpl. pose proof (sum_list_update sc_left _ _ _ _ Hk Hlt). lia.
Qed.

Lemma step_scrape_progress1 k sc sc' locks' :
  lk_scrapes σ !! k = Some sc → sc_left sc' < sc_left sc →
  locked_step (AScrape k) (MkLocked (lk_heap σ) (lk_locks σ) (lk_reflectors σ) (lk_scrapes σ))
    (MkLocked (lk_heap σ) locks' (lk_reflectors σ) (<[k := sc']> (lk_scrapes σ))) →
  progress σ.
Proof.
  rewrite locked_eta. intros Hk Hlt Hs. apply (step_scrape_progress k sc sc' locks' Hk Hlt).
  apply rtc_once. by exists (AScrape k).
Qed.

(** A scrape that has its locks returns, and releases them. *)
Lemma writing_progress k site stores p w :
  lk_scrapes σ !! k = Some (MkScrape site stores (Writing p) w) → progress σ.
Proof.
  intros Hk. destruct (cs_scrapes _ _ _ Hcons _ _ Hk) as (orig & res & _ & Hres & _ & _ & Hp & ->).
  simpl in *. destruct (sf_results _ Hsafe _ _ Hres) as [[r w'] Hr].
  assert (rtc (write_step site (lk_heap σ)) (p, w) (AtEnd r, w')) as Hrun.
  { apply ends_all; [|done]. pose proof (cs_stores _ _ _ Hcons _ _ Hk) as He. simpl in He.
    rewrite Forall_forall in He |- *. intros l Hl. by apply He, Hp. }
  eapply (step_scrape_progress k _ (MkScrape site stores (Releasing (reverse stores) r) w')); [done| |].
  - unfold sc_left. simpl. rewrite length_reverse. lia.
  - pose proof (writing_run k site stores (lk_heap σ) (lk_locks σ) (lk_reflectors σ) _ _ _ Hrun Hk)
      as Hsteps. rewrite locked_eta in Hsteps. etrans; [exact Hsteps|]. simpl.
    rewrite <- (list_insert_insert_eq (lk_scrapes σ) k
      (MkScrape site stores (Releasing (reverse stores) r) w')
      (MkScrape site stores (Writing (AtEnd r)) w')).
    apply rtc_once. exists (AScrape k). apply sc_return.
    apply list_lookup_insert_eq. by eapply lookup_lt_Some.
Qed.

Lemma releasing_progress k site stores l held r w :
  lk_scrapes σ !! k = Some (MkScrape site stores (Releasing (l :: held) r) w) → progress σ.
Proof.
  intros Hk. eapply (step_scrape_progress1 k); [exact Hk| |by apply sc_unlock].
  unfold sc_left. simpl. lia.
Qed.

Lemma acquired_progress k site stores held w :
  lk_scrapes σ !! k = Some (MkScrape site stores (Acquiring held []) w) → progress σ.
Proof.
  intros Hk. eapply (step_scrape_progress1 k); [exact Hk| |by eapply sc_start].
  unfold sc_left. simpl. lia.
Qed.

(** A writer that is inside gets out. *)
Lemma inside_progress i rf s : lk_reflectors σ !! i = Some rf → rf_phase rf = Inside s → progress σ.
Proof.
  intros Hi Hph. pose proof (cs_busy _ _ _ Hcons _ _ Hi) as Hb. rewrite Hph in Hb.
  pose proof (cs_inside _ _ _ Hcons _ _ _ Hi Hph) as Hs.
  destruct rf as [l [|[site op] ops] ph]; simpl in *; [by destruct Hb|]. subst ph.
  destruct (store_apply_covered site op s) as (r & s' & Happ & _); [by apply (sf_heap _ Hsafe l)|].
  eapply (step_reflector_progress _ i); [exact Hi| |by eapply rf_unlock].
  unfold rf_left. simpl. lia.
Qed.

Lemma waiting_progress i rf :
  lk_reflectors σ !! i = Some rf → rf_phase rf = Waiting →
  rw_readers (mutex_of (lk_locks σ) (rf_store rf)) = ∅ → progress σ.
Proof.
  intros Hi Hph Hempty. pose proof (cs_busy _ _ _ Hcons _ _ Hi) as Hb. rewrite Hph in Hb.
  destruct (cs_exist _ _ _ Hcons _ _ Hi) as [s Hs].
  assert (rw_writer (mutex_of (lk_locks σ) (rf_store rf)) = Some (i, false)) as Hw.
  { apply (cs_writers _ _ _ Hcons). exists rf. by rewrite Hph. }
  destruct rf as [l [|op ops] ph]; simpl in *; [by destruct Hb|]. subst ph.
  eapply (step_reflector_progress _ i); [exact Hi| |].
  2: { eapply rf_acquire; [exact Hi| |exact Hs]. unfold acquire. by rewrite decide_True. }
  unfold rf_left. simpl. lia.
Qed.

(** A mutex that cannot be taken for reading, when the scrapes that hold it can
    go on. *)
Lemma writer_progress l i b :
  (∀ k sc, lk_scrapes σ !! k = Some sc → l ∈ read_locks sc → progress σ) →
  rw_writer (mutex_of (lk_locks σ) l) = Some (i, b) → progress σ.
Proof.
  intros Hreaders Hw. pose proof Hw as (rf & Hi & <- & Hph)%(cs_writers _ _ _ Hcons).
  destruct (rf_phase rf) as [| |s] eqn:Hp; simplify_eq/=; [|by eapply inside_progress].
  destruct (gmultiset_choose_or_empty (rw_readers (mutex_of (lk_locks σ) (rf_store rf))))
    as [[k Hk]|Hempty]; [|by eapply waiting_progress].
  rewrite elem_of_multiplicity in Hk. rewrite (cs_readers _ _ _ Hcons) in Hk.
  destruct (lk_scrapes σ !! k) as [sc|] eqn:Hsc; simpl in Hk; [|lia].
  apply (Hreaders k sc Hsc). by apply list_elem_of_In, (count_occ_In Nat.eq_dec).
Qed.

(** The locks are taken in the order of the stores on the heap, so the scrape
    that waits for the last store waits for no other scrape. *)
Lemma acquiring_progress n k site stores held l todo w :
  (∀ k sc, lk_scrapes σ !! k = Some sc → Forall (λ l', l' < l + n) (sc_stores sc)) →
  lk_scrapes σ !! k = Some (MkScrape site stores (Acquiring held (l :: todo)) w) → progress σ.
Proof.
  revert k site stores held l todo w.
  induction n as [n IH] using lt_wf_ind. intros k site stores held l todo w Hbound Hk.
  destruct (rw_writer (mutex_of (lk_locks σ) l)) as [[i b]|] eqn:Hw.
  - eapply writer_progress; [|exact Hw]. intros k' sc' Hk' Hl.
    destruct sc' as [site' stores' [held' [|l' todo']|p|held' r] w'].
    + by eapply acquired_progress.
    + destruct (cs_scrapes _ _ _ Hcons _ _ Hk') as (_ & _ & _ & _ & _ & _ & Hst & _).
      pose proof (Hsorted _ _ Hk') as Hso. pose proof (Hbound _ _ Hk') as Hb. simpl in *.
      rewrite Hst in Hso, Hb. unfold read_locks in Hl. simpl in Hl.
      assert (l < l') as Hlt.
      { apply StronglySorted_app in Hso as [Hso _]. apply Hso; [by rewrite elem_of_reverse|].
        apply list_elem_of_here. }
      apply Forall_app in Hb as [_ Hb]. apply Forall_cons in Hb as [Hb _].
      eapply (IH (n - (l' - l))); [lia| |exact Hk']. intros k0 sc0 Hk0.
      apply (Forall_impl _ _ _ (Hbound _ _ Hk0)). intros l0. lia.
    + by eapply writing_progress.
    + unfold read_locks in Hl. simpl in Hl. destruct held' as [|l0 held'];
        [by apply not_elem_of_nil in Hl|by eapply releasing_progress].
  - eapply (step_scrape_progress1 k); [exact Hk| |].
    2: { eapply sc_lock; [exact Hk|]. unfold RLock. by rewrite Hw. }
    unfold sc_left. simpl. lia.
Qed.

Lemma scrape_progress k sc : lk_scrapes σ !! k = Some sc → 0 < sc_left sc → progress σ.
Proof.
  intros Hk Hleft. destruct sc as [site stores [held [|l todo]|p|[|l held] r] w].
  - by eapply acquired_progress.
  - eapply (acquiring_progress (S (max_list (mjoin (sc_stores <$> lk_scrapes σ))))); [|exact Hk].
    intros k' sc' Hk'. apply Forall_forall. intros l' Hl'.
    enough (l' ≤ max_list (mjoin (sc_stores <$> lk_scrapes σ))) by lia.
    apply max_list_elem_of_le, list_elem_of_join. exists (sc_stores sc'). split; [done|].
    apply list_elem_of_fmap. exists sc'. split; [done|]. by eapply list_elem_of_lookup_2.
  - by eapply writing_progress.
  - unfold sc_left in Hleft. simpl in Hleft. lia.
  - by eapply releasing_progress.
Qed.

Lemma reflector_progress i rf : lk_reflectors σ !! i = Some rf → 0 < rf_left rf → progress σ.
Proof.
  intros Hi Hleft. assert (∀ b i, rw_writer (mutex_of (lk_locks σ) (rf_store rf)) = Some (i, b) → progress σ)
    as Hblocked.
  { intros b i' Hw. eapply writer_progress; [|exact Hw]. intros k sc Hk Hl.
    apply (scrape_progress k sc Hk). unfold sc_left, read_locks in *.
    destruct (sc_phase sc) as [|p|[|l0 held] r]; simpl in *; try lia. by apply not_elem_of_nil in Hl. }
  destruct rf as [l [|[site op] ops] ph]; [unfold rf_left in Hleft; simpl in Hleft; lia|].
  destruct ph as [| |s]; simpl in Hblocked.
  - destruct (takes_lock op) eqn:Hop.
    + destruct (rw_writer (mutex_of (lk_locks σ) l)) as [[i' b]|] eqn:Hw; [by eapply Hblocked|].
      eapply (step_reflector_progress _ i); [exact Hi| |].
      2: { eapply rf_lock; [exact Hi|done|]. unfold announce. by rewrite Hw. }
      unfold rf_left. simpl. lia.
    + destruct (consistent_exist _ _ _ _ _ Hcons Hi) as [s Hs]. simpl in Hs.
      destruct (store_apply_covered site op s) as (r & s' & Happ & _); [by apply (sf_heap _ Hsafe l)|].
      eapply (step_reflector_progress _ i); [exact Hi| |by eapply rf_skip].
      unfold rf_left. simpl. lia.
  - apply (Hblocked false i), (cs_writers _ _ _ Hcons). by eexists.
  - by eapply inside_progress.
Qed.

Lemma some_progress : 0 < steps_left σ → progress σ.
Proof.
  intros Hleft. unfold steps_left in Hleft.
  destruct (decide (0 < sum_list_with rf_left (lk_reflectors σ))) as [Hrf|Hrf].
  - apply sum_list_positive in Hrf as (i & rf & Hi & Hrf). by eapply reflector_progress.
  - destruct (sum_list_positive sc_left (lk_scrapes σ)) as (k & sc & Hk & Hsc); [lia|].
    by eapply scrape_progress.
Qed.
End progress.

(** ** Properties *)

Section properties.
Context `{!SortSlice} `{!MapRange} `{!CEL} {Obj : Type} `{!KubeObject Obj} {W : Type} `{!IOWriter W}.
Context (heap : gmap nat StoreType) (rfs : list (nat * list (list nat * store_op Obj))).
Context (scs : list (list nat * list nat * W)).

(** The stores of the goroutines are there. *)
Definition present : Prop :=
  Forall (λ rf, is_Some (heap !! rf.1)) rfs ∧
  Forall (λ sc, Forall (λ l, is_Some (heap !! l)) sc.1.2) scs.

Lemma starting_consistent :
  present → consistent scs (starting heap rfs scs) (atomic_start heap rfs scs).
Proof.
  intros [Hrf Hsc]. unfold starting, atomic_start. constructor; simpl.
  - intros l i b. unfold mutex_of. rewrite lookup_empty. simpl. split; [done|].
    intros (rf & Hi & _ & Hph). apply list_lookup_fmap_Some in Hi as (? & -> & _). done.
  - intros l k. unfold mutex_of. rewrite lookup_empty. simpl. rewrite multiplicity_empty.
    rewrite list_lookup_fmap. by destruct (scs !! k).
  - intros l i. unfold mutex_of. by rewrite lookup_empty.
  - intros i rf (rf0 & -> & Hi)%list_lookup_fmap_Some. by apply (Forall_lookup_1 _ _ _ _ Hrf Hi).
  - intros k sc (sc0 & -> & Hk)%list_lookup_fmap_Some. by apply (Forall_lookup_1 _ _ _ _ Hsc Hk).
  - intros i rf (rf0 & -> & Hi)%list_lookup_fmap_Some Hph. done.
  - rewrite <- list_fmap_compose. symmetry. rewrite <- (list_fmap_id rfs) at 2.
    apply list_fmap_ext. by intros ? [] ?.
  - intros i rf s (rf0 & -> & Hi)%list_lookup_fmap_Some Hph. done.
  - done.
  - intros k sc (sc0 & -> & Hk)%list_lookup_fmap_Some. exists sc0, None. split; [done|].
    split; [|done]. apply lookup_replicate. split; [done|]. by eapply lookup_lt_Some.
Qed.

Lemma starting_safe :
  map_Forall (λ _ s, store_wf s ∧ store_covered s) heap → safe (atomic_start heap rfs scs).
Proof. intros Hh. split; [done|]. simpl. intros k o [[=] _]%lookup_replicate. Qed.

Lemma steps_left_none (σ : Locked Obj W) :
  steps_left σ = 0 →
  Forall (λ rf, rf_ops rf = []) (lk_reflectors σ) ∧
  Forall (λ sc, is_Some (returned sc)) (lk_scrapes σ).
Proof.
  unfold steps_left. intros Hs.
  assert (∀ {A} (f : A → nat) l i x, sum_list_with f l = 0 → l !! i = Some x → f x = 0) as Hzero.
  { intros A f l. induction l as [|y l IH]; intros [|i] x Hl Hi; simplify_eq/=; [lia|].
    apply (IH i); [lia|done]. }
  split; apply Forall_lookup; intros i x Hi.
  - apply (Hzero _ rf_left) in Hi; [|lia]. unfold rf_left in Hi.
    destruct x as [l [|op ops] ph]; [done|]. simpl in *. destruct ph; lia.
  - apply (Hzero _ sc_left) in Hi; [|lia]. unfold sc_left, returned in *.
    destruct x as [site stores [h todo|p|[|l h] r] w]; simpl in *; try lia. done.
Qed.

(** The stores that a scrape has yet to lock. *)
Definition to_lock (sc : Scrape W) : list nat :=
  match sc_phase sc with
  | Acquiring _ todo => todo
  | _ => []
  end.

(** The steps of the others. *)
Definition step_without (k : nat) (σ σ' : Locked Obj W) : Prop :=
  ∃ who, who ≠ AScrape k ∧ locked_step who σ σ'.

(** What the others cannot change while the scrape [k] holds the store of the
    waiting reflector [i]. *)
Definition stalled (k i l : nat) (sc : Scrape W) (rf : Reflecting Obj) (s : option StoreType)
    (blocked : list nat) (σ : Locked Obj W) : Prop :=
  lk_scrapes σ !! k = Some sc ∧ lk_reflectors σ !! i = Some rf ∧ lk_heap σ !! l = s ∧
  Forall (λ k', ∃ sc', lk_scrapes σ !! k' = Some sc' ∧ l ∈ to_lock sc') blocked.

Lemma stalled_reflector k i l sc rf s blocked h locks locks' rfs1 scs1 i0 rf0 :
  stalled k i l sc rf s blocked (MkLocked h locks rfs1 scs1) → i0 ≠ i →
  stalled k i l sc rf s blocked (MkLocked h locks' (<[i0 := rf0]> rfs1) scs1).
Proof. intros (? & ? & ? & ?) Hne. split_and!; try done. simpl. by rewrite list_lookup_insert_ne. Qed.

Lemma stalled_heap k i l sc rf s blocked h locks rfs1 scs1 l0 s0 :
  stalled k i l sc rf s blocked (MkLocked h locks rfs1 scs1) → l0 ≠ l →
  stalled k i l sc rf s blocked (MkLocked (<[l0 := s0]> h) locks rfs1 scs1).
Proof. intros (? & ? & ? & ?) Hne. split_and!; try done. simpl. by rewrite lookup_insert_ne. Qed.

Lemma stalled_other k i l sc rf s blocked h locks locks' rfs1 scs1 k0 sc0 sc1 :
  stalled k i l sc rf s blocked (MkLocked h locks rfs1 scs1) → k0 ≠ k → scs1 !! k0 = Some sc0 →
  (l ∈ to_lock sc0 → l ∈ to_lock sc1) →
  stalled k i l sc rf s blocked (MkLocked h locks' rfs1 (<[k0 := sc1]> scs1)).
Proof.
  intros (? & ? & ? & Hb) Hne Hk0 Hl. split_and!; try done; simpl in *.
  - by rewrite list_lookup_insert_ne.
  - apply (Forall_impl _ _ _ Hb). intros k' (sc' & Hk' & Hin). destruct (decide (k' = k0)) as [->|Hd].
    + exists sc1. rewrite list_lookup_insert_eq by by eapply lookup_lt_Some. split; [done|].
      apply Hl. by simplify_eq.
    + exists sc'. by rewrite list_lookup_insert_ne.
Qed.

Lemma stalled_step k i l sc rf s blocked σ σ' α :
  consistent scs σ α → l ∈ read_locks sc → rf_store rf = l → rf_phase rf = Waiting →
  step_without k σ σ' → stalled k i l sc rf s blocked σ → stalled k i l sc rf s blocked σ'.
Proof.
  intros Hc Hl Hst Hph (who & Hwho & Hstep) Hstalled. pose proof Hstalled as (Hk & Hi & _ & _).
  assert (rw_writer (mutex_of (lk_locks σ) l) = Some (i, false)) as Hw.
  { apply (cs_writers _ _ _ Hc). exists rf. by rewrite Hph. }
  assert (rw_readers (mutex_of (lk_locks σ) l) ≠ ∅) as Hreaders.
  { intros Hempty. pose proof (cs_readers _ _ _ Hc l k) as Hag.
    rewrite Hk, Hempty, multiplicity_empty in Hag. simpl in Hag.
    apply list_elem_of_In, (count_occ_In Nat.eq_dec) in Hl. lia. }
  assert (∀ j l' ops s', lk_reflectors σ !! j = Some (MkReflecting l' ops (Inside s')) → l' ≠ l) as Hin.
  { intros j l' ops s' Hj ->. enough (rw_writer (mutex_of (lk_locks σ) l) = Some (j, true)) by congruence.
    apply (cs_writers _ _ _ Hc). by eexists. }
  destruct Hstep; simpl in *.
  - eapply stalled_reflector; [exact Hstalled|]. intros ->. by simplify_eq.
  - eapply stalled_reflector; [exact Hstalled|]. intros ->. by simplify_eq.
  - eapply stalled_reflector; [exact Hstalled|]. intros ->. unfold acquire in *.
    case_decide as Hd; [|done]. destruct Hd as [_ Hempty]. by simplify_eq/=.
  - apply stalled_heap; [exact Hstalled|by eapply Hin].
  - eapply stalled_reflector; [apply stalled_heap; [exact Hstalled|by eapply Hin]|].
    intros ->. by simplify_eq.
  - eapply stalled_other; [exact Hstalled|congruence|done|]. unfold to_lock. simpl.
    intros [->|Hin']%elem_of_cons; [|done]. unfold RLock in *. by rewrite Hw in *.
  - eapply stalled_other; [exact Hstalled|congruence|done|]. intros Hno. by apply not_elem_of_nil in Hno.
  - eapply stalled_other; [exact Hstalled|congruence|done..].
  - eapply stalled_other; [exact Hstalled|congruence|done..].
  - eapply stalled_other; [exact Hstalled|congruence|done..].
Qed.

(** C13: A client that stops reading blocks every other one.  A scrape whose
    writes do not return holds the read locks of its stores; once the reflector
    of one of them waits for the lock, then, whatever the others do, that store
    is not changed, its reflector handles no further event, and no scrape that
    has yet to lock it returns. *)
Theorem stalled_scrape_blocks σ σ' k i l sc rf :
  present → rtc any_step (starting heap rfs scs) σ →
  lk_scrapes σ !! k = Some sc → l ∈ read_locks sc →
  lk_reflectors σ !! i = Some rf → rf_store rf = l → rf_phase rf = Waiting →
  rtc (step_without k) σ σ' →
  lk_heap σ' !! l = lk_heap σ !! l ∧ lk_reflectors σ' !! i = Some rf ∧
  ∀ k' sc', lk_scrapes σ !! k' = Some sc' → l ∈ to_lock sc' →
    ∃ sc'', lk_scrapes σ' !! k' = Some sc'' ∧ l ∈ to_lock sc'' ∧ returned sc'' = None.
Proof.
  intros Hp Hsteps Hk Hl Hi Hst Hph Hrun.
  destruct (simulation_steps scs _ _ _ Hsteps (starting_consistent Hp)) as (α & _ & Hc).
  assert (∀ blocked, stalled k i l sc rf (lk_heap σ !! l) blocked σ →
    stalled k i l sc rf (lk_heap σ !! l) blocked σ') as Hkeep.
  { intros blocked. generalize (lk_heap σ !! l). intros s. clear Hsteps Hk Hi. revert α Hc.
    induction Hrun as [|? ? ? Hstep _ IH]; intros α Hc Hs; [done|].
    pose proof (stalled_step _ _ _ _ _ _ _ _ _ _ Hc Hl Hst Hph Hstep Hs) as Hs1.
    destruct Hstep as (who & _ & Hstep). destruct (simulation _ _ _ _ _ Hstep Hc) as (α1 & _ & Hc1).
    by apply (IH α1). }
  destruct (Hkeep []) as (_ & Hi' & Hheap & _); [by split_and!|]. split; [done|]. split; [done|].
  intros k' sc' Hk' Hl'. destruct (Hkeep [k']) as (_ & _ & _ & Hb).
  { split_and!; try done. apply Forall_singleton. eauto. }
  apply Forall_singleton in Hb as (sc'' & Hk'' & Hl''). exists sc''. split; [done|]. split; [done|].
  unfold to_lock, returned in *. destruct (sc_phase sc'') as [| |]; [done|by apply not_elem_of_nil in Hl''..].
Qed.

(** C11: The locks make the operations of the reflectors and the scrapes atomic.
    Whatever the interleaving of their accesses, and whatever an operation
    leaves in its store before it is over, the state reached is one of the
    system in which each operation and each call of writeAllTo is one step: a
    scrape that has returned wrote what a single call on the stores of one
    moment writes, that moment is after its first lock and before its first
    write, and a store that no operation is in has the content of that system. *)
Theorem locked_refines σ :
  present → rtc any_step (starting heap rfs scs) σ →
  ∃ α, rtc (atomic_step scs) (atomic_start heap rfs scs) α ∧
    (∀ k sc, lk_scrapes σ !! k = Some sc →
       (∀ r, returned sc = Some r → at_results α !! k = Some (Some (Done r))) ∧
       (∀ held todo, sc_phase sc = Acquiring held todo → at_results α !! k = Some None)) ∧
    (∀ l, (∀ i rf s, lk_reflectors σ !! i = Some rf → rf_store rf = l → rf_phase rf ≠ Inside s) →
       at_heap α !! l = lk_heap σ !! l).
Proof.
  intros Hp Hsteps. destruct (simulation_steps scs _ _ _ Hsteps (starting_consistent Hp)) as (α & Hα & Hc).
  exists α. split; [done|]. split.
  - intros k sc Hk. destruct (cs_scrapes _ _ _ Hc _ _ Hk) as (orig & res & _ & Hres & _ & _ & Hok).
    unfold returned. split.
    + intros r Hr. repeat (case_match; simplify_eq/=). done.
    + intros held todo Hph. rewrite Hph in Hok. by destruct Hok as (_ & _ & ->).
  - intros l Hl. apply (cs_outside _ _ _ Hc). intros i (rf & Hi & Hst & Hph)%(cs_writers _ _ _ Hc).
    destruct (rf_phase rf) as [| |s] eqn:Hp'; try done. by apply (Hl i rf s).
Qed.

(** Every state that is reached leads to one in which all is done, when the
    stores of each scrape are in the order of the heap. *)
Lemma locked_run_finishes σ :
  present → map_Forall (λ _ s, store_wf s ∧ store_covered s) heap →
  Forall (λ sc, StronglySorted lt sc.1.2) scs →
  rtc any_step (starting heap rfs scs) σ →
  ∃ σ', rtc any_step σ σ' ∧
    Forall (λ rf, rf_ops rf = []) (lk_reflectors σ') ∧
    Forall (λ sc, is_Some (returned sc)) (lk_scrapes σ').
Proof.
  intros Hp Hheap Hsort Hsteps.
  assert (∃ α, consistent scs σ α ∧ safe α) as (α & Hc & Hsafe).
  { destruct (simulation_steps scs _ _ _ Hsteps (starting_consistent Hp)) as (α & Hα & Hc).
    exists α. split; [done|]. by apply (atomic_steps_safe scs _ _ Hα), starting_safe. }
  clear Hsteps. remember (steps_left σ) as n eqn:Hn. revert σ α Hn Hc Hsafe.
  induction n as [n IH] using lt_wf_ind. intros σ α -> Hc Hsafe.
  destruct (decide (steps_left σ = 0)) as [Hz|Hnz].
  { exists σ. split; [done|]. by apply steps_left_none. }
  destruct (some_progress scs σ α Hc Hsafe) as (σ1 & Hsteps1 & Hlt); [|lia|].
  { intros k sc Hk. destruct (cs_scrapes _ _ _ Hc _ _ Hk) as (orig & _ & Ho & _ & _ & -> & _).
    by apply (Forall_lookup_1 _ _ _ _ Hsort Ho). }
  destruct (simulation_steps scs _ _ _ Hsteps1 Hc) as (α1 & Hα1 & Hc1).
  destruct (IH _ Hlt _ _ eq_refl Hc1) as (σ' & Hsteps' & Hend); [by eapply atomic_steps_safe|].
  exists σ'. split; [by etrans|done].
Qed.
End properties.

(** C12: The locks are never in a deadlock.  In every reachable world, whatever
    operations its reflectors have to do and however many scrapes of its
    resources run at the same time, every state that their accesses lead to
    leads on to one in which every operation is done and every scrape has
    returned: the stores of a resource are locked in the order in which they
    were built. *)
Theorem locks_finish `{!SortSlice} `{!MapRange} `{!CEL} {Obj} `{!KubeObject Obj} {W} `{!IOWriter W}
    P w (rfs : list (nat * list (list nat * store_op Obj))) (scs : list (list nat * list nat * W)) σ :
  (∀ sc, P sc → store_covered sc) → reachable Obj P w →
  Forall (λ rf, rf.1 ∈ refl_store <$> w_reflectors w) rfs →
  Forall (λ sc, ∃ uid, w_stores w !! uid = Some sc.1.2) scs →
  rtc any_step (starting (w_heap w) rfs scs) σ →
  ∃ σ', rtc any_step σ σ' ∧
    Forall (λ rf, rf_ops rf = []) (lk_reflectors σ') ∧
    Forall (λ sc, is_Some (returned sc)) (lk_scrapes σ').
Proof.
  intros HP Hw Hrfs Hscs Hsteps. pose proof (reachable_ok P w Hw) as Hok.
  apply (locked_run_finishes (w_heap w) rfs scs); [| | |done].
  - split; [apply (Forall_impl _ _ _ Hrfs)|apply (Forall_impl _ _ _ Hscs)].
    + intros rf (r & -> & Hr)%list_elem_of_fmap.
      pose proof (ok_reflectors _ Hok) as Hall. rewrite Forall_forall in Hall. by apply Hall.
    + intros sc [uid Huid]. by apply (ok_stores _ Hok uid).
  - intros l s Hs. split; [by apply (ok_heap _ Hok l)|by apply (reachable_covered P w HP Hw l)].
  - apply (Forall_impl _ _ _ Hscs). intros sc [uid Huid]. by apply (reachable_sorted P w Hw uid).
Qed.

(** ** Witnesses

    A store, its reflector with one deletion to do, and two scrapes of it.  The
    first scrape has the lock when the reflector asks for it. *)
Module LockingExample.
Export SystemExample.

Definition heap : gmap nat StoreType := {[0 := filled]}.
Definition reflectors : list (nat * list (list nat * store_op object)) :=
  [(0, [([], OpDelete deployment)])].
Definition scrapes : list (list nat * list nat * string) := [([], [0], ""); ([], [0], "")].

Lemma all_present : present heap reflectors scrapes.
Proof. split; repeat constructor; by eexists. Qed.

Definition first_scrape : Scrape string := MkScrape [] [0] (Acquiring [0] []) "".
Definition waiting : Reflecting object := MkReflecting 0 [([], OpDelete deployment)] Waiting.

Definition contended : Locked object string :=
  MkLocked heap (<[0 := MkRWMutex {[+ 0 +]} (Some (0, false))]> {[0 := MkRWMutex {[+ 0 +]} None]})
    [waiting] [first_scrape; MkScrape [] [0] (Acquiring [] [0]) ""].

Lemma contended_reached : rtc any_step (starting heap reflectors scrapes) contended.
Proof.
  eapply rtc_l; [exists (AScrape 0); eapply (sc_lock 0 [] [0] [] 0 []); reflexivity|].
  apply rtc_once. exists (AReflector 0).
  apply (rf_lock 0 0 [] (OpDelete deployment) []); reflexivity.
Qed.

Lemma locked_refines_witness :
  ∃ α, rtc (atomic_step scrapes) (atomic_start heap reflectors scrapes) α ∧
    at_results α !! 0 = Some None ∧ at_heap α !! 0 = Some filled.
Proof.
  destruct (locked_refines heap reflectors scrapes contended all_present contended_reached)
    as (α & Hα & Hsc & Hl).
  exists α. split; [exact Hα|]. split.
  - by apply (proj2 (Hsc 0 first_scrape eq_refl) [0] []).
  - apply Hl. intros [|i] rf s; [|done]. by intros [= <-] _.
Defined.

Lemma locks_finish_witness :
  ∃ σ', rtc any_step (starting (w_heap fed) [(0, [([], OpAdd deployment)])] scrapes) σ' ∧
    Forall (λ rf : Reflecting object, rf_ops rf = []) (lk_reflectors σ') ∧
    Forall (λ sc, is_Some (returned sc)) (lk_scrapes σ').
Proof.
  apply (locks_finish store_covered fed [(0, [([], OpAdd deployment)])] scrapes).
  - done.
  - exact fed_reachable.
  - apply (bool_decide_unpack _). vm_compute. exact I.
  - repeat constructor; exists "uid-1"; vm_compute; reflexivity.
  - apply rtc_refl.
Defined.

Lemma stalled_scrape_blocks_witness :
  lk_heap contended !! 0 = Some filled ∧
  ∃ sc'', lk_scrapes contended !! 1 = Some sc'' ∧ 0 ∈ to_lock sc'' ∧ returned sc'' = None.
Proof.
  destruct (stalled_scrape_blocks heap reflectors scrapes contended contended 0 0 0 first_scrape waiting
    all_present contended_reached eq_refl ltac:(constructor) eq_refl eq_refl eq_refl (rtc_refl _ _))
    as (Hh & _ & Hb).
  split; [exact Hh|]. apply (Hb 1 (MkScrape [] [0] (Acquiring [] [0]) "") eq_refl). constructor.
Defined.
End LockingExample.
