(* ===== verification/Reflector.v ===== *)
(** * Reflectors ([internal/builder.go], [client-go/tools/cache/reflector.go])

    The reflector of a store lists, watches, and turns the events of the watch
    into operations on the store.  Its loops are a state machine here: the
    phase is the request that the goroutine sends next, or the stream that it
    reads; the bodies of the loops are the functions below, translated from
    [list], [watch] and [handleAnyWatch] as the builder sets them up: no
    resync, no watch-list, no retry of internal errors.  The cluster that the
    API server serves moves on its own. *)
From S2P Require Import Prelude GoStrings Strconv GoSort Values ApiMachinery Resolver Metric Family Store Types Builder System.

(** ** The reflector *)

(** [GroupVersion.String], and the object that [buildStore] gives the
    reflector for its kind. *)
Definition GroupVersion_String (group version : string) : string :=
  if decide (group = "") then version else group +:+ "/" +:+ version.

Definition wrapper (gvk : GroupVersionKind) : object :=
  [("apiVersion", Str (GroupVersion_String (gvk_Group gvk) (gvk_Version gvk)));
   ("kind", Str (gvk_Kind gvk))].

(** [getExpectedGVKFromObject]: [None] lets every event through. *)
Definition getExpectedGVKFromObject (obj : object) : option GroupVersionKind :=
  let gvk := object_gvk obj in
  if decide (gvk = GVK "" "" "") then None else Some gvk.

Definition expectedGVK (r : Reflector) : option GroupVersionKind :=
  getExpectedGVKFromObject (wrapper (refl_expected r)).

Definition GetResourceVersion (obj : object) : string :=
  getNestedString obj ["metadata"; "resourceVersion"].

(** What a reflector keeps: its store, with the number of operations it has
    done on it, which tells their sites apart, and its resource version. *)
Record RState : Type := MkRState {
  rs_store : StoreType;
  rs_ops : nat;
  rs_lastSyncResourceVersion : string;
  rs_isLastSyncResourceVersionUnavailable : bool;
}.

Definition new_RState (s : StoreType) : RState := MkRState s 0 "" false.

Definition setLastSyncResourceVersion (v : string) : M RState unit := modify (λ st,
  MkRState (rs_store st) (rs_ops st) v (rs_isLastSyncResourceVersionUnavailable st)).

Definition setIsLastSyncResourceVersionUnavailable (b : bool) : M RState unit := modify (λ st,
  MkRState (rs_store st) (rs_ops st) (rs_lastSyncResourceVersion st) b).

Definition relistResourceVersion (st : RState) : string :=
  if rs_isLastSyncResourceVersionUnavailable st then ""
  else if decide (rs_lastSyncResourceVersion st = "") then "0"
  else rs_lastSyncResourceVersion st.

(** The options that the reflector asks for; it also asks for a timeout and
    for bookmarks. *)
Definition options_at (resourceVersion : string) : ListOptions := {|
  lo_LabelSelector := ""; lo_FieldSelector := "";
  lo_ResourceVersionMatch := ""; lo_ResourceVersion := resourceVersion;
|}.

(** The error of a closure wraps its cause. *)
Definition cause (err : listwatch_error) : client_error :=
  match err with ErrListing _ _ e | ErrWatching _ _ e => e end.

Definition isExpiredError (err : client_error) : bool := IsResourceExpired err || IsGone err.

(** Only for the wrapped errors of the closures: the tests on the message of
    a bare status do not apply to them. *)
Definition isTooLargeResourceVersionError (err : listwatch_error) : bool :=
  HasStatusCause "ResourceVersionTooLarge" (cause err).

Definition isWatchErrorRetriable (err : client_error) : bool :=
  IsConnectionRefused err || IsTooManyRequests err.

(** [ShouldRetry] of the retries of internal errors, [elapsed] after the first
    one. *)
Definition ShouldRetry (maxRetryDuration elapsed : Z) : bool :=
  if (maxRetryDuration <=? 0)%Z then false else (elapsed <=? maxRetryDuration)%Z.

Definition MaxInternalErrorRetryDuration : Z := 0.

(** The errors that end [list] and [handleWatch]. *)
Inductive list_error : Type :=
| FailedToList (err : listwatch_error)
| UnableToSync (err : string).

Inductive watch_error : Type :=
| StopRequested
| VeryShortWatch
| FromServer (err : client_error).

(** What an iteration of the loop of [watch] comes to: another one, the end of
    [ListAndWatch], or a stream with the events it starts with. *)
Inductive next : Type :=
| Again
| Return
| Handle (events : list Event).

(** What an event comes to in the loop of [handleAnyWatch]: it is counted,
    skipped, or ends the loop. *)
Inductive handled : Type :=
| Counted
| Skipped
| Ended (err : watch_error).

Section reflector.
Context `{!SortSlice} `{!MapRange} `{!CEL}.

Definition store_do (op : store_op object) : M RState (result string unit) := λ st,
  match store_apply [rs_ops st] op (rs_store st) with
  | Done (r, s) =>
    (Done r, MkRState s (S (rs_ops st)) (rs_lastSyncResourceVersion st)
               (rs_isLastSyncResourceVersionUnavailable st))
  | Panicked p => (Panicked p, st)
  end.

(** [list]: a list with an expired or too recent version is tried once more,
    against the server as it is then. *)
Definition reflector_list (lw : ListWatch) (d d' : DynamicClient) : M RState (option list_error) :=
  st ← get;
  first ← mret (@ListFunc d lw (options_at (relistResourceVersion st)));
  answer ← match first with
    | Err err =>
      if isExpiredError (cause err) || isTooLargeResourceVersionError err then
        setIsLastSyncResourceVersionUnavailable true;;
        st ← get;
        mret (@ListFunc d' lw (options_at (relistResourceVersion st)))
      else mret first
    | Ok _ => mret first
    end;
  match answer with
  | Err err => mret (Some (FailedToList err))
  | Ok (items, resourceVersion) =>
    setIsLastSyncResourceVersionUnavailable false;;
    synced ← store_do (OpReplace items resourceVersion);
    match synced with
    | Err err => mret (Some (UnableToSync err))
    | Ok _ => setLastSyncResourceVersion resourceVersion;; mret None
    end
  end.

(** The start of an iteration of the loop of [watch]. *)
Definition watch_request (lw : ListWatch) (d : DynamicClient) : M RState next :=
  st ← get;
  match @WatchFunc d lw (options_at (rs_lastSyncResourceVersion st)) with
  | Ok events => mret (Handle events)
  | Err err => mret (if isWatchErrorRetriable (cause err) then Again else Return)
  end.

(** An iteration of the loop of [handleAnyWatch], for an event that was
    received.  An error of the store is only reported. *)
Definition handle_event (expected : option GroupVersionKind) (event : Event) : M RState handled :=
  if decide (ev_Type event = Error) then mret (Ended (FromServer (FromObject (ev_Object event))))
  else
    match ev_Object event with
    | Unstructured o =>
      if bool_decide (expected ≠ None) && bool_decide (expected ≠ Some (object_gvk o)) then
        mret Skipped
      else
        (if decide (ev_Type event = Added) then store_do (OpAdd o);; mret tt
         else if decide (ev_Type event = Modified) then store_do (OpUpdate o);; mret tt
         else if decide (ev_Type event = Deleted) then store_do (OpDelete o);; mret tt
         else mret tt);;
        setLastSyncResourceVersion (GetResourceVersion o);;
        mret Counted
    | _ => mret Skipped
    end.

(** The end of [handleAnyWatch] when its stream is closed, within a second of
    the request or later. *)
Definition stream_closed (short : bool) (eventCount : nat) : option watch_error :=
  if short && bool_decide (eventCount = 0) then Some VeryShortWatch else None.

(** The rest of the iteration of [watch], after [handleWatch] returned. *)
Definition after_watch (elapsed : Z) (err : option watch_error) : next :=
  match err with
  | None => Again
  | Some (FromServer err) =>
    if isExpiredError err then Return
    else if IsTooManyRequests err then Again
    else if IsInternalError err && ShouldRetry MaxInternalErrorRetryDuration elapsed then Again
    else Return
  | Some _ => Return
  end.

(** ** The reflector and the cluster *)

(** The objects that the requests of the reflector select, by UID, and the
    UIDs that were ever given: one is never given twice. *)
Record Cluster : Type := MkCluster {
  cl_objects : gmap string object;
  cl_used : gset string;
}.

(** The events that a server sends before those of the changes to come. *)
Definition synthetic (c : Cluster) : list Event :=
  (λ e, MkEvent Added (Unstructured e.2)) <$> map_to_list (cl_objects c).

(** The options of a request as they reach the server. *)
Definition internal_options (watch : bool) (lo : ListOptions) : InternalListOptions :=
  MkInternal watch (lo_ResourceVersion lo) (lo_ResourceVersionMatch lo) "" None.

(** What is documented of the answer to a watch: a request that breaks a rule
    is invalid, and a stream without a resource version starts with the
    current state ([ListOptions] in [meta/v1/types.go]). *)
Record serves (isWatchListFeatureEnabled : bool) (c : Cluster) (lw : ListWatch)
    (d : DynamicClient) : Prop := {
  serves_invalid :
    admitted isWatchListFeatureEnabled (internal_options true (lw_options lw)) ≠ [] →
    ∃ message causes, @dyn_Watch d (lw_gvr lw) (lw_options lw) =
      Err (StatusError 422 "Invalid" message causes);
  serves_synthetic events :
    lo_ResourceVersion (lw_options lw) = "" →
    @dyn_Watch d (lw_gvr lw) (lw_options lw) = Ok events →
    events ≡ₚ synthetic c;
}.

(** Where [Run] is: about to list, about to watch, in [handleAnyWatch] with
    the events that wait and the count of those handled, or at its end. *)
Inductive phase : Type :=
| Listing
| Watching
| Streaming (pending : list Event) (eventCount : nat)
| Stopped.

Record Sys : Type := MkSys {
  sys_cluster : Cluster;
  sys_phase : phase;
  sys_refl : RState;
}.

(** An event of the server reaches the reflector if it is streaming. *)
Definition push (event : Event) (ph : phase) : phase :=
  match ph with
  | Streaming pending n => Streaming (pending ++ [event]) n
  | ph => ph
  end.

Definition after_list (err : option list_error) : phase :=
  match err with None => Watching | Some _ => Listing end.

Definition go_next (n : next) : phase :=
  match n with
  | Again => Watching
  | Return => Listing
  | Handle events => Streaming events 0
  end.

Definition after_event (elapsed : Z) (pending : list Event) (n : nat) (h : handled) : phase :=
  match h with
  | Counted => Streaming pending (S n)
  | Skipped => Streaming pending n
  | Ended err => go_next (after_watch elapsed (Some err))
  end.

Context (feature : bool) (served : GroupVersionKind) (r : Reflector).

(** What the server sends of its own in a stream. *)
Definition control_event (event : Event) : Prop :=
  ev_Type event = Bookmark ∨ ev_Type event = Error.

(** The steps of the cluster. *)
Inductive cluster_step : Sys → Sys → Prop :=
| step_create uid o c ph st :
  uid ∉ cl_used c → GetUID o = uid → object_gvk o = served →
  cluster_step (MkSys c ph st)
    (MkSys (MkCluster (<[uid := o]> (cl_objects c)) ({[uid]} ∪ cl_used c))
       (push (MkEvent Added (Unstructured o)) ph) st)
| step_modify uid o c ph st :
  is_Some (cl_objects c !! uid) → GetUID o = uid → object_gvk o = served →
  cluster_step (MkSys c ph st)
    (MkSys (MkCluster (<[uid := o]> (cl_objects c)) (cl_used c))
       (push (MkEvent Modified (Unstructured o)) ph) st)
| step_delete uid o c ph st :
  is_Some (cl_objects c !! uid) → GetUID o = uid → object_gvk o = served →
  cluster_step (MkSys c ph st)
    (MkSys (MkCluster (delete uid (cl_objects c)) (cl_used c))
       (push (MkEvent Deleted (Unstructured o)) ph) st).

(** The steps of a stream that is open. *)
Inductive stream_step : Sys → Sys → Prop :=
| step_control event c pending n st :
  control_event event →
  stream_step (MkSys c (Streaming pending n) st) (MkSys c (Streaming (pending ++ [event]) n) st)
| step_event elapsed event c pending n st h st' :
  handle_event (expectedGVK r) event st = (Done h, st') →
  stream_step (MkSys c (Streaming (event :: pending) n) st)
    (MkSys c (after_event elapsed pending n h) st').

(** The other steps of the reflector. *)
Inductive request_step : Sys → Sys → Prop :=
| step_list d d' c st err st' :
  reflector_list (refl_listerwatcher r) d d' st = (Done err, st') →
  request_step (MkSys c Listing st) (MkSys c (after_list err) st')
| step_watch d c st n st' :
  serves feature c (refl_listerwatcher r) d →
  watch_request (refl_listerwatcher r) d st = (Done n, st') →
  request_step (MkSys c Watching st) (MkSys c (go_next n) st')
| step_close short elapsed c pending n st :
  request_step (MkSys c (Streaming pending n) st)
    (MkSys c (go_next (after_watch elapsed (stream_closed short n))) st)
| step_stop c ph st :
  request_step (MkSys c ph st) (MkSys c Stopped st).

Definition sys_step (σ σ' : Sys) : Prop :=
  cluster_step σ σ' ∨ stream_step σ σ' ∨ request_step σ σ'.

(** The reflector of a new store starts on a cluster as it is. *)
Definition sys_init (s : StoreType) (σ : Sys) : Prop :=
  σ = MkSys (sys_cluster σ) Listing (new_RState s) ∧
  store_metrics s = ∅ ∧
  map_Forall (λ uid o, GetUID o = uid ∧ object_gvk o = served ∧ uid ∈ cl_used (sys_cluster σ))
    (cl_objects (sys_cluster σ)).

Definition sys_reachable (s : StoreType) (σ : Sys) : Prop :=
  ∃ σ0, sys_init s σ0 ∧ rtc sys_step σ0 σ.
End reflector.

(** ** What the store shows *)

(** A text of [o], in the store that started as [s0]: that of its families at
    some stage of their growth. *)
Definition text_of `{!SortSlice} `{!MapRange} `{!CEL} (s0 : StoreType) (o : object)
    (texts : list string) : Prop :=
  ∃ k site, texts =
    object_texts (set_store ∅ (Nat.iter k (fmap (grow s0)) (store_Families s0)) s0) o site.

(** The store has the texts of the objects of [seen], one for each UID. *)
Definition shows `{!SortSlice} `{!MapRange} `{!CEL} (s0 : StoreType) (st : RState)
    (seen : gmap string object) : Prop :=
  (∃ k, rs_store st = set_store (store_metrics (rs_store st))
          (Nat.iter k (fmap (grow s0)) (store_Families s0)) s0) ∧
  ∀ uid, option_Forall2 (text_of s0) (seen !! uid) (store_metrics (rs_store st) !! uid).

(** The objects that events leave. *)
Definition apply_event (event : Event) (seen : gmap string object) : gmap string object :=
  match ev_Object event with
  | Unstructured o =>
    if decide (ev_Type event = Added ∨ ev_Type event = Modified) then <[GetUID o := o]> seen
    else if decide (ev_Type event = Deleted) then delete (GetUID o) seen
    else seen
  | _ => seen
  end.

Definition replay (events : list Event) (seen : gmap string object) : gmap string object :=
  foldl (λ seen event, apply_event event seen) seen events.

(** The reflector takes the kind of the objects that are served for the one
    of its configuration. *)
Definition accepts (r : Reflector) (served : GroupVersionKind) : Prop :=
  expectedGVK r = None ∨ expectedGVK r = Some served.

#[export] Instance accepts_dec r served : Decision (accepts r served).
Proof. unfold accepts. apply _. Defined.

(** The event of a change of the object [uid]. *)
Definition change_of (uid : string) (event : Event) : Prop :=
  ∃ o, ev_Object event = Unstructured o ∧ GetUID o = uid ∧
    (ev_Type event = Added ∨ ev_Type event = Modified ∨ ev_Type event = Deleted).

Definition good_event (served : GroupVersionKind) (used : gset string) (event : Event) : Prop :=
  control_event event ∨
  ∃ uid o, ev_Object event = Unstructured o ∧ GetUID o = uid ∧ uid ∈ used ∧
    object_gvk o = served ∧
    (ev_Type event = Added ∨ ev_Type event = Modified ∨ ev_Type event = Deleted).

Definition cluster_ok (served : GroupVersionKind) (c : Cluster) : Prop :=
  map_Forall (λ uid o, GetUID o = uid ∧ object_gvk o = served ∧ uid ∈ cl_used c) (cl_objects c).

(** ** Lemmas: events *)

Lemma control_apply event seen : control_event event → apply_event event seen = seen.
Proof.
  intros Hc. unfold apply_event. destruct (ev_Object event); [|done..].
  destruct Hc as [-> | ->]; by rewrite !decide_False by (intros []; done || done).
Qed.

Lemma replay_snoc events event seen :
  replay (events ++ [event]) seen = apply_event event (replay events seen).
Proof. unfold replay. by rewrite foldl_app. Qed.

(** The synthetic events of a map of objects, in any order, put them in. *)
Lemma replay_added (l : list (string * object)) seen :
  NoDup l.*1 → Forall (λ e, GetUID e.2 = e.1) l →
  replay ((λ e, MkEvent Added (Unstructured e.2)) <$> l) seen = list_to_map l ∪ seen.
Proof.
  revert seen. induction l as [|[uid o] l IH]; intros seen Hnd Hl.
  { simpl. by rewrite (left_id_L ∅ (∪)). }
  apply NoDup_cons in Hnd as [Hu Hnd]. apply Forall_cons in Hl as [Huid Hl]. simpl in *.
  unfold replay in *. simpl. rewrite IH by done. unfold apply_event at 1. simpl.
  rewrite Huid, <- insert_union_l.
  rewrite <- insert_union_r by (by apply not_elem_of_list_to_map_1). done.
Qed.

Lemma synthetic_Permutation c events :
  events ≡ₚ synthetic c →
  ∃ l, events = (λ e, MkEvent Added (Unstructured e.2)) <$> l ∧ l ≡ₚ map_to_list (cl_objects c).
Proof.
  intros (l & -> & Hp)%Permutation.Permutation_map_inv. by exists l.
Qed.

Lemma replay_synthetic served c events seen :
  cluster_ok served c → events ≡ₚ synthetic c →
  replay events seen = cl_objects c ∪ seen.
Proof.
  intros Hok (l & -> & Hp)%synthetic_Permutation.
  assert (NoDup l.*1) as Hnd by by rewrite Hp; apply NoDup_fst_map_to_list.
  rewrite replay_added; [|done|].
  - f_equal. rewrite (list_to_map_proper l (map_to_list (cl_objects c))) by done.
    apply list_to_map_to_list.
  - rewrite Hp. apply Forall_forall. intros [uid o] He%elem_of_map_to_list.
    by apply (Hok _ _ He).
Qed.

Lemma synthetic_good served c events :
  cluster_ok served c → events ≡ₚ synthetic c → Forall (good_event served (cl_used c)) events.
Proof.
  intros Hok Hp. rewrite Hp. apply Forall_fmap, Forall_forall.
  intros [uid o] He%elem_of_map_to_list. destruct (Hok _ _ He) as (Hu & Hg & Hin).
  right. exists uid, o. split_and!; [done..|by left].
Qed.

Lemma good_event_mono served used used' event :
  used ⊆ used' → good_event served used event → good_event served used' event.
Proof.
  intros Hsub [Hc|(uid & o & Ho & Hu & Hin & Hrest)]; [by left|].
  right. exists uid, o. split_and!; auto; apply Hrest.
Qed.

(** ** Lemmas: one event *)

Section steps.
Context `{!SortSlice} `{!MapRange} `{!CEL}.

Lemma shows_dom s0 st seen uid :
  shows s0 st seen → is_Some (seen !! uid) ↔ is_Some (store_metrics (rs_store st) !! uid).
Proof.
  intros [_ Hs]. specialize (Hs uid). by inversion Hs.
Qed.

Lemma grow_iter_covered s k fs :
  length (store_LabelValues s) <= length (store_LabelKeys s) →
  Forall family_covered fs → Forall family_covered (Nat.iter k (fmap (grow s)) fs).
Proof.
  intros Hs Hf. induction k as [|k IH]; [done|]. apply Forall_fmap, (Forall_impl _ _ _ IH).
  intros f. by apply grow_covered.
Qed.

Lemma shows_covered s0 st seen :
  store_covered s0 → shows s0 st seen → store_covered (rs_store st).
Proof.
  intros Hc [[k ->] _]. apply set_store_covered; [done|]. by apply grow_iter_covered; apply Hc.
Qed.

Lemma option_Forall2_insert {A B} (R : A → B → Prop) (m : gmap string A) (m' : gmap string B)
    k x y :
  R x y → (∀ i, option_Forall2 R (m !! i) (m' !! i)) →
  ∀ i, option_Forall2 R (<[k := x]> m !! i) (<[k := y]> m' !! i).
Proof.
  intros HR Hm i. destruct (decide (k = i)) as [<-|].
  - rewrite !lookup_insert_eq. by constructor.
  - by rewrite !lookup_insert_ne.
Qed.

Lemma option_Forall2_delete {A B} (R : A → B → Prop) (m : gmap string A) (m' : gmap string B) k :
  (∀ i, option_Forall2 R (m !! i) (m' !! i)) →
  ∀ i, option_Forall2 R (delete k m !! i) (delete k m' !! i).
Proof.
  intros Hm i. destruct (decide (k = i)) as [<-|].
  - rewrite !lookup_delete_eq. constructor.
  - by rewrite !lookup_delete_ne.
Qed.

(** An addition or an update puts the object in; a deletion takes it out. *)
Lemma store_do_add s0 st seen o :
  store_covered s0 → shows s0 st seen →
  ∃ st', store_do (OpAdd o) st = (Done (Ok tt), st') ∧ shows s0 st' (<[GetUID o := o]> seen) ∧
    store_Families (rs_store st') = grow s0 <$> store_Families (rs_store st).
Proof.
  intros Hc Hsh. pose proof (shows_covered _ _ _ Hc Hsh) as Hcst.
  destruct st as [s n rv u], Hsh as [[k Hst] Hs]. simpl in *.
  unfold store_do. simpl. rewrite (Add_Done (Obj := object) [n] o s o Hcst) by reflexivity.
  eexists. split; [done|]. simpl. rewrite Hst. split; [|done]. split.
  - exists (S k). done.
  - simpl. apply option_Forall2_insert; [|by rewrite Hst in Hs]. by exists k, [n].
Qed.

Lemma store_do_delete s0 st seen o :
  shows s0 st seen →
  ∃ st', store_do (OpDelete o) st = (Done (Ok tt), st') ∧ shows s0 st' (delete (GetUID o) seen) ∧
    store_Families (rs_store st') = store_Families (rs_store st).
Proof.
  destruct st as [s n rv u]. intros [[k Hst] Hs]. simpl in *. eexists. split; [done|]. simpl.
  split; [|done]. split.
  - exists k. simpl. by rewrite Hst.
  - by apply option_Forall2_delete.
Qed.

(** The end of an iteration that did [op] on the store. *)
Lemma counted op v st res st1 :
  store_do op st = (Done res, st1) →
  ∃ st', ((store_do op;; mret tt);; setLastSyncResourceVersion v;; mret Counted) st =
    (Done Counted, st') ∧ rs_store st' = rs_store st1.
Proof.
  intros Hop. unfold mbind, M_bind at 1. unfold mbind, M_bind at 1. rewrite Hop. by eexists.
Qed.

Lemma shows_store s0 st st' seen :
  rs_store st' = rs_store st → shows s0 st seen → shows s0 st' seen.
Proof. unfold shows. by intros ->. Qed.

(** The kind of change of an event, as the number of additions it makes. *)
Definition additions (events : list Event) : nat :=
  length (filter (λ event, ev_Type event = Added ∨ ev_Type event = Modified) events).

Lemma additions_cons event events :
  additions (event :: events) = additions [event] + additions events.
Proof. unfold additions. rewrite !filter_cons. by case_decide. Qed.

(** An event is handled without a panic, and the store shows what it leaves. *)
Lemma handle_event_shows served r used s0 st seen event :
  store_covered s0 → accepts r served → good_event served used event → shows s0 st seen →
  ∃ h st', handle_event (expectedGVK r) event st = (Done h, st') ∧
    shows s0 st' (apply_event event seen) ∧
    (¬ control_event event → h = Counted ∧
      store_Families (rs_store st') =
        Nat.iter (additions [event]) (fmap (grow s0)) (store_Families (rs_store st))).
Proof.
  intros Hc Hacc Hgood Hs. destruct (decide (ev_Type event = Error)) as [He|He].
  { exists (Ended (FromServer (FromObject (ev_Object event)))), st. unfold handle_event.
    rewrite decide_True by done. split; [done|].
    rewrite control_apply by by right. split; [done|]. intros []. by right. }
  unfold handle_event. rewrite decide_False by done.
  destruct Hgood as [[Hb|]|(uid & o & Ho & Hu & _ & Hg & Ht)]; [|done|].
  - rewrite control_apply by by left. rewrite Hb.
    destruct (ev_Object event) as [o| |];
      [destruct (_ && _)|..]; eexists _, _; (split; [done|]); (split; [done|]);
      intros []; by left.
  - rewrite Ho. replace (_ && _) with false.
    2:{ symmetry. apply andb_false_iff. destruct Hacc as [-> | ->]; [left|right].
        - by rewrite bool_decide_eq_false_2 by auto.
        - rewrite Hg. by rewrite bool_decide_eq_false_2 by auto. }
    destruct event as [t eo]. simpl in *. subst eo uid. unfold apply_event, additions.
    destruct Ht as [-> | [-> | ->]].
    + destruct (store_do_add s0 st seen o Hc Hs) as (st1 & Hop & Hs1 & Hf).
      destruct (counted _ (GetResourceVersion o) _ _ _ Hop) as (st' & Hrun & Heq).
      exists Counted, st'. split; [exact Hrun|]. split; [by apply (shows_store _ st1)|].
      intros _. by rewrite Heq.
    + destruct (store_do_add s0 st seen o Hc Hs) as (st1 & Hop & Hs1 & Hf).
      destruct (counted (OpUpdate o) (GetResourceVersion o) _ _ _ Hop) as (st' & Hrun & Heq).
      exists Counted, st'. split; [exact Hrun|]. split; [by apply (shows_store _ st1)|].
      intros _. by rewrite Heq.
    + destruct (store_do_delete s0 st seen o Hs) as (st1 & Hop & Hs1 & Hf).
      destruct (counted (OpDelete o) (GetResourceVersion o) _ _ _ Hop) as (st' & Hrun & Heq).
      exists Counted, st'. split; [exact Hrun|]. split; [by apply (shows_store _ st1)|].
      intros _. by rewrite Heq.
Qed.
(** ** Lemmas: the invariant *)

(** The store shows [seen], and all of it was once given a UID; when the events
    that wait are handled it will show the objects of the cluster and [stale],
    whose objects are gone. *)
Record sys_inv (served : GroupVersionKind) (s0 : StoreType) (stale seen : gmap string object)
    (σ : Sys) : Prop := {
  inv_shows : shows s0 (sys_refl σ) seen;
  inv_cluster : cluster_ok served (sys_cluster σ);
  inv_used : dom seen ⊆ cl_used (sys_cluster σ);
  inv_stream pending n : sys_phase σ = Streaming pending n →
    Forall (good_event served (cl_used (sys_cluster σ))) pending ∧
    replay pending seen = cl_objects (sys_cluster σ) ∪ stale ∧
    stale ##ₘ cl_objects (sys_cluster σ) ∧ dom stale ⊆ cl_used (sys_cluster σ);
}.

Context (feature : bool) (served : GroupVersionKind) (r : Reflector) (s0 : StoreType).
Hypothesis covered : store_covered s0.
Hypothesis kinds : accepts r served.

Lemma push_Streaming event ph pending n :
  push event ph = Streaming pending n →
  ∃ pending0, ph = Streaming pending0 n ∧ pending = pending0 ++ [event].
Proof. destruct ph; simpl; [done..| |done]. intros [= <- <-]. eauto. Qed.

(** A change that is sent in a stream: the events stay good, and are replayed
    to the objects that the change leaves. *)
Lemma pushed used used' objects objects' stale seen pending uid t o :
  used ⊆ used' → uid ∈ used' → GetUID o = uid → object_gvk o = served →
  t = Added ∨ t = Modified ∨ t = Deleted →
  Forall (good_event served used) pending → replay pending seen = objects ∪ stale →
  apply_event (MkEvent t (Unstructured o)) (objects ∪ stale) = objects' ∪ stale →
  Forall (good_event served used') (pending ++ [MkEvent t (Unstructured o)]) ∧
  replay (pending ++ [MkEvent t (Unstructured o)]) seen = objects' ∪ stale.
Proof.
  intros Hsub Hin Huid Hg Ht Hgood Hr Ha. split; [|by rewrite replay_snoc, Hr].
  apply Forall_app. split.
  - apply (Forall_impl _ _ _ Hgood). intros event. by apply good_event_mono.
  - constructor; [|done]. right. by exists uid, o.
Qed.

Lemma cluster_step_inv stale seen σ σ' :
  cluster_step served σ σ' → sys_inv served s0 stale seen σ →
  sys_inv served s0 stale seen σ' ∧ sys_refl σ' = sys_refl σ.
Proof.
  intros Hstep [Hs Hc Hu Hst].
  destruct Hstep as [uid o c ph st Hfresh Huid Hg|uid o c ph st [o' Ho'] Huid Hg
                    |uid o c ph st [o' Ho'] Huid Hg];
    simpl in *; (split; [|done]); split; simpl; try done.
  - apply map_Forall_insert_2; [set_solver|].
    apply (map_Forall_impl _ _ _ Hc). set_solver.
  - set_solver.
  - intros pending n (pending0 & -> & ->)%push_Streaming.
    destruct (Hst _ _ eq_refl) as (Hgood & Hr & Hd & Hsu). apply and_assoc. split; [|split].
    + apply (pushed (cl_used c) _ (cl_objects c) _ _ _ _ uid);
        [set_solver|set_solver|done|done|by left|done|done|].
      unfold apply_event. simpl. rewrite Huid. apply insert_union_l.
    + apply map_disjoint_insert_r_2; [|done]. apply not_elem_of_dom. set_solver.
    + set_solver.
  - apply map_Forall_insert_2; [|done]. split_and!; [done..|apply (Hc _ _ Ho')].
  - intros pending n (pending0 & -> & ->)%push_Streaming.
    destruct (Hst _ _ eq_refl) as (Hgood & Hr & Hd & Hsu). apply and_assoc. split; [|split].
    + apply (pushed (cl_used c) _ (cl_objects c) _ _ _ _ uid);
        [done|apply (Hc _ _ Ho')|done|done|by right; left|done|done|].
      unfold apply_event. simpl. rewrite Huid. apply insert_union_l.
    + apply map_disjoint_insert_r_2; [|done]. by eapply map_disjoint_Some_r.
    + done.
  - by apply map_Forall_delete.
  - intros pending n (pending0 & -> & ->)%push_Streaming.
    destruct (Hst _ _ eq_refl) as (Hgood & Hr & Hd & Hsu). apply and_assoc. split; [|split].
    + apply (pushed (cl_used c) _ (cl_objects c) _ _ _ _ uid);
        [done|apply (Hc _ _ Ho')|done|done|by right; right|done|done|].
      unfold apply_event. simpl. rewrite Huid, delete_union.
      f_equal. apply delete_id. by eapply map_disjoint_Some_r.
    + by apply map_disjoint_delete_r.
    + done.
Qed.

Lemma apply_event_dom used event seen :
  good_event served used event → dom seen ⊆ used → dom (apply_event event seen) ⊆ used.
Proof.
  intros Hgood Hu. destruct Hgood as [Hc|(uid & o & Ho & Huid & Hin & _ & Ht)].
  { by rewrite control_apply. }
  unfold apply_event. rewrite Ho. repeat case_decide; set_solver.
Qed.

Lemma go_next_after_watch elapsed err pending n :
  go_next (after_watch elapsed err) ≠ Streaming pending n.
Proof.
  destruct err as [[]|]; [done..| |done]. simpl. by repeat case_match.
Qed.

Lemma stream_step_inv stale seen σ σ' :
  stream_step r σ σ' → sys_inv served s0 stale seen σ →
  (∃ seen', sys_inv served s0 stale seen' σ') ∧ sys_cluster σ' = sys_cluster σ.
Proof.
  intros Hstep [Hs Hc Hu Hst].
  destruct Hstep as [event c pending n st Hev|elapsed event c pending n st h st' Hh];
    simpl in *; (split; [|done]);
    destruct (Hst _ _ eq_refl) as (Hgood & Hr & Hd & Hsu).
  - exists seen. split; simpl; [done..|]. intros ? ? [= <- <-]. split_and!; [|..|done|done].
    + apply Forall_app. split; [done|]. constructor; [by left|done].
    + by rewrite replay_snoc, control_apply.
  - apply Forall_cons in Hgood as [Hev Hgood].
    destruct (handle_event_shows served r (cl_used c) s0 st seen event)
      as (h' & st'' & Hh' & Hs' & _); [done..|].
    rewrite Hh in Hh'. injection Hh' as <- <-. exists (apply_event event seen).
    split; simpl; [done..|by apply apply_event_dom|].
    intros pending' n' Hph. assert (pending' = pending) as ->; [|done].
    destruct h as [| |err]; [by injection Hph..|]. by apply go_next_after_watch in Hph.
Qed.

(** Listing does not touch the contents of the store. *)
Lemma reflector_list_store lw d d' st err st' :
  reflector_list lw d d' st = (Done err, st') → rs_store st' = rs_store st.
Proof.
  unfold reflector_list, mbind, M_bind, get, mret, M_ret. simpl.
  destruct (@ListFunc d lw _) as [[items rv]|e]; simpl.
  { by intros [= _ <-]. }
  destruct (_ || _); simpl; [|by intros [= _ <-]].
  destruct (@ListFunc d' lw _) as [[items rv]|e']; simpl; by intros [= _ <-].
Qed.

Lemma watch_request_inv lw d st n st' :
  watch_request lw d st = (Done n, st') →
  st' = st ∧ match n with
             | Handle events => @dyn_Watch d (lw_gvr lw) (lw_options lw) = Ok events
             | _ => True
             end.
Proof.
  unfold watch_request, WatchFunc, mbind, M_bind, get, mret, M_ret.
  destruct (@dyn_Watch d _ _) as [events|e].
  - by intros [= <- <-].
  - intros [= <- <-]. split; [done|]. by destruct (isWatchErrorRetriable _).
Qed.

(** A request keeps what the store shows; a stream that opens will show the
    objects of the cluster over what the store showed. *)
Lemma request_step_inv stale seen σ σ' :
  lo_ResourceVersion (lw_options (refl_listerwatcher r)) = "" →
  request_step feature r σ σ' → sys_inv served s0 stale seen σ →
  sys_inv served s0 (seen ∖ cl_objects (sys_cluster σ)) seen σ' ∧
  sys_cluster σ' = sys_cluster σ.
Proof.
  intros Hrv Hstep [Hs Hc Hu Hst].
  destruct Hstep as [d d' c st err st' Hl|d c st n st' Hserve Hw|short elapsed c pending n st|c ph st];
    cbn [sys_cluster sys_phase sys_refl] in *; (split; [|done]).
  - split; simpl; [|done..|].
    + eapply shows_store; [exact (reflector_list_store _ _ _ _ _ _ Hl)|done].
    + by destruct err.
  - apply watch_request_inv in Hw as [-> Hev]. split; simpl; [done..|].
    destruct n as [| |events]; [done..|]. intros pending n [= <- <-].
    pose proof (serves_synthetic _ _ _ _ Hserve events Hrv Hev) as Hp. split_and!.
    + by apply (synthetic_good served c).
    + rewrite (replay_synthetic served c) by done. apply map_eq. intros uid.
      rewrite !lookup_union, lookup_difference.
      destruct (cl_objects c !! uid); [by destruct (seen !! uid)|]. done.
    + apply map_disjoint_difference_l1. done.
    + etrans; [|exact Hu]. rewrite dom_difference_L. set_solver.
  - split; simpl; [done..|]. intros ? ? Hph%go_next_after_watch. done.
  - by split; simpl.
Qed.

(** A connection: once the stream is open, the steps of the cluster and of the
    stream. *)
Definition connected (σ σ' : Sys) : Prop := cluster_step served σ σ' ∨ stream_step r σ σ'.

Lemma connected_inv stale seen σ σ' :
  rtc connected σ σ' → sys_inv served s0 stale seen σ →
  ∃ seen', sys_inv served s0 stale seen' σ'.
Proof.
  intros Hr. revert seen. induction Hr as [σ|σ σ1 σ' [Hstep|Hstep] _ IH]; intros seen Hi.
  - by exists seen.
  - apply (IH seen). by apply (cluster_step_inv stale seen σ).
  - destruct (stream_step_inv stale seen _ _ Hstep Hi) as [[seen' ?] _]. by apply (IH seen').
Qed.

Hypothesis no_version : lo_ResourceVersion (lw_options (refl_listerwatcher r)) = "".

Lemma sys_step_inv σ σ' :
  sys_step feature served r σ σ' →
  (∃ stale seen, sys_inv served s0 stale seen σ) → ∃ stale seen, sys_inv served s0 stale seen σ'.
Proof.
  intros [Hstep|[Hstep|Hstep]] (stale & seen & Hi).
  - exists stale, seen. by apply (cluster_step_inv stale seen σ).
  - destruct (stream_step_inv stale seen _ _ Hstep Hi) as [[seen' ?] _]. by exists stale, seen'.
  - destruct (request_step_inv stale seen _ _ no_version Hstep Hi) as [? _]. by eexists _, seen.
Qed.

Lemma sys_init_inv σ : sys_init served s0 σ → sys_inv served s0 ∅ ∅ σ.
Proof.
  intros (-> & Hm & Hc). split; simpl; [|done|set_solver|done]. split; simpl.
  - exists 0. by destruct s0.
  - intros uid. rewrite Hm, !lookup_empty. constructor.
Qed.

Lemma sys_reachable_inv σ :
  sys_reachable feature served r s0 σ → ∃ stale seen, sys_inv served s0 stale seen σ.
Proof.
  intros (σ0 & Hinit & Hr).
  assert (∃ stale seen, sys_inv served s0 stale seen σ0) as Hi.
  { exists ∅, ∅. by apply sys_init_inv. }
  clear Hinit. induction Hr; eauto using sys_step_inv.
Qed.

(** The events that wait are handled one by one. *)
Lemma drain stale seen c pending n st :
  sys_inv served s0 stale seen (MkSys c (Streaming pending n) st) →
  Forall (λ event, ¬ control_event event) pending →
  ∃ st', rtc (stream_step r) (MkSys c (Streaming pending n) st)
           (MkSys c (Streaming [] (n + length pending)) st') ∧
    store_Families (rs_store st') =
      Nat.iter (additions pending) (fmap (grow s0)) (store_Families (rs_store st)).
Proof.
  revert seen n st. induction pending as [|event pending IH]; intros seen n st Hi Hctl.
  { exists st. rewrite Nat.add_0_r. split; [apply rtc_refl|done]. }
  apply Forall_cons in Hctl as [Hev Hctl]. pose proof Hi as [Hs _ _ Hst].
  destruct (Hst _ _ eq_refl) as (Hgood & _). apply Forall_cons in Hgood as [Hg _].
  destruct (handle_event_shows served r (cl_used c) s0 st seen event)
    as (h & st1 & Hh & _ & Hcount); [done..|]. destruct (Hcount Hev) as [-> Hf].
  assert (stream_step r (MkSys c (Streaming (event :: pending) n) st)
            (MkSys c (Streaming pending (S n)) st1)) as Hstep by by apply (step_event r 0 event c pending n st Counted).
  destruct (stream_step_inv _ _ _ _ Hstep Hi) as [[seen1 Hi1] _].
  destruct (IH seen1 (S n) st1 Hi1 Hctl) as (st' & Hr & Hf').
  exists st'. split.
  - eapply rtc_l; [exact Hstep|]. rewrite Nat.add_succ_comm in Hr. exact Hr.
  - by rewrite Hf', Hf, (additions_cons event pending), Nat.add_comm, Nat.iter_add.
Qed.

Lemma synthetic_additions c events :
  events ≡ₚ synthetic c →
  additions events = size (cl_objects c) ∧ length events = size (cl_objects c) ∧
  Forall (λ event, ¬ control_event event) events.
Proof.
  intros (l & -> & Hp)%synthetic_Permutation. unfold additions.
  assert (∀ l : list (string * object), filter (λ event, ev_Type event = Added ∨ ev_Type event = Modified)
    ((λ e, MkEvent Added (Unstructured e.2)) <$> l) = (λ e, MkEvent Added (Unstructured e.2)) <$> l) as Hfil.
  { intros l'. induction l' as [|e l' IH]; [done|]. csimpl. rewrite filter_cons_True by by left.
    by rewrite IH. }
  rewrite Hfil, length_fmap, (Permutation_length Hp), length_map_to_list. split_and!; [done..|].
  apply Forall_fmap, Forall_forall. intros e _ [?|?]; done.
Qed.

(** A watch that is answered, and read to its end. *)
Lemma reconnect stale seen c st d events :
  sys_inv served s0 stale seen (MkSys c Watching st) →
  serves feature c (refl_listerwatcher r) d →
  @dyn_Watch d (lw_gvr (refl_listerwatcher r)) (lw_options (refl_listerwatcher r)) = Ok events →
  ∃ σ1 st', request_step feature r (MkSys c Watching st) σ1 ∧
    rtc (stream_step r) σ1 (MkSys c (Streaming [] (size (cl_objects c))) st') ∧
    store_Families (rs_store st') =
      Nat.iter (size (cl_objects c)) (fmap (grow s0)) (store_Families (rs_store st)).
Proof.
  intros Hi Hserve Hd.
  assert (request_step feature r (MkSys c Watching st) (MkSys c (Streaming events 0) st)) as Hstep.
  { apply (step_watch feature r d c st (Handle events)); [done|].
    unfold watch_request, WatchFunc, mbind, M_bind, get. by rewrite Hd. }
  pose proof (serves_synthetic _ _ _ _ Hserve events no_version Hd) as Hp.
  destruct (synthetic_additions c events Hp) as (Hadd & Hlen & Hctl).
  destruct (request_step_inv _ _ _ _ no_version Hstep Hi) as [Hi1 _].
  destruct (drain _ _ _ _ _ _ Hi1 Hctl) as (st' & Hr & Hf).
  exists (MkSys c (Streaming events 0) st), st'.
  rewrite Hlen in Hr. rewrite Hadd in Hf. done.
Qed.

(** Unless it was stopped, a reflector comes to watch when its lists are
    answered. *)
Lemma to_watching σ d items resourceVersion :
  sys_phase σ ≠ Stopped →
  @dyn_List d (lw_gvr (refl_listerwatcher r)) (lw_options (refl_listerwatcher r)) =
    Ok (items, resourceVersion) →
  ∃ st, rtc (sys_step feature served r) σ (MkSys (sys_cluster σ) Watching st).
Proof.
  intros Hph Hd. destruct σ as [c [| |pending n|] st]; simpl in *; [| | |done].
  - eexists. apply rtc_once. right; right. eapply (step_list feature r d d c st None).
    unfold reflector_list, ListFunc, mbind, M_bind, get, mret, M_ret. rewrite Hd. reflexivity.
  - exists st. apply rtc_refl.
  - exists st. apply rtc_once. right; right.
    apply (step_close feature r false 0 c pending n st).
Qed.

Lemma sys_steps_inv σ σ' :
  rtc (sys_step feature served r) σ σ' →
  (∃ stale seen, sys_inv served s0 stale seen σ) → ∃ stale seen, sys_inv served s0 stale seen σ'.
Proof. induction 1; eauto using sys_step_inv. Qed.

Lemma stream_connected σ σ' : rtc (stream_step r) σ σ' → rtc connected σ σ'.
Proof. apply (rtc_congruence id). intros ??. by right. Qed.

Lemma stream_sys σ σ' : rtc (stream_step r) σ σ' → rtc (sys_step feature served r) σ σ'.
Proof. apply (rtc_congruence id). intros ??. by right; left. Qed.

(** A stream that was read to its end. *)
Lemma drained_shows stale seen σ n :
  sys_inv served s0 stale seen σ → sys_phase σ = Streaming [] n →
  shows s0 (sys_refl σ) (cl_objects (sys_cluster σ) ∪ stale).
Proof. intros [Hs _ _ Hst] Hph. destruct (Hst _ _ Hph) as (_ & Hr & _). simpl in Hr. by rewrite <- Hr. Qed.

Lemma shows_lookup st seen uid o :
  shows s0 st seen → seen !! uid = Some o →
  ∃ texts, store_metrics (rs_store st) !! uid = Some texts ∧ text_of s0 o texts.
Proof. intros [_ Hs] Ho. specialize (Hs uid). rewrite Ho in Hs. inversion Hs; eauto. Qed.
End steps.

(** ** Lemmas: objects that are gone *)

Section gone.
Context `{!SortSlice} `{!MapRange} `{!CEL}.
Context (feature : bool) (served : GroupVersionKind) (r : Reflector).

(** The object [uid] is gone, no event about it waits, and the store has
    [texts] for it. *)
Record gone (uid : string) (texts : option (list string)) (σ : Sys) : Prop := {
  gone_cluster : cluster_ok served (sys_cluster σ);
  gone_used : uid ∈ cl_used (sys_cluster σ);
  gone_object : cl_objects (sys_cluster σ) !! uid = None;
  gone_texts : store_metrics (rs_store (sys_refl σ)) !! uid = texts;
  gone_pending pending n :
    sys_phase σ = Streaming pending n → Forall (λ event, ¬ change_of uid event) pending;
}.

Lemma store_do_other op st res st' uid :
  store_do op st = (Done res, st') →
  (∀ o, op = OpAdd o ∨ op = OpUpdate o ∨ op = OpDelete o → GetUID o ≠ uid) →
  store_metrics (rs_store st') !! uid = store_metrics (rs_store st) !! uid.
Proof.
  unfold store_do. destruct (store_apply _ op _) as [[res' s']|] eqn:Hop; [|done].
  intros [= _ <-] Hne. simpl. destruct op as [o|o|o|l rv|]; simpl in Hop.
  1,2: apply Add_inv in Hop; simpl in Hop; destruct Hop as (_ & texts & _ & ->); simpl;
    apply lookup_insert_ne; auto.
  - injection Hop as _ <-. simpl. apply lookup_delete_ne. auto.
  - by injection Hop as _ <-.
  - by injection Hop as _ <-.
Qed.

Lemma handle_event_other expected event st h st' uid :
  handle_event expected event st = (Done h, st') → ¬ change_of uid event →
  store_metrics (rs_store st') !! uid = store_metrics (rs_store st) !! uid.
Proof.
  intros Hh Hne. unfold handle_event in Hh. case_decide; [by injection Hh as _ <-|].
  destruct (ev_Object event) as [o| |] eqn:Ho; [|by injection Hh as _ <-..].
  destruct (_ && _); [by injection Hh as _ <-|].
  assert (∀ t, ev_Type event = t → t = Added ∨ t = Modified ∨ t = Deleted → GetUID o ≠ uid) as Huid.
  { intros t <- Ht Hu. apply Hne. by exists o. }
  unfold mbind, M_bind in Hh.
  repeat case_decide; [..|by injection Hh as _ <-].
  1-3: destruct (store_do _ st) as [[res|] st1] eqn:Hdo; [|done]; injection Hh as _ <-; simpl;
    apply (store_do_other _ _ _ _ uid Hdo); naive_solver.
Qed.

Lemma cluster_step_gone uid texts σ σ' :
  cluster_step served σ σ' → gone uid texts σ → gone uid texts σ'.
Proof.
  intros Hstep [Hc Hu Ho Ht Hp].
  assert (∀ uid' t o ph pending n, uid' ≠ uid → GetUID o = uid' →
    (∀ pending n, ph = Streaming pending n → Forall (λ event, ¬ change_of uid event) pending) →
    push (MkEvent t (Unstructured o)) ph = Streaming pending n →
    Forall (λ event, ¬ change_of uid event) pending) as Hpush.
  { intros uid' t o ph pending n Hne Huid Hph (pending0 & -> & ->)%push_Streaming.
    apply Forall_app. split; [by eapply Hph|]. constructor; [|done].
    intros (o' & [= <-] & Hu' & _). congruence. }
  destruct Hstep as [uid' o c ph st Hfresh Huid Hg|uid' o c ph st Hin Huid Hg|uid' o c ph st Hin Huid Hg];
    simpl in *; (assert (uid' ≠ uid) as Hne by (intros ->; first [done|by rewrite Ho in Hin; destruct Hin]));
    split; simpl; try done; try (by intros; eapply Hpush).
  - apply map_Forall_insert_2; [set_solver|]. apply (map_Forall_impl _ _ _ Hc). set_solver.
  - set_solver.
  - by rewrite lookup_insert_ne.
  - apply map_Forall_insert_2; [|done]. destruct Hin as [o' Ho']. split_and!; [done..|apply (Hc _ _ Ho')].
  - by rewrite lookup_insert_ne.
  - by apply map_Forall_delete.
  - by rewrite lookup_delete_ne.
Qed.

Lemma synthetic_other c events uid :
  cluster_ok served c → events ≡ₚ synthetic c → cl_objects c !! uid = None →
  Forall (λ event, ¬ change_of uid event) events.
Proof.
  intros Hc Hp Hu. rewrite Hp. apply Forall_fmap, Forall_forall.
  intros [uid' o] He%elem_of_map_to_list (o' & [= <-] & Huid & _). simpl in *.
  destruct (Hc _ _ He) as [Huid' _]. congruence.
Qed.

Lemma sys_step_gone uid texts σ σ' :
  lo_ResourceVersion (lw_options (refl_listerwatcher r)) = "" →
  sys_step feature served r σ σ' → gone uid texts σ → gone uid texts σ'.
Proof.
  intros Hrv [Hstep|[Hstep|Hstep]] Hgone; [by eapply cluster_step_gone| |];
    pose proof Hgone as [Hc Hu Ho Ht Hp].
  - destruct Hstep as [event c pending n st Hev|elapsed event c pending n st h st' Hh];
      simpl in *; split; cbn [sys_cluster sys_phase sys_refl]; try done.
    + intros ? ? [= <- <-]. apply Forall_app. split; [by eapply Hp|]. constructor; [|done].
      intros (o & _ & _ & Hty). destruct Hev as [Hty' | Hty']; rewrite Hty' in Hty;
        destruct Hty as [|[|]]; done.
    + specialize (Hp _ _ eq_refl). apply Forall_cons in Hp as [Hev _].
      by rewrite (handle_event_other _ _ _ _ _ _ Hh Hev).
    + specialize (Hp _ _ eq_refl). apply Forall_cons in Hp as [_ Hp]. intros pending' n' Hph.
      destruct h as [| |err]; [by injection Hph as <- _..|]. by apply go_next_after_watch in Hph.
  - destruct Hstep as [d d' c st err st' Hl|d c st n st' Hserve Hw|short elapsed c pending n st|c ph st];
      cbn [sys_cluster sys_phase sys_refl] in *; split; cbn [sys_cluster sys_phase sys_refl]; try done.
    + by rewrite (reflector_list_store _ _ _ _ _ _ Hl).
    + by destruct err.
    + by apply watch_request_inv in Hw as [-> _].
    + intros pending m Hph. destruct n as [| |events]; [done..|]. injection Hph as <- _.
      apply watch_request_inv in Hw as [_ Hev].
      apply (synthetic_other c); [done| |done].
      by apply (serves_synthetic _ _ _ _ Hserve events Hrv Hev).
    + intros ? ? Hph%go_next_after_watch. done.
Qed.

Lemma sys_steps_gone uid texts σ σ' :
  lo_ResourceVersion (lw_options (refl_listerwatcher r)) = "" →
  rtc (sys_step feature served r) σ σ' → gone uid texts σ → gone uid texts σ'.
Proof. intros Hrv Hr. induction Hr; eauto using sys_step_gone. Qed.
End gone.

(** ** Properties *)

Section properties.
Context `{!SortSlice} `{!MapRange} `{!CEL}.
Context (feature : bool) (served : GroupVersionKind).

(** The steps of a reflector are steps of the world of [System]: at most one
    operation on its store. *)
Lemma sys_step_world P w i r σ σ' :
  w_reflectors w !! i = Some r → w_heap w !! refl_store r = Some (rs_store (sys_refl σ)) →
  sys_step feature served r σ σ' →
  rtc (world_step object P) w (update_heap (refl_store r) (rs_store (sys_refl σ')) w).
Proof.
  intros Hi Hw Hstep.
  assert (rs_store (sys_refl σ') = rs_store (sys_refl σ) →
    rtc (world_step object P) w (update_heap (refl_store r) (rs_store (sys_refl σ')) w)) as Hsame.
  { intros ->. unfold update_heap. rewrite insert_id by done. by destruct w. }
  assert (∀ op res st', store_do op (sys_refl σ) = (Done res, st') →
    rs_store (sys_refl σ') = rs_store st' →
    rtc (world_step object P) w (update_heap (refl_store r) (rs_store (sys_refl σ')) w)) as Hop.
  { intros op res st' Hdo ->. unfold store_do in Hdo.
    destruct (store_apply _ op _) as [[res' s']|] eqn:Happ; [|done]. injection Hdo as _ <-.
    apply rtc_once. by eapply step_reflect. }
  destruct Hstep as [Hstep|[Hstep|Hstep]].
  - apply Hsame. by destruct Hstep.
  - destruct Hstep as [|elapsed event c pending n st h st' Hh]; [by apply Hsame|]. simpl in *.
    unfold handle_event in Hh. case_decide; [injection Hh as _ <-; by apply Hsame|].
    destruct (ev_Object event) as [o| |]; [|injection Hh as _ <-; by apply Hsame..].
    destruct (_ && _); [injection Hh as _ <-; by apply Hsame|].
    unfold mbind, M_bind in Hh. repeat case_decide; [..|injection Hh as _ <-; by apply Hsame].
    1-3: destruct (store_do _ st) as [[res|] st1] eqn:Hdo; [|done]; injection Hh as _ <-;
      by eapply Hop.
  - apply Hsame. destruct Hstep as [d d' c st err st' Hl|d c st n st' _ Hwr| |]; [..|done|done].
    + exact (reflector_list_store _ _ _ _ _ _ Hl).
    + by apply watch_request_inv in Hwr as [-> _].
Qed.

Section configured.
Context (sc : StoreType) (l : nat).
Hypothesis covered : store_covered sc.

(** C14: What a connection leaves in the store of a configured reflector.  In
    any reachable state in which it is about to watch and the store shows
    [seen], if the watch is opened, and events are sent and handled until none
    waits, then the store shows exactly the objects of the cluster as they are
    then, and, of what it showed before, the objects that were already gone
    when the watch was opened: those are never removed. *)
Theorem connection_refines σ0 σ1 σ2 seen n :
  accepts (built_reflector false sc l) served →
  sys_reachable feature served (built_reflector false sc l) (built_store sc) σ0 →
  sys_phase σ0 = Watching → shows (built_store sc) (sys_refl σ0) seen →
  request_step feature (built_reflector false sc l) σ0 σ1 →
  rtc (connected served (built_reflector false sc l)) σ1 σ2 →
  sys_phase σ2 = Streaming [] n →
  shows (built_store sc) (sys_refl σ2)
    (cl_objects (sys_cluster σ2) ∪ (seen ∖ cl_objects (sys_cluster σ0))).
Proof.
  intros Hacc Hr Hph Hs Hreq Hconn Hend.
  apply sys_reachable_inv in Hr as (stale & seen' & [Hs' Hc Hu Hst]);
    [|by apply built_store_covered|done..].
  assert (sys_inv served (built_store sc) stale seen σ0) as Hi.
  { split; [done..| |by intros ??; rewrite Hph]. intros uid. rewrite elem_of_dom.
    rewrite (shows_dom _ _ _ _ Hs), <- (shows_dom _ _ _ _ Hs'), <- elem_of_dom. apply Hu. }
  pose proof (built_store_covered sc covered) as Hc'.
  destruct (request_step_inv feature served _ _ Hc' Hacc _ _ _ _ eq_refl Hreq Hi) as [Hi1 _].
  destruct (connected_inv served _ _ Hc' Hacc _ _ _ _ Hconn Hi1) as [seen2 Hi2].
  exact (drained_shows _ _ _ _ _ _ Hi2 Hend).
Qed.

(** C16: An object that is deleted while its reflector has no watch open is
    shown for ever: the store keeps its texts, as they are, through all that
    the cluster, the server and the reflector do from then on. *)
Theorem stale_forever σ σ' uid :
  accepts (built_reflector false sc l) served →
  sys_reachable feature served (built_reflector false sc l) (built_store sc) σ →
  (∀ pending n, sys_phase σ ≠ Streaming pending n) →
  is_Some (store_metrics (rs_store (sys_refl σ)) !! uid) →
  cl_objects (sys_cluster σ) !! uid = None →
  rtc (sys_step feature served (built_reflector false sc l)) σ σ' →
  store_metrics (rs_store (sys_refl σ')) !! uid = store_metrics (rs_store (sys_refl σ)) !! uid.
Proof.
  intros Hacc Hr Hph Htexts Ho Hsteps.
  apply sys_reachable_inv in Hr as (stale & seen & [Hs Hc Hu _]);
    [|by apply built_store_covered|done..].
  assert (gone served uid (store_metrics (rs_store (sys_refl σ)) !! uid) σ) as Hgone.
  { split; [done| |done..|].
    - apply Hu, elem_of_dom. by apply (shows_dom _ _ _ _ Hs).
    - intros ?? Heq. by apply Hph in Heq. }
  exact (gone_texts _ _ _ _ (sys_steps_gone feature served (built_reflector false sc l) uid _ _ _ eq_refl Hsteps Hgone)).
Qed.

(** C15: From every reachable state a reflector that has not been stopped
    catches up with a server that answers: it reaches a state in which no
    event waits and every object of the cluster is shown, by as many events as
    there are objects. *)
Theorem reflector_catches_up σ d items resourceVersion events :
  accepts (built_reflector false sc l) served →
  sys_reachable feature served (built_reflector false sc l) (built_store sc) σ →
  sys_phase σ ≠ Stopped →
  let lw := refl_listerwatcher (built_reflector false sc l) in
  @dyn_List d (lw_gvr lw) (lw_options lw) = Ok (items, resourceVersion) →
  @dyn_Watch d (lw_gvr lw) (lw_options lw) = Ok events →
  serves feature (sys_cluster σ) lw d →
  ∃ σ', rtc (sys_step feature served (built_reflector false sc l)) σ σ' ∧
    sys_cluster σ' = sys_cluster σ ∧
    sys_phase σ' = Streaming [] (size (cl_objects (sys_cluster σ))) ∧
    ∀ uid o, cl_objects (sys_cluster σ) !! uid = Some o →
      ∃ texts, store_metrics (rs_store (sys_refl σ')) !! uid = Some texts ∧
        text_of (built_store sc) o texts.
Proof.
  intros Hacc Hr Hph lw Hlist Hwatch Hserve.
  pose proof (built_store_covered sc covered) as Hc.
  pose proof (sys_reachable_inv _ _ _ _ Hc Hacc eq_refl σ Hr) as Hi.
  destruct (to_watching feature served _ σ d items resourceVersion Hph Hlist) as (st & Hsteps).
  assert (∃ stale seen, sys_inv served (built_store sc) stale seen
            (MkSys (sys_cluster σ) Watching st)) as (stale & seen & Hi').
  { by apply (sys_steps_inv feature served _ _ Hc Hacc eq_refl σ). }
  destruct (reconnect feature served _ _ Hc Hacc eq_refl _ _ _ _ d events Hi' Hserve Hwatch)
    as (σ1 & st' & Hreq & Hstream & _).
  destruct (request_step_inv feature served _ _ Hc Hacc _ _ _ _ eq_refl Hreq Hi') as [Hi1 _].
  destruct (connected_inv served _ _ Hc Hacc _ _ σ1 _ (stream_connected _ _ _ _ Hstream) Hi1)
    as [seen2 Hi2].
  exists (MkSys (sys_cluster σ) (Streaming [] (size (cl_objects (sys_cluster σ)))) st').
  split_and!; [|done..|].
  - etrans; [exact Hsteps|]. apply (rtc_l _ _ σ1); [by right; right|].
    by apply (stream_sys feature served).
  - intros uid o Ho. apply (shows_lookup _ _ (cl_objects (sys_cluster σ) ∪
      (seen ∖ cl_objects (sys_cluster σ)))); [exact (drained_shows _ _ _ _ _ _ Hi2 eq_refl)|].
    by apply lookup_union_Some_l.
Qed.

(** Every connection grows the labels, even when nothing changes: once the
    events of a new watch are handled, each family has inherited the labels of
    its store once more for every object of the cluster. *)
Lemma reconnect_grows σ d events :
  accepts (built_reflector false sc l) served →
  sys_reachable feature served (built_reflector false sc l) (built_store sc) σ →
  sys_phase σ = Watching →
  let lw := refl_listerwatcher (built_reflector false sc l) in
  @dyn_Watch d (lw_gvr lw) (lw_options lw) = Ok events →
  serves feature (sys_cluster σ) lw d →
  ∃ σ', rtc (sys_step feature served (built_reflector false sc l)) σ σ' ∧
    sys_cluster σ' = sys_cluster σ ∧
    store_Families (rs_store (sys_refl σ')) =
      Nat.iter (size (cl_objects (sys_cluster σ))) (fmap (grow (built_store sc)))
        (store_Families (rs_store (sys_refl σ))).
Proof.
  intros Hacc Hr Hph lw Hwatch Hserve. pose proof (built_store_covered sc covered) as Hc.
  apply (sys_reachable_inv _ _ _ _ Hc Hacc eq_refl) in Hr as (stale & seen & Hi).
  destruct σ as [c ph st]. simpl in Hph. subst ph.
  destruct (reconnect feature served _ _ Hc Hacc eq_refl _ _ _ _ d events Hi Hserve Hwatch)
    as (σ1 & st' & Hreq & Hstream & Hf).
  exists (MkSys c (Streaming [] (size (cl_objects c))) st'). split_and!; [|done|exact Hf].
  apply (rtc_l _ _ σ1); [by right; right|]. by apply (stream_sys feature served).
Qed.

(** C17: With [--try-no-cache] no store is ever filled: the options match a
    resource version, which a server forbids for a watch, with or without its
    watch-list feature; the watch is refused, the reflector lists again, and in
    every reachable state the store is empty, whatever the cluster holds. *)
Theorem no_cache_store_empty σ :
  sys_reachable feature served (built_reflector true sc l) (built_store sc) σ →
  store_metrics (rs_store (sys_refl σ)) = ∅ ∧ ∀ pending n, sys_phase σ ≠ Streaming pending n.
Proof.
  intros (σ0 & Hinit & Hr).
  assert (store_metrics (rs_store (sys_refl σ0)) = ∅ ∧ ∀ pending n, sys_phase σ0 ≠ Streaming pending n)
    as Hi by (destruct Hinit as (-> & Hm & _); done).
  clear Hinit. induction Hr as [|σ σ1 σ' Hstep _ IH]; [done|]. apply IH. clear IH.
  destruct Hi as [Hm Hph]. destruct Hstep as [Hstep|[Hstep|Hstep]].
  - destruct Hstep as [uid o c ph st|uid o c ph st|uid o c ph st]; simpl in *; (split; [done|]);
      intros pending n (pending0 & -> & _)%push_Streaming; by apply (Hph pending0 n).
  - destruct Hstep; exfalso; by eapply Hph.
  - destruct Hstep as [d d' c st err st' Hl|d c st n st' Hserve Hw|short elapsed c pending n st|c ph st];
      simpl in *.
    + rewrite (reflector_list_store _ _ _ _ _ _ Hl). split; [done|]. by destruct err.
    + apply watch_request_inv in Hw as [-> Hev]. split; [done|].
      destruct (serves_invalid _ _ _ _ Hserve) as (message & causes & He); [by destruct feature|].
      destruct n as [| |events]; [done..|]. by rewrite He in Hev.
    + exfalso. by eapply Hph.
    + done.
Qed.
End configured.
End properties.

(** ** Witnesses *)

Module ReflectorExample.
Export SystemExample.

Definition served : GroupVersionKind := GVK "apps" "v1" "Deployment".

(** A cluster of one deployment, and its server. *)
Definition cluster : Cluster := MkCluster {["u1" := deployment]} {["u1"]}.

Definition added : Event := MkEvent Added (Unstructured deployment).

#[export] Instance client : DynamicClient := {|
  dyn_List _ _ := Ok ([deployment], "7");
  dyn_Watch _ lo :=
    if decide (admitted false (internal_options true lo) = []) then Ok [added]
    else Err (StatusError 422 "Invalid" "" []);
|}.

Lemma client_serves lw : serves false cluster lw client.
Proof.
  split.
  - intros Hne. exists "", []. simpl. by rewrite decide_False.
  - intros events _. simpl. case_decide; [|done]. by intros [= <-].
Qed.

Definition reflector : Reflector := built_reflector false config 0.

Definition listed : RState :=
  (reflector_list (refl_listerwatcher reflector) client client (new_RState (built_store config))).2.

Definition fed_state : RState := (handle_event (expectedGVK reflector) added listed).2.

Lemma initial : sys_init served (built_store config)
  (MkSys cluster Listing (new_RState (built_store config))).
Proof.
  split; [done|]. split; [done|]. apply map_Forall_singleton. simpl. split_and!; [done..|set_solver].
Qed.

Lemma listed_step :
  request_step false reflector (MkSys cluster Listing (new_RState (built_store config)))
    (MkSys cluster Watching listed).
Proof. by apply (step_list false reflector client client cluster _ None). Qed.

Lemma watch_step :
  request_step false reflector (MkSys cluster Watching listed)
    (MkSys cluster (Streaming [added] 0) listed).
Proof.
  apply (step_watch false reflector client cluster listed (Handle [added])); [apply client_serves|].
  vm_compute. reflexivity.
Qed.

Lemma added_step :
  stream_step reflector (MkSys cluster (Streaming [added] 0) listed)
    (MkSys cluster (Streaming [] 1) fed_state).
Proof.
  apply (step_event reflector 0 added cluster [] 0 listed Counted). unfold fed_state.
  destruct (handle_event (expectedGVK reflector) added listed) as [h st] eqn:Hh. simpl.
  f_equal. apply (f_equal fst) in Hh. simpl in Hh. rewrite <- Hh. vm_compute. reflexivity.
Qed.

Lemma watching_reachable :
  sys_reachable false served reflector (built_store config) (MkSys cluster Watching listed).
Proof. eexists. split; [apply initial|]. apply rtc_once. right; right. apply listed_step. Qed.

Lemma kinds : accepts reflector served.
Proof. apply (bool_decide_unpack _). vm_compute. exact I. Qed.

Lemma config_covered : store_covered config.
Proof. apply (bool_decide_unpack _). vm_compute. exact I. Qed.

Lemma connection_refines_witness :
  shows (built_store config) fed_state (cl_objects cluster ∪ (∅ ∖ cl_objects cluster)).
Proof.
  refine (connection_refines false served config 0 config_covered _ _
            (MkSys cluster (Streaming [] 1) fed_state) ∅ 1 kinds watching_reachable eq_refl _
            watch_step _ eq_refl).
  - split; [by exists 0|]. intros uid. rewrite lookup_empty. constructor.
  - apply rtc_once. right. apply added_step.
Defined.

(** The deployment is deleted after the stream was closed. *)
Lemma stale_forever_witness :
  ∃ σ, sys_phase σ = Watching ∧ cl_objects (sys_cluster σ) !! "u1" = None ∧
    store_metrics (rs_store (sys_refl σ)) !! "u1" = store_metrics (rs_store fed_state) !! "u1".
Proof.
  set (gone := MkCluster (delete "u1" (cl_objects cluster)) (cl_used cluster)).
  exists (MkSys gone Watching fed_state). split; [done|]. split; [done|].
  refine (stale_forever false served config 0 config_covered (MkSys gone Watching fed_state)
            (MkSys gone Watching fed_state) "u1" kinds _ _ _ eq_refl (rtc_refl _ _)).
  - eexists. split; [apply initial|].
    eapply rtc_l; [right; right; apply listed_step|].
    eapply rtc_l; [right; right; apply watch_step|].
    eapply rtc_l; [right; left; apply added_step|].
    eapply rtc_l; [right; right; apply (step_close false reflector false 0)|].
    apply rtc_once. left.
    apply (step_delete served "u1" deployment cluster Watching fed_state); [by eexists|done..].
  - done.
  - vm_compute. by eexists.
Defined.

Lemma reflector_catches_up_witness :
  ∃ σ', rtc (sys_step false served reflector)
          (MkSys cluster Listing (new_RState (built_store config))) σ' ∧
    sys_cluster σ' = cluster ∧ sys_phase σ' = Streaming [] 1 ∧
    ∀ uid o, cl_objects cluster !! uid = Some o →
      ∃ texts, store_metrics (rs_store (sys_refl σ')) !! uid = Some texts ∧
        text_of (built_store config) o texts.
Proof.
  refine (reflector_catches_up false served config 0 config_covered
            (MkSys cluster Listing (new_RState (built_store config))) client [deployment] "7" [added]
            kinds _ _ eq_refl _ (client_serves _)).
  - eexists. split; [apply initial|apply rtc_refl].
  - done.
  - vm_compute. reflexivity.
Defined.

Lemma no_cache_store_empty_witness :
  store_metrics (built_store config) = ∅ ∧
  ∀ pending n, sys_phase (MkSys cluster Watching listed) ≠ Streaming pending n.
Proof.
  refine (no_cache_store_empty false served config 0 (MkSys cluster Watching listed) _).
  eexists. split; [apply initial|]. apply rtc_once. right; right.
  by apply (step_list false (built_reflector true config 0) client client cluster _ None).
Defined.
End ReflectorExample.
