(* ===== verification/Race.v ===== *)
(** * Workers at the same time ([internal/config.go], [internal/events.go])

    [System] takes each piece of a handler as one step.  Here the accesses of
    the workers to the map from resources to stores are apart, as the code
    makes them: the map has no lock, and the append of a built store reads the
    list of the resource and then writes it.  A schedule says which worker goes
    next.  The runtime may also detect such accesses and end the process
    ([MapRace]); what is shown is what happens when it does not. *)
From S2P Require Import Prelude GoStrings Strconv GoSort Values Resolver Metric Family Store Writer Types Builder Events Probe Server System.

(** ** Workers *)

(** Where a worker is in the handling of an addition or of an update: about to
    drop the stores of the resource [uid]; about to build the next of the
    configured stores; with a store built, about to read the list of the
    resource; with the new list, about to write it. *)
Inductive worker : Type :=
| Dropping (uid : string) (scs : list StoreType)
| Building (uid : string) (scs : list StoreType)
| Reading (uid : string) (s : nat) (scs : list StoreType)
| Writing (uid : string) (locs : list nat) (scs : list StoreType)
| Finished.

(** The next access of a worker. *)
Definition worker_step (tryNoCache : bool) (wk : worker) (w : World) : worker * World :=
  match wk with
  | Dropping uid scs => (Building uid scs, drop_world uid w)
  | Building uid [] => (Finished, w)
  | Building uid (sc :: scs) =>
    match buildStore (GVK (store_Group sc) (store_Version sc) (store_Kind sc))
            (GVR (store_Group sc) (store_Version sc) (store_ResourceName sc))
            (store_Families sc) tryNoCache (store_Selectors_Label sc) (store_Selectors_Field sc)
            (store_Resolver sc) (store_LabelKeys sc) (store_LabelValues sc) w with
    | (Done s, w) => (Reading uid s scs, w)
    | (Panicked _, w) => (Finished, w)
    end
  | Reading uid s scs => (Writing uid (default [] (w_stores w !! uid) ++ [s]) scs, w)
  | Writing uid locs scs => (Building uid scs, set_stores (<[uid := locs]> (w_stores w)) w)
  | Finished => (Finished, w)
  end.

(** A schedule: the indices of the workers, in turn. *)
Fixpoint schedule (tryNoCache : bool) (turns : list nat) (wks : list worker) (w : World)
    : list worker * World :=
  match turns with
  | [] => (wks, w)
  | i :: turns =>
    match wks !! i with
    | None => schedule tryNoCache turns wks w
    | Some wk =>
      let '(wk, w) := worker_step tryNoCache wk w in
      schedule tryNoCache turns (<[i := wk]> wks) w
    end
  end.

(** ** Lemmas *)

(** The store and the reflector of a configuration. *)
Definition add_built (tryNoCache : bool) (sc : StoreType) (w : World) : World := {|
  w_heap := <[w_next w := built_store sc]> (w_heap w);
  w_next := S (w_next w);
  w_reflectors := w_reflectors w ++ [built_reflector tryNoCache sc (w_next w)];
  w_stores := w_stores w;
|}.

Lemma worker_step_build tryNoCache uid sc scs w :
  worker_step tryNoCache (Building uid (sc :: scs)) w =
  (Reading uid (w_next w) scs, add_built tryNoCache sc w).
Proof. reflexivity. Qed.

(** The three accesses of one store, together. *)
Lemma build_world_add tryNoCache uid sc w :
  build_world uid tryNoCache [sc] w =
  set_stores (<[uid := default [] (w_stores w !! uid) ++ [w_next w]]> (w_stores w))
    (add_built tryNoCache sc w).
Proof.
  unfold build_world, add_built, set_stores. cbn. rewrite Nat.add_1_r, Nat.add_0_r. f_equal.
  by rewrite insert_empty, <- insert_union_singleton_l.
Qed.

Lemma schedule_app tryNoCache t1 t2 wks w :
  schedule tryNoCache (t1 ++ t2) wks w =
  let '(wks, w) := schedule tryNoCache t1 wks w in schedule tryNoCache t2 wks w.
Proof.
  revert wks w. induction t1 as [|i t1 IH]; intros wks w; [done|]. simpl.
  destruct (wks !! i) as [wk|]; [|apply IH].
  destruct (worker_step tryNoCache wk w) as [wk' w']. apply IH.
Qed.

(** A property of the workers and the world that every step keeps, holds along
    any schedule. *)
Lemma schedule_inv (I : list worker → World → Prop) tryNoCache turns wks w :
  (∀ i wks w wk wk' w', wks !! i = Some wk → worker_step tryNoCache wk w = (wk', w') →
     I wks w → I (<[i := wk']> wks) w') →
  I wks w → I (schedule tryNoCache turns wks w).1 (schedule tryNoCache turns wks w).2.
Proof.
  intros Hstep. revert wks w. induction turns as [|i turns IH]; intros wks w HI; [done|]. simpl.
  destruct (wks !! i) as [wk|] eqn:Hi; [|by apply IH].
  destruct (worker_step tryNoCache wk w) as [wk' w'] eqn:Hs. eapply IH, Hstep; done.
Qed.

Lemma single_build tryNoCache uid scs w :
  schedule tryNoCache (replicate (1 + 3 * length scs) 0) [Building uid scs] w =
  ([Finished], build_world uid tryNoCache scs w).
Proof.
  revert w. induction scs as [|sc scs IH]; intros w.
  - by rewrite build_world_nil.
  - replace (1 + 3 * length (sc :: scs)) with (S (S (S (1 + 3 * length scs)))) by (simpl; lia).
    rewrite build_world_cons, <- IH, build_world_add. reflexivity.
Qed.

(** *** The world stays well formed *)

(** The locations that a worker holds lead to stores. *)
Definition worker_ok (w : World) (wk : worker) : Prop :=
  match wk with
  | Reading _ s _ => is_Some (w_heap w !! s)
  | Writing _ locs _ => Forall (λ l, is_Some (w_heap w !! l)) locs
  | _ => True
  end.

Lemma add_built_ok tryNoCache sc w : world_ok w → world_ok (add_built tryNoCache sc w).
Proof.
  intros [Hf Hs Hr Hh].
  assert (∀ l, is_Some (w_heap w !! l) → is_Some (w_heap (add_built tryNoCache sc w) !! l)) as Hm.
  { intros l Hl. simpl. apply lookup_insert_is_Some. destruct (decide (w_next w = l)); auto. }
  split; simpl.
  - intros l [<-|[_ Hl%Hf]]%lookup_insert_is_Some; lia.
  - apply (map_Forall_impl _ _ _ Hs). intros _ locs Hl. apply (Forall_impl _ _ _ Hl), Hm.
  - apply Forall_app. split; [apply (Forall_impl _ _ _ Hr); intros r; apply Hm|].
    constructor; [|done]. simpl. by rewrite lookup_insert_eq.
  - apply map_Forall_insert_2; [apply built_store_wf|done].
Qed.

(** A step keeps what is on the heap. *)
Lemma worker_step_heap tryNoCache wk w wk' w' l s :
  world_ok w → worker_step tryNoCache wk w = (wk', w') →
  w_heap w !! l = Some s → w_heap w' !! l = Some s.
Proof.
  intros Hw Hs Hl. destruct wk as [uid scs|uid [|sc scs]|uid l' scs|uid locs scs|].
  3: { rewrite worker_step_build in Hs. injection Hs as _ <-. simpl.
       rewrite lookup_insert_ne; [done|]. pose proof (ok_fresh _ Hw l (mk_is_Some _ _ Hl)). lia. }
  1: { injection Hs as _ <-. unfold drop_world. by destruct (w_stores w !! uid). }
  all: by injection Hs as _ <-.
Qed.

Lemma worker_step_ok tryNoCache wk w wk' w' :
  world_ok w → worker_ok w wk → worker_step tryNoCache wk w = (wk', w') →
  world_ok w' ∧ worker_ok w' wk'.
Proof.
  intros Hw Hk Hs. destruct wk as [uid scs|uid [|sc scs]|uid l scs|uid locs scs|].
  3: { rewrite worker_step_build in Hs. injection Hs as <- <-.
       split; [by apply add_built_ok|]. simpl. by rewrite lookup_insert_eq. }
  all: injection Hs as <- <-; (split; [|try done]); try done.
  - by apply drop_world_ok.
  - simpl in *. apply Forall_app. split; [|by constructor].
    destruct (w_stores w !! uid) as [locs|] eqn:Hu; [by apply (ok_stores _ Hw _ _ Hu)|constructor].
  - destruct Hw as [Hf Hst Hr Hh]. split; try done. by apply map_Forall_insert_2.
Qed.

Definition workers_ok (wks : list worker) (w : World) : Prop :=
  world_ok w ∧ Forall (worker_ok w) wks.

Lemma workers_step_ok tryNoCache i wks w wk wk' w' :
  wks !! i = Some wk → worker_step tryNoCache wk w = (wk', w') →
  workers_ok wks w → workers_ok (<[i := wk']> wks) w'.
Proof.
  intros Hi Hs [Hw Hwks].
  destruct (worker_step_ok _ _ _ _ _ Hw (Forall_lookup_1 _ _ _ _ Hwks Hi) Hs) as [Hw' Hk'].
  split; [done|]. apply Forall_insert; [|done]. apply (Forall_impl _ _ _ Hwks).
  assert (∀ l, is_Some (w_heap w !! l) → is_Some (w_heap w' !! l)) as Hm.
  { intros l [s Hl]. exists s. eapply worker_step_heap; [exact Hw|exact Hs|done]. }
  intros [| |uid l scs|uid locs scs|]; simpl; try done; [apply Hm|].
  intros Hl. apply (Forall_impl _ _ _ Hl), Hm.
Qed.

(** *** Workers that work on distinct resources *)

(** The list of a resource. *)
Definition entry (uid : string) (w : World) : list nat := default [] (w_stores w !! uid).

(** The locations lead to what is built from the configurations. *)
Definition built_at (w : World) (locs : list nat) (scs : list StoreType) : Prop :=
  Forall2 (λ l sc, w_heap w !! l = Some (built_store sc)) locs scs.

(** How far a worker is with the stores [scs] of [uid]. *)
Definition progress (w : World) (job : string * list StoreType) (wk : worker) : Prop :=
  let '(uid, scs) := job in
  match wk with
  | Dropping u rest => u = uid ∧ rest = scs
  | Building u rest => u = uid ∧ ∃ built, scs = built ++ rest ∧ built_at w (entry uid w) built
  | Reading u s rest =>
    u = uid ∧ ∃ built sc, scs = built ++ sc :: rest ∧ built_at w (entry uid w) built ∧
      w_heap w !! s = Some (built_store sc)
  | Writing u locs rest => u = uid ∧ ∃ built, scs = built ++ rest ∧ built_at w locs built
  | Finished => built_at w (entry uid w) scs
  end.

Lemma built_at_mono w w' locs scs :
  (∀ l s, w_heap w !! l = Some s → w_heap w' !! l = Some s) →
  built_at w locs scs → built_at w' locs scs.
Proof. intros Hm Hb. apply (Forall2_impl _ _ _ _ Hb). intros l sc. apply Hm. Qed.

Lemma progress_mono w w' job wk :
  (∀ l s, w_heap w !! l = Some s → w_heap w' !! l = Some s) → entry job.1 w' = entry job.1 w →
  progress w job wk → progress w' job wk.
Proof.
  intros Hm He. destruct job as [uid scs], wk as [u rest|u rest|u s rest|u locs rest|]; simpl in *;
    rewrite ?He; try done.
  - intros (? & built & ? & ?). split; [done|]. exists built. eauto using built_at_mono.
  - intros (? & built & sc & ? & ? & ?). split; [done|]. exists built, sc. eauto using built_at_mono.
  - intros (? & built & ? & ?). split; [done|]. exists built. eauto using built_at_mono.
  - by apply built_at_mono.
Qed.

Lemma entry_drop uid w : entry uid (drop_world uid w) = [].
Proof.
  unfold entry, drop_world. destruct (w_stores w !! uid) eqn:Hu; [|by rewrite Hu].
  cbn [w_stores set_stores]. by rewrite lookup_delete_eq.
Qed.

Lemma entry_drop_ne uid uid' w : uid' ≠ uid → entry uid' (drop_world uid w) = entry uid' w.
Proof.
  intros Hne. unfold entry, drop_world. destruct (w_stores w !! uid); [|done].
  cbn [w_stores set_stores]. by rewrite lookup_delete_ne.
Qed.

Lemma entry_set uid locs m w : entry uid (set_stores (<[uid := locs]> m) w) = locs.
Proof. unfold entry. cbn [w_stores set_stores]. by rewrite lookup_insert_eq. Qed.

Lemma entry_set_ne uid uid' locs w :
  uid' ≠ uid → entry uid' (set_stores (<[uid := locs]> (w_stores w)) w) = entry uid' w.
Proof. intros Hne. unfold entry. cbn [w_stores set_stores]. by rewrite lookup_insert_ne. Qed.

Lemma worker_step_progress tryNoCache job wk w wk' w' :
  world_ok w → progress w job wk → worker_step tryNoCache wk w = (wk', w') →
  progress w' job wk' ∧ ∀ uid, uid ≠ job.1 → entry uid w' = entry uid w.
Proof.
  intros Hw Hp Hs. destruct job as [uid scs], wk as [u rest|u [|sc rest]|u s rest|u locs rest|]; simpl in Hp.
  3: { rewrite worker_step_build in Hs. injection Hs as <- <-.
       destruct Hp as (-> & built & -> & Hb). split; [|done]. split; [done|]. exists built, sc.
       split; [done|]. split; [|apply lookup_insert_eq].
       apply (built_at_mono w); [|done]. intros l s Hl. simpl. rewrite lookup_insert_ne; [done|].
       pose proof (ok_fresh _ Hw l (mk_is_Some _ _ Hl)). lia. }
  all: injection Hs as <- <-.
  - destruct Hp as [-> ->]. split; [|intros uid' Hne; by apply entry_drop_ne].
    split; [done|]. exists []. rewrite entry_drop. split; [done|constructor].
  - destruct Hp as (-> & built & -> & Hb). by rewrite app_nil_r.
  - destruct Hp as (-> & built & sc & -> & Hb & Hl). split; [|done]. split; [done|].
    exists (built ++ [sc]). rewrite <- app_assoc. split; [done|]. by apply Forall2_app; [|constructor].
  - destruct Hp as (-> & built & -> & Hb). split; [|intros uid' Hne; by apply entry_set_ne].
    split; [done|]. exists built. by rewrite entry_set.
  - done.
Qed.

Lemma progress_step tryNoCache jobs i wks w wk wk' w' :
  NoDup jobs.*1 → wks !! i = Some wk → worker_step tryNoCache wk w = (wk', w') →
  workers_ok wks w ∧ Forall2 (progress w) jobs wks →
  workers_ok (<[i := wk']> wks) w' ∧ Forall2 (progress w') jobs (<[i := wk']> wks).
Proof.
  intros Hnd Hi Hs [Hok Hp]. split; [by eapply workers_step_ok|].
  destruct (Forall2_lookup_r _ _ _ _ _ Hp Hi) as (job & Hj & Hpi).
  destruct (worker_step_progress _ _ _ _ _ _ (proj1 Hok) Hpi Hs) as [Hpi' Hother].
  rewrite <- (list_insert_id jobs i job Hj).
  apply Forall2_same_length_lookup_2; [by rewrite !length_insert, (Forall2_length _ _ _ Hp)|].
  intros j job' wk'' Hj' Hk'. rewrite (list_insert_id jobs i job Hj) in Hj'.
  destruct (decide (i = j)) as [<-|Hne].
  - rewrite list_lookup_insert_eq in Hk' by by eapply lookup_lt_Some. by simplify_eq.
  - rewrite list_lookup_insert_ne in Hk' by done.
    apply (progress_mono w); [intros l s; by eapply worker_step_heap, Hs; apply Hok| |].
    + apply Hother. intros Heq. apply Hne. eapply (NoDup_lookup jobs.*1); [done|..];
        rewrite list_lookup_fmap; [by rewrite Hj|by rewrite Hj', <- Heq].
    + by eapply Forall2_lookup_lr.
Qed.

(** *** How many turns a worker takes *)

Definition remaining (wk : worker) : nat :=
  match wk with
  | Dropping _ scs => 2 + 3 * length scs
  | Building _ scs => 1 + 3 * length scs
  | Reading _ _ scs => 3 + 3 * length scs
  | Writing _ _ scs => 2 + 3 * length scs
  | Finished => 0
  end.

Lemma worker_step_remaining tryNoCache wk w :
  remaining (worker_step tryNoCache wk w).1 = pred (remaining wk).
Proof.
  destruct wk as [uid scs|uid [|sc scs]|uid l scs|uid locs scs|]; try done.
  rewrite worker_step_build. simpl. lia.
Qed.

Lemma remaining_Finished wk : remaining wk = 0 → wk = Finished.
Proof. by destruct wk. Qed.

Lemma schedule_remaining tryNoCache turns wks w i :
  remaining <$> (schedule tryNoCache turns wks w).1 !! i =
  (λ wk, remaining wk - count_occ Nat.eq_dec turns i) <$> wks !! i.
Proof.
  revert wks w. induction turns as [|j turns IH]; intros wks w; simpl.
  { destruct (wks !! i); [|done]. simpl. by rewrite Nat.sub_0_r. }
  destruct (wks !! j) as [wk|] eqn:Hj.
  - pose proof (worker_step_remaining tryNoCache wk w) as Hr.
    destruct (worker_step tryNoCache wk w) as [wk' w']. rewrite IH. simpl in Hr.
    destruct (Nat.eq_dec j i) as [->|Hne].
    + rewrite list_lookup_insert_eq, Hj by by eapply lookup_lt_Some. simpl. f_equal. lia.
    + by rewrite list_lookup_insert_ne.
  - rewrite IH. destruct (Nat.eq_dec j i) as [->|Hne]; [by rewrite Hj|done].
Qed.

(** ** Properties *)

(** The workers before their first access. *)
Definition starts (jobs : list (string * list StoreType)) : list worker :=
  (λ job, Dropping job.1 job.2) <$> jobs.

Lemma starts_ok jobs w : world_ok w → workers_ok (starts jobs) w.
Proof. intros Hw. split; [done|]. apply Forall_fmap, Forall_true. by intros []. Qed.

Lemma starts_progress jobs w : Forall2 (progress w) jobs (starts jobs).
Proof. induction jobs as [|[uid scs] jobs IH]; constructor; [by split|exact IH]. Qed.

(** A worker that is alone does with its accesses what the handling of an
    addition or of an update does in one piece, in two accesses and three more
    for each store. *)
Lemma worker_alone `{!Yaml} event uid raw tryNoCache scs w :
  event = "addEvent" ∨ event = "updateEvent" → yaml_Unmarshal raw = (Some <$> scs, None) →
  schedule tryNoCache (replicate (2 + 3 * length scs) 0) [Dropping uid scs] w =
  ([Finished], handled_world event uid raw tryNoCache w).
Proof.
  intros Hevent Hy.
  assert (handled_world event uid raw tryNoCache w =
    build_world uid tryNoCache scs (drop_world uid w)) as ->.
  { unfold handled_world. rewrite Hy, omap_id_Some. by destruct Hevent as [->| ->]. }
  rewrite <- single_build. reflexivity.
Qed.

(** The workers that handle distinct resources do not disturb each other,
    without any lock: along every schedule that gives each worker its turns,
    each resource ends with exactly the stores of its configuration, in order. *)
Lemma distinct_resources_isolated tryNoCache turns jobs w :
  world_ok w → NoDup jobs.*1 →
  (∀ i uid scs, jobs !! i = Some (uid, scs) →
     2 + 3 * length scs <= count_occ Nat.eq_dec turns i) →
  let '(wks, w') := schedule tryNoCache turns (starts jobs) w in
  Forall (λ wk, wk = Finished) wks ∧
  ∀ uid scs, (uid, scs) ∈ jobs → built_at w' (entry uid w') scs.
Proof.
  intros Hw Hnd Hturns.
  pose proof (schedule_inv (λ wks w, workers_ok wks w ∧ Forall2 (progress w) jobs wks)
    tryNoCache turns (starts jobs) w) as Hinv.
  pose proof (schedule_remaining tryNoCache turns (starts jobs) w) as Hrem.
  destruct (schedule tryNoCache turns (starts jobs) w) as [wks w']. cbn [fst snd] in *.
  destruct Hinv as [_ Hp].
  { intros. by eapply progress_step. }
  { split; [by apply starts_ok|apply starts_progress]. }
  assert (∀ i wk, wks !! i = Some wk → wk = Finished) as Hfin.
  { intros i wk Hi. specialize (Hrem i). rewrite Hi in Hrem. unfold starts in Hrem.
    rewrite list_lookup_fmap in Hrem.
    destruct (jobs !! i) as [[uid scs]|] eqn:Hj; [|done]. injection Hrem as Hrem.
    apply remaining_Finished. specialize (Hturns _ _ _ Hj). simpl in *. lia. }
  split; [by apply Forall_lookup|]. intros uid scs [i Hi]%list_elem_of_lookup.
  destruct (Forall2_lookup_l _ _ _ _ _ Hp Hi) as (wk & Hk & Hprog).
  by rewrite (Hfin i wk Hk) in Hprog.
Qed.

(** Whatever the workers do to the map and in whatever order, on the same
    resource or not, at every moment all its pointers lead to well-formed
    stores, and a scrape runs to its end. *)
Lemma schedule_scrape_safe `{!MapRange} `{!Expfmt} {W} `{!IOWriter W}
    tryNoCache turns jobs w site r (resp : response W) :
  world_ok w →
  let w' := (schedule tryNoCache turns (starts jobs) w).2 in
  world_ok w' ∧ ∃ errs resp', metricsHandler site w' r resp = Done (errs, resp').
Proof.
  intros Hw w'. assert (world_ok w') as Hw'.
  { apply (schedule_inv workers_ok tryNoCache turns (starts jobs) w); [|by apply starts_ok].
    intros. by eapply workers_step_ok. }
  split; [done|]. by apply metricsHandler_total.
Qed.

(** C31: Two workers that handle two events of the same resource can lose a
    store or double it.  When both read the list before either writes it, the
    store built first is in no list, so that no scrape shows it, while its
    reflector runs; when both drop before either builds, the resource ends with
    the stores of both events. *)
Theorem same_resource_race tryNoCache uid sc1 sc2 w :
  world_ok w →
  (∃ turns w', schedule tryNoCache turns (starts [(uid, [sc1]); (uid, [sc2])]) w =
     ([Finished; Finished], w') ∧
     built_reflector tryNoCache sc1 (w_next w) ∈ w_reflectors w' ∧
     (∀ uid', w_next w ∉ entry uid' w') ∧ entry uid w' = [S (w_next w)]) ∧
  (∃ turns w', schedule tryNoCache turns (starts [(uid, [sc1]); (uid, [sc2])]) w =
     ([Finished; Finished], w') ∧ built_at w' (entry uid w') [sc1; sc2]).
Proof.
  intros Hw. set (d := drop_world uid (drop_world uid w)).
  assert (world_ok d) as Hd by by repeat apply drop_world_ok.
  assert (entry uid d = []) as He by apply entry_drop.
  assert (w_next d = w_next w) as <-.
  { unfold d, drop_world. by repeat (destruct (w_stores _ !! uid)). }
  set (b1 := add_built tryNoCache sc1 d). set (b2 := add_built tryNoCache sc2 b1). split.
  - exists [0; 1; 0; 1; 0; 1; 0; 1; 0; 1],
      (set_stores (<[uid := entry uid d ++ [S (w_next d)]]>
         (<[uid := entry uid d ++ [w_next d]]> (w_stores d))) b2).
    split; [reflexivity|]. split; [simpl; set_solver|]. rewrite He.
    assert (∀ uid', w_next d ∉ entry uid' d) as Hold.
    { intros uid' Hin. unfold entry in Hin. destruct (w_stores d !! uid') as [locs|] eqn:Hu;
        [|by apply not_elem_of_nil in Hin].
      pose proof (ok_stores _ Hd _ _ Hu) as Hl. rewrite Forall_forall in Hl.
      apply Hl, (ok_fresh _ Hd) in Hin. lia. }
    unfold entry. cbn [w_stores set_stores app]. rewrite insert_insert_eq, lookup_insert_eq.
    split; [|done]. intros uid'. destruct (decide (uid = uid')) as [<-|Hne].
    + rewrite lookup_insert_eq. simpl. intros Hin%list_elem_of_singleton. lia.
    + rewrite lookup_insert_ne by done. apply Hold.
  - exists [0; 1; 0; 0; 0; 1; 1; 1; 0; 1],
      (build_world uid tryNoCache [sc2] (build_world uid tryNoCache [sc1] d)).
    split; [by rewrite !build_world_add|]. rewrite !build_world_add, entry_set.
    cbn [w_stores set_stores]. fold (entry uid d). rewrite lookup_insert_eq, He.
    cbn [default from_option id app w_next set_stores]. constructor; [|constructor; [|constructor]].
    + cbn. rewrite lookup_insert_ne by lia. apply lookup_insert_eq.
    + cbn. apply lookup_insert_eq.
Qed.

(** ** Witnesses *)

Module RaceExample.
Export SystemExample.

Lemma worker_alone_witness :
  schedule false (replicate 5 0) [Dropping "uid-1" [config]] empty_world =
  ([Finished], handled_world "addEvent" "uid-1" "stores: [...]" false empty_world).
Proof.
  apply (worker_alone "addEvent" "uid-1" "stores: [...]" false [config] empty_world);
    [by left|reflexivity].
Defined.

(** Two resources, with two stores and one, in turns. *)
Definition jobs : list (string * list StoreType) :=
  [("uid-1", [config; config]); ("uid-2", [config])].

Definition turns : list nat := [0; 1; 0; 1; 0; 1; 0; 1; 0; 1; 0; 0; 0].

Lemma distinct_resources_isolated_witness :
  let '(wks, w') := schedule false turns (starts jobs) empty_world in
  Forall (λ wk, wk = Finished) wks ∧
  ∀ uid scs, (uid, scs) ∈ jobs → built_at w' (entry uid w') scs.
Proof.
  apply (distinct_resources_isolated false turns jobs empty_world).
  - apply empty_world_ok.
  - apply (bool_decide_unpack _). vm_compute. exact I.
  - intros [|[|[|i]]] uid scs [= <- <-]; vm_compute; lia.
Defined.

Lemma schedule_scrape_safe_witness :
  let w' := (schedule false turns (starts jobs) empty_world).2 in
  world_ok w' ∧
  ∃ errs resp', metricsHandler [] w' text_request (MkResponse None "") = Done (errs, resp').
Proof.
  apply (schedule_scrape_safe false turns jobs empty_world [] text_request (MkResponse None "")).
  apply empty_world_ok.
Defined.

Lemma same_resource_race_witness :
  ∃ turns w', schedule false turns (starts [("uid-1", [config]); ("uid-1", [config])]) empty_world =
    ([Finished; Finished], w') ∧ built_at w' (entry "uid-1" w') [config; config].
Proof.
  destruct (same_resource_race false "uid-1" config config empty_world empty_world_ok) as [_ Hd].
  exact Hd.
Defined.

End RaceExample.
