(* ===== verification/MapRace.v ===== *)
(** * The map of stores under the Go runtime ([internal/config.go], [internal/events.go], [internal/server.go])

    The map from resources to stores has no lock: the workers write to it, and
    the metrics handler iterates over it under a mutex of its own that nobody
    locks for writing.  [Race] takes each access to the map as one step.  Here a
    write takes time, from the moment it sets the flag [hashWriting] of the map
    to the moment it clears it, and the runtime ends the process at an access
    that finds the flag set.  A run that the runtime does not end is a run of
    [Race]; but two workers, or a worker and a scrape, can end the process,
    whatever resources they work on. *)
From S2P Require Import Prelude GoStrings Strconv GoSort Values Resolver Metric Family Store Writer Types Builder Events Probe Server System Race.

(** ** Accesses *)

(** A goroutine: a worker of [Race] between two accesses; a worker that has
    found the stores of its resource and is about to delete them; one in the
    middle of that delete, or of the assignment of a new list; or a handler
    with [n] more steps of its iteration over the map. *)
Inductive goroutine : Type :=
| Between (wk : worker)
| Found (uid : string) (scs : list StoreType)
| Deleting (uid : string) (scs : list StoreType)
| Assigning (uid : string) (locs : list nat) (scs : list StoreType)
| Iterating (n : nat).

(** The fatal errors of the runtime. *)
Inductive fatal : Type :=
| ConcurrentMapReadAndMapWrite
| ConcurrentMapWrites
| ConcurrentMapIterationAndMapWrite.

(** The flag of the map, and the world. *)
Record Runtime : Type := MkRuntime {
  rt_hashWriting : bool;
  rt_world : World;
}.

(** An access that finds the flag set ends the process. *)
Definition guarded {A} (rt : Runtime) (e : fatal) (a : A) : fatal + A :=
  if rt_hashWriting rt then inl e else inr a.

(** The next step of a goroutine.  [dropStores] reads the map and deletes what
    it finds; [build] reads the list of the resource and assigns the new one. *)
Definition goroutine_step (tryNoCache : bool) (g : goroutine) (rt : Runtime)
    : fatal + goroutine * Runtime :=
  let w := rt_world rt in
  match g with
  | Between (Dropping uid scs) =>
    guarded rt ConcurrentMapReadAndMapWrite
      (match w_stores w !! uid with
       | Some _ => Found uid scs
       | None => Between (Building uid scs)
       end, rt)
  | Found uid scs => guarded rt ConcurrentMapWrites (Deleting uid scs, MkRuntime true w)
  | Deleting uid scs => inr (Between (Building uid scs), MkRuntime false (drop_world uid w))
  | Between (Reading uid s scs) =>
    guarded rt ConcurrentMapReadAndMapWrite
      (Between (Writing uid (default [] (w_stores w !! uid) ++ [s]) scs), rt)
  | Between (Writing uid locs scs) =>
    guarded rt ConcurrentMapWrites (Assigning uid locs scs, MkRuntime true w)
  | Assigning uid locs scs =>
    inr (Between (Building uid scs), MkRuntime false (set_stores (<[uid := locs]> (w_stores w)) w))
  | Between wk =>
    let '(wk, w) := worker_step tryNoCache wk w in inr (Between wk, MkRuntime (rt_hashWriting rt) w)
  | Iterating 0 => inr (Iterating 0, rt)
  | Iterating (S n) => guarded rt ConcurrentMapIterationAndMapWrite (Iterating n, rt)
  end.

(** A run: the indices of the goroutines, in turn, up to a fatal error. *)
Fixpoint run (tryNoCache : bool) (turns : list nat) (gs : list goroutine) (rt : Runtime)
    : fatal + list goroutine * Runtime :=
  match turns with
  | [] => inr (gs, rt)
  | i :: turns =>
    match gs !! i with
    | None => run tryNoCache turns gs rt
    | Some g =>
      match goroutine_step tryNoCache g rt with
      | inl e => inl e
      | inr (g, rt) => run tryNoCache turns (<[i := g]> gs) rt
      end
    end
  end.

(** ** Lemmas *)

(** The worker of [Race] that a goroutine is; a handler does not write. *)
Definition worker_of (g : goroutine) : worker :=
  match g with
  | Between wk => wk
  | Found uid scs | Deleting uid scs => Dropping uid scs
  | Assigning uid locs scs => Writing uid locs scs
  | Iterating _ => Finished
  end.

(** A step is a step of the worker, or none of its. *)
Lemma goroutine_step_worker tryNoCache g rt g' rt' :
  goroutine_step tryNoCache g rt = inr (g', rt') →
  (worker_of g' = worker_of g ∧ rt_world rt' = rt_world rt) ∨
  worker_step tryNoCache (worker_of g) (rt_world rt) = (worker_of g', rt_world rt').
Proof.
  intros Hs. destruct g as [[uid scs|uid scs|uid s scs|uid locs scs|]|uid scs|uid scs|uid locs scs|[|n]];
    cbn -[worker_step] in Hs; unfold guarded in Hs.
  - destruct (rt_hashWriting rt); [done|].
    destruct (w_stores (rt_world rt) !! uid) eqn:Hu; injection Hs as <- <-; [by left|right].
    simpl. unfold drop_world. by rewrite Hu.
  - right. destruct scs as [|sc scs]; [by injection Hs as <- <-|].
    rewrite worker_step_build in *. by injection Hs as <- <-.
  - right. destruct (rt_hashWriting rt); [done|]. by injection Hs as <- <-.
  - left. destruct (rt_hashWriting rt); [done|]. by injection Hs as <- <-.
  - left. by injection Hs as <- <-.
  - left. destruct (rt_hashWriting rt); [done|]. by injection Hs as <- <-.
  - right. by injection Hs as <- <-.
  - right. by injection Hs as <- <-.
  - left. by injection Hs as <- <-.
  - left. destruct (rt_hashWriting rt); [done|]. by injection Hs as <- <-.
Qed.

Lemma run_app tryNoCache t1 t2 gs rt :
  run tryNoCache (t1 ++ t2) gs rt =
  match run tryNoCache t1 gs rt with
  | inl e => inl e
  | inr (gs, rt) => run tryNoCache t2 gs rt
  end.
Proof.
  revert gs rt. induction t1 as [|i t1 IH]; intros gs rt; [done|]. simpl.
  destruct (gs !! i) as [g|]; [|apply IH].
  destruct (goroutine_step tryNoCache g rt) as [e|[g' rt']]; [done|apply IH].
Qed.

(** Whether the next step of a goroutine is an access to the map. *)
Definition at_access (g : goroutine) : bool :=
  match g with
  | Between (Dropping _ _) | Between (Reading _ _ _) | Between (Writing _ _ _) | Found _ _ => true
  | Iterating (S _) => true
  | _ => false
  end.

Lemma at_access_fatal tryNoCache g w :
  at_access g = true → ∃ e, goroutine_step tryNoCache g (MkRuntime true w) = inl e.
Proof. destruct g as [[]|? ?|? ?|? ? ?|[|n]]; try done; intros _; by eexists. Qed.

(** A worker that is alone comes to the assignment of its first store. *)
Lemma first_assignment tryNoCache uid sc scs gs w :
  ∃ turns locs w', run tryNoCache turns (Between (Dropping uid (sc :: scs)) :: gs) (MkRuntime false w) =
    inr (Assigning uid locs scs :: gs, MkRuntime true w').
Proof.
  assert (∀ w1, ∃ turns locs w', run tryNoCache turns (Between (Building uid (sc :: scs)) :: gs)
      (MkRuntime false w1) = inr (Assigning uid locs scs :: gs, MkRuntime true w')) as Hbuild.
  { intros w1. eexists [0; 0; 0], _, _. reflexivity. }
  destruct (w_stores w !! uid) as [locs|] eqn:Hu.
  - destruct (Hbuild (drop_world uid w)) as (turns & locs' & w' & Hrun).
    exists (0 :: 0 :: 0 :: turns), locs', w'. cbn -[drop_world]. rewrite Hu. exact Hrun.
  - destruct (Hbuild w) as (turns & locs' & w' & Hrun).
    exists (0 :: turns), locs', w'. cbn. rewrite Hu. exact Hrun.
Qed.

(** ** Properties *)

(** A run that the runtime does not end is a schedule of [Race]: the accesses
    that it makes one by one are then as good as atomic. *)
Lemma run_is_schedule tryNoCache turns gs rt gs' rt' :
  run tryNoCache turns gs rt = inr (gs', rt') →
  ∃ turns', schedule tryNoCache turns' (worker_of <$> gs) (rt_world rt) =
    (worker_of <$> gs', rt_world rt').
Proof.
  revert gs rt. induction turns as [|i turns IH]; intros gs rt Hrun; simpl in Hrun.
  { injection Hrun as <- <-. by exists []. }
  destruct (gs !! i) as [g|] eqn:Hi; [|by apply IH].
  destruct (goroutine_step tryNoCache g rt) as [e|[g1 rt1]] eqn:Hs; [done|].
  destruct (IH _ _ Hrun) as [turns' Hsched]. rewrite list_fmap_insert in Hsched.
  assert ((worker_of <$> gs) !! i = Some (worker_of g)) as Hwi by by rewrite list_lookup_fmap, Hi.
  destruct (goroutine_step_worker _ _ _ _ _ Hs) as [[Hg Hw]|Hstep].
  - exists turns'. by rewrite Hg, Hw, list_insert_id in Hsched.
  - exists (i :: turns'). simpl. rewrite Hwi, Hstep. exact Hsched.
Qed.

(** A worker without others and without scrapes is never ended. *)
Lemma alone_not_fatal tryNoCache turns wk w :
  ∃ g' rt', run tryNoCache turns [Between wk] (MkRuntime false w) = inr ([g'], rt').
Proof.
  assert (∀ g rt, rt_hashWriting rt = match g with Deleting _ _ | Assigning _ _ _ => true | _ => false end →
    ∃ g' rt', run tryNoCache turns [g] rt = inr ([g'], rt')) as Hrun; [|by apply Hrun].
  induction turns as [|[|i] turns IH]; intros g rt Hflag; cbn -[goroutine_step]; [by eexists _, _| |by apply IH].
  destruct g as [[uid scs|uid scs|uid s scs|uid locs scs|]|uid scs|uid scs|uid locs scs|[|n]];
    cbn -[worker_step]; unfold guarded; rewrite ?Hflag; try by apply IH.
  - by destruct (w_stores (rt_world rt) !! uid); apply IH.
  - destruct (worker_step _ _ _). by apply IH.
Qed.

(** C32: The map of stores is not safe for the goroutines that use it.  While a
    worker builds the first store of a resource, any other goroutine that is
    about to access the map, be it a worker on another resource or a handler
    that iterates over it for a scrape, can find the map being written to, and
    the runtime then ends the process. *)
Theorem map_race_fatal tryNoCache uid sc scs g w :
  at_access g = true →
  ∃ turns e, run tryNoCache turns [Between (Dropping uid (sc :: scs)); g] (MkRuntime false w) = inl e.
Proof.
  intros Hg. destruct (first_assignment tryNoCache uid sc scs [g] w) as (turns & locs & w' & Hrun).
  destruct (at_access_fatal tryNoCache g w' Hg) as [e He].
  exists (turns ++ [1]), e. rewrite run_app, Hrun. simpl. by rewrite He.
Qed.

(** ** Witnesses *)

Module MapRaceExample.
Export RaceExample.

Lemma run_is_schedule_witness :
  ∃ gs' rt' turns',
    run false [0; 1; 0; 0] [Between (Dropping "uid-1" [config]); Iterating 1] (MkRuntime false empty_world) =
      inr (gs', rt') ∧
    schedule false turns' [Dropping "uid-1" [config]; Finished] empty_world =
      (worker_of <$> gs', rt_world rt').
Proof.
  destruct (run_is_schedule false [0; 1; 0; 0] [Between (Dropping "uid-1" [config]); Iterating 1]
    (MkRuntime false empty_world) _ _ eq_refl) as [turns' H].
  eexists _, _, turns'. split; [reflexivity|exact H].
Defined.

Lemma map_race_fatal_witness :
  ∃ turns e, run false turns [Between (Dropping "uid-1" [config]); Iterating 1]
    (MkRuntime false empty_world) = inl e.
Proof. apply (map_race_fatal false "uid-1" config [] (Iterating 1) empty_world). reflexivity. Defined.
End MapRaceExample.
