(* ===== verification/Pipeline.v ===== *)
(** * The pipeline: from the informer to the scrape

    The informer's handlers, the queue, the workers, the reflectors and the main
    server together.  The state is that of the controller ([Controller.Ctl]) and
    the items that workers are processing; a step is what any of the parts
    does, or a change of the cluster by somebody else.  The handling of an item
    is one step here; [Race] takes the accesses of two of them apart. *)
From S2P Require Import Prelude GoStrings Strconv GoSort Values Resolver Metric Family Store Writer Types Builder Events Workqueue Controller Probe Server System.

Record state (E : Type) : Type := MkState {
  st_ctl : Ctl E;
  st_flight : list item;
}.
Arguments MkState {E} _ _.
Arguments st_ctl {E} _.
Arguments st_flight {E} _.

Section pipeline.
Context `{!SortSlice} `{!MapRange} `{!CEL} (Obj : Type) `{!KubeObject Obj}.
Context {E : Type} `{!API E} `{!APILaws E} `{!Lister E} `{!BuildInfo} `{!Yaml}.
Context (P : StoreType → Prop) (tryNoCache : bool).

(** The configurations on the server that can be decoded have stores as [P]
    wants them, none of them null. *)
Definition allowed (e : E) : Prop :=
  ∀ k uid raw cs, specs e !! k = Some (uid, raw) → yaml_Unmarshal raw = (cs, None) →
    ∃ scs, cs = Some <$> scs ∧ Forall P scs.

(** ** Steps *)

(** What happens to the queue alone: the informer's handlers, the timers of the
    retries, and the shutdown. *)
Inductive queue_event : queue → queue → Prop :=
| event_add obj q : queue_event q (AddFunc obj q)
| event_update old new q : queue_event q (UpdateFunc old new q)
| event_delete obj q : queue_event q (DeleteFunc obj q)
| event_fire i q : queue_event q (fire i q)
| event_shutdown q : queue_event q (ShutDown q).

Inductive step : state E → state E → Prop :=
| step_queue q q' s fl :
  queue_event q q' → step (MkState (MkCtl q s) fl) (MkState (MkCtl q' s) fl)
| step_take x q q' s fl :
  Get q = Item x q' → step (MkState (MkCtl q s) fl) (MkState (MkCtl q' s) (fl ++ [x]))
| step_handle i x bucket c c' fl :
  fl !! i = Some x → process_item bucket x tryNoCache c = (Done tt, c') →
  step (MkState c fl) (MkState c' (delete i fl))
| step_store i r site (op : store_op Obj) st res st' q w e fl :
  w_reflectors w !! i = Some r → w_heap w !! refl_store r = Some st →
  store_apply site op st = Done (res, st') →
  step (MkState (MkCtl q (MkSys w e)) fl)
    (MkState (MkCtl q (MkSys (update_heap (refl_store r) st' w) e)) fl)
| step_cluster q w e e' fl :
  allowed e' → step (MkState (MkCtl q (MkSys w e)) fl) (MkState (MkCtl q (MkSys w e')) fl).

(** The controller when it starts. *)
Definition initial (e : E) : state E := MkState (MkCtl newQueue (MkSys empty_world e)) [].

(** [for c.processNextWorkItem(ctx) {}], for at most [n] items: the number
    processed. *)
Fixpoint process_items (bucket : Z) (n : nat) (c : Ctl E) : nat * outcome (Ctl E) :=
  match n with
  | O => (0, Done c)
  | S n =>
    match processNextWorkItem bucket tryNoCache c with
    | (Done (Some true), c') => let '(m, o) := process_items bucket n c' in (S m, o)
    | (Done _, c') => (0, Done c')
    | (Panicked p, _) => (0, Panicked p)
    end
  end.

(** ** The invariant *)

(** The queue knows which items are being processed, the world is one that
    [System] reaches, and the cluster is as it should be. *)
Record state_ok (st : state E) : Prop := {
  st_queue : queue_ok (ctl_queue (st_ctl st));
  st_nodup : NoDup (st_flight st);
  st_processing x : x ∈ st_flight st ↔ x ∈ q_processing (ctl_queue (st_ctl st));
  st_world : reachable Obj P (sys_world (ctl_sys (st_ctl st)));
  st_allowed : allowed (sys_env (ctl_sys (st_ctl st)));
}.

Lemma allowed_buildable e : allowed e → all_buildable e.
Proof.
  intros Ha k uid raw Hk cs Hy. destruct (Ha k uid raw cs Hk Hy) as (scs & -> & _). by exists scs.
Qed.

Lemma allowed_specs e e' : specs e' = specs e → allowed e → allowed e'.
Proof. intros Hs Ha k uid raw cs. rewrite Hs. apply Ha. Qed.

(** What the handling of a key comes to, for the world and for the cluster. *)
Definition handles (event : string) (s s' : Sys E) : Prop :=
  specs (sys_env s') = specs (sys_env s) ∧
  (sys_world s' = sys_world s ∨ ∃ k uid raw, specs (sys_env s) !! k = Some (uid, raw) ∧
     sys_world s' = handled_world event uid raw tryNoCache (sys_world s)).

Lemma wp_handleObject_handles o event (s : Sys E) :
  all_buildable (sys_env s) →
  wp (handleObject o event tryNoCache) (λ _ s', handles event s s') s.
Proof.
  intros Hb.
  assert (∀ r, wp (handleEvent event (CRDObject r) tryNoCache) (λ _ s', handles event s s') s) as He.
  { intros r. apply (wp_mono _ _ _ _ (wp_and _ _ _ _ (handleEvent_safe event r tryNoCache s (Hb _))
                                        (wp_handleEvent_specs event r tryNoCache s (Hb _)))).
    intros _ s' [[_ Hw] Hs]. split; [done|]. destruct Hw as [?|(uid & raw & ? & _ & ?)]; [by left|].
    right. by eexists _, uid, raw. }
  destruct o as [|[r|]|[[r|]|]|]; try apply He; (split; [done|by left]).
Qed.

Lemma wp_syncHandler_handles key event (s : Sys E) :
  all_buildable (sys_env s) →
  wp (syncHandler key event tryNoCache) (λ _ s', handles event s s') s.
Proof.
  intros Hb. unfold syncHandler. destruct (SplitMetaNamespaceKey key) as [[ns n]|e];
    [|wp_step; split; [done|by left]].
  wp_step. apply wp_on_env. intros a e [= <- <-].
  destruct (lister_Get ns n (sys_env s)) as [r|[|err]]; cbv iota;
    [by apply (wp_handleObject_handles _ _ (MkSys _ _))..|wp_step; split; [done|by left]].
Qed.

(** An item that is taken is processed without a panic, and is marked done. *)
Lemma process_item_Done bucket x (c : Ctl E) :
  all_buildable (sys_env (ctl_sys c)) →
  ∃ s' q', process_item bucket x tryNoCache c = (Done tt, MkCtl (Finish x q') s') ∧
    handles x.2 (ctl_sys c) s' ∧ q_processing q' = q_processing (ctl_queue c) ∧
    (queue_ok (ctl_queue c) → queue_ok q') ∧
    q_queue q' = q_queue (ctl_queue c) ∧ q_dirty q' = q_dirty (ctl_queue c).
Proof.
  intros Hb. unfold process_item.
  pose proof (wp_syncHandler_handles x.1 x.2 (ctl_sys c) Hb) as Hh. unfold wp in Hh.
  destruct (syncHandler _ _ _ _) as [[[err|]|p] s']; [| |done].
  - exists s', (AddRateLimited bucket x (ctl_queue c)). split; [done|]. split; [done|].
    pose proof (backoff_pos (NumRequeues x (ctl_queue c))) as Hpos.
    unfold AddRateLimited, AddAfter, When. simpl.
    destruct (q_shuttingDown (ctl_queue c)); [by split_and!; [|apply set_failures_ok| |]|].
    destruct (Z.leb_spec (Z.max (backoff (NumRequeues x (ctl_queue c))) bucket) 0) as [Hle|_].
    + unfold baseDelay, Millisecond in Hpos. lia.
    + by split_and!.
  - exists s', (Forget x (ctl_queue c)). by split_and!.
Qed.

Lemma handles_steps event s s' :
  allowed (sys_env s) → handles event s s' →
  rtc (world_step Obj P) (sys_world s) (sys_world s').
Proof.
  intros Ha [_ [->|(k & uid & raw & Hk & ->)]]; [apply rtc_refl|].
  apply handled_world_steps. intros cs Hy. destruct (Ha _ _ _ _ Hk Hy) as (scs & -> & HP).
  by rewrite omap_id_Some.
Qed.

Lemma queue_event_steps q q' : queue_event q q' → rtc queue_step q q' ∧ q_processing q' = q_processing q.
Proof.
  assert (∀ x q, rtc queue_step q (Add x q) ∧ q_processing (Add x q) = q_processing q) as HAdd.
  { intros x q0. split; [apply rtc_once, step_Add|].
    unfold Add. destruct (q_shuttingDown q0); [done|]. by repeat case_decide. }
  assert (∀ obj e q, rtc queue_step q (enqueueCRDMetrics obj e q) ∧
    q_processing (enqueueCRDMetrics obj e q) = q_processing q) as Hen.
  { intros obj e q0. unfold enqueueCRDMetrics. destruct (MetaNamespaceKeyFunc obj); [apply HAdd|done]. }
  intros [obj q0|old new q0|obj q0|i q0|q0]; try apply Hen.
  - unfold UpdateFunc. repeat case_match; try apply Hen; done.
  - split; [apply rtc_once, step_fire|]. unfold fire. destruct (q_waiting q0 !! i) as [[x d]|]; [|done].
    by rewrite (proj2 (HAdd x _)).
  - split; [apply rtc_once, step_ShutDown|done].
Qed.

Lemma queue_steps_ok q q' : rtc queue_step q q' → queue_ok q → queue_ok q'.
Proof. induction 1; eauto using queue_step_ok. Qed.

Lemma step_ok st st' : step st st' → state_ok st → state_ok st'.
Proof.
  intros [q q' s fl Hq|x q q' s fl Hg|i x bucket [q s] c' fl Hi Hp|
          i r site op t res t' q w e fl Hi Ht Hop|q w e e' fl He] [Hok Hnd Hfl Hw Ha]; simpl in *.
  - destruct (queue_event_steps _ _ Hq) as [Hs Hpr].
    split; simpl; [by eapply queue_steps_ok|done| |done|done]. by rewrite Hpr.
  - destruct (Get_ok _ _ _ Hok Hg) as [Hok' _]. destruct (Get_exclusive _ _ _ Hok Hg) as [Hx Hpr].
    split; simpl; [done| | |done|done].
    + apply NoDup_app. split; [done|]. split; [|apply NoDup_singleton].
      intros y Hy ->%list_elem_of_singleton. by apply Hx, Hfl.
    + intros y. rewrite elem_of_app, list_elem_of_singleton, Hfl, Hpr. set_solver.
  - destruct (process_item_Done bucket x (MkCtl q s) (allowed_buildable _ Ha))
      as (s' & q' & Heq & Hh & Hpr & Hok' & _ & _).
    rewrite Hp in Heq. injection Heq as ->. simpl in *.
    assert (x ∈ q_processing q') as Hx by (rewrite Hpr; apply Hfl; by eapply list_elem_of_lookup_2).
    destruct (NoDup_delete fl i x Hnd Hi) as [Hnd' Hin]. split; simpl.
    + apply Finish_ok; [done|by apply Hok'].
    + done.
    + intros y. rewrite Hin, Hfl, <- Hpr, Finish_processing. set_solver.
    + unfold reachable. etrans; [exact Hw|]. by eapply handles_steps.
    + eapply allowed_specs; [apply Hh|exact Ha].
  - split; simpl; try done. eapply rtc_r; [exact Hw|]. by eapply step_reflect.
  - by split.
Qed.

(** Each step is steps of the world. *)
Lemma step_world_steps st st' :
  step st st' → allowed (sys_env (ctl_sys (st_ctl st))) →
  rtc (world_step Obj P) (sys_world (ctl_sys (st_ctl st))) (sys_world (ctl_sys (st_ctl st'))).
Proof.
  intros [q q' s fl Hq|x q q' s fl Hg|i x bucket [q s] c' fl Hi Hp|
          i r site op t res t' q w e fl Hi Ht Hop|q w e e' fl He] Ha; simpl in *;
    try apply rtc_refl.
  - destruct (process_item_Done bucket x (MkCtl q s) (allowed_buildable _ Ha))
      as (s' & q' & Heq & Hh & _).
    rewrite Hp in Heq. injection Heq as ->. by eapply handles_steps.
  - apply rtc_once. by eapply step_reflect.
Qed.

Lemma steps_world_steps st st' :
  rtc step st st' → state_ok st →
  rtc (world_step Obj P) (sys_world (ctl_sys (st_ctl st))) (sys_world (ctl_sys (st_ctl st'))).
Proof.
  induction 1 as [|st st1 st' Hs _ IH]; intros Hok; [done|].
  etrans; [by apply step_world_steps, Hok|]. by eapply IH, step_ok.
Qed.

Lemma initial_ok e : allowed e → state_ok (initial e).
Proof.
  intros He. split; simpl; [apply newQueue_ok|constructor| |apply rtc_refl|done].
  intros x. rewrite elem_of_nil. set_solver.
Qed.

Lemma reachable_state_ok e st : allowed e → rtc step (initial e) st → state_ok st.
Proof.
  intros He%initial_ok Hr. revert He. generalize (initial e) st Hr.
  induction 1; eauto using step_ok.
Qed.

(** A worker that takes an item when nothing else is in the queue's hands. *)
Lemma process_next_Done bucket (c : Ctl E) x rest :
  queue_ok (ctl_queue c) → q_processing (ctl_queue c) = ∅ → q_queue (ctl_queue c) = x :: rest →
  all_buildable (sys_env (ctl_sys c)) →
  ∃ q' s', processNextWorkItem bucket tryNoCache c = (Done (Some true), MkCtl q' s') ∧
    queue_ok q' ∧ q_processing q' = ∅ ∧ q_queue q' = rest ∧ handles x.2 (ctl_sys c) s'.
Proof.
  intros Hok Hpr Hq Hb. unfold processNextWorkItem.
  assert (∃ q1, Get (ctl_queue c) = Item x q1 ∧ q_queue q1 = rest ∧
    q_dirty q1 = q_dirty (ctl_queue c) ∖ {[x]}) as (q1 & Hg & Hq1 & Hd1).
  { unfold Get. rewrite Hq. by eexists. }
  destruct (Get_ok _ _ _ Hok Hg) as [Hok1 _], (Get_exclusive _ _ _ Hok Hg) as [Hx Hp1].
  rewrite Hg. unfold mbind, M_bind.
  destruct (process_item_Done bucket x (MkCtl q1 (ctl_sys c)) Hb)
    as (s' & q2 & -> & Hh & Hp2 & Hok2 & Hq2 & Hd2).
  simpl in *. eexists _, s'. split; [reflexivity|].
  assert (x ∈ q_processing q2) as Hx2 by (rewrite Hp2, Hp1; set_solver).
  split; [by apply Finish_ok, Hok2|]. rewrite Finish_processing, Hp2, Hp1, Hpr.
  split; [set_solver|]. split; [|done]. unfold Finish. rewrite decide_False; [simpl; congruence|].
  rewrite Hd2, Hd1. set_solver.
Qed.

Lemma process_items_Done bucket n (c : Ctl E) :
  queue_ok (ctl_queue c) → q_processing (ctl_queue c) = ∅ → length (q_queue (ctl_queue c)) <= n →
  all_buildable (sys_env (ctl_sys c)) →
  ∃ c', process_items bucket n c = (length (q_queue (ctl_queue c)), Done c') ∧
    q_queue (ctl_queue c') = [] ∧ q_processing (ctl_queue c') = ∅ ∧
    specs (sys_env (ctl_sys c')) = specs (sys_env (ctl_sys c)).
Proof.
  revert c. induction n as [|n IH]; intros c Hok Hpr Hlen Hb; cbn [process_items].
  { assert (q_queue (ctl_queue c) = []) as Hq by (apply length_zero_iff_nil; lia).
    exists c. rewrite Hq. by split_and!. }
  destruct (q_queue (ctl_queue c)) as [|x rest] eqn:Hq.
  - exists c. unfold processNextWorkItem, Get. rewrite Hq.
    destruct (q_shuttingDown (ctl_queue c)); by split_and!.
  - destruct (process_next_Done bucket c x rest Hok Hpr Hq Hb) as (q' & s' & -> & Hok' & Hpr' & Hq' & Hs & _).
    destruct (IH (MkCtl q' s')) as (c' & Heq & Hc & Hcp & Hsp); simpl; try done.
    + simpl in Hlen. rewrite Hq'. lia.
    + intros k uid raw. rewrite Hs. apply Hb.
    + rewrite Heq. simpl. exists c'. rewrite Hq'. split_and!; try done. simpl in Hsp. congruence.
Qed.

(** ** Properties *)

(** C5: Nothing panics in the running controller.  Start it on a cluster whose
    configurations have no null item and a key for each label value, and take
    any steps: informer events, retries, workers that take and process items,
    reflectors, scrapes, changes of the cluster that keep it so.  Then every
    item in the hands of a worker can be processed to its end, no two workers
    have the same item, every reflector can do any operation on its store, and
    every scrape is served. *)
Theorem controller_never_panics `{!Expfmt} {W} `{!IOWriter W} e st :
  (∀ sc, P sc → store_covered sc) → allowed e → rtc step (initial e) st →
  let c := st_ctl st in
  let w := sys_world (ctl_sys c) in
  NoDup (st_flight st) ∧
  (∀ x bucket, x ∈ st_flight st → ∃ c', process_item bucket x tryNoCache c = (Done tt, c')) ∧
  (∀ i r site (op : store_op Obj), w_reflectors w !! i = Some r →
     ∃ s res s', w_heap w !! refl_store r = Some s ∧ store_apply site op s = Done (res, s')) ∧
  (∀ site r (resp : response W), ∃ errs resp', metricsHandler site w r resp = Done (errs, resp')).
Proof.
  intros HP He Hst c w. destruct (reachable_state_ok e st He Hst) as [Hok Hnd Hfl Hw Ha].
  split; [done|]. split_and!.
  - intros x bucket _. destruct (process_item_Done bucket x c (allowed_buildable _ Ha))
      as (s' & q' & Heq & _). by eexists.
  - intros i r site op Hi. by eapply reflector_total.
  - intros site r resp. by eapply metricsHandler_total, reachable_ok.
Qed.

(** A worker empties the queue.  When no other worker has an item, its loop
    processes each queued item once, whatever the lister and the server answer,
    also while the queue shuts down. *)
Lemma worker_drains bucket (c : Ctl E) :
  queue_ok (ctl_queue c) → q_processing (ctl_queue c) = ∅ → all_buildable (sys_env (ctl_sys c)) →
  ∃ c', process_items bucket (length (q_queue (ctl_queue c))) c =
      (length (q_queue (ctl_queue c)), Done c') ∧
    q_queue (ctl_queue c') = [] ∧ q_processing (ctl_queue c') = ∅.
Proof.
  intros Hok Hpr Hb.
  destruct (process_items_Done bucket (length (q_queue (ctl_queue c))) c Hok Hpr (le_n _) Hb)
    as (c' & Heq & Hq & Hp & _).
  by exists c'.
Qed.
End pipeline.

(** ** From a resource to a scrape *)

(** Each store after the operations of its reflector. *)
Definition after_run `{!SortSlice} `{!MapRange} `{!CEL} {Obj} `{!KubeObject Obj}
    (sc : StoreType) (ops : list (store_op Obj)) (s : StoreType) : Prop :=
  store_run 0 ops (built_store sc) = Done s.

Section end_to_end.
Context `{!SortSlice} `{!MapRange} `{!CEL} (Obj : Type) `{!KubeObject Obj} `{!Expfmt}.
Context {E : Type} `{!API E} `{!APILaws E} `{!Reliable E} `{!Lister E} `{!BuildInfo} `{!Yaml}.

(** The item of an event of a resource that the server holds. *)
Lemma process_known bucket event (r0 r : CRDMetricsResource) tryNoCache (c : Ctl E) :
  let x := (object_key (res_Namespace r0) (res_Name r0), event) in
  Count (res_Namespace r0) "/" = 0 → Count (res_Name r0) "/" = 0 →
  lister_Get (res_Namespace r0) (res_Name r0) (sys_env (ctl_sys c)) = Ok r0 →
  holds (sys_env (ctl_sys c)) (res_Namespace r0, res_Name r0) r →
  buildable (res_Configuration r) → res_Configuration r ≠ "" →
  ∃ s', process_item bucket x tryNoCache c = (Done tt, MkCtl (Finish x (Forget x (ctl_queue c))) s') ∧
    sys_world s' = handled_world event (res_UID r) (res_Configuration r) tryNoCache
                     (sys_world (ctl_sys c)).
Proof.
  intros x Hns Hn Hl Hr Hb Hne. unfold process_item.
  assert (wp (syncHandler x.1 x.2 tryNoCache) (λ err s', err = None ∧
    sys_world s' = handled_world event (res_UID r) (res_Configuration r) tryNoCache
                     (sys_world (ctl_sys c))) (ctl_sys c)) as Hwp.
  { unfold syncHandler, x. cbn [fst snd]. rewrite split_object_key by done.
    wp_step. apply wp_on_env. intros a e [= <- <-]. rewrite Hl. cbv iota.
    change (handleObject (HandledMeta (CRDObject r0)) event tryNoCache)
      with (handleEvent event (CRDObject r0) tryNoCache).
    pose proof (reliable_handleEvent event r0 r tryNoCache (ctl_sys c) Hr (λ _, Hb)) as He.
    cbv zeta in He. rewrite decide_False in He by exact Hne.
    destruct c as [q0 [w0 e0]]. apply (wp_mono _ _ _ _ He). by intros err s' (-> & Hw & _). }
  unfold wp in Hwp. destruct (syncHandler _ _ _ _) as [[err|p] s']; [|done].
  destruct Hwp as [-> Hw]. by exists s'.
Qed.

(** A first resource, in an empty world. *)
Lemma built_first uid tryNoCache scs :
  scs ≠ [] →
  let w := build_world uid tryNoCache scs (drop_world uid empty_world) in
  w_stores w = {[uid := seq 0 (length scs)]} ∧ w_heap w = map_seq 0 (built_store <$> scs).
Proof.
  intros Hne. assert (drop_world uid empty_world = empty_world) as -> by reflexivity.
  destruct scs as [|sc scs]; [done|]. split; [done|].
  unfold build_world. cbn [w_heap w_next empty_world]. by rewrite (right_id_L ∅ (∪)).
Qed.

Lemma deref_seq w stores n :
  w_heap w = map_seq 0 stores → n = length stores → deref w (seq 0 n) = Done stores.
Proof.
  intros Hh ->. unfold deref. rewrite Hh. clear Hh.
  assert (∀ pre suf, stores = pre ++ suf →
    mapM (λ l, match (map_seq 0 stores : gmap nat StoreType) !! l with
               | Some s => Done s
               | None => Panicked NilDereference
               end) (seq (length pre) (length suf)) = Done suf) as Hgen.
  { intros pre suf. revert pre. induction suf as [|s suf IH]; intros pre Heq; [done|].
    assert ((map_seq 0 stores : gmap nat StoreType) !! length pre = Some s) as Hl.
    { rewrite lookup_map_seq_0, Heq. apply list_lookup_middle. done. }
    simpl. rewrite Hl. specialize (IH (pre ++ [s])). rewrite length_app, Nat.add_comm in IH.
    simpl in IH. rewrite IH; [done|]. by rewrite <- app_assoc. }
  apply (Hgen [] stores eq_refl).
Qed.

(** The scrape of a single resource. *)
Lemma scrape_single site w req uid stores :
  w_stores w = {[uid := seq 0 (length stores)]} → w_heap w = map_seq 0 stores →
  Forall store_wf stores →
  metricsHandler site w req (MkResponse None "") =
  Done ([], MkResponse (if negotiated_TextPlain req then None else Some text_format)
              (exposition (site ++ [0]) stores)).
Proof.
  intros Hst Hh Hwf. unfold metricsHandler.
  assert (range site (w_stores w) = [(uid, seq 0 (length stores))]) as ->.
  { apply Permutation_singleton_r. by rewrite range_perm, Hst, map_to_list_singleton. }
  rewrite write_resources_buffer.
  - cbn. unfold stores_of. rewrite (deref_seq w stores _ Hh eq_refl), append_nil_r, append_nil_l.
    by destruct (negotiated_TextPlain req).
  - intros l st. rewrite Hh, lookup_map_seq_0. apply Forall_lookup_1, Hwf.
  - constructor; [|done]. simpl. apply Forall_forall. intros l Hin%elem_of_seq.
    rewrite Hh, lookup_map_seq_0. apply lookup_lt_is_Some. lia.
Qed.

Lemma after_run_wf scs runs stores : Forall3 (after_run (Obj := Obj)) scs runs stores → Forall store_wf stores.
Proof.
  induction 1 as [|sc ops st scs runs stores Hrun _ IH]; constructor; [|done].
  apply (store_run_inv _ _ _ _ Hrun), built_store_wf.
Qed.

(** A reported resource is handled at the first call: its stores are built. *)
Lemma resource_built bucket (r0 r : CRDMetricsResource) tryNoCache q (s : Sys E) scs :
  let x := (object_key (res_Namespace r0) (res_Name r0), "addEvent") in
  q_queue q = [] → x ∉ q_dirty q → x ∉ q_processing q → q_shuttingDown q = false →
  Count (res_Namespace r0) "/" = 0 → Count (res_Name r0) "/" = 0 →
  lister_Get (res_Namespace r0) (res_Name r0) (sys_env s) = Ok r0 →
  holds (sys_env s) (res_Namespace r0, res_Name r0) r →
  res_Configuration r ≠ "" →
  yaml_Unmarshal (res_Configuration r) = (Some <$> scs, None) →
  ∃ c', processNextWorkItem bucket tryNoCache (MkCtl (AddFunc (InformerCRD r0) q) s) =
      (Done (Some true), c') ∧
    q_queue (ctl_queue c') = [] ∧ x ∉ q_processing (ctl_queue c') ∧
    sys_world (ctl_sys c') =
      build_world (res_UID r) tryNoCache scs (drop_world (res_UID r) (sys_world s)).
Proof.
  intros x Hq Hd Hp Hsd Hns Hn Hl Hr Hne Hy.
  assert (Get (AddFunc (InformerCRD r0) q) =
    Item x (MkQueue [] (({[x]} ∪ q_dirty q) ∖ {[x]}) ({[x]} ∪ q_processing q) (q_shuttingDown q)
              (q_waiting q) (q_failures q))) as Hg.
  { unfold AddFunc, enqueueCRDMetrics. simpl. fold x. unfold Add.
    rewrite Hsd, decide_False by exact Hd. rewrite decide_False by exact Hp. by rewrite Hq. }
  assert (buildable (res_Configuration r)) as Hb.
  { intros cs Hcs. rewrite Hy in Hcs. injection Hcs as <-. by exists scs. }
  unfold processNextWorkItem. cbn [ctl_queue ctl_sys]. rewrite Hg. unfold mbind, M_bind.
  destruct (process_known bucket "addEvent" r0 r tryNoCache (MkCtl (MkQueue []
    (({[x]} ∪ q_dirty q) ∖ {[x]}) ({[x]} ∪ q_processing q) (q_shuttingDown q)
    (q_waiting q) (q_failures q)) s) Hns Hn Hl Hr Hb Hne) as (s' & Heq & Hs').
  fold x in Heq. rewrite Heq. eexists. split; [reflexivity|]. cbn [ctl_queue ctl_sys]. split_and!.
  - unfold Finish, Forget. cbn. rewrite decide_False by set_solver. done.
  - rewrite Finish_processing. set_solver.
  - rewrite Hs'. cbn [ctl_sys]. unfold handled_world. simpl. by rewrite Hy, omap_id_Some.
Qed.

(** A resource that the informer reports is scraped.  On a server that
    answers, with an idle queue and a cache that has the resource, the item of
    its addition is processed at the first call; the reflectors then do their
    operations; and a scrape is the exposition of the stores that the
    configuration on the server describes, after those operations, one for each
    of its stores and in its order. *)
Lemma resource_to_scrape bucket (r0 r : CRDMetricsResource) tryNoCache q (s : Sys E)
    scs (runs : list (list (store_op Obj))) stores site req :
  let x := (object_key (res_Namespace r0) (res_Name r0), "addEvent") in
  q_queue q = [] → x ∉ q_dirty q → x ∉ q_processing q → q_shuttingDown q = false →
  Count (res_Namespace r0) "/" = 0 → Count (res_Name r0) "/" = 0 →
  lister_Get (res_Namespace r0) (res_Name r0) (sys_env s) = Ok r0 →
  holds (sys_env s) (res_Namespace r0, res_Name r0) r →
  res_Configuration r ≠ "" → scs ≠ [] →
  yaml_Unmarshal (res_Configuration r) = (Some <$> scs, None) →
  sys_world s = empty_world →
  Forall3 after_run scs runs stores →
  ∃ c', processNextWorkItem bucket tryNoCache (MkCtl (AddFunc (InformerCRD r0) q) s) =
      (Done (Some true), c') ∧
    q_queue (ctl_queue c') = [] ∧ x ∉ q_processing (ctl_queue c') ∧
    w_heap (sys_world (ctl_sys c')) = map_seq 0 (built_store <$> scs) ∧
    metricsHandler site (set_heap (map_seq 0 stores) (sys_world (ctl_sys c'))) req
      (MkResponse None "") =
    Done ([], MkResponse (if negotiated_TextPlain req then None else Some text_format)
                (exposition (site ++ [0]) stores)).
Proof.
  intros x Hq Hd Hp Hsd Hns Hn Hl Hr Hne Hscs Hy Hw Hfed.
  destruct (resource_built bucket r0 r tryNoCache q s scs Hq Hd Hp Hsd Hns Hn Hl Hr Hne Hy)
    as (c' & Heq & Hq' & Hp' & Hworld).
  exists c'. split; [exact Heq|]. split; [done|]. split; [done|].
  destruct (built_first (res_UID r) tryNoCache scs Hscs) as [Hst Hh].
  rewrite <- Hw, <- Hworld in Hst, Hh. split; [done|].
  apply (scrape_single _ _ _ (res_UID r)); [|done|by eapply after_run_wf].
  cbn [w_stores set_heap]. rewrite Hst. by rewrite (Forall3_length_lr _ _ _ _ Hfed).
Qed.
End end_to_end.

(** ** Witnesses *)

Module PipelineExample.
Export SystemExample ControllerExample.

Definition web : item := ("web", "addEvent").

(** The resource is added, and a worker takes the item. *)
Definition taken : state Mem.Server :=
  MkState (MkCtl (MkQueue [] ∅ {[web]} false [] ∅) (start "stores: [...]")) [web].

Lemma server_allowed : allowed store_covered (server "stores: [...]").
Proof.
  intros k uid raw cs. unfold specs. rewrite lookup_fmap. simpl. unfold Mem.read.
  rewrite map_lookup_imap. unfold server. simpl. destruct (decide (k = ("", "web"))) as [->|Hk].
  - rewrite lookup_singleton_eq. simpl. intros [= <- <-] [= <-]. exists [config].
    split; [done|]. constructor; [|done]. apply (bool_decide_unpack _). vm_compute. exact I.
  - by rewrite lookup_singleton_ne by done.
Qed.

Lemma taken_reachable :
  rtc (step object store_covered false) (initial (server "stores: [...]")) taken.
Proof.
  eapply rtc_l.
  { apply (step_queue _ _ _ _ (AddFunc (InformerCRD (managed "stores: [...]")) newQueue)).
    apply event_add. }
  apply rtc_once.
  assert (Get (AddFunc (InformerCRD (managed "stores: [...]")) newQueue) =
    Item web (MkQueue [] (({[web]} ∪ ∅) ∖ {[web]}) ({[web]} ∪ ∅) false [] ∅)) as Hg by reflexivity.
  rewrite (right_id_L ∅ (∪)), difference_diag_L in Hg.
  by apply (step_take _ _ _ web _ _ _ [] Hg).
Qed.

Lemma controller_never_panics_witness :
  ∃ c', process_item 0 web false (st_ctl taken) = (Done tt, c').
Proof.
  destruct (controller_never_panics object store_covered false (W := string)
    (server "stores: [...]") taken (λ sc Hsc, Hsc) server_allowed taken_reachable)
    as (_ & Hp & _).
  apply Hp. left.
Defined.

Lemma worker_drains_witness :
  ∃ c', process_items false 0 1
      (MkCtl (Workqueue.Add web newQueue) (start "stores: [...]")) = (1, Done c') ∧
    q_queue (ctl_queue c') = [] ∧ q_processing (ctl_queue c') = ∅.
Proof.
  apply (worker_drains false 0 (MkCtl (Workqueue.Add web newQueue) (start "stores: [...]"))).
  - apply Add_ok, newQueue_ok.
  - reflexivity.
  - intros k. apply server_buildable. discriminate.
Defined.

Lemma web_cached :
  lister_Get "" "web" (sys_env (start "stores: [...]")) = Ok (managed "stores: [...]").
Proof. pose proof (server_holds "stores: [...]") as Hh. simpl in *. by rewrite Hh. Qed.

Lemma resource_to_scrape_witness :
  ∃ c' s, after_run (Obj := object) config [OpAdd deployment] s ∧
    processNextWorkItem 0 false
      (MkCtl (AddFunc (InformerCRD (managed "stores: [...]")) newQueue) (start "stores: [...]")) =
      (Done (Some true), c') ∧
    metricsHandler [] (set_heap {[0 := s]} (sys_world (ctl_sys c'))) text_request
      (MkResponse None "") = Done ([], MkResponse None (exposition [0] [s])).
Proof.
  destruct (store_run 0 [OpAdd deployment] (built_store config)) as [s|] eqn:Hs;
    [|vm_compute in Hs; discriminate].
  destruct (resource_to_scrape object 0 (managed "stores: [...]") (managed "stores: [...]") false
    newQueue (start "stores: [...]") [config] [[OpAdd deployment]] [s] [] text_request)
    as (c' & Hc & _ & _ & _ & Hm).
  - reflexivity.
  - apply not_elem_of_empty.
  - apply not_elem_of_empty.
  - reflexivity.
  - reflexivity.
  - reflexivity.
  - exact web_cached.
  - apply server_holds.
  - discriminate.
  - discriminate.
  - reflexivity.
  - reflexivity.
  - apply Forall3_cons; [exact Hs|apply Forall3_nil].
  - exists c', s. split; [exact Hs|]. split; [exact Hc|].
    cbn [map_seq] in Hm. rewrite insert_empty in Hm. exact Hm.
Defined.
End PipelineExample.
