(* ===== verification/Replacement.v ===== *)
(** * The update of a resource

    An event of a managed resource replaces its stores by new ones.  The
    reflectors of the stores that it drops go on, in the same process and on
    the same heap, and so do the other workers; this file shows that none of
    them is seen in what a later scrape writes for the resource.  As in
    [Pipeline] an item is handled in one step; [Race] has what two workers on
    the same resource do to each other. *)
From S2P Require Import Prelude GoStrings Strconv GoSort Values Resolver Metric Family Store Writer Types Builder Events Workqueue Controller Probe Server System Pipeline.

(** ** Stores and what feeds them *)

Section replacement.
Context `{!SortSlice} `{!MapRange} `{!CEL} (Obj : Type) `{!KubeObject Obj}.

(** [s'] is [s] after one operation of a reflector. *)
Definition fed_by_one (s s' : StoreType) : Prop :=
  ∃ site (op : store_op Obj) res, store_apply site op s = Done (res, s').

(** The store of the configuration [sc] after operations of its reflector, and
    nothing else. *)
Definition fed_from (sc s : StoreType) : Prop := rtc fed_by_one (built_store sc) s.

(** Each location has the store of its configuration. *)
Definition stores_at (w : World) (locs : list nat) (scs : list StoreType) : Prop :=
  Forall2 (λ l sc, ∃ s, w_heap w !! l = Some s ∧ fed_from sc s) locs scs.

(** A location that is no longer listed, nor about to be. *)
Definition unlisted (l : nat) (w : World) : Prop :=
  l < w_next w ∧ ∀ uid locs, w_stores w !! uid = Some locs → l ∉ locs.

(** No store is listed under two resources. *)
Definition listed_once (w : World) : Prop :=
  ∀ uid uid' locs locs' l, w_stores w !! uid = Some locs → w_stores w !! uid' = Some locs' →
    l ∈ locs → l ∈ locs' → uid = uid'.

(** The reflectors of the locations below [n] are among [refs]. *)
Definition reflectors_below (n : nat) (refs : list Reflector) (w : World) : Prop :=
  n <= w_next w ∧ ∀ ref, ref ∈ w_reflectors w → refl_store ref < n → ref ∈ refs.

Lemma drop_world_fields uid w :
  w_stores (drop_world uid w) = delete uid (w_stores w) ∧ w_next (drop_world uid w) = w_next w ∧
  w_reflectors (drop_world uid w) = w_reflectors w ∧ w_heap (drop_world uid w) = w_heap w.
Proof.
  unfold drop_world. destruct (w_stores w !! uid) eqn:Hu; [done|]. by rewrite delete_id.
Qed.

(** What is listed after one store is built. *)
Lemma build_one_listed uid tryNoCache sc w uid' locs l :
  w_stores (build_world uid tryNoCache [sc] w) !! uid' = Some locs → l ∈ locs →
  l = w_next w ∧ uid' = uid ∨ ∃ locs', w_stores w !! uid' = Some locs' ∧ l ∈ locs'.
Proof.
  simpl. destruct (decide (uid' = uid)) as [->|Hne].
  - rewrite lookup_insert_eq. intros [= <-]. rewrite elem_of_app, list_elem_of_singleton.
    intros [Hl| ->]; [right|by left]. destruct (w_stores w !! uid) as [locs'|]; simpl in Hl.
    + by exists locs'.
    + by apply elem_of_nil in Hl.
  - rewrite lookup_insert_ne by done. intros Hl Hin. right. by exists locs.
Qed.

(** ** What every step of the system keeps *)

Lemma step_keeps_stores_at P w w' locs scs :
  world_step Obj P w w' → world_ok w → stores_at w locs scs → stores_at w' locs scs.
Proof.
  intros Hstep Hok Hat. apply (Forall2_impl _ _ _ _ Hat). intros l sc (s & Hl & Hs).
  destruct Hstep as [uid w|uid tryNoCache sc' w _|i r site op s1 res s2 w _ Hs1 Hop].
  - exists s. by rewrite (proj2 (proj2 (proj2 (drop_world_fields uid w)))).
  - exists s. rewrite build_world_heap_old; [done|]. by eapply (ok_fresh _ Hok).
  - simpl. destruct (decide (l = refl_store r)) as [->|Hne].
    + rewrite lookup_insert_eq. simplify_eq. exists s2. split; [done|].
      eapply rtc_r; [exact Hs|]. by exists site, op, res.
    + rewrite lookup_insert_ne by done. by exists s.
Qed.

Lemma step_keeps_unlisted P w w' l : world_step Obj P w w' → unlisted l w → unlisted l w'.
Proof.
  intros [uid w0|uid tryNoCache sc w0 _|i r site op s res s' w0 _ Hs Hop] [Hlt Hl].
  - destruct (drop_world_fields uid w0) as (Hst & Hn & _). split; [by rewrite Hn|].
    intros uid' locs. rewrite Hst, lookup_delete_Some. intros [_ Hu]. by eapply Hl.
  - split; [simpl; lia|]. intros uid' locs Hu Hin.
    destruct (build_one_listed _ _ _ _ _ _ _ Hu Hin) as [[-> _]|(locs' & Hu' & Hin')]; [lia|].
    by eapply Hl.
  - done.
Qed.

Lemma step_keeps_listed_once P w w' :
  world_step Obj P w w' → world_ok w → listed_once w → listed_once w'.
Proof.
  intros [uid w0|uid tryNoCache sc w0 _|i r site op s res s' w0 _ Hs Hop] Hok Hl.
  - intros u u' locs locs' l. rewrite !(proj1 (drop_world_fields uid w0)), !lookup_delete_Some.
    intros [_ Hu] [_ Hu']. by eapply Hl.
  - assert (∀ u ls, w_stores w0 !! u = Some ls → w_next w0 ∉ ls) as Hnew.
    { intros u ls Hu Hin. pose proof (ok_stores _ Hok _ _ Hu) as Hall. rewrite Forall_forall in Hall.
      apply Hall, (ok_fresh _ Hok) in Hin. lia. }
    intros u u' locs locs' l Hu Hu' Hin Hin'.
    destruct (build_one_listed _ _ _ _ _ _ _ Hu Hin) as [[-> ->]|(ls & Hls & Hlin)],
      (build_one_listed _ _ _ _ _ _ _ Hu' Hin') as [[Hn Hn']|(ls' & Hls' & Hlin')].
    + done.
    + by destruct (Hnew _ _ Hls').
    + subst l. by destruct (Hnew _ _ Hls).
    + by eapply Hl.
  - done.
Qed.

Lemma step_keeps_reflectors P w w' n refs :
  world_step Obj P w w' → reflectors_below n refs w → reflectors_below n refs w'.
Proof.
  intros [uid w0|uid tryNoCache sc w0 _|i r site op s res s' w0 _ Hs Hop] [Hn Hr].
  - destruct (drop_world_fields uid w0) as (_ & Hnext & Href & _). split; [by rewrite Hnext|].
    by rewrite Href.
  - split; [simpl; lia|]. simpl w_reflectors. intros ref.
    rewrite elem_of_app, list_elem_of_singleton. intros [Hin| ->]; [by apply Hr|].
    simpl. lia.
  - done.
Qed.

(** A property of worlds that every step keeps is kept by all of them. *)
Lemma steps_keep P (I : World → Prop) w w' :
  (∀ w1 w2, world_step Obj P w1 w2 → world_ok w1 → I w1 → I w2) →
  rtc (world_step Obj P) w w' → world_ok w → I w → I w'.
Proof. intros HI. induction 1; eauto using world_step_ok. Qed.

Lemma reachable_listed_once P w : reachable Obj P w → listed_once w.
Proof.
  intros Hw. eapply (steps_keep P listed_once _ _ (step_keeps_listed_once P)); [exact Hw| |].
  - apply empty_world_ok.
  - intros uid uid' locs locs' l Hu. simpl in Hu. by rewrite lookup_empty in Hu.
Qed.

(** ** The world of a handled event *)

(** The reflectors that [build] starts for the stores at [locs]. *)
Definition own_reflectors (tryNoCache : bool) (scs : list StoreType) (locs : list nat)
    : list Reflector := zip_with (built_reflector tryNoCache) scs locs.

Lemma imap_own_reflectors tryNoCache n scs :
  imap (λ i sc, built_reflector tryNoCache sc (n + i)) scs =
  own_reflectors tryNoCache scs (seq n (length scs)).
Proof.
  revert n. induction scs as [|sc scs IH]; intros n; [done|]. unfold own_reflectors. simpl.
  rewrite Nat.add_0_r. f_equal. unfold own_reflectors in IH. rewrite <- IH.
  apply imap_ext. intros i sc' _. simpl. by rewrite Nat.add_succ_r.
Qed.

Lemma built_stores_at uid tryNoCache scs w :
  stores_at (build_world uid tryNoCache scs w) (seq (w_next w) (length scs)) scs.
Proof.
  apply Forall2_same_length_lookup_2; [apply length_seq|]. intros i l sc Hl Hsc.
  apply lookup_seq in Hl as [-> _]. exists (built_store sc).
  split; [by apply build_world_heap|apply rtc_refl].
Qed.

(** What holds of the new stores [locs] and of the [old] ones from the
    handling of the event on. *)
Record replaced (tryNoCache : bool) (scs : list StoreType) (locs old : list nat) (w : World)
    : Prop := {
  rep_ok : world_ok w;
  rep_stores : stores_at w locs scs;
  rep_old l : l ∈ old → unlisted l w;
  rep_reflectors ref : ref ∈ w_reflectors w → refl_store ref ∈ locs →
    ref ∈ own_reflectors tryNoCache scs locs;
}.

Lemma build_replaces P uid tryNoCache scs w :
  Forall P scs → world_ok w → listed_once w → scs ≠ [] →
  let w1 := build_world uid tryNoCache scs (drop_world uid w) in
  let locs := seq (w_next w) (length scs) in
  w_stores w1 !! uid = Some locs ∧
  ∀ w', rtc (world_step Obj P) w1 w' →
    replaced tryNoCache scs locs (default [] (w_stores w !! uid)) w'.
Proof.
  intros HP Hok Hone Hne w1 locs. destruct (drop_world_fields uid w) as (Hst & Hn & Hr & Hh).
  pose proof (drop_world_ok uid w Hok) as Hd.
  assert (w_stores w1 !! uid = Some locs) as Hu.
  { unfold w1, locs. destruct scs as [|sc scs']; [done|]. cbn [build_world w_stores].
    by rewrite lookup_insert_eq, Hst, lookup_delete_eq, Hn. }
  assert (w_next w1 = w_next w + length scs) as Hn1 by (unfold w1; simpl; by rewrite Hn).
  pose proof (build_world_steps P uid tryNoCache scs (drop_world uid w) HP) as Hbuild.
  fold w1 in Hbuild. pose proof (world_steps_ok P _ _ Hbuild Hd) as Hok1.
  split; [done|]. intros w' Hsteps. split.
  - by eapply world_steps_ok.
  - eapply (steps_keep P (λ w, stores_at w locs scs)); [|exact Hsteps|done|].
    { intros. by eapply step_keeps_stores_at. }
    unfold w1, locs. rewrite <- Hn. apply built_stores_at.
  - intros l Hl. eapply (steps_keep P (unlisted l) (drop_world uid w));
      [|by etrans|done|].
    { intros. by eapply step_keeps_unlisted. }
    destruct (w_stores w !! uid) as [old|] eqn:Hold; [|by apply elem_of_nil in Hl]. simpl in Hl.
    pose proof (ok_stores _ Hok _ _ Hold) as Hall. rewrite Forall_forall in Hall. split.
    + rewrite Hn. by apply (ok_fresh _ Hok), Hall.
    + intros uid' ls. rewrite Hst, lookup_delete_Some. intros [Hneq Hls] Hin.
      by apply Hneq, (Hone uid uid' old ls l).
  - assert (reflectors_below (w_next w1) (w_reflectors w1) w') as [_ Hbelow].
    { eapply (steps_keep P (reflectors_below (w_next w1) (w_reflectors w1)) w1);
        [|exact Hsteps|done|done].
      intros. by eapply step_keeps_reflectors. }
    intros ref Href Hin%elem_of_seq. destruct (decide (refl_store ref < w_next w1)) as [Hlt|]; [|lia].
    specialize (Hbelow ref Href Hlt). unfold w1 in Hbelow. simpl in Hbelow.
    rewrite Hr, Hn, imap_own_reflectors, elem_of_app in Hbelow.
    destruct Hbelow as [Hbelow|]; [|done]. pose proof (ok_reflectors _ Hok) as Hall.
    rewrite Forall_forall in Hall. apply Hall, (ok_fresh _ Hok) in Hbelow. lia.
Qed.

Lemma stores_of_at w locs stores :
  Forall2 (λ l s, w_heap w !! l = Some s) locs stores → stores_of w locs = stores.
Proof.
  intros Hl. assert (deref w locs = Done stores) as Hd; [|unfold stores_of; by rewrite Hd].
  induction Hl as [|l s locs stores Hs _ IH]; [done|]. unfold deref in *. simpl.
  by rewrite Hs, IH.
Qed.

(** What a scrape writes for a resource. *)
Lemma scrape_has `{!Expfmt} w uid locs stores site req :
  world_ok w → w_stores w !! uid = Some locs → Forall2 (λ l s, w_heap w !! l = Some s) locs stores →
  ∃ n before after,
    metricsHandler site w req (MkResponse None "") =
    Done ([], MkResponse (if negotiated_TextPlain req then None else Some text_format)
                (before +:+ exposition (site ++ [n]) stores +:+ after)).
Proof.
  intros Hok Hu Hl. rewrite metricsHandler_buffer by done. simpl.
  assert ((uid, locs) ∈ range site (w_stores w)) as Hin.
  { rewrite range_perm. by apply elem_of_map_to_list. }
  apply list_elem_of_lookup in Hin as [n Hn]. exists n.
  rewrite <- (take_drop_middle _ _ _ Hn), imap_app, string_concat_app.
  rewrite imap_cons, string_concat_cons, length_take_le by (apply lookup_lt_Some in Hn; lia).
  cbn [snd]. rewrite Nat.add_0_r, (stores_of_at _ _ _ Hl). by eexists _, _.
Qed.

(** The stores of the configurations, found at their locations. *)
Lemma stores_at_split w locs scs :
  stores_at w locs scs →
  ∃ stores, Forall2 (λ l s, w_heap w !! l = Some s) locs stores ∧ Forall2 fed_from scs stores.
Proof.
  induction 1 as [|l sc locs scs (s & Hl & Hs) _ (stores & Hls & Hfs)].
  - by exists [].
  - exists (s :: stores). by split; constructor.
Qed.
End replacement.

(** ** Properties *)

Section update.
Context `{!SortSlice} `{!MapRange} `{!CEL} (Obj : Type) `{!KubeObject Obj} `{!Expfmt}.
Context {E : Type} `{!API E} `{!APILaws E} `{!Reliable E} `{!Lister E} `{!BuildInfo} `{!Yaml}.
Context (P : StoreType → Prop) (tryNoCache : bool).

(** C3: An update replaces the metrics of its resource.  Take any state of the
    running controller in which a worker has the item of an update or an addition of a
    resource whose configuration parses, with whatever stores and reflectors
    there are by then, its own old ones included.  The worker handles it to the
    end and lists one new store per configured one; and from then on, in every
    state that the system reaches with this entry still in place, each of these
    stores is what its own reflector's operations made of the empty store of its
    configuration, no other reflector feeds it, a scrape writes the exposition
    of these stores, and no store that the resource had before is listed
    anywhere, although its reflector goes on. *)
Theorem update_replaces event bucket (r0 r : CRDMetricsResource) e st i scs :
  let x := (object_key (res_Namespace r0) (res_Name r0), event) in
  let c := st_ctl st in
  let old := default [] (w_stores (sys_world (ctl_sys c)) !! res_UID r) in
  event = "addEvent" ∨ event = "updateEvent" →
  allowed P e → rtc (step Obj P tryNoCache) (initial e) st →
  st_flight st !! i = Some x →
  Count (res_Namespace r0) "/" = 0 → Count (res_Name r0) "/" = 0 →
  lister_Get (res_Namespace r0) (res_Name r0) (sys_env (ctl_sys c)) = Ok r0 →
  holds (sys_env (ctl_sys c)) (res_Namespace r0, res_Name r0) r →
  res_Configuration r ≠ "" → scs ≠ [] →
  yaml_Unmarshal (res_Configuration r) = (Some <$> scs, None) →
  ∃ c' locs, process_item bucket x tryNoCache c = (Done tt, c') ∧
    w_stores (sys_world (ctl_sys c')) !! res_UID r = Some locs ∧ length locs = length scs ∧
    ∀ st', rtc (step Obj P tryNoCache) (MkState c' (delete i (st_flight st))) st' →
      let w := sys_world (ctl_sys (st_ctl st')) in
      w_stores w !! res_UID r = Some locs →
      (∃ stores, Forall2 (λ l s, w_heap w !! l = Some s) locs stores ∧
         Forall2 (fed_from Obj) scs stores ∧
         ∀ site req, ∃ n before after,
           metricsHandler site w req (MkResponse None "") =
           Done ([], MkResponse (if negotiated_TextPlain req then None else Some text_format)
                       (before +:+ exposition (site ++ [n]) stores +:+ after))) ∧
      (∀ ref, ref ∈ w_reflectors w → refl_store ref ∈ locs →
         ref ∈ own_reflectors tryNoCache scs locs) ∧
      (∀ l uid locs', l ∈ old → w_stores w !! uid = Some locs' → l ∉ locs').
Proof.
  intros x c old Hevent He Hst Hi Hns Hn Hl Hr Hne Hscs Hy.
  pose proof (reachable_state_ok Obj P tryNoCache e st He Hst) as Hok.
  assert (Forall P scs) as HP.
  { pose proof (st_allowed _ _ _ Hok) as Ha.
    destruct (Ha (res_Namespace r0, res_Name r0) (res_UID r) (res_Configuration r) (Some <$> scs))
      as (scs' & Heq & HP); [|done|by apply (inj (fmap Some)) in Heq as ->].
    unfold specs, holds, c in *. by rewrite lookup_fmap, Hr. }
  assert (buildable (res_Configuration r)) as Hb.
  { intros cs Hcs. rewrite Hy in Hcs. injection Hcs as <-. by exists scs. }
  destruct (process_known bucket event r0 r tryNoCache c Hns Hn Hl Hr Hb Hne) as (s' & Heq & Hw).
  fold x in Heq.
  assert (handled_world event (res_UID r) (res_Configuration r) tryNoCache (sys_world (ctl_sys c)) =
    build_world (res_UID r) tryNoCache scs (drop_world (res_UID r) (sys_world (ctl_sys c)))) as Hh.
  { unfold handled_world. rewrite Hy, omap_id_Some. by destruct Hevent as [->| ->]. }
  rewrite Hh in Hw. pose proof (st_world _ _ _ Hok) as Hreach.
  destruct (build_replaces Obj P (res_UID r) tryNoCache scs (sys_world (ctl_sys c)) HP
    (reachable_ok _ _ Hreach) (reachable_listed_once Obj P _ Hreach) Hscs) as [Hu Hrep].
  rewrite <- Hw in Hu, Hrep. eexists _, _. split; [exact Heq|]. split; [exact Hu|].
  split; [apply length_seq|]. intros st' Hst' w Hlisted.
  assert (state_ok Obj P (MkState (MkCtl (Finish x (Forget x (ctl_queue c))) s')
    (delete i (st_flight st)))) as Hok'.
  { destruct st as [c0 fl]. eapply step_ok; [|exact Hok]. by eapply step_handle. }
  pose proof (steps_world_steps Obj P tryNoCache _ _ Hst' Hok') as Hsteps.
  destruct (Hrep _ Hsteps) as [Hwok Hat Hold Href]. split; [|split; [exact Href|]].
  - destruct (stores_at_split _ _ _ _ Hat) as (stores & Hls & Hfs). exists stores.
    split; [done|]. split; [done|]. intros site req. by eapply scrape_has.
  - intros l uid locs' Hin. by apply (Hold l Hin).
Qed.
End update.

(** ** Witnesses *)

Module ReplacementExample.
Export PipelineExample.

(** The resource is added and its store built, the reflector of the store adds
    an object, and a worker takes the item of an update of the resource. *)
Definition added : Ctl Mem.Server := (process_item 0 web false (st_ctl taken)).2.

Definition fed_store : StoreType :=
  match Store.Add [] deployment (built_store config) with
  | Done (_, s) => s
  | Panicked _ => built_store config
  end.

Definition watched : Ctl Mem.Server :=
  MkCtl (ctl_queue added)
    (MkSys (update_heap 0 fed_store (sys_world (ctl_sys added))) (sys_env (ctl_sys added))).

Definition labelled : CRDMetricsResource :=
  default (managed "") (cluster (sys_env (ctl_sys watched)) !! ("", "web")).

Definition edited : item := ("web", "updateEvent").

Definition reported : queue :=
  UpdateFunc (InformerCRD (managed "old")) (InformerCRD labelled) (ctl_queue watched).

Definition updating : state Mem.Server :=
  MkState (MkCtl (match Get reported with Item _ q => q | _ => reported end) (ctl_sys watched))
    [edited].

Lemma added_handled : step object store_covered false taken (MkState added []).
Proof.
  apply (step_handle object store_covered false 0 web 0 (st_ctl taken) added [web]); [done|].
  assert ((process_item 0 web false (st_ctl taken)).1 = Done tt) as Ho by (vm_compute; reflexivity).
  unfold added. revert Ho. destruct (process_item 0 web false (st_ctl taken)) as [o c].
  by intros [= ->].
Qed.

Lemma added_watched : step object store_covered false (MkState added []) (MkState watched []).
Proof.
  assert (w_reflectors (sys_world (ctl_sys added)) !! 0 = Some (built_reflector false config 0))
    as Hr by (vm_compute; reflexivity).
  assert (w_heap (sys_world (ctl_sys added)) !! 0 = Some (built_store config)) as Hs
    by (vm_compute; reflexivity).
  assert (store_apply [] (OpAdd deployment) (built_store config) = Done (Ok tt, fed_store)) as Hop
    by (vm_compute; reflexivity).
  unfold watched. revert Hr Hs. destruct added as [q [w env]]. intros Hr Hs.
  exact (step_store object store_covered false 0 _ [] _ _ _ _ q w env [] Hr Hs Hop).
Qed.

Lemma reported_updating : step object store_covered false (MkState (MkCtl reported (ctl_sys watched)) [])
  updating.
Proof.
  assert (Get reported = Item edited (match Get reported with Item _ q => q | _ => reported end))
    as Hg by (vm_compute; reflexivity).
  exact (step_take object store_covered false _ _ _ (ctl_sys watched) [] Hg).
Qed.

Lemma reported_event : queue_event (ctl_queue watched) reported.
Proof. unfold reported. generalize (ctl_queue watched) labelled. intros q r. apply event_update. Qed.

Lemma watched_reported : step object store_covered false (MkState watched [])
  (MkState (MkCtl reported (ctl_sys watched)) []).
Proof.
  generalize reported_event. generalize reported. destruct watched as [q s]. intros q' Hq.
  by apply step_queue.
Qed.

Lemma updating_reachable :
  rtc (step object store_covered false) (initial (server "stores: [...]")) updating.
Proof.
  etrans; [exact taken_reachable|]. eapply rtc_l; [exact added_handled|].
  eapply rtc_l; [exact added_watched|]. eapply rtc_l; [|apply rtc_once, reported_updating].
  exact watched_reported.
Qed.

Lemma update_replaces_witness :
  w_stores (sys_world (ctl_sys (st_ctl updating))) !! "uid-1" = Some [0] ∧
  ∃ c' locs, process_item 0 edited false (st_ctl updating) = (Done tt, c') ∧
    w_stores (sys_world (ctl_sys c')) !! "uid-1" = Some locs ∧ 0 ∉ locs ∧
    ∃ s n before after, fed_from object config s ∧
      metricsHandler [] (sys_world (ctl_sys c')) text_request (MkResponse None "") =
      Done ([], MkResponse None (before +:+ exposition [n] [s] +:+ after)).
Proof.
  assert (w_stores (sys_world (ctl_sys (st_ctl updating))) !! "uid-1" = Some [0]) as Hold
    by (vm_compute; reflexivity).
  split; [exact Hold|].
  destruct (update_replaces object store_covered false "updateEvent" 0 labelled labelled
    (server "stores: [...]") updating 0 [config]) as (c' & locs & Hc & Hu & _ & Hall).
  - by right.
  - exact server_allowed.
  - exact updating_reachable.
  - vm_compute. reflexivity.
  - vm_compute. reflexivity.
  - vm_compute. reflexivity.
  - vm_compute. reflexivity.
  - vm_compute. reflexivity.
  - vm_compute. discriminate.
  - discriminate.
  - vm_compute. reflexivity.
  - exists c', locs. split; [exact Hc|]. split; [exact Hu|].
    destruct (Hall _ (rtc_refl _ _) Hu) as ((stores & _ & Hfed & Hscrape) & _ & Hgone).
    split.
    + apply (Hgone 0 "uid-1" locs); [|exact Hu]. vm_compute. left.
    + apply Forall2_cons_inv_l in Hfed as (s & rest & Hs & ->%Forall2_nil_inv_l & ->).
      destruct (Hscrape [] text_request) as (n & before & after & Hm).
      exists s, n, before, after. split; [exact Hs|exact Hm].
Defined.
End ReplacementExample.
