(* ===== verification/Deployment.v ===== *)
(** * From the cluster to a scrape

    The whole path of the metrics: the informer reports a managed resource, a
    worker builds its stores, the reflector of each store follows the objects of
    its kind in the cluster, and the main server writes the stores out.  The
    reflectors are those of [Reflector], side by side, each writing to its
    location of the world. *)
From S2P Require Import Prelude GoStrings Strconv GoSort Values ApiMachinery Resolver Metric Family Store Writer Types Builder Events Workqueue Controller Probe Server System Reflector Pipeline.

(** ** The reflectors of a resource, side by side *)

(** The kind that a store is configured for. *)
Definition gvk_of (sc : StoreType) : GroupVersionKind :=
  GVK (store_Group sc) (store_Version sc) (store_Kind sc).

(** The stores of the configurations are at the first locations; the store
    at each is that of its reflector, which runs in [dp_systems]. *)
Record Deployed : Type := MkDeployed {
  dp_world : World;
  dp_systems : list Sys;
}.

Inductive deployed_step `{!SortSlice} `{!MapRange} `{!CEL} (feature : bool) (scs : list StoreType)
    : Deployed → Deployed → Prop :=
| step_reflector i sc σ σ' w systems :
  scs !! i = Some sc → systems !! i = Some σ →
  sys_step feature (gvk_of sc) (built_reflector false sc i) σ σ' →
  deployed_step feature scs (MkDeployed w systems)
    (MkDeployed (update_heap i (rs_store (sys_refl σ')) w) (<[i := σ']> systems)).

(** ** What a scrape shows *)

(** The text of a store that shows [objects]: under each header of the store
    one text per object, in some order. *)
Definition shown_text `{!SortSlice} `{!MapRange} `{!CEL} (s0 : StoreType)
    (objects : gmap string object) (t : string) : Prop :=
  ∃ (texts : string → list string) (orders : nat → list string),
    (∀ uid o, objects !! uid = Some o → text_of s0 o (texts uid)) ∧
    (∀ i, orders i ≡ₚ (map_to_list objects).*1) ∧
    t = string_concat (concat (imap (λ i header,
          header_line header :: ((λ uid, texts uid !!! i) <$> orders i)) (store_headers s0))).

Section shown.
Context `{!SortSlice} `{!MapRange} `{!CEL}.

Lemma shows_keys s0 st seen :
  shows s0 st seen → (map_to_list (store_metrics (rs_store st))).*1 ≡ₚ (map_to_list seen).*1.
Proof.
  intros Hs. apply NoDup_Permutation; [apply NoDup_fst_map_to_list..|]. intros uid.
  assert (∀ {A} (m : gmap string A), uid ∈ (map_to_list m).*1 ↔ is_Some (m !! uid)) as Hin.
  { intros A m. rewrite list_elem_of_fmap. split.
    - intros ([uid' a] & -> & Ha%elem_of_map_to_list). by exists a.
    - intros [a Ha]. exists (uid, a). split; [done|]. by apply elem_of_map_to_list. }
  rewrite !Hin. symmetry. by eapply shows_dom.
Qed.

Lemma store_shown s0 st seen site :
  shows s0 st seen →
  shown_text s0 seen (string_concat (chunk_text <$> store_chunks site (rs_store st))).
Proof.
  intros Hs. pose proof (shows_keys _ _ _ Hs) as Hkeys.
  exists (λ uid, default [] (store_metrics (rs_store st) !! uid)),
    (λ i, (range (site ++ [i]) (store_metrics (rs_store st))).*1). split; [|split].
  - intros uid o Ho. destruct (shows_lookup _ _ _ _ _ Hs Ho) as (texts & -> & Ht). done.
  - intros i. by rewrite range_perm.
  - destruct Hs as [[k Hst] _].
    assert (store_headers (rs_store st) = store_headers s0) as <- by by rewrite Hst.
    f_equal. unfold store_chunks. rewrite concat_map, fmap_imap. f_equal. apply imap_ext.
    intros i header _. simpl. f_equal. rewrite <- !list_fmap_compose. apply list_fmap_ext.
    intros j [uid texts] He. simpl. apply list_elem_of_lookup_2 in He.
    rewrite range_perm in He. apply elem_of_map_to_list in He. by rewrite He.
Qed.

Lemma Forall3_imap {A B C} (P : A → B → C → Prop) (f : nat → B → C) l k :
  length k = length l →
  (∀ i x y, l !! i = Some x → k !! i = Some y → P x y (f i y)) → Forall3 P l k (imap f k).
Proof.
  revert f k. induction l as [|x l IH]; intros f [|y k] Hlen HP; try done; [constructor|].
  simpl. constructor; [by apply (HP 0)|]. apply IH; [by injection Hlen|].
  intros i x' y'. apply (HP (S i)).
Qed.

Lemma string_concat_concat (ls : list (list string)) :
  string_concat (concat ls) = string_concat (string_concat <$> ls).
Proof.
  induction ls as [|l ls IH]; [done|]. simpl. by rewrite string_concat_app, IH.
Qed.

(** The exposition of several stores is that of one after the other. *)
Lemma exposition_stores site stores :
  exposition site stores =
  string_concat (imap (λ j st, string_concat (chunk_text <$> store_chunks (site ++ [j]) st)) stores).
Proof.
  unfold exposition, all_chunks. rewrite concat_map, string_concat_concat. f_equal.
  by rewrite !fmap_imap.
Qed.
End shown.

(** ** The stores of the reflectors *)

Section deployed.
Context `{!SortSlice} `{!MapRange} `{!CEL} (feature : bool) (uid : string) (scs : list StoreType).

Definition store_of (σ : Sys) : StoreType := rs_store (sys_refl σ).

(** The world holds the stores of the reflectors, each of which is in a state
    that it can reach. *)
Record deployed_ok (d : Deployed) : Prop := {
  do_world : world_ok (dp_world d);
  do_stores : w_stores (dp_world d) = {[uid := seq 0 (length scs)]};
  do_heap : w_heap (dp_world d) = map_seq 0 (store_of <$> dp_systems d);
  do_reflectors : w_reflectors (dp_world d) = imap (λ i sc, built_reflector false sc i) scs;
  do_length : length (dp_systems d) = length scs;
  do_reachable i sc σ :
    scs !! i = Some sc → dp_systems d !! i = Some σ →
    sys_reachable feature (gvk_of sc) (built_reflector false sc i) (built_store sc) σ;
}.

Lemma deployed_step_ok d d' : deployed_step feature scs d d' → deployed_ok d → deployed_ok d'.
Proof.
  intros Hstep [Hw Hst Hh Hr Hlen Hreach]. destruct Hstep as [i sc σ σ' w systems Hsc Hσ Hsys].
  simpl in *. pose proof (lookup_lt_Some _ _ _ Hσ) as Hlt.
  assert (w_heap w !! i = Some (store_of σ)) as Hi.
  { by rewrite Hh, lookup_map_seq_0, list_lookup_fmap, Hσ. }
  assert (w_reflectors w !! i = Some (built_reflector false sc i)) as Hri.
  { by rewrite Hr, list_lookup_imap, Hsc. }
  split; simpl.
  - pose proof (sys_step_world feature (gvk_of sc) (λ _, True) w i _ σ σ' Hri Hi Hsys) as Hsteps.
    by apply (world_steps_ok _ _ _ Hsteps).
  - done.
  - apply map_eq. intros l. rewrite Hh, lookup_map_seq_0, list_fmap_insert.
    destruct (decide (l = i)) as [->|Hne].
    + rewrite lookup_insert_eq, list_lookup_insert_eq by (by rewrite length_fmap). done.
    + by rewrite lookup_insert_ne, list_lookup_insert_ne, lookup_map_seq_0.
  - done.
  - by rewrite length_insert.
  - intros j sc' σ1 Hsc' Hσ1. destruct (decide (j = i)) as [->|Hne].
    + rewrite list_lookup_insert_eq in Hσ1 by done. injection Hσ1 as <-.
      rewrite Hsc in Hsc'. injection Hsc' as <-.
      destruct (Hreach _ _ _ Hsc Hσ) as (σ0 & Hinit & Hsteps). exists σ0. split; [done|].
      by eapply rtc_r.
    + rewrite list_lookup_insert_ne in Hσ1 by done. by apply Hreach.
Qed.

(** The reflectors of stores that were just built. *)
Lemma deployed_init w systems :
  scs ≠ [] → w = build_world uid false scs (drop_world uid empty_world) → world_ok w →
  Forall2 (λ sc σ, sys_init (gvk_of sc) (built_store sc) σ) scs systems →
  deployed_ok (MkDeployed w systems).
Proof.
  intros Hne Hw Hok Hinit. destruct (built_first uid false scs Hne) as [Hst Hh]. rewrite <- Hw in Hst, Hh.
  split; simpl; try done.
  - rewrite Hh. f_equal. clear -Hinit.
    induction Hinit as [|sc σ scs systems [Hσ _] _ IH]; [done|]. csimpl. rewrite IH. f_equal.
    by rewrite Hσ.
  - by rewrite Hw.
  - by apply Forall2_length in Hinit.
  - intros i sc σ Hsc Hσ. exists σ. split; [|done]. by apply (Forall2_lookup_lr _ _ _ _ _ _ Hinit Hsc Hσ).
Qed.

(** The text of a store whose reflector has nothing left to handle. *)
Definition store_text (sc : StoreType) (σ : Sys) (t : string) : Prop :=
  ∃ stale : gmap string object,
    stale ##ₘ cl_objects (sys_cluster σ) ∧ dom stale ⊆ cl_used (sys_cluster σ) ∧
    shown_text (built_store sc) (cl_objects (sys_cluster σ) ∪ stale) t.

Lemma drained_text i sc σ n site :
  store_covered sc → accepts (built_reflector false sc i) (gvk_of sc) →
  sys_reachable feature (gvk_of sc) (built_reflector false sc i) (built_store sc) σ →
  sys_phase σ = Streaming [] n →
  store_text sc σ (string_concat (chunk_text <$> store_chunks site (store_of σ))).
Proof.
  intros Hcov Hacc Hr Hph. apply sys_reachable_inv in Hr as (stale & seen & Hinv);
    [|by apply built_store_covered|done..].
  pose proof (drained_shows _ _ _ _ _ _ Hinv Hph) as Hs. destruct Hinv as [_ _ _ Hst].
  destruct (Hst _ _ Hph) as (_ & _ & Hdisj & Hused).
  exists stale. split; [done|]. split; [done|]. by apply store_shown.
Qed.
End deployed.

(** ** Properties *)

Section end_to_end.
Context `{!SortSlice} `{!MapRange} `{!CEL} `{!Expfmt}.
Context {E : Type} `{!API E} `{!APILaws E} `{!Reliable E} `{!Lister E} `{!BuildInfo} `{!Yaml}.

(** A managed resource is handled, its reflectors run, and a scrape shows the
    stores of its configuration. *)
Lemma cluster_scraped bucket (r0 r : CRDMetricsResource) q (s : Events.Sys E) scs feature site req :
  let x := (object_key (res_Namespace r0) (res_Name r0), "addEvent") in
  q_queue q = [] → x ∉ q_dirty q → x ∉ q_processing q → q_shuttingDown q = false →
  Count (res_Namespace r0) "/" = 0 → Count (res_Name r0) "/" = 0 →
  lister_Get (res_Namespace r0) (res_Name r0) (sys_env s) = Ok r0 →
  holds (sys_env s) (res_Namespace r0, res_Name r0) r →
  res_Configuration r ≠ "" → scs ≠ [] →
  yaml_Unmarshal (res_Configuration r) = (Some <$> scs, None) →
  sys_world s = empty_world → Forall store_covered scs →
  Forall (λ sc, accepts (built_reflector false sc 0) (gvk_of sc)) scs →
  ∃ c', processNextWorkItem bucket false (MkCtl (AddFunc (InformerCRD r0) q) s) =
      (Done (Some true), c') ∧
    ∀ systems d,
      Forall2 (λ sc σ, sys_init (gvk_of sc) (built_store sc) σ) scs systems →
      rtc (deployed_step feature scs) (MkDeployed (sys_world (ctl_sys c')) systems) d →
      Forall (λ σ, ∃ n, sys_phase σ = Streaming [] n) (dp_systems d) →
      ∃ texts,
        metricsHandler site (dp_world d) req (MkResponse None "") =
          Done ([], MkResponse (if negotiated_TextPlain req then None else Some text_format)
                      (string_concat texts)) ∧
        Forall3 store_text scs (dp_systems d) texts.
Proof.
  intros x Hq Hdi Hp Hsd Hns Hn Hl Hr Hne Hscs Hy Hw Hcov Hkinds.
  destruct (resource_built bucket r0 r false q s scs Hq Hdi Hp Hsd Hns Hn Hl Hr Hne Hy)
    as (c' & Heq & _ & _ & Hworld).
  exists c'. split; [done|]. intros systems d Hinit Hsteps Hquiet. rewrite Hw in Hworld.
  assert (deployed_ok feature (res_UID r) scs d) as [Hok Hst Hh _ Hlen Hreach].
  { assert (deployed_ok feature (res_UID r) scs (MkDeployed (sys_world (ctl_sys c')) systems)) as Hinit0.
    { apply deployed_init; [done|done| |done]. rewrite Hworld.
      apply (world_steps_ok (Obj := object) (λ _, True) empty_world); [|apply empty_world_ok].
      by apply build_world_steps, Forall_true. }
    induction Hsteps; eauto using deployed_step_ok. }
  eexists. split.
  - rewrite (scrape_single _ _ _ (res_UID r) (store_of <$> dp_systems d)); [|by rewrite length_fmap, Hlen|done|].
    + by rewrite exposition_stores.
    + apply Forall_lookup. intros i st Hi. apply (ok_heap _ Hok i). by rewrite Hh, lookup_map_seq_0.
  - rewrite imap_fmap. apply Forall3_imap; [done|]. intros i sc σ Hsc Hσ. simpl.
    destruct (Forall_lookup_1 _ _ _ _ Hquiet Hσ) as [n Hn'].
    eapply drained_text; [by eapply Forall_lookup_1| |by apply Hreach|done].
    apply (Forall_lookup_1 _ _ _ _ Hkinds Hsc).
Qed.

(** C1: From the cluster to a scrape.  A managed resource is reported to an idle
    controller; its item is processed at the first call.  The reflectors of its
    stores then run in any interleaving, while the cluster changes, streams break
    and requests fail.  Whenever each of them has handled the events sent so far,
    a scrape is one text per configured store, in order: under each header of the
    store one text for each object of its kind in the cluster, as it is then.
    The only other objects shown are ones that the cluster had and has no more. *)
Theorem cluster_to_scrape bucket (r0 r : CRDMetricsResource) q (s : Events.Sys E) scs feature site req :
  let x := (object_key (res_Namespace r0) (res_Name r0), "addEvent") in
  q_queue q = [] → x ∉ q_dirty q → x ∉ q_processing q → q_shuttingDown q = false →
  Count (res_Namespace r0) "/" = 0 → Count (res_Name r0) "/" = 0 →
  lister_Get (res_Namespace r0) (res_Name r0) (sys_env s) = Ok r0 →
  holds (sys_env s) (res_Namespace r0, res_Name r0) r →
  res_Configuration r ≠ "" → scs ≠ [] →
  yaml_Unmarshal (res_Configuration r) = (Some <$> scs, None) →
  sys_world s = empty_world → Forall store_covered scs →
  Forall (λ sc, accepts (built_reflector false sc 0) (gvk_of sc)) scs →
  ∃ c', processNextWorkItem bucket false (MkCtl (AddFunc (InformerCRD r0) q) s) =
      (Done (Some true), c') ∧
    ∀ systems d,
      Forall2 (λ sc σ, sys_init (gvk_of sc) (built_store sc) σ) scs systems →
      rtc (deployed_step feature scs) (MkDeployed (sys_world (ctl_sys c')) systems) d →
      Forall (λ σ, ∃ n, sys_phase σ = Streaming [] n) (dp_systems d) →
      ∃ texts,
        metricsHandler site (dp_world d) req (MkResponse None "") =
          Done ([], MkResponse (if negotiated_TextPlain req then None else Some text_format)
                      (string_concat texts)) ∧
        Forall3 store_text scs (dp_systems d) texts.
Proof. apply cluster_scraped. Qed.
End end_to_end.

(** ** Witnesses

    The configuration of one store for deployments, and a cluster of one
    deployment, which the reflector lists, watches and adds. *)
Module DeploymentExample.
Export ReflectorExample PipelineExample.

Definition initial_system : Sys := MkSys cluster Listing (new_RState (built_store config)).
Definition fed_system : Sys := MkSys cluster (Streaming [] 1) fed_state.

Lemma single_step σ σ' w :
  sys_step false (gvk_of config) (built_reflector false config 0) σ σ' →
  deployed_step false [config] (MkDeployed w [σ])
    (MkDeployed (update_heap 0 (rs_store (sys_refl σ')) w) [σ']).
Proof. intros Hs. exact (step_reflector false [config] 0 config σ σ' w [σ] eq_refl eq_refl Hs). Qed.

Lemma fed_run w :
  ∃ w', rtc (deployed_step false [config]) (MkDeployed w [initial_system]) (MkDeployed w' [fed_system]).
Proof.
  eexists. eapply rtc_l; [apply single_step; right; right; exact listed_step|].
  eapply rtc_l; [apply single_step; right; right; exact watch_step|].
  apply rtc_once, single_step. right; left. exact added_step.
Qed.

Lemma cluster_to_scrape_witness :
  ∃ c' w' texts,
    processNextWorkItem 0 false
      (MkCtl (AddFunc (InformerCRD (managed "stores: [...]")) newQueue) (start "stores: [...]")) =
      (Done (Some true), c') ∧
    rtc (deployed_step false [config]) (MkDeployed (sys_world (ctl_sys c')) [initial_system])
      (MkDeployed w' [fed_system]) ∧
    metricsHandler [] w' text_request (MkResponse None "") =
      Done ([], MkResponse None (string_concat texts)) ∧
    Forall3 store_text [config] [fed_system] texts.
Proof.
  destruct (cluster_to_scrape 0 (managed "stores: [...]") (managed "stores: [...]")
    newQueue (start "stores: [...]") [config] false [] text_request) as (c' & Hc & Hrun).
  - reflexivity.
  - apply not_elem_of_empty.
  - apply not_elem_of_empty.
  - reflexivity.
  - reflexivity.
  - reflexivity.
  - exact web_cached.
  - apply server_holds.
  - discriminate.
  - discriminate.
  - reflexivity.
  - reflexivity.
  - apply Forall_singleton. exact config_covered.
  - apply Forall_singleton. exact kinds.
  - destruct (fed_run (sys_world (ctl_sys c'))) as [w' Hsteps].
    destruct (Hrun [initial_system] (MkDeployed w' [fed_system])) as (texts & Hm & Ht).
    + constructor; [exact initial|constructor].
    + exact Hsteps.
    + constructor; [by exists 1|constructor].
    + exists c', w', texts. split; [exact Hc|]. split; [exact Hsteps|]. split; [exact Hm|exact Ht].
Defined.
End DeploymentExample.
