(* ===== verification/Exposition.v ===== *)
(** * Reading a scrape back

    What Prometheus reads from a scrape.  The text is a sequence of families,
    each with its help, its type and its samples; the parser of [TextParse]
    accepts it exactly if no family comes twice and every sample has valid,
    distinct label names and valid values, and then returns those families.
    The families of a scrape are those of the configured stores, in order, with
    the samples of the objects of the cluster, and of those already gone whose
    deletion a reflector missed. *)
From S2P Require Import Prelude GoStrings Strconv FloatText GoSort Values ApiMachinery Resolver Metric Family Store Writer Types Builder Events Workqueue Controller Probe Server System Reflector Pipeline Deployment TextParse.

(** ** Families and their samples *)

(** A sample: its labels, and its value before it is printed. *)
Record sample : Type := MkSample {
  smp_Labels : list (string * string);
  smp_Value : float64;
}.

Record block : Type := MkBlock {
  blk_Name : string;
  blk_Help : string;
  blk_Samples : list sample;
}.

(** How they are written. *)
Definition sample_text (name : string) (s : sample) : string :=
  sample_line name (smp_Labels s) (FormatF6 (smp_Value s)).

Definition block_header (b : block) : string :=
  "# HELP " +:+ blk_Name b +:+ String " " (blk_Help b +:+ String newline
    ("# TYPE " +:+ blk_Name b +:+ String " " ("gauge" +:+ char newline))).

Definition block_text (b : block) : string :=
  block_header b +:+ string_concat (sample_text (blk_Name b) <$> blk_Samples b).

(** The number that the six decimals of a value stand for. *)
Definition six_decimals (x : float64) : float64 :=
  match ParseFloat (FormatF6 x) with
  | Ok y => y
  | Err _ => NaN
  end.

(** How they are read. *)
Definition sample_metric (s : sample) : Metric :=
  MkMetric (smp_Labels s) (Some (Gauge (six_decimals (smp_Value s)))) None.

Definition block_family (b : block) : MetricFamily :=
  MkFamily (blk_Name b) (if decide (docstring (blk_Help b) = "") then None else Some (docstring (blk_Help b)))
    (Some GAUGE) (sample_metric <$> blk_Samples b).

(** The families that have samples, by their names. *)
Definition block_families (blocks : list block) : families :=
  filter (λ nf, mf_Metric nf.2 ≠ []) (list_to_map ((λ b, (blk_Name b, block_family b)) <$> blocks)).

(** What the format asks for beyond the shape of the lines. *)
Definition well_formed (blocks : list block) : Prop :=
  NoDup (blk_Name <$> blocks) ∧
  Forall (λ b, Forall (λ s, well_labelled (smp_Labels s)) (blk_Samples b)) blocks.

#[export] Instance well_formed_dec blocks : Decision (well_formed blocks).
Proof. unfold well_formed. apply _. Defined.

(** ** Lemmas: the parser on families *)

(** What holds of every family that is written. *)
Definition sample_ok (s : sample) : Prop :=
  smp_Labels s ≠ [] ∧ wf_float (smp_Value s) = true ∧
  Forall (λ kv : string * string, string_forallb is_lower_word kv.1 = true) (smp_Labels s).

Definition block_ok (b : block) : Prop :=
  metric_name (blk_Name b) = true ∧ plain (blk_Help b) = true ∧ Forall sample_ok (blk_Samples b).

Lemma FormatF6_nonempty f : FormatF6 f ≠ "".
Proof.
  destruct f as [neg m e|neg|]; [|by destruct neg|done]. unfold FormatF6.
  destruct (scale2 _ _ _). intros H%(f_equal Strings.String.length).
  rewrite !length_append in H. simpl in H. lia.
Qed.

Lemma parse_sample_text mfs mf s rest :
  metric_name (mf_Name mf) = true → mfs !! mf_Name mf = Some mf → mf_Type mf = Some GAUGE → sample_ok s →
  parse mfs (sample_text (mf_Name mf) s +:+ rest) =
  match check_labels (mf_Name mf) [] (smp_Labels s) with
  | Some e => (mfs, Some e)
  | None => parse (<[mf_Name mf := add_Metric (sample_metric s) mf]> mfs) rest
  end.
Proof.
  intros Hn Hmf Ht (Hne & Hwf & Hl). unfold sample_text, sample_metric, six_decimals.
  destruct (FormatF6_parses _ Hwf) as [f Hf]. rewrite Hf.
  apply parse_gauge_sample; try done; [apply FormatF6_nonempty|apply FormatF6_value_chars].
Qed.

Definition add_samples (samples : list sample) (mf : MetricFamily) : MetricFamily :=
  MkFamily (mf_Name mf) (mf_Help mf) (mf_Type mf) (mf_Metric mf ++ (sample_metric <$> samples)).

Lemma parse_samples mfs mf samples rest :
  metric_name (mf_Name mf) = true → mfs !! mf_Name mf = Some mf → mf_Type mf = Some GAUGE →
  Forall sample_ok samples →
  let r := parse mfs (string_concat (sample_text (mf_Name mf) <$> samples) +:+ rest) in
  if decide (Forall (λ s, well_labelled (smp_Labels s)) samples)
  then r = parse (<[mf_Name mf := add_samples samples mf]> mfs) rest
  else r.2 ≠ None.
Proof.
  intros Hn Hmf Ht Hok. revert mfs mf Hn Hmf Ht. induction Hok as [|s samples Hs _ IH]; intros mfs mf Hn Hmf Ht r.
  - rewrite decide_True by done. unfold r. simpl. rewrite append_nil_l. f_equal.
    assert (add_samples [] mf = mf) as ->.
    { destruct mf. unfold add_samples. simpl. by rewrite app_nil_r. }
    symmetry. by apply insert_id.
  - unfold r. clear r. rewrite fmap_cons, string_concat_cons, append_assoc, parse_sample_text by done.
    pose proof (check_labels_None (mf_Name mf) [] (smp_Labels s) (NoDup_nil_2)) as Hc.
    rewrite app_nil_l in Hc. fold (well_labelled (smp_Labels s)) in Hc.
    destruct (check_labels _ [] _) as [e|] eqn:E.
    { rewrite decide_False; [done|]. intros [Hw _]%Forall_cons. by apply Hc in Hw. }
    pose proof (proj1 Hc eq_refl) as Hw.
    specialize (IH (<[mf_Name mf := add_Metric (sample_metric s) mf]> mfs) (add_Metric (sample_metric s) mf)).
    simpl in IH. specialize (IH Hn). rewrite lookup_insert_eq in IH. specialize (IH eq_refl Ht).
    destruct (decide (Forall _ samples)) as [Hall|Hall].
    + rewrite decide_True by by constructor. rewrite IH. f_equal.
      rewrite insert_insert_eq. f_equal. unfold add_samples, add_Metric. simpl.
      by rewrite <- (assoc_L (++)).
    + rewrite decide_False; [done|]. by intros [_ ?]%Forall_cons.
Qed.

Lemma parse_help_line mfs name help rest :
  parse mfs ("# HELP " +:+ name +:+ String " " (help +:+ String newline rest)) =
  match startComment mfs (" HELP " +:+ name +:+ String " " (help +:+ String newline rest)) with
  | (mfs, Ok s) => parse mfs s
  | (mfs, Err e) => (mfs, Some e)
  end.
Proof. by apply parse_line. Qed.

Lemma parse_type_line mfs name rest :
  parse mfs ("# TYPE " +:+ name +:+ String " " ("gauge" +:+ String newline rest)) =
  match startComment mfs (" TYPE " +:+ name +:+ String " " ("gauge" +:+ String newline rest)) with
  | (mfs, Ok s) => parse mfs s
  | (mfs, Err e) => (mfs, Some e)
  end.
Proof. by apply parse_line. Qed.

Lemma block_text_app b rest :
  block_text b +:+ rest =
  "# HELP " +:+ blk_Name b +:+ String " " (blk_Help b +:+ String newline
    ("# TYPE " +:+ blk_Name b +:+ String " " ("gauge" +:+ String newline
      (string_concat (sample_text (blk_Name b) <$> blk_Samples b) +:+ rest)))).
Proof.
  unfold block_text, block_header, char. repeat rewrite ?append_assoc, ?append_cons, ?append_nil_l. done.
Qed.

(** The first family of a name. *)
Lemma parse_block mfs b rest :
  block_ok b → mfs !! blk_Name b = None →
  let r := parse mfs (block_text b +:+ rest) in
  if decide (Forall (λ s, well_labelled (smp_Labels s)) (blk_Samples b))
  then r = parse (<[blk_Name b := block_family b]> mfs) rest
  else r.2 ≠ None.
Proof.
  intros (Hn & Hh & Hok) Hnone r. unfold r. clear r.
  set (mf := MkFamily (blk_Name b) (mf_Help (block_family b)) (Some GAUGE) []).
  assert (parse mfs (block_text b +:+ rest) =
    parse (<[blk_Name b := mf]> mfs) (string_concat (sample_text (blk_Name b) <$> blk_Samples b) +:+ rest)) as ->.
  { rewrite block_text_app, parse_help_line, startComment_help by done.
    unfold setOrCreateCurrentMF at 1. rewrite Hnone. unfold mf, block_family. simpl.
    destruct (decide (docstring (blk_Help b) = "")); cbv iota beta;
      rewrite parse_type_line, startComment_gauge by done; unfold setOrCreateCurrentMF;
      rewrite lookup_insert_eq; simpl; by rewrite !insert_insert_eq. }
  pose proof (parse_samples (<[blk_Name b := mf]> mfs) mf (blk_Samples b) rest Hn) as Hs.
  simpl in Hs. rewrite lookup_insert_eq, insert_insert_eq in Hs.
  exact (Hs eq_refl eq_refl Hok).
Qed.

(** A second one: its type, if not its help, is an error. *)
Lemma parse_block_again mfs b mf rest :
  block_ok b → mfs !! blk_Name b = Some mf → mf_Name mf = blk_Name b → mf_Type mf ≠ None →
  (parse mfs (block_text b +:+ rest)).2 ≠ None.
Proof.
  intros (Hn & Hh & Hok) Hmf Hname Ht.
  rewrite block_text_app, parse_help_line, startComment_help by done.
  unfold setOrCreateCurrentMF at 1. rewrite Hmf. 
  destruct (mf_Type mf) as [t|] eqn:Et; [|done].
  destruct (decide (docstring (blk_Help b) = "")); [|destruct (mf_Help mf) eqn:Eh; [done|]];
    rewrite parse_type_line, startComment_gauge by done; unfold setOrCreateCurrentMF.
  - by rewrite Hmf, Et.
  - by rewrite Hname, lookup_insert_eq; simpl; rewrite Et.
Qed.

(** The families read so far are those of the blocks read so far. *)
Lemma parse_blocks mfs blocks :
  Forall block_ok blocks → (∀ name mf, mfs !! name = Some mf → mf_Name mf = name ∧ mf_Type mf ≠ None) →
  let r := parse mfs (string_concat (block_text <$> blocks)) in
  if decide (well_formed blocks ∧ Forall (λ b, mfs !! blk_Name b = None) blocks)
  then r = (list_to_map ((λ b, (blk_Name b, block_family b)) <$> blocks) ∪ mfs, None)
  else r.2 ≠ None.
Proof.
  intros Hok. revert mfs. induction Hok as [|b blocks Hb _ IH]; intros mfs Hmfs r.
  { rewrite decide_True by (split; [split; constructor|constructor]). unfold r. simpl.
    by rewrite (left_id_L ∅ (∪)). }
  unfold r. clear r. rewrite fmap_cons, string_concat_cons.
  destruct (mfs !! blk_Name b) as [mf|] eqn:Hmf.
  { rewrite decide_False by (intros [_ [? _]%Forall_cons]; congruence).
    destruct (Hmfs _ _ Hmf). by apply (parse_block_again _ _ mf). }
  pose proof (parse_block mfs b (string_concat (block_text <$> blocks)) Hb Hmf) as Hp. simpl in Hp.
  destruct (decide (Forall _ (blk_Samples b))) as [Hs|Hs].
  2:{ rewrite decide_False; [done|]. by intros [[_ [? _]%Forall_cons] _]. }
  rewrite Hp. clear Hp. specialize (IH (<[blk_Name b := block_family b]> mfs)). simpl in IH.
  destruct (decide (well_formed (b :: blocks) ∧ _)) as [[[Hnd Hw] Hfr]|Hno].
  - rewrite decide_True in IH.
    + rewrite IH; [|by intros name mf [[<- <-]|[_ ?]]%lookup_insert_Some; [|apply Hmfs]].
      f_equal. rewrite fmap_cons. simpl.
      apply NoDup_cons in Hnd as [Hnin _].
      rewrite <- insert_union_l, <- insert_union_r; [done|].
      apply not_elem_of_list_to_map. rewrite <- list_fmap_compose. exact Hnin.
    + rewrite fmap_cons in Hnd. apply NoDup_cons in Hnd as [Hnin Hnd].
      apply Forall_cons in Hw as [_ Hw], Hfr as [_ Hfr]. split; [done|].
      rewrite Forall_forall in Hfr |- *. intros b' Hin.
      rewrite lookup_insert_ne; [by apply Hfr|]. intros Heq. apply Hnin. rewrite Heq.
      by apply list_elem_of_fmap_2.
  - rewrite decide_False in IH.
    + apply IH. by intros name mf [[<- <-]|[_ ?]]%lookup_insert_Some; [|apply Hmfs].
    + intros [[Hnd Hw] Hfr]. apply Hno. split; [split|].
      * rewrite fmap_cons. apply NoDup_cons. split; [|done].
        intros (b' & Heq & Hin)%list_elem_of_fmap. rewrite Forall_forall in Hfr.
        specialize (Hfr _ Hin). by rewrite Heq, lookup_insert_eq in Hfr.
      * by constructor.
      * constructor; [done|]. rewrite Forall_forall in Hfr |- *. intros b' Hin.
        specialize (Hfr b' Hin). by apply lookup_insert_None in Hfr as [? _].
Qed.

(** A text of families is accepted exactly if they are well formed. *)
Lemma parse_text blocks :
  Forall block_ok blocks →
  let r := TextToMetricFamilies (string_concat (block_text <$> blocks)) in
  if decide (well_formed blocks) then r = (block_families blocks, None) else r.2 ≠ None.
Proof.
  intros Hok. pose proof (parse_blocks ∅ blocks Hok) as Hp. simpl. unfold TextToMetricFamilies.
  fold (parse ∅ (string_concat (block_text <$> blocks))). simpl in Hp.
  destruct (decide (well_formed blocks)) as [Hw|Hno].
  - rewrite decide_True in Hp by (split; [done|]; apply Forall_forall; intros; apply lookup_empty).
    rewrite Hp by (intros ??; by rewrite lookup_empty). by rewrite (right_id_L ∅ (∪)).
  - rewrite decide_False in Hp by (by intros [? _]).
    specialize (Hp ltac:(intros ??; by rewrite lookup_empty)).
    by destruct (parse ∅ (string_concat (block_text <$> blocks))).
Qed.

(** ** What a family is written as *)

(** The names that the parser takes whole, and the help texts that need no
    escaping, of which the program does none. *)
Definition plain_family (f : FamilyType) : Prop :=
  string_forallb isValidMetricNameContinuation (fam_Name f) = true ∧ plain (fam_Help f) = true.

#[global] Instance plain_family_dec f : Decision (plain_family f).
Proof. unfold plain_family. apply _. Defined.

Definition family_name (f : FamilyType) : string := kubeCustomResourcePrefix +:+ fam_Name f.

Section families.
Context `{!SortSlice} `{!MapRange} `{!CEL}.

(** The sample of a metric, unless it is skipped: the labels of the metric and
    those that it inherits, sorted, then the group, version and kind of the
    object, and the number that the value resolves to. *)
Definition metric_sample (f : FamilyType) (obj : object) (site : list nat) (m : MetricType)
    : option sample :=
  let m := inherit_labels f m in
  r ← family_resolver f (metric_Resolver m);
  value ← Resolve r (metric_Value m) obj !! metric_Value m;
  match ParseFloat value with
  | Err _ => None
  | Ok x =>
    let labels := labels_of r obj site (metric_LabelKeys m) 0 (metric_LabelValues m) in
    let gvk := object_gvk obj in
    Some (MkSample
      (written_labels (gvk_Group gvk) (gvk_Version gvk) (gvk_Kind gvk) labels.*1 labels.*2) x)
  end.

Definition family_samples (f : FamilyType) (obj : object) (site : list nat) : list sample :=
  concat (imap (λ j m, option_list (m ≫= metric_sample f obj (site ++ [j]))) (fam_Metrics f)).

(** ** Lemmas: what is written *)

Lemma metric_sample_text f obj site m :
  metric_line f obj site m =
  string_concat (sample_text (family_name f) <$> option_list (metric_sample f obj site m)).
Proof.
  unfold metric_line, metric_sample. cbv zeta.
  destruct (family_resolver f _) as [r|]; simpl; [|done].
  destruct (_ !! metric_Value _) as [value|]; simpl; [|done].
  destruct (ParseFloat value) as [x|]; simpl; [|done].
  by rewrite append_nil_r.
Qed.

Lemma metric_sample_ok f obj site m s : metric_sample f obj site m = Some s → sample_ok s.
Proof.
  unfold metric_sample. cbv zeta.
  destruct (family_resolver f _) as [r|]; simpl; [|done].
  destruct (_ !! metric_Value _) as [value|]; simpl; [|done].
  destruct (ParseFloat value) as [x|] eqn:Hx; simpl; [|done]. intros [= <-]. split_and!; simpl.
  - unfold written_labels. by destruct (sorted_labels _ _).
  - by eapply ParseFloat_wf.
  - apply written_labels_lower_word, labels_of_lower_word.
Qed.

Lemma string_concat_imap {A B} (f : nat → A → string) (g : B → string) (h : nat → A → list B) l :
  (∀ j x, f j x = string_concat (g <$> h j x)) →
  string_concat (imap f l) = string_concat (g <$> concat (imap h l)).
Proof.
  revert f h. induction l as [|x l IH]; intros f h Hf; [done|].
  rewrite !imap_cons, string_concat_cons. cbn [concat]. rewrite fmap_app, string_concat_app, Hf.
  f_equal. apply IH. intros j y. apply Hf.
Qed.

Lemma family_samples_text f obj site :
  family_text f obj site = string_concat (sample_text (family_name f) <$> family_samples f obj site).
Proof.
  apply string_concat_imap. intros j [m|]; [|done]. apply metric_sample_text.
Qed.

Lemma family_samples_ok f obj site : Forall sample_ok (family_samples f obj site).
Proof.
  unfold family_samples. apply Forall_concat, Forall_lookup_2. intros j l Hl.
  rewrite list_lookup_imap in Hl. apply fmap_Some in Hl as (m & _ & ->).
  destruct m as [m|]; simpl; [|constructor].
  destruct (metric_sample f obj (site ++ [j]) m) as [s|] eqn:Hs; simpl; [|constructor].
  apply Forall_singleton. by eapply metric_sample_ok.
Qed.
End families.

(** ** What a store is written as *)

Section stores.
Context `{!SortSlice} `{!MapRange} `{!CEL}.

(** A family of the store [s0]: its help, then for each object, in some order,
    the samples of the family as it was when the object was last written, with
    the labels that it had inherited by then. *)
Definition family_block (s0 : StoreType) (objects : gmap string object) (f : FamilyType)
    (b : block) : Prop :=
  ∃ (order : list string) (samples : list (list sample)),
    order ≡ₚ (map_to_list objects).*1 ∧
    Forall2 (λ uid, λ xs, ∃ o n site, objects !! uid = Some o ∧
      xs = family_samples (inherit_store s0 (Nat.iter n (grow s0) f)) o site) order samples ∧
    b = MkBlock (family_name f) (fam_Help f) (concat samples).

Definition store_blocks (s0 : StoreType) (objects : gmap string object) (blocks : list block) : Prop :=
  Forall2 (family_block s0 objects) (store_Families s0) blocks.

Lemma grow_name s n f : fam_Name (Nat.iter n (grow s) f) = fam_Name f.
Proof. induction n as [|n IH]; [done|]. simpl. exact IH. Qed.

Lemma text_of_lookup s0 o texts i f :
  text_of s0 o texts → store_Families s0 !! i = Some f →
  ∃ n site, texts !!! i = family_text (inherit_store s0 (Nat.iter n (grow s0) f)) o site.
Proof.
  intros (n & site & ->) Hi. exists n, (site ++ [i]). apply list_lookup_total_correct.
  unfold object_texts. rewrite list_lookup_imap. simpl. by rewrite fmap_iter_lookup, Hi.
Qed.

Lemma Forall2_imap_exists {A B C D} (P : A → D → Prop) (Q : C → D → Prop) (g : nat → B → C) l k :
  length l = length k →
  (∀ i x y, l !! i = Some x → k !! i = Some y → ∃ z, P x z ∧ Q (g i y) z) →
  ∃ zs, Forall2 P l zs ∧ Forall2 Q (imap g k) zs.
Proof.
  revert g k. induction l as [|x l IH]; intros g [|y k] Hlen Hall; try done.
  { exists []. split; constructor. }
  destruct (Hall 0 x y) as (z & HP & HQ); [done..|].
  destruct (IH (g ∘ S) k) as (zs & HPs & HQs); [by injection Hlen| |].
  { intros i x' y'. apply (Hall (S i)). }
  exists (z :: zs). split; constructor; done.
Qed.

Lemma header_line_block f samples :
  header_line (buildHeaders f).1 = block_header (MkBlock (family_name f) (fam_Help f) samples).
Proof.
  unfold header_line. rewrite bool_decide_eq_false_2, bool_decide_eq_false_2 by done.
  unfold block_header, family_name, char. simpl.
  repeat rewrite ?append_assoc, ?append_cons, ?append_nil_l. done.
Qed.

Lemma family_block_ok s0 objects f b : plain_family f → family_block s0 objects f b → block_ok b.
Proof.
  intros [Hname Hhelp] (order & samples & _ & Hs & ->). split; [done|]. split; [done|]. simpl.
  apply Forall_concat, Forall_lookup_2. intros j xs Hj.
  destruct (Forall2_lookup_r _ _ _ _ _ Hs Hj) as (uid & _ & o & n & site & _ & ->).
  apply family_samples_ok.
Qed.

Lemma write_block s0 objects (texts : string → list string) order i f :
  (∀ uid o, objects !! uid = Some o → text_of s0 o (texts uid)) →
  order ≡ₚ (map_to_list objects).*1 → store_Families s0 !! i = Some f →
  ∃ samples, family_block s0 objects f (MkBlock (family_name f) (fam_Help f) samples) ∧
    string_concat ((λ uid, texts uid !!! i) <$> order) = string_concat (sample_text (family_name f) <$> samples).
Proof.
  intros Htexts Hp Hi.
  assert (∀ uid, uid ∈ order → ∃ xs, (∃ o n site, objects !! uid = Some o ∧
      xs = family_samples (inherit_store s0 (Nat.iter n (grow s0) f)) o site) ∧
      texts uid !!! i = string_concat (sample_text (family_name f) <$> xs)) as Hone.
  { intros uid Hin. rewrite Hp in Hin. apply list_elem_of_fmap in Hin as ([uid' o] & -> & Ho).
    apply elem_of_map_to_list in Ho. simpl.
    destruct (text_of_lookup _ _ _ _ _ (Htexts _ _ Ho) Hi) as (n & site & ->).
    eexists. split; [by exists o, n, site|]. rewrite family_samples_text. f_equal. f_equal.
    unfold family_name. simpl. by rewrite grow_name. }
  assert (∃ samples, Forall2 (λ uid, λ xs, ∃ o n site, objects !! uid = Some o ∧
      xs = family_samples (inherit_store s0 (Nat.iter n (grow s0) f)) o site) order samples ∧
    string_concat ((λ uid, texts uid !!! i) <$> order) =
    string_concat (sample_text (family_name f) <$> concat samples)) as (samples & Hs & Ht).
  { clear Hp. induction order as [|uid order IH].
    { exists []. split; [constructor|done]. }
    destruct (Hone uid) as (xs & Hxs & Hx); [by constructor|].
    destruct IH as (samples & Hs & Ht); [intros uid' Hin; apply Hone; by constructor|].
    exists (xs :: samples). split; [by constructor|].
    rewrite fmap_cons, string_concat_cons, Hx, Ht. simpl. by rewrite fmap_app, string_concat_app. }
  exists (concat samples). split; [by exists order, samples|done].
Qed.

Lemma write_store sc objects t :
  Forall plain_family (store_Families sc) → shown_text (built_store sc) objects t →
  ∃ blocks, store_blocks (built_store sc) objects blocks ∧ Forall block_ok blocks ∧
    t = string_concat (block_text <$> blocks).
Proof.
  intros Hplain (texts & orders & Htexts & Horders & ->).
  destruct (Forall2_imap_exists (family_block (built_store sc) objects)
    (λ texts b, string_concat texts = block_text b ∧ block_ok b)
    (λ i header, header_line header :: ((λ uid, texts uid !!! i) <$> orders i))
    (store_Families (built_store sc)) (store_headers (built_store sc))) as (blocks & Hb & Ht).
  - simpl. by rewrite !length_fmap.
  - intros i f h Hf Hh. pose proof Hf as Hi. simpl in Hh.
    apply list_lookup_fmap_Some in Hf as ([h1 f1] & -> & Hf).
    apply list_lookup_fmap_Some in Hf as (f0 & [= -> ->] & Hf).
    rewrite !list_lookup_fmap, Hf in Hh. injection Hh as <-.
    pose proof (Forall_lookup_1 _ _ _ _ Hplain Hf) as Hf0.
    destruct (write_block (built_store sc) objects texts (orders i) i _ Htexts (Horders i) Hi)
      as (samples & Hblock & Htext).
    eexists. split; [exact Hblock|]. split.
    + rewrite string_concat_cons, Htext.
      change (header_line (buildHeaders f0).1 +:+ string_concat (sample_text (family_name f0) <$> samples) =
        block_text (MkBlock (family_name f0) (fam_Help f0) samples)).
      by rewrite (header_line_block f0 samples).
    + apply family_block_ok in Hblock; [done|exact Hf0].
  - exists blocks. split; [done|].
    assert (Forall block_ok blocks ∧ string_concat <$> imap (λ i header, header_line header ::
      ((λ uid, texts uid !!! i) <$> orders i)) (store_headers (built_store sc)) = block_text <$> blocks) as [Hok Heq].
    { clear Hb. induction Ht as [|x b xs bs [Hx Hok] _ [IHok IH]]; [by split; [constructor|]|].
      split; [by constructor|]. by rewrite !fmap_cons, Hx, IH. }
    split; [done|]. by rewrite string_concat_concat, Heq.
Qed.
End stores.

(** ** Properties *)

Section scrape.
Context `{!SortSlice} `{!MapRange} `{!CEL} `{!Expfmt}.
Context {E : Type} `{!API E} `{!APILaws E} `{!Reliable E} `{!Lister E} `{!BuildInfo} `{!Yaml}.

(** What a store is written as, when its reflector has nothing left to handle:
    the families of the objects of the cluster, and of [stale] ones, which are
    gone. *)
Definition store_content (sc : StoreType) (σ : Sys) (blocks : list block) : Prop :=
  ∃ stale : gmap string object,
    stale ##ₘ cl_objects (sys_cluster σ) ∧ dom stale ⊆ cl_used (sys_cluster σ) ∧
    store_blocks (built_store sc) (cl_objects (sys_cluster σ) ∪ stale) blocks.

Lemma write_stores scs systems texts :
  Forall (λ sc, Forall plain_family (store_Families sc)) scs → Forall3 store_text scs systems texts →
  ∃ contents, Forall3 store_content scs systems contents ∧ Forall block_ok (concat contents) ∧
    string_concat texts = string_concat (block_text <$> concat contents).
Proof.
  intros Hplain Ht. induction Ht as [|sc σ t scs systems texts (stale & Hd & Hu & Hs) _ IH].
  { exists []. split; [constructor|]. split; [constructor|done]. }
  apply Forall_cons in Hplain as [Hp Hplain]. destruct (IH Hplain) as (contents & Hc & Hok & Heq).
  destruct (write_store _ _ _ Hp Hs) as (blocks & Hb & Hbok & ->).
  exists (blocks :: contents). split; [constructor; [by exists stale|done]|]. cbn [concat].
  split; [by apply Forall_app|]. by rewrite string_concat_cons, fmap_app, string_concat_app, Heq.
Qed.

(** C2: What Prometheus reads from a scrape.  For a managed resource whose
    families have metric names and help texts that need no escaping, once the
    reflectors of its stores have handled the events sent so far, the text of a
    scrape is a sequence of families: those of the configured stores, in order,
    each with its help, its type and the samples of the objects of its kind in
    the cluster, and of objects already gone that the store still shows, with
    the labels and values as they were resolved.  The text parser accepts it
    exactly if no two of the families have the same name and every sample has
    valid, distinct label names and valid values, and then returns these
    families, those without samples apart. *)
Theorem scrape_reads_back bucket (r0 r : CRDMetricsResource) q (s : Events.Sys E) scs feature site req :
  let x := (object_key (res_Namespace r0) (res_Name r0), "addEvent") in
  q_queue q = [] → x ∉ q_dirty q → x ∉ q_processing q → q_shuttingDown q = false →
  Count (res_Namespace r0) "/" = 0 → Count (res_Name r0) "/" = 0 →
  lister_Get (res_Namespace r0) (res_Name r0) (sys_env s) = Ok r0 →
  holds (sys_env s) (res_Namespace r0, res_Name r0) r →
  res_Configuration r ≠ "" → scs ≠ [] →
  yaml_Unmarshal (res_Configuration r) = (Some <$> scs, None) →
  sys_world s = empty_world → Forall store_covered scs →
  Forall (λ sc, accepts (built_reflector false sc 0) (gvk_of sc)) scs →
  Forall (λ sc, Forall plain_family (store_Families sc)) scs →
  ∃ c', processNextWorkItem bucket false (MkCtl (AddFunc (InformerCRD r0) q) s) =
      (Done (Some true), c') ∧
    ∀ systems d,
      Forall2 (λ sc σ, sys_init (gvk_of sc) (built_store sc) σ) scs systems →
      rtc (deployed_step feature scs) (MkDeployed (sys_world (ctl_sys c')) systems) d →
      Forall (λ σ, ∃ n, sys_phase σ = Streaming [] n) (dp_systems d) →
      ∃ text contents,
        metricsHandler site (dp_world d) req (MkResponse None "") =
          Done ([], MkResponse (if negotiated_TextPlain req then None else Some text_format) text) ∧
        Forall3 store_content scs (dp_systems d) contents ∧
        if decide (well_formed (concat contents))
        then TextToMetricFamilies text = (block_families (concat contents), None)
        else (TextToMetricFamilies text).2 ≠ None.
Proof.
  intros x Hq Hdi Hp Hsd Hns Hn Hl Hr Hne Hscs Hy Hw Hcov Hkinds Hplain.
  destruct (cluster_scraped bucket r0 r q s scs feature site req Hq Hdi Hp Hsd Hns Hn Hl Hr Hne Hscs
    Hy Hw Hcov Hkinds) as (c' & Heq & Hrun).
  exists c'. split; [done|]. intros systems d Hinit Hsteps Hquiet.
  destruct (Hrun systems d Hinit Hsteps Hquiet) as (texts & Hm & Ht).
  destruct (write_stores _ _ _ Hplain Ht) as (contents & Hc & Hok & Hreads).
  exists (string_concat texts), contents. split; [done|]. split; [done|].
  rewrite Hreads. by apply parse_text.
Qed.
End scrape.

(** ** Witnesses *)

Module ExpositionExample.
Export DeploymentExample.

Lemma scrape_reads_back_witness :
  ∃ c' w' text contents,
    processNextWorkItem 0 false
      (MkCtl (AddFunc (InformerCRD (managed "stores: [...]")) newQueue) (start "stores: [...]")) =
      (Done (Some true), c') ∧
    rtc (deployed_step false [config]) (MkDeployed (sys_world (ctl_sys c')) [initial_system])
      (MkDeployed w' [fed_system]) ∧
    metricsHandler [] w' text_request (MkResponse None "") = Done ([], MkResponse None text) ∧
    Forall3 store_content [config] [fed_system] contents ∧
    if decide (well_formed (concat contents))
    then TextToMetricFamilies text = (block_families (concat contents), None)
    else (TextToMetricFamilies text).2 ≠ None.
Proof.
  destruct (scrape_reads_back 0 (managed "stores: [...]") (managed "stores: [...]")
    newQueue (start "stores: [...]") [config] false [] text_request) as (c' & Hc & Hrun).
  - reflexivity.
  - apply not_elem_of_empty.
  - apply not_elem_of_empty.
  - reflexivity.
  - reflexivity.
  - reflexivity.
  - exact web_cached.
  - apply server_holds.
  - discriminate.
  - discriminate.
  - reflexivity.
  - reflexivity.
  - apply Forall_singleton. exact config_covered.
  - apply Forall_singleton. exact kinds.
  - repeat constructor.
  - destruct (fed_run (sys_world (ctl_sys c'))) as [w' Hsteps].
    destruct (Hrun [initial_system] (MkDeployed w' [fed_system])) as (text & contents & Hm & Ht & Hr).
    + constructor; [exact initial|constructor].
    + exact Hsteps.
    + constructor; [by exists 1|constructor].
    + exists c', w', text, contents. split; [exact Hc|]. split; [exact Hsteps|].
      split; [exact Hm|]. split; [exact Ht|exact Hr].
Defined.

(** A family whose help text ends its line and goes on as a sample. *)
Definition forged : FamilyType := {|
  fam_Name := "up"; fam_t := "";
  fam_Help := "Up." +:+ char newline +:+ "forged{a=" +:+ char dquote +:+ "b" +:+ char dquote +:+ "} 1";
  fam_Metrics := []; fam_Resolver := ""; fam_LabelKeys := []; fam_LabelValues := [] |}.

(** The help text is written without the escaping that the format has for it,
    so that it can add samples to the exposition. *)
Lemma help_not_escaped :
  TextToMetricFamilies (header_line (buildHeaders forged).1) =
  ({["forged" := MkFamily "forged" None (Some UNTYPED)
      [MkMetric [("a", "b")] (Some (Untyped (Finite false 4503599627370496 (-52)))) None]]}, None).
Proof. vm_compute. reflexivity. Qed.

(** The store of the example after [n] events of its object. *)
Fixpoint fed_store (n : nat) : StoreType :=
  match n with
  | O => built_store config
  | S n =>
    match Store.Add [] deployment (fed_store n) with
    | Done (_, s) => s
    | Panicked _ => fed_store n
    end
  end.

Definition replicas_family : MetricFamily :=
  MkFamily "kube_customresource_replicas" (Some "Replicas.") (Some GAUGE)
    [MkMetric [("env", "prod"); ("name", "web"); ("group", "apps"); ("version", "v1"); ("kind", "Deployment")]
       (Some (Gauge (Finite false 6755399441055744 (-51)))) None].

(** After the first event of an object, the scrape is read. *)
Lemma first_event_read :
  TextToMetricFamilies (exposition [] [fed_store 1]) =
  ({["kube_customresource_replicas" := replicas_family]}, None).
Proof. vm_compute. reflexivity. Qed.

(** After the second one, the inherited labels are there twice, and the scrape
    is rejected. *)
Lemma second_event_rejected :
  TextToMetricFamilies (exposition [] [fed_store 2]) =
  (∅, Some (DuplicateLabelNames "kube_customresource_replicas")).
Proof. vm_compute. reflexivity. Qed.

(** Two stores with a family of the same name: the families are not grouped,
    and the parser rejects the second help. *)
Lemma same_name_rejected :
  TextToMetricFamilies (exposition [] [fed_store 1; fed_store 1]) =
  ({["kube_customresource_replicas" := replicas_family]}, Some (SecondHelp "kube_customresource_replicas")).
Proof. vm_compute. reflexivity. Qed.
End ExpositionExample.
