(* ===== verification/Options.v ===== *)
(** * Command-line options ([internal/options.go])

    [Read] defines the flags, parses the command line with the package [flag]
    of the standard library, and then overrides the flags left at their
    default from the environment.  The flags that klog defines on the same
    flag set are an argument. *)
From S2P Require Import Prelude GoStrings Strconv GoSort.

(** ** Parsing of flag values ([strconv]) *)

Definition ParseBool (s : string) : option bool :=
  if bool_decide (s ∈ ["1"; "t"; "T"; "true"; "TRUE"; "True"]) then Some true
  else if bool_decide (s ∈ ["0"; "f"; "F"; "false"; "FALSE"; "False"]) then Some false
  else None.

(** The value of a digit in the bases up to 36. *)
Definition base_digit (c : ascii) : option Z :=
  if is_digit c then Some (digit_value c)
  else if in_range 97 122 (lower c) then Some (Z.of_N (byte (lower c)) - 87)%Z
  else None.

(** The digit loop of [ParseUint] with base 0: underscores are skipped.  The
    value is not bounded here; the range is checked at the end. *)
Fixpoint read_uint (base : Z) (s : string) (n : Z) : option Z :=
  match s with
  | EmptyString => Some n
  | String c s =>
    if decide (c = "_"%char) then read_uint base s n
    else match base_digit c with
         | Some d => if (d <? base)%Z then read_uint base s (n * base + d)%Z else None
         | None => None
         end
  end.

Definition has_underscore (s : string) : bool :=
  negb (string_forallb (λ c, negb (bool_decide (c = "_"%char))) s).

(** [ParseUint] with base 0, without its range check. *)
Definition parse_uint (s : string) : option Z :=
  let '(base, t) :=
    match s with
    | String "0" (String x (String _ _ as u)) =>
      if decide (lower x = "b"%char) then (2%Z, u)
      else if decide (lower x = "o"%char) then (8%Z, u)
      else if decide (lower x = "x"%char) then (16%Z, u)
      else (8%Z, String x u)
    | String "0" t => (8%Z, t)
    | _ => (10%Z, s)
    end in
  match s with
  | EmptyString => None
  | _ =>
    if has_underscore t && negb (underscoreOK s) then None
    else read_uint base t 0
  end.

(** [ParseInt(s, 0, 64)]: [None] is its error, of syntax or of range. *)
Definition ParseInt (s : string) : option Z :=
  let neg := is_negative s in
  n ← parse_uint (drop_sign s);
  if negb neg && (2 ^ 63 <=? n)%Z then None
  else if neg && (2 ^ 63 <? n)%Z then None
  else Some (if neg then - n else n)%Z.

(** ** Flags ([flag]) *)

(** The value of a flag: one of the types that [options.go] uses, or one of
    klog's, with its own parser. *)
Inductive flag_value : Type :=
| BoolValue (b : bool)
| IntValue (n : Z)
| FloatValue (f : float64)
| StringValue (s : string)
| OtherValue (set : string → option string) (repr : string).

(** [Value.String] and [Value.Set]. *)
Definition value_String (v : flag_value) : string :=
  match v with
  | BoolValue b => if b then "true" else "false"
  | IntValue n => Itoa n
  | FloatValue f => FormatG f
  | StringValue s => s
  | OtherValue _ repr => repr
  end.

Definition value_Set (v : flag_value) (s : string) : option flag_value :=
  match v with
  | BoolValue _ => BoolValue <$> ParseBool s
  | IntValue _ => IntValue <$> ParseInt s
  | FloatValue _ =>
    match ParseFloat s with
    | Ok f => Some (FloatValue f)
    | Err _ => None
    end
  | StringValue _ => Some (StringValue s)
  | OtherValue set _ => OtherValue set <$> set s
  end.

Definition is_bool_flag (v : flag_value) : bool :=
  match v with
  | BoolValue _ => true
  | _ => false
  end.

Record Flag : Type := {
  flag_Name : string;
  flag_Value : flag_value;
  flag_DefValue : string;
}.

(** [flag.Bool] and the like: the default is that of the value. *)
Definition define (name : string) (v : flag_value) : Flag :=
  {| flag_Name := name; flag_Value := v; flag_DefValue := value_String v |}.

(** The flag set: the flags, and the names of those that were set. *)
Record FlagSet : Type := {
  formal : list Flag;
  actual : gset string;
}.

Definition find_flag (name : string) (fs : list Flag) : option Flag :=
  snd <$> list_find (λ f, flag_Name f = name) fs.

Definition replace_flag (name : string) (v : flag_value) (fs : list Flag) : list Flag :=
  (λ f, if decide (flag_Name f = name)
        then {| flag_Name := flag_Name f; flag_Value := v; flag_DefValue := flag_DefValue f |}
        else f) <$> fs.

(** [FlagSet.Set]. *)
Definition flag_Set (name value : string) (fs : FlagSet) : option FlagSet :=
  f ← find_flag name (formal fs);
  v ← value_Set (flag_Value f) value;
  Some {| formal := replace_flag name v (formal fs); actual := {[name]} ∪ actual fs |}.

(** ** [flag.Parse] *)

(** [ExitOnError]: a syntax error exits with 2, a request for help with 0. *)
Inductive parsed : Type :=
| Parsed (fs : FlagSet)
| ParseExit (code : Z).

(** An argument that is a flag, without its dashes: its name and, after an
    equal sign that is not first, its value. *)
Fixpoint cut_value (s : string) : string * option string :=
  match s with
  | EmptyString => (EmptyString, None)
  | String c s =>
    if decide (c = "="%char) then (EmptyString, Some s)
    else let '(name, value) := cut_value s in (String c name, value)
  end.

Definition split_flag (s : string) : string * option string :=
  match s with
  | EmptyString => (EmptyString, None)
  | String c s => let '(name, value) := cut_value s in (String c name, value)
  end.

Definition bad_name (name : string) : bool :=
  match name with
  | EmptyString | String "-" _ | String "=" _ => true
  | _ => false
  end.

(** What the front argument is. *)
Inductive argument : Type :=
| NotAFlag
| Terminator
| FlagArgument (name : string).

Definition classify (s : string) : argument :=
  match s with
  | "--" => Terminator
  | String "-" (String "-" name) => FlagArgument name
  | String "-" (String _ _ as name) => FlagArgument name
  | _ => NotAFlag
  end.

Definition set_or_exit (name value : string) (fs : FlagSet) (k : FlagSet → parsed) : parsed :=
  match flag_Set name value fs with
  | Some fs => k fs
  | None => ParseExit 2
  end.

(** The loop of [FlagSet.Parse] over the arguments. *)
Fixpoint parse_args (args : list string) (fs : FlagSet) : parsed :=
  match args with
  | [] => Parsed fs
  | s :: args =>
    match classify s with
    | NotAFlag | Terminator => Parsed fs
    | FlagArgument arg =>
      if bad_name arg then ParseExit 2
      else
        let '(name, value) := split_flag arg in
        match find_flag name (formal fs) with
        | None =>
          if bool_decide (name = "help") || bool_decide (name = "h") then ParseExit 0
          else ParseExit 2
        | Some f =>
          match value with
          | Some value => set_or_exit name value fs (parse_args args)
          | None =>
            if is_bool_flag (flag_Value f) then set_or_exit name "true" fs (parse_args args)
            else
              match args with
              | value :: args => set_or_exit name value fs (parse_args args)
              | [] => ParseExit 2
              end
          end
        end
    end
  end.

(** ** [options.go] *)

Definition Environ : Type := gmap string string.

(** [os.Getenv]. *)
Definition Getenv (env : Environ) (name : string) : string := default "" (env !! name).

(** The flags of [Read], in the order of their definitions. *)
Definition option_flags (env : Environ) : list Flag := [
  define "auto-gomaxprocs" (BoolValue true);
  define "ratio-gomemlimit" (FloatValue (Finite false 8106479329266893 (-53)));
  define "kubeconfig" (StringValue (Getenv env "KUBECONFIG"));
  define "master" (StringValue (Getenv env "KUBERNETES_MASTER"));
  define "self-host" (StringValue "::");
  define "self-port" (IntValue 9998);
  define "main-host" (StringValue "::");
  define "main-port" (IntValue 9999);
  define "try-no-cache" (BoolValue false);
  define "workers" (IntValue 2);
  define "version" (BoolValue false)
].

(** [`CRDMETRICS_` + strings.ReplaceAll(strings.ToUpper(name), "-", "_")]. *)
Definition overriderForOptionName (name : string) : string :=
  "CRDMETRICS_" +:+ ReplaceAll (ToUpper name) "-" "_".

(** What [Read] comes to. *)
Inductive read_result : Type :=
| ReadOk (fs : FlagSet)
| ReadExit (code : Z)
| ReadPanic (name value : string).

(** The function that [VisitAll] calls on the flag of a name. *)
Definition visit (env : Environ) (f : Flag) (fs : FlagSet) : read_result :=
  if negb (bool_decide (value_String (flag_Value f) = flag_DefValue f)) then ReadOk fs
  else
    match env !! overriderForOptionName (flag_Name f) with
    | None => ReadOk fs
    | Some value =>
      match flag_Set (flag_Name f) value fs with
      | Some fs => ReadOk fs
      | None => ReadPanic (flag_Name f) value
      end
    end.

(** [VisitAll]: the flags are sorted by name before the first is visited, and
    each is read when it is visited. *)
Fixpoint visit_all (env : Environ) (names : list string) (fs : FlagSet) : read_result :=
  match names with
  | [] => ReadOk fs
  | name :: names =>
    match find_flag name (formal fs) with
    | None => visit_all env names fs
    | Some f =>
      match visit env f fs with
      | ReadOk fs => visit_all env names fs
      | r => r
      end
    end
  end.

(** [Read], on the flags that klog defined, the environment and the arguments
    of the process. *)
Definition Read (klog_flags : list Flag) (env : Environ) (args : list string) : read_result :=
  let fs := {| formal := klog_flags ++ option_flags env; actual := ∅ |} in
  match parse_args args fs with
  | ParseExit code => ReadExit code
  | Parsed fs =>
    visit_all env (insertion_sort string_ltb (flag_Name <$> formal fs)) fs
  end.

(** The value of a flag after [Read]. *)
Definition option_value (name : string) (fs : FlagSet) : option flag_value :=
  flag_Value <$> find_flag name (formal fs).

(** ** The options *)

(** [Options]: pointers to the values of flags; [None] is nil. *)
Record Options : Type := {
  AutoGOMAXPROCS : option string;
  RatioGOMEMLIMIT : option string;
  Kubeconfig : option string;
  MasterURL : option string;
  SelfHost : option string;
  SelfPort : option string;
  MainHost : option string;
  MainPort : option string;
  TryNoCache : option string;
  Workers : option string;
  Version : option string;
}.

Definition NewOptions : Options := {|
  AutoGOMAXPROCS := None; RatioGOMEMLIMIT := None; Kubeconfig := None; MasterURL := None;
  SelfHost := None; SelfPort := None; MainHost := None; MainPort := None; TryNoCache := None;
  Workers := None; Version := None;
|}.

(** The assignments of [Read]. *)
Definition assigned : Options := {|
  AutoGOMAXPROCS := Some "auto-gomaxprocs"; RatioGOMEMLIMIT := Some "ratio-gomemlimit";
  Kubeconfig := Some "kubeconfig"; MasterURL := Some "master"; SelfHost := Some "self-host";
  SelfPort := Some "self-port"; MainHost := Some "main-host"; MainPort := Some "main-port";
  TryNoCache := Some "try-no-cache"; Workers := Some "workers"; Version := Some "version";
|}.

(** What a pointer leads to. *)
Definition pointee (p : option string) (fs : FlagSet) : option flag_value :=
  name ← p; option_value name fs.

(** What the override makes of a flag: [None] is the panic. *)
Definition overridden (env : Environ) (f : Flag) : option flag_value :=
  if bool_decide (value_String (flag_Value f) = flag_DefValue f) then
    match env !! overriderForOptionName (flag_Name f) with
    | None => Some (flag_Value f)
    | Some value => value_Set (flag_Value f) value
    end
  else Some (flag_Value f).

(** ** Lemmas *)

Lemma find_flag_cons name f fs :
  find_flag name (f :: fs) = if decide (flag_Name f = name) then Some f else find_flag name fs.
Proof.
  unfold find_flag. simpl. case_decide; [done|]. by destruct (list_find _ fs) as [[??]|].
Qed.

Lemma find_flag_name name fs f : find_flag name fs = Some f → flag_Name f = name.
Proof.
  induction fs as [|g fs IH]; [done|]. rewrite find_flag_cons. case_decide; [by intros [= <-]|done].
Qed.

Lemma find_flag_elem name fs f : find_flag name fs = Some f → name ∈ (flag_Name <$> fs).
Proof.
  induction fs as [|g fs IH]; [done|]. rewrite find_flag_cons. csimpl.
  case_decide as Hg; [subst; by left|]. intros ?. right. auto.
Qed.

Lemma find_replace name name' v fs :
  find_flag name (replace_flag name' v fs) =
  if decide (name = name') then
    (λ f, {| flag_Name := flag_Name f; flag_Value := v; flag_DefValue := flag_DefValue f |})
    <$> find_flag name fs
  else find_flag name fs.
Proof.
  induction fs as [|f fs IH]; [by case_decide|]. csimpl. rewrite !find_flag_cons, IH.
  destruct (decide (flag_Name f = name')) as [Hf|Hf]; simpl;
    repeat case_decide; simpl; congruence.
Qed.

Lemma replace_flag_names name v fs : flag_Name <$> replace_flag name v fs = flag_Name <$> fs.
Proof.
  unfold replace_flag. rewrite <- list_fmap_compose. apply list_fmap_ext. intros _ f _.
  simpl. by case_decide.
Qed.

(** A set flag has the parsed value; the others, and all names, are kept. *)
Lemma flag_Set_inv name value fs fs' :
  flag_Set name value fs = Some fs' →
  flag_Name <$> formal fs' = flag_Name <$> formal fs ∧
  (∀ f, find_flag name (formal fs) = Some f →
     option_value name fs' = value_Set (flag_Value f) value) ∧
  (∀ name', name' ≠ name → find_flag name' (formal fs') = find_flag name' (formal fs)).
Proof.
  unfold flag_Set, option_value. destruct (find_flag name (formal fs)) as [f|] eqn:Hf; [|done].
  simpl. destruct (value_Set _ _) as [v|] eqn:Hv; [|done]. intros [= <-]. simpl.
  split; [apply replace_flag_names|]. split.
  - intros f' [= <-]. by rewrite find_replace, decide_True, Hf.
  - intros name' Hne. by rewrite find_replace, decide_False.
Qed.

(** A flag that is defined once is found after others. *)
Lemma find_flag_app name fs fs' f :
  NoDup (flag_Name <$> (fs ++ fs')) → find_flag name fs' = Some f →
  find_flag name (fs ++ fs') = Some f.
Proof.
  induction fs as [|g fs IH]; [done|]. csimpl. intros [Hg Hnd]%NoDup_cons Hf.
  rewrite find_flag_cons. case_decide as Hn; [|by apply IH]. subst name. exfalso. apply Hg.
  rewrite fmap_app. apply elem_of_app. right. by eapply find_flag_elem.
Qed.

(** The type of a value, which setting it keeps. *)
Definition flag_type (v : flag_value) : nat :=
  match v with
  | BoolValue _ => 0 | IntValue _ => 1 | FloatValue _ => 2 | StringValue _ => 3
  | OtherValue _ _ => 4
  end.

Definition type_of (name : string) (fs : list Flag) : option nat :=
  flag_type ∘ flag_Value <$> find_flag name fs.

Lemma value_Set_type v s v' : value_Set v s = Some v' → flag_type v' = flag_type v.
Proof.
  destruct v as [b|n|f|t|set repr]; simpl.
  - destruct (ParseBool s); by intros [= <-].
  - destruct (ParseInt s); by intros [= <-].
  - destruct (ParseFloat s); by intros [= <-].
  - by intros [= <-].
  - destruct (set s); by intros [= <-].
Qed.

Lemma flag_Set_types name value fs fs' :
  flag_Set name value fs = Some fs' → ∀ n, type_of n (formal fs') = type_of n (formal fs).
Proof.
  unfold flag_Set, type_of. destruct (find_flag name (formal fs)) as [f|] eqn:Hf; [|done].
  simpl. destruct (value_Set _ _) as [v|] eqn:Hv; [|done]. intros [= <-] n. simpl.
  rewrite find_replace. case_decide as Hn; [|done]. subst n. rewrite Hf. simpl.
  f_equal. by apply value_Set_type in Hv.
Qed.

(** What holds of every setting of a flag, and is a preorder, holds of the
    parsing of the arguments. *)
Lemma parse_args_ind (R : FlagSet → FlagSet → Prop) args fs fs' :
  (∀ fs1, R fs1 fs1) → (∀ fs1 fs2 fs3, R fs1 fs2 → R fs2 fs3 → R fs1 fs3) →
  (∀ name value fs fs', flag_Set name value fs = Some fs' → R fs fs') →
  parse_args args fs = Parsed fs' → R fs fs'.
Proof.
  intros Hrefl Htrans HR. remember (length args) as n eqn:Hn. assert (length args <= n) as Hl by lia. clear Hn.
  revert args fs Hl. induction n as [|n IH]; intros [|s args] fs Hl; simpl in *; try lia;
    [intros [= <-]; apply Hrefl..|].
  destruct (classify s) as [| |arg]; [intros [= <-]; apply Hrefl..|].
  destruct (bad_name arg); [done|]. destruct (split_flag arg) as [name value].
  destruct (find_flag name _) as [f|]; [|by destruct (_ || _)].
  assert (∀ value args', length args' <= n →
    set_or_exit name value fs (parse_args args') = Parsed fs' → R fs fs') as Hset.
  { intros value' args' Hl'. unfold set_or_exit.
    destruct (flag_Set name value' fs) as [fs1|] eqn:Hs; [|done].
    intros Hp. eapply Htrans; [by eapply HR|]. by eapply IH. }
  destruct value as [value|]; [apply Hset; lia|].
  destruct (is_bool_flag _); [apply Hset; lia|].
  destruct args as [|value args]; [done|]. apply Hset. simpl in *. lia.
Qed.

Lemma parse_args_names args fs fs' :
  parse_args args fs = Parsed fs' → flag_Name <$> formal fs' = flag_Name <$> formal fs.
Proof.
  apply (parse_args_ind (λ fs fs', flag_Name <$> formal fs' = flag_Name <$> formal fs)).
  - done.
  - intros fs1 fs2 fs3 H12 H23. congruence.
  - intros name value fs1 fs2 Hs. by apply flag_Set_inv in Hs as [-> _].
Qed.

Lemma parse_args_types args fs fs' :
  parse_args args fs = Parsed fs' → ∀ n, type_of n (formal fs') = type_of n (formal fs).
Proof.
  apply (parse_args_ind (λ fs fs', ∀ n, type_of n (formal fs') = type_of n (formal fs))).
  - by intros fs1 n.
  - intros fs1 fs2 fs3 H12 H23 n. congruence.
  - intros name value fs1 fs2. apply flag_Set_types.
Qed.

Lemma visit_all_types env names fs fs' :
  visit_all env names fs = ReadOk fs' → ∀ n, type_of n (formal fs') = type_of n (formal fs).
Proof.
  revert fs. induction names as [|name names IH]; intros fs; simpl; [by intros [= <-]|].
  destruct (find_flag name _) as [f|]; [|apply IH].
  unfold visit. destruct (negb _); [apply IH|]. destruct (env !! _) as [value|]; [|apply IH].
  destruct (flag_Set _ value fs) as [fs1|] eqn:Hs; [|done].
  intros Hall n. by rewrite (IH fs1 Hall n), (flag_Set_types _ _ _ _ Hs n).
Qed.

Lemma visit_inv env f fs fs' :
  find_flag (flag_Name f) (formal fs) = Some f → visit env f fs = ReadOk fs' →
  (∃ v, overridden env f = Some v ∧ option_value (flag_Name f) fs' = Some v) ∧
  (∀ name', name' ≠ flag_Name f → find_flag name' (formal fs') = find_flag name' (formal fs)).
Proof.
  intros Hf. unfold visit, overridden. destruct (bool_decide _); simpl.
  - destruct (env !! _) as [value|]; simpl.
    + destruct (flag_Set _ value fs) as [fs1|] eqn:Hs; [|done]. intros [= <-].
      pose proof (flag_Set_inv _ _ _ _ Hs) as (_ & Hv & Ho). split; [|done].
      rewrite <- (Hv f Hf). unfold flag_Set in Hs. rewrite Hf in Hs. simpl in Hs.
      rewrite (Hv f Hf). destruct (value_Set _ _) as [v|]; [|done]. eauto.
    + intros [= <-]. unfold option_value. rewrite Hf. eauto.
  - intros [= <-]. unfold option_value. rewrite Hf. eauto.
Qed.

Lemma visit_all_inv env names fs fs' :
  NoDup names → visit_all env names fs = ReadOk fs' →
  (∀ name, name ∉ names → find_flag name (formal fs') = find_flag name (formal fs)) ∧
  (∀ name f, name ∈ names → find_flag name (formal fs) = Some f →
     ∃ v, overridden env f = Some v ∧ option_value name fs' = Some v).
Proof.
  intros Hnd. revert fs. induction Hnd as [|name names Hnin _ IH]; intros fs; simpl.
  { intros [= <-]. split; [done|]. intros name f ?%elem_of_nil. done. }
  destruct (find_flag name (formal fs)) as [f|] eqn:Hf.
  - destruct (visit env f fs) as [fs1| |] eqn:Hv; [|done..].
    pose proof (find_flag_name _ _ _ Hf) as Hname. subst name.
    apply visit_inv in Hv as [(v & Hov & Hval) Hother]; [|done].
    intros Hall. apply IH in Hall as [Hout Hin]. split.
    + intros name' [Hne Hnin']%not_elem_of_cons. rewrite Hout by done. by apply Hother.
    + intros name' f' [->|Hin']%elem_of_cons Hf'.
      * rewrite Hf in Hf'. injection Hf' as <-. exists v. split; [done|].
        unfold option_value in *. by rewrite Hout.
      * apply Hin; [done|]. rewrite Hother; [done|]. by intros ->.
  - intros Hall. apply IH in Hall as [Hout Hin]. split.
    + intros name' [Hne Hnin']%not_elem_of_cons. by apply Hout.
    + intros name' f' [->|Hin']%elem_of_cons Hf'; [congruence|]. by apply Hin.
Qed.

(** Parsing exits with 0 or 2; visiting never exits. *)
Lemma parse_args_exit args fs code :
  parse_args args fs = ParseExit code → code = 0%Z ∨ code = 2%Z.
Proof.
  remember (length args) as n eqn:Hn. assert (length args <= n) as Hl by lia. clear Hn.
  revert args fs Hl. induction n as [|n IH]; intros [|s args] fs Hl; simpl in *; try lia; try done.
  destruct (classify s) as [| |arg]; [done..|].
  destruct (bad_name arg); [intros [= <-]; by right|].
  destruct (split_flag arg) as [name value].
  destruct (find_flag name _) as [f|]; [|destruct (_ || _); intros [= <-]; auto].
  assert (∀ value args', length args' <= n →
    set_or_exit name value fs (parse_args args') = ParseExit code → code = 0%Z ∨ code = 2%Z)
    as Hset.
  { intros value' args' Hl'. unfold set_or_exit.
    destruct (flag_Set name value' fs); [by apply IH|]. intros [= <-]. by right. }
  destruct value as [value|]; [apply Hset; lia|].
  destruct (is_bool_flag _); [apply Hset; lia|].
  destruct args as [|value args]; [intros [= <-]; by right|]. apply Hset. simpl in *. lia.
Qed.

Lemma visit_all_no_exit env names fs code : visit_all env names fs ≠ ReadExit code.
Proof.
  revert fs. induction names as [|name names IH]; intros fs; simpl; [done|].
  destruct (find_flag name _) as [f|]; [|apply IH].
  unfold visit. repeat (case_match; try done); simplify_eq; apply IH.
Qed.

(** ** Properties *)

(** C40: After [Read], every flag that the command line left at its default has
    the value of its environment variable, if that is set, and every other
    flag the value of the command line.  A variable that does not parse as
    the type of its flag is never ignored: [Read] panics instead. *)
Theorem Read_spec klog_flags env args fs :
  NoDup (flag_Name <$> (klog_flags ++ option_flags env)) →
  Read klog_flags env args = ReadOk fs →
  ∃ fs1, parse_args args {| formal := klog_flags ++ option_flags env; actual := ∅ |} = Parsed fs1 ∧
    ∀ name f, find_flag name (formal fs1) = Some f →
      ∃ v, overridden env f = Some v ∧ option_value name fs = Some v.
Proof.
  intros Hnd. unfold Read. destruct (parse_args _ _) as [fs1|] eqn:Hp; [|done].
  intros Hv. exists fs1. split; [done|]. intros name f Hf.
  pose proof (parse_args_names _ _ _ Hp) as Hnames. simpl in Hnames.
  assert (insertion_sort string_ltb (flag_Name <$> formal fs1) ≡ₚ flag_Name <$> formal fs1)
    as Hperm by apply insertion_sort_perm.
  eapply visit_all_inv; [|exact Hv| |exact Hf].
  - by rewrite Hperm, Hnames.
  - rewrite Hperm. by eapply find_flag_elem.
Qed.

(** After [Read] no option is nil, and each leads to a value of its type,
    whatever was parsed and overridden. *)
Lemma options_typed klog_flags env args fs :
  NoDup (flag_Name <$> (klog_flags ++ option_flags env)) →
  Read klog_flags env args = ReadOk fs →
  (∃ b, pointee (AutoGOMAXPROCS assigned) fs = Some (BoolValue b)) ∧
  (∃ f, pointee (RatioGOMEMLIMIT assigned) fs = Some (FloatValue f)) ∧
  Forall (λ p, ∃ s, pointee (p assigned) fs = Some (StringValue s))
    [Kubeconfig; MasterURL; SelfHost; MainHost] ∧
  Forall (λ p, ∃ n, pointee (p assigned) fs = Some (IntValue n)) [SelfPort; MainPort; Workers] ∧
  Forall (λ p, ∃ b, pointee (p assigned) fs = Some (BoolValue b)) [TryNoCache; Version].
Proof.
  intros Hnd. unfold Read. destruct (parse_args _ _) as [fs1|] eqn:Hp; [|done]. intros Hv.
  assert (∀ n t, type_of n (option_flags env) = Some t → type_of n (formal fs) = Some t) as Hty.
  { intros n t Ht. rewrite (visit_all_types _ _ _ _ Hv n), (parse_args_types _ _ _ Hp n). simpl.
    unfold type_of in *. destruct (find_flag n (option_flags env)) as [f|] eqn:Hf; [|done].
    rewrite (find_flag_app n _ _ f Hnd Hf). done. }
  assert (∀ n, type_of n (formal fs) = Some 0 → ∃ b, option_value n fs = Some (BoolValue b)) as Hb.
  { intros n. unfold type_of, option_value. destruct (find_flag n _) as [[? []]|]; naive_solver. }
  assert (∀ n, type_of n (formal fs) = Some 1 → ∃ b, option_value n fs = Some (IntValue b)) as Hi.
  { intros n. unfold type_of, option_value. destruct (find_flag n _) as [[? []]|]; naive_solver. }
  assert (∀ n, type_of n (formal fs) = Some 3 → ∃ b, option_value n fs = Some (StringValue b)) as Hs.
  { intros n. unfold type_of, option_value. destruct (find_flag n _) as [[? []]|]; naive_solver. }
  assert (∀ n, type_of n (formal fs) = Some 2 → ∃ b, option_value n fs = Some (FloatValue b)) as Hf.
  { intros n. unfold type_of, option_value. destruct (find_flag n _) as [[? []]|]; naive_solver. }
  split_and!; [by apply Hb, Hty|by apply Hf, Hty|..]; repeat constructor;
    first [by apply Hb, Hty|by apply Hi, Hty|by apply Hs, Hty].
Qed.

(** A flag that the command line sets to its default value is taken for one
    that was not set: the environment overrides it. *)
Lemma explicit_default_overridden :
  ∃ fs, Read [] {["CRDMETRICS_WORKERS" := "5"]} ["--workers=2"] = ReadOk fs ∧
    option_value "workers" fs = Some (IntValue 5).
Proof. eexists. split; vm_compute; reflexivity. Qed.

(** The variables of the flags of [Read] are distinct, and those that the
    two flags with a default of their own read from the environment are not
    among them. *)
Lemma overriders_distinct env :
  NoDup ((λ f, overriderForOptionName (flag_Name f)) <$> option_flags env) ∧
  (∀ f, f ∈ option_flags env →
     overriderForOptionName (flag_Name f) ∉ ["KUBECONFIG"; "KUBERNETES_MASTER"]).
Proof.
  split.
  - apply (bool_decide_unpack _). vm_compute. exact I.
  - apply Forall_forall. repeat constructor; apply (bool_decide_unpack _); vm_compute; exact I.
Qed.

(** ** Witnesses *)

Lemma Read_spec_witness :
  ∃ fs v, Read [] {["CRDMETRICS_MAIN_PORT" := "0x1F"]} ["-workers"; "4"] = ReadOk fs ∧
    option_value "main-port" fs = Some v ∧ v = IntValue 31.
Proof.
  set (env := {["CRDMETRICS_MAIN_PORT" := "0x1F"]} : Environ).
  destruct (Read [] env ["-workers"; "4"]) as [fs|code|name value] eqn:Hr;
    [|revert Hr; vm_compute; discriminate..].
  destruct (Read_spec [] env ["-workers"; "4"] fs) as (fs1 & Hp & Hall).
  - apply (bool_decide_unpack _). vm_compute. exact I.
  - exact Hr.
  - destruct (Hall "main-port" (define "main-port" (IntValue 9999))) as (v & Hv & Hval).
    + revert Hp. vm_compute. intros [= <-]. reflexivity.
    + exists fs, v. split; [reflexivity|]. split; [exact Hval|].
      revert Hv. vm_compute. intros [= <-]. reflexivity.
Defined.
