(* ===== verification/Tuning.v ===== *)
(** * Tuning of the runtime ([main.go], [automaxprocs], [automemlimit])

    Before anything else [main] sets GOMAXPROCS from the CPU quota of its
    control group and GOMEMLIMIT from the memory limit.  The two libraries are
    followed down to what they read from the system, which is a parameter
    ([Cgroups]); the products of floating-point numbers are rounded as binary64
    values are.  Their logging is left out, and the providers do not panic. *)
From S2P Require Import Prelude GoStrings Strconv GoSort Options.

#[local] Open Scope Z_scope.

(** ** Floating-point arithmetic *)

(** [m·2^e] as a fraction. *)
Definition fraction (m e : Z) : Z * Z := scale2 m 1 (- e).

Definition float_le_0 (f : float64) : bool :=
  match f with
  | Finite neg m _ => neg || (m =? 0)
  | Inf neg => neg
  | NaN => false
  end.

Definition float_gt_1 (f : float64) : bool :=
  match f with
  | Finite neg m e => let '(n, d) := fraction m e in negb neg && (d <? n)
  | Inf neg => negb neg
  | NaN => false
  end.

(** A finite product; an overflow is an infinity. *)
Definition rounded (neg : bool) (n d : Z) : float64 :=
  if n =? 0 then Finite neg 0 min_exp
  else match round_ratio neg n d with
       | Some f => f
       | None => Inf neg
       end.

Definition float_mul (x y : float64) : float64 :=
  match x, y with
  | NaN, _ | _, NaN => NaN
  | Inf a, Inf b => Inf (xorb a b)
  | Inf a, Finite b m _ | Finite a m _, Inf b => if m =? 0 then NaN else Inf (xorb a b)
  | Finite a m e, Finite b m' e' =>
    let '(n, d) := fraction (m * m') (e + e') in rounded (xorb a b) n d
  end.

(** [float64(n)] of a [uint64]. *)
Definition float_of_uint64 (n : Z) : float64 := rounded false n 1.

(** ** The system *)

(** What the libraries read: the CPU quota, if there is one; the memory limit
    of the control group, and the memory of the machine (zero when unknown).  A
    conversion from a float that is out of range gives an integer that depends
    on the machine. *)
Inductive limit_error : Type := ErrNoLimit | OtherLimitError (err : string).

Class Cgroups : Type := {
  CPUQuota : result string (option float64);
  FromCgroup : result limit_error Z;
  TotalMemory : Z;
  int_out_of_range : float64 → Z;
  uint64_out_of_range : float64 → Z;
}.

(** The settings of the Go runtime. *)
Record Runtime : Type := MkRuntime {
  GOMAXPROCS : Z;
  GOMEMLIMIT : Z;
}.

Section tuning.
Context `{!Cgroups} (env : Environ).

(** ** [maxprocs.Set] *)

(** [int(math.Floor(f))]. *)
Definition int_floor (f : float64) : Z :=
  match f with
  | Finite neg m e =>
    let '(n, d) := fraction m e in
    let k := (if neg then - n else n) / d in
    if (- 2 ^ 63 <=? k) && (k <? 2 ^ 63) then k else int_out_of_range f
  | _ => int_out_of_range f
  end.

(** [CPUQuotaToGOMAXPROCS]: [None] when there is no quota. *)
Definition CPUQuotaToGOMAXPROCS (minValue : Z) : result string (option Z) :=
  match CPUQuota with
  | Err err => Err err
  | Ok None => Ok None
  | Ok (Some quota) =>
    let maxProcs := int_floor quota in
    Ok (Some (if (0 <? minValue) && (maxProcs <? minValue) then minValue else maxProcs))
  end.

(** [runtime.GOMAXPROCS(n)]: a number below one changes nothing. *)
Definition set_GOMAXPROCS (n : Z) (rt : Runtime) : Runtime :=
  if n <? 1 then rt else MkRuntime n (GOMEMLIMIT rt).

(** [maxprocs.Set]: the function that undoes it, its error, and the runtime. *)
Definition maxprocs_Set (rt : Runtime) : (Runtime → Runtime) * option string * Runtime :=
  match env !! "GOMAXPROCS" with
  | Some _ => (id, None, rt)
  | None =>
    match CPUQuotaToGOMAXPROCS 1 with
    | Err err => (id, Some err, rt)
    | Ok None => (id, None, rt)
    | Ok (Some maxProcs) =>
      (set_GOMAXPROCS (GOMAXPROCS rt), None, set_GOMAXPROCS maxProcs rt)
    end
  end.

(** ** [memlimit.SetGoMemLimitWithOpts] *)

Definition Provider : Type := result limit_error Z.

Definition FromSystem : Provider := if TotalMemory =? 0 then Err ErrNoLimit else Ok TotalMemory.

Definition ApplyFallback (provider fallback : Provider) : Provider :=
  match provider with
  | Err _ => fallback
  | Ok limit => Ok limit
  end.

(** [uint64(f)]. *)
Definition uint64_of_float (f : float64) : Z :=
  match f with
  | Finite neg m e =>
    let '(n, d) := fraction m e in
    if (n / d =? 0) || (negb neg && (n / d <? 2 ^ 64)) then n / d else uint64_out_of_range f
  | _ => uint64_out_of_range f
  end.

Definition ApplyRatio (provider : Provider) (ratio : float64) : Provider :=
  if float_le_0 ratio || float_gt_1 ratio then Err (OtherLimitError "invalid ratio")
  else match provider with
       | Err err => Err err
       | Ok limit => Ok (uint64_of_float (float_mul (float_of_uint64 limit) ratio))
       end.

Definition cappedU64ToI64 (limit : Z) : Z := if 2 ^ 63 - 1 <? limit then 2 ^ 63 - 1 else limit.

(** [setGoMemLimit]. *)
Definition setGoMemLimit (provider : Provider) (rt : Runtime) : result limit_error Z * Runtime :=
  match provider with
  | Err err => (Err err, rt)
  | Ok limit =>
    let capped := cappedU64ToI64 limit in (Ok capped, MkRuntime (GOMAXPROCS rt) capped)
  end.

(** [parseExperiments]: whether the experiment [system] is on. *)
Fixpoint parse_experiments (names : list string) (system : bool) : result string bool :=
  match names with
  | [] => Ok system
  | f :: names =>
    if decide (f = "") then parse_experiments names system
    else if decide (f = "none") then parse_experiments names false
    else if decide (f = "system") then parse_experiments names true
    else Err ("unknown AUTOMEMLIMIT_EXPERIMENT " +:+ f)
  end.

Definition SetGoMemLimitWithOpts (ratio : float64) (rt : Runtime) : result string Z * Runtime :=
  match parse_experiments (Split (Getenv env "AUTOMEMLIMIT_EXPERIMENT") ",") false with
  | Err err => (Err ("failed to parse experiments: " +:+ err), rt)
  | Ok system =>
    let provider := if system then ApplyFallback FromCgroup FromSystem else FromCgroup in
    match env !! "GOMEMLIMIT" with
    | Some _ => (Ok 0, rt)
    | None =>
      let with_ratio ratio :=
        match setGoMemLimit (ApplyRatio provider ratio) rt with
        | (Ok limit, rt) => (Ok limit, rt)
        | (Err ErrNoLimit, rt) => (Ok 0, rt)
        | (Err (OtherLimitError err), rt) => (Err ("failed to set GOMEMLIMIT: " +:+ err), rt)
        end in
      match env !! "AUTOMEMLIMIT" with
      | None => with_ratio ratio
      | Some val =>
        if decide (val = "off") then (Ok 0, rt)
        else match ParseFloat val with
             | Err _ => (Err ("cannot parse AUTOMEMLIMIT: " +:+ val), rt)
             | Ok ratio => with_ratio ratio
             end
      end
    end
  end.

(** ** [main], up to the version flag *)

Definition tune (autoGOMAXPROCS : bool) (ratioGOMEMLIMIT : float64) (rt : Runtime) : Runtime :=
  let rt :=
    if autoGOMAXPROCS then
      match maxprocs_Set rt with
      | (unset, Some _, rt) => unset rt
      | (_, None, rt) => rt
      end
    else rt in
  (SetGoMemLimitWithOpts ratioGOMEMLIMIT rt).2.
End tuning.

(** ** Lemmas: rounding *)

(** [m·2^e] is at most [b]. *)
Definition at_most (m e b : Z) : Prop := m * 2 ^ Z.max e 0 <= b * 2 ^ Z.max (- e) 0.

Lemma fraction_floor_le m e b : 0 <= b → at_most m e b → let '(n, d) := fraction m e in n / d <= b.
Proof.
  unfold fraction, at_most. intros Hb. rewrite scale2_max, Z.opp_involutive, Z.mul_1_l.
  intros H. apply Z.div_le_upper_bound; [apply Z.pow_pos_nonneg; lia|]. lia.
Qed.

Lemma fraction_at_most m e b n d : fraction m e = (n, d) → n <= b * d → at_most m e b.
Proof.
  unfold fraction, at_most. rewrite scale2_max, Z.opp_involutive, Z.mul_1_l.
  by intros [= <- <-].
Qed.

(** Multiplying by a number that is at most one. *)
Lemma product_at_most m e m' e' b :
  0 <= b → 0 <= m' → m * 2 ^ Z.max e 0 = b * 2 ^ Z.max (- e) 0 → at_most m' e' 1 →
  at_most (m * m') (e + e') b.
Proof.
  unfold at_most. intros Hb Hm' Hm H1.
  assert (2 ^ Z.max (e + e') 0 * (2 ^ Z.max (- e) 0 * 2 ^ Z.max (- e') 0) =
          2 ^ Z.max (- (e + e')) 0 * (2 ^ Z.max e 0 * 2 ^ Z.max e' 0)) as E.
  { rewrite <- !Z.pow_add_r by lia. f_equal. lia. }
  assert (0 < 2 ^ Z.max (- e) 0 * 2 ^ Z.max (- e') 0) as Hp
    by (apply Z.mul_pos_pos; apply Z.pow_pos_nonneg; lia).
  apply (Z.mul_le_mono_pos_r _ _ _ Hp).
  transitivity ((m * 2 ^ Z.max e 0) * (m' * 2 ^ Z.max e' 0) * 2 ^ Z.max (- (e + e')) 0).
  - apply Z.eq_le_incl. transitivity (m * m' *
      (2 ^ Z.max (e + e') 0 * (2 ^ Z.max (- e) 0 * 2 ^ Z.max (- e') 0))); [ring|].
    rewrite E. ring.
  - rewrite Hm. transitivity (b * 2 ^ Z.max (- e) 0 * (1 * 2 ^ Z.max (- e') 0)
      * 2 ^ Z.max (- (e + e')) 0); [|apply Z.eq_le_incl; ring].
    apply Z.mul_le_mono_nonneg_r; [apply Z.pow_nonneg; lia|].
    apply Z.mul_le_mono_nonneg_l; [|done]. apply Z.mul_nonneg_nonneg; [done|].
    apply Z.pow_nonneg. lia.
Qed.

Lemma fraction_pos m e n d : 0 < m → fraction m e = (n, d) → 0 < n ∧ 0 < d.
Proof. intros Hm. by apply scale2_pos. Qed.

(** Rounding a number that is at most an integer below [2^53] gives at most that
    integer. *)
Lemma round_ratio_at_most n d b :
  0 < n → 0 < d → n <= b * d → b < 2 ^ 53 →
  ∃ m e, round_ratio false n d = Some (Finite false m e) ∧ 0 <= m ∧ at_most m e b.
Proof.
  intros Hn Hd Hle Hb. assert (0 < b) by nia. unfold round_ratio.
  assert (floor_log2 n d <= 52) as Hlog.
  { apply Z.nlt_ge. intros Hlog. destruct (scale2 n d (floor_log2 n d)) as [x y] eqn:E.
    pose proof (floor_log2_spec _ _ _ _ Hn Hd E) as [Hge _].
    rewrite scale2_max in E. injection E as <- <-.
    rewrite (Z.max_r (- _)), (Z.max_l (floor_log2 n d)) in Hge by lia.
    rewrite Z.pow_0_r, Z.mul_1_r in Hge.
    pose proof (Z.pow_le_mono_r 2 53 (floor_log2 n d) ltac:(lia) ltac:(lia)). nia. }
  set (e := Z.max (floor_log2 n d - 52) min_exp).
  assert (e <= 0) by (unfold e, min_exp; lia).
  rewrite scale2_max. rewrite (Z.max_l (- e) 0), (Z.max_r e 0) by lia.
  rewrite Z.pow_0_r, Z.mul_1_r. set (q := div_even _ _).
  assert (0 < 2 ^ (- e)) by (apply Z.pow_pos_nonneg; lia).
  assert (0 <= q) by (apply div_even_nearest; [nia|done]).
  assert (q <= b * 2 ^ (- e)) by (apply div_even_le; [done|nia]).
  destruct (Z.eqb_spec q (2 ^ 53)) as [Hq|Hq].
  - destruct (Z.ltb_spec max_exp (e + 1)); [unfold max_exp in *; lia|].
    eexists _, _. split; [done|]. split; [lia|]. unfold at_most.
    assert (e ≠ 0) by (intros ->; simpl in *; lia).
    rewrite (Z.max_r (e + 1)), (Z.max_l (- (e + 1))) by lia.
    replace (- e) with (Z.succ (- (e + 1))) in * by lia. rewrite Z.pow_succ_r in * by lia. nia.
  - destruct (Z.ltb_spec max_exp e); [unfold max_exp in *; lia|].
    eexists _, _. split; [done|]. split; [done|]. unfold at_most.
    rewrite (Z.max_r e), (Z.max_l (- e)) by lia. lia.
Qed.

(** A positive limit times a ratio of at most one, rounded, is at most the
    limit. *)
Lemma limit_ratio_at_most `{!Cgroups} limit ratio :
  0 < limit < 2 ^ 53 → wf_float ratio = true →
  float_le_0 ratio = false → float_gt_1 ratio = false → ratio ≠ NaN →
  0 <= uint64_of_float (float_mul (float_of_uint64 limit) ratio) <= limit.
Proof.
  intros Hl Hwf H0 H1 Hnan. destruct ratio as [neg m' e'|[]|]; try done.
  simpl in H0, H1, Hwf. destruct neg; [done|]. simpl in H0, H1.
  apply Z.eqb_neq in H0. rewrite !andb_true_iff in Hwf.
  assert (0 < m') by lia.
  destruct (fraction m' e') as [n1 d1] eqn:Hf1. apply Z.ltb_ge in H1.
  destruct (round_ratio_int false limit ltac:(lia)) as (m & e & Hround & He & Hme).
  assert (float_of_uint64 limit = Finite false m e) as ->.
  { unfold float_of_uint64, rounded. destruct (Z.eqb_spec limit 0); [lia|]. by rewrite Hround. }
  assert (0 < m).
  { pose proof (Z.pow_pos_nonneg 2 (Z.max e 0) ltac:(lia) ltac:(lia)).
    pose proof (Z.pow_pos_nonneg 2 (Z.max (- e) 0) ltac:(lia) ltac:(lia)). nia. }
  unfold float_mul. destruct (fraction (m * m') (e + e')) as [n d] eqn:Hf. simpl xorb.
  assert (0 < m * m') as Hmm by nia.
  destruct (fraction_pos _ _ _ _ Hmm Hf) as [Hn Hd].
  assert (n <= limit * d) as Hle.
  { pose proof (product_at_most m e m' e' limit ltac:(lia) ltac:(lia) Hme) as Hp.
    unfold at_most in Hp. unfold fraction in Hf, Hf1. rewrite scale2_max in Hf, Hf1.
    rewrite Z.opp_involutive, Z.mul_1_l in Hf, Hf1. injection Hf as <- <-.
    injection Hf1 as <- <-. apply Hp. by rewrite Z.mul_1_l. }
  unfold rounded. destruct (Z.eqb_spec n 0) as [|_]; [lia|].
  destruct (round_ratio_at_most n d limit Hn Hd Hle ltac:(lia)) as (m2 & e2 & -> & Hm2 & Hat).
  simpl. pose proof (fraction_floor_le m2 e2 limit ltac:(lia) Hat) as Hfl.
  destruct (fraction m2 e2) as [n2 d2] eqn:Hf2.
  assert (0 <= n2 / d2).
  { unfold fraction in Hf2. rewrite scale2_max in Hf2. injection Hf2 as <- <-.
    apply Z.div_pos; [|apply Z.mul_pos_pos; [done|apply Z.pow_pos_nonneg; lia]].
    apply Z.mul_nonneg_nonneg; [done|apply Z.pow_nonneg; lia]. }
  destruct (Z.ltb_spec (n2 / d2) (2 ^ 64)); [|lia]. rewrite orb_true_r. lia.
Qed.

(** ** Properties *)

Section properties.
Context `{!Cgroups} (env : Environ).

Lemma memlimit_GOMAXPROCS ratio rt :
  GOMAXPROCS (SetGoMemLimitWithOpts env ratio rt).2 = GOMAXPROCS rt.
Proof.
  unfold SetGoMemLimitWithOpts, setGoMemLimit. by repeat (case_match; simplify_eq/=).
Qed.

(** GOMAXPROCS after the tuning: never below one, and what it was when the
    tuning is off, when the environment sets it, or when there is no quota or
    no way to read it; the quota, rounded down but at least one, otherwise. *)
Lemma tune_GOMAXPROCS auto ratio rt :
  1 <= GOMAXPROCS rt →
  let rt' := tune env auto ratio rt in
  1 <= GOMAXPROCS rt' ∧
  (auto = false ∨ is_Some (env !! "GOMAXPROCS") ∨ CPUQuota = Ok None ∨
     (∃ err, CPUQuota = Err err) → GOMAXPROCS rt' = GOMAXPROCS rt) ∧
  (∀ quota, auto = true → env !! "GOMAXPROCS" = None → CPUQuota = Ok (Some quota) →
     GOMAXPROCS rt' = Z.max 1 (int_floor quota)).
Proof.
  intros Hrt. unfold tune. rewrite memlimit_GOMAXPROCS.
  unfold maxprocs_Set, CPUQuotaToGOMAXPROCS, set_GOMAXPROCS. destruct auto; [|naive_solver].
  destruct (env !! "GOMAXPROCS") as [v|]; [naive_solver|].
  destruct CPUQuota as [[quota|]|err]; [|naive_solver..]. simpl.
  destruct (Z.ltb_spec (int_floor quota) 1); simpl.
  - split; [done|]. split; [naive_solver|]. intros ? _ _ [= <-]. lia.
  - destruct (Z.ltb_spec (int_floor quota) 1); [lia|]. simpl. split; [lia|].
    split; [naive_solver|]. intros ? _ _ [= <-]. lia.
Qed.

(** GOMEMLIMIT after the tuning: what it was, or the rounded product of a limit
    and a ratio that is not out of range, capped to an [int64]; with a limit
    below 2^53 bytes and a ratio that is a number it never exceeds the limit. *)
Lemma tune_GOMEMLIMIT auto ratio rt :
  let rt' := tune env auto ratio rt in
  GOMEMLIMIT rt' = GOMEMLIMIT rt ∨
  ∃ limit r, (FromCgroup = Ok limit ∨ FromSystem = Ok limit) ∧
    (env !! "AUTOMEMLIMIT" = None → r = ratio) ∧
    float_le_0 r = false ∧ float_gt_1 r = false ∧
    GOMEMLIMIT rt' = cappedU64ToI64 (uint64_of_float (float_mul (float_of_uint64 limit) r)) ∧
    (0 < limit < 2 ^ 53 → wf_float r = true → r ≠ NaN → GOMEMLIMIT rt' <= limit).
Proof.
  unfold tune. cbv zeta. set (rt1 := if auto then _ else _).
  assert (GOMEMLIMIT rt1 = GOMEMLIMIT rt) as <-.
  { unfold rt1, maxprocs_Set, set_GOMAXPROCS.
    destruct auto; [|done]. by repeat (case_match; simplify_eq/=). }
  generalize rt1. clear rt1 rt. intros rt. unfold SetGoMemLimitWithOpts.
  destruct (parse_experiments _ _) as [system|]; [|by left].
  set (provider := if system then _ else _).
  assert (∀ limit, provider = Ok limit → FromCgroup = Ok limit ∨ FromSystem = Ok limit) as Hp.
  { intros limit. unfold provider, ApplyFallback. destruct system; [|by left].
    destruct FromCgroup; [by left|by right]. }
  clearbody provider. destruct (env !! "GOMEMLIMIT"); [by left|].
  assert (∀ r, (env !! "AUTOMEMLIMIT" = None → r = ratio) →
    let rt' := (setGoMemLimit (ApplyRatio provider r) rt).2 in
    GOMEMLIMIT rt' = GOMEMLIMIT rt ∨
    ∃ limit r, (FromCgroup = Ok limit ∨ FromSystem = Ok limit) ∧
      (env !! "AUTOMEMLIMIT" = None → r = ratio) ∧
      float_le_0 r = false ∧ float_gt_1 r = false ∧
      GOMEMLIMIT rt' = cappedU64ToI64 (uint64_of_float (float_mul (float_of_uint64 limit) r)) ∧
      (0 < limit < 2 ^ 53 → wf_float r = true → r ≠ NaN → GOMEMLIMIT rt' <= limit)) as Hset.
  { intros r Hr. unfold ApplyRatio, setGoMemLimit.
    destruct (float_le_0 r) eqn:H0; [by left|]. destruct (float_gt_1 r) eqn:H1; [by left|].
    destruct provider as [limit|]; [|by left]. right. exists limit, r. simpl.
    split_and!; auto. intros Hl Hwf Hn.
    pose proof (limit_ratio_at_most limit r Hl Hwf H0 H1 Hn). unfold cappedU64ToI64.
    case_match; lia. }
  destruct (env !! "AUTOMEMLIMIT") as [val|].
  - destruct (decide (val = "off")); [by left|].
    destruct (ParseFloat val) as [r|]; [|by left].
    destruct (Hset r) as [Hs|Hs]; [done|left|right];
      destruct (setGoMemLimit _ _) as [[|[]] ?]; exact Hs.
  - destruct (Hset ratio) as [Hs|Hs]; [done|left|right];
      destruct (setGoMemLimit _ _) as [[|[]] ?]; exact Hs.
Qed.
End properties.

(** ** Example *)

Module TuningExample.

(** Two and a half processors, and 512 MiB. *)
#[local] Instance container : Cgroups := {|
  CPUQuota := Ok (Some (Finite false 5 (-1)));
  FromCgroup := Ok 536870912;
  TotalMemory := 0;
  int_out_of_range _ := - 2 ^ 63;
  uint64_out_of_range _ := 2 ^ 63;
|}.

Definition nine_tenths : float64 := Finite false 8106479329266893 (-53).

Example tuned :
  tune ∅ true nine_tenths (MkRuntime 8 (2 ^ 63 - 1)) = MkRuntime 2 483183820.
Proof. vm_compute. reflexivity. Qed.

(** A ratio that is not a number passes the check of its range. *)
Example tuned_NaN :
  tune ∅ false NaN (MkRuntime 8 (2 ^ 63 - 1)) = MkRuntime 8 (2 ^ 63 - 1) ∧
  ApplyRatio FromCgroup NaN = Ok (2 ^ 63).
Proof. vm_compute. split; reflexivity. Qed.
End TuningExample.
