(* ===== verification/Main.v ===== *)
(** * The process ([main.go], [pkg/signals], [Controller.Run])

    The signal handler as a state machine, the set-up and the result of
    [Controller.Run], and the ways [main] ends, with the settings of the runtime
    that it leaves ([Tuning]).  Clients and caches are the libraries': what they
    return is a parameter. *)
From S2P Require Import Prelude GoStrings Strconv GoSort Probe Server Options Tuning.

(** ** Signals ([pkg/signals/signal.go]) *)

Inductive signal : Type := Interrupt | SIGTERM | OtherSignal.

(** [signal.Notify(c, os.Interrupt, syscall.SIGTERM)]. *)
Definition notified (s : signal) : bool :=
  match s with
  | Interrupt | SIGTERM => true
  | OtherSignal => false
  end.

(** The state of the process: whether [onlyOneSignalHandler] is closed, the
    receive at which the goroutine of the handler waits, the context, and the
    exit code once it exits. *)
Inductive handler_state : Type := NoHandler | FirstReceive | SecondReceive | Exited (code : Z).

Record signals : Type := Signals {
  sig_closed : bool;
  sig_handler : handler_state;
  sig_cancelled : bool;
}.

Definition signals0 : signals := Signals false NoHandler false.

(** [SetupSignalHandler]: closing the channel twice panics. *)
Definition SetupSignalHandler : M signals unit := λ s,
  if sig_closed s then (Panicked CloseOfClosedChannel, s)
  else (Done tt, Signals true FirstReceive (sig_cancelled s)).

(** A signal arrives.  The channel holds two, so none of the first two is
    lost. *)
Definition receive (x : signal) (s : signals) : signals :=
  if notified x then
    match sig_handler s with
    | FirstReceive => Signals (sig_closed s) SecondReceive true
    | SecondReceive => Signals (sig_closed s) (Exited 1) (sig_cancelled s)
    | NoHandler | Exited _ => s
    end
  else s.

Definition receive_all (l : list signal) (s : signals) : signals := foldl (λ s x, receive x s) s l.

(** ** [Controller.Run] *)

(** [net.JoinHostPort]. *)
Definition JoinHostPort (host port : string) : string :=
  if 0 <? Count host ":" then "[" +:+ host +:+ "]:" +:+ port else host +:+ ":" +:+ port.

(** The options through their pointers, by type. *)
Definition string_option (p : Options → option string) (fs : FlagSet) : string :=
  match pointee (p assigned) fs with
  | Some (StringValue s) => s
  | _ => ""
  end.

Definition int_option (p : Options → option string) (fs : FlagSet) : Z :=
  match pointee (p assigned) fs with
  | Some (IntValue n) => n
  | _ => 0%Z
  end.

Definition bool_option (p : Options → option string) (fs : FlagSet) : bool :=
  match pointee (p assigned) fs with
  | Some (BoolValue b) => b
  | _ => false
  end.

(** What [Run] starts: the servers and the number of workers
    ([for range workers] runs no iteration for a negative number). *)
Record running : Type := Running {
  run_self : option http_Server;
  run_main : option http_Server;
  run_workers : nat;
}.

(** The labels of the histogram of request durations. *)
Definition requestDurationVec : list string := ["method"; "code"].

(** [Run] up to the wait for the end of the context: its error, or what runs
    until then.  [synced] is the result of [WaitForCacheSync]. *)
Definition Run (synced : bool) (options : FlagSet) (workers : Z) : result string running :=
  if negb synced then Err "failed to wait for caches to sync"
  else
    let selfAddr := JoinHostPort (string_option SelfHost options)
                      (Itoa (int_option SelfPort options)) in
    let self := server_build (newSelfServer selfAddr) true in
    let mainAddr := JoinHostPort (string_option MainHost options)
                      (Itoa (int_option MainPort options)) in
    let main := server_build (newMainServer mainAddr requestDurationVec) true in
    Ok (Running self main (Z.to_nat workers)).

(** ** [main] *)

Inductive ending : Type :=
| Exit (code : Z)
| Returns (r : running)
| Panics.

(** What the libraries return to [main]. *)
Class Libraries : Type := {
  Config : Type;
  BuildConfigFromFlags : string → string → result string Config;
  NewKubeClientset : Config → result string unit;
  NewCRDMetricsClientset : Config → result string unit;
  NewDynamicClientset : Config → result string unit;
  caches_synced : bool;
}.

Definition main_body `{!Libraries} (options : FlagSet) : ending :=
  if bool_option Version options && (size (actual options) =? 1) then Exit 0
  else
    match BuildConfigFromFlags (string_option MasterURL options)
            (string_option Kubeconfig options) with
    | Err _ => Exit 1
    | Ok cfg =>
      match NewKubeClientset cfg with
      | Err _ => Exit 1
      | Ok _ =>
        match NewCRDMetricsClientset cfg with
        | Err _ => Exit 1
        | Ok _ =>
          match NewDynamicClientset cfg with
          | Err _ => Exit 1
          | Ok _ =>
            match Run caches_synced options (int_option Workers options) with
            | Err _ => Exit 1
            | Ok r => Returns r
            end
          end
        end
      end
    end.

Definition float_option (p : Options → option string) (fs : FlagSet) : float64 :=
  match pointee (p assigned) fs with
  | Some (FloatValue f) => f
  | _ => Finite false 0 min_exp
  end.

Definition main `{!Libraries} `{!Cgroups} (klog_flags : list Flag) (env : Environ)
    (args : list string) (rt : Runtime) : ending * Runtime :=
  match Read klog_flags env args with
  | ReadExit code => (Exit code, rt)
  | ReadPanic _ _ => (Panics, rt)
  | ReadOk options =>
    (main_body options,
     tune env (bool_option AutoGOMAXPROCS options)
       (float_option RatioGOMEMLIMIT options) rt)
  end.

(** ** Properties *)

(** The first interrupt or termination signal cancels the context and the
    second ends the process with code 1, whatever other signals arrive in
    between; the handler can be set up only once. *)
Lemma signals_spec l :
  let n := length (filter (λ x, notified x = true) l) in
  ∃ s, SetupSignalHandler signals0 = (Done tt, s) ∧
    let s' := receive_all l s in
    sig_cancelled s' = (0 <? n) ∧
    (sig_handler s' = Exited 1 ↔ 2 <= n) ∧
    (∀ code, sig_handler s' = Exited code → code = 1%Z) ∧
    SetupSignalHandler s' = (Panicked CloseOfClosedChannel, s').
Proof.
  intros n. eexists. split; [done|]. cbv zeta. unfold n. clear n.
  set (run := λ n, match n with
    | 0 => Signals true FirstReceive false
    | 1 => Signals true SecondReceive true
    | _ => Signals true (Exited 1) true
    end).
  assert (∀ n, receive_all l (run n) =
    run (n + length (filter (λ x, notified x = true) l))) as Hrun.
  { induction l as [|x l IH]; intros n; simpl; [by rewrite Nat.add_0_r|].
    rewrite filter_cons. unfold receive. case_decide as Hx.
    - rewrite Hx. simpl. rewrite Nat.add_succ_r, <- Nat.add_succ_l, <- IH.
      by destruct n as [|[|n]].
    - apply not_true_is_false in Hx. rewrite Hx. apply IH. }
  change (Signals true FirstReceive (sig_cancelled signals0)) with (run 0). rewrite Hrun. simpl.
  destruct (length _) as [|[|n]]; simpl; split_and!; try done; try (split; [done|lia]);
    try (by intros code [= <-]). split; [lia|done].
Qed.

(** With the default options the main server listens on [[::]:9999] and the
    self server on [[::]:9998], with two workers; [main] ends with code 0 for
    the version or the help, with 2 for a malformed command line, and with 1
    when a client cannot be built or the caches do not sync. *)
Lemma main_spec `{!Libraries} `{!Cgroups} klog_flags env args rt :
  (∀ code, (main klog_flags env args rt).1 = Exit code →
     code = 0%Z ∨ code = 1%Z ∨ code = 2%Z) ∧
  (∀ r, (main klog_flags env args rt).1 = Returns r →
     caches_synced = true ∧
     ∃ fs, Read klog_flags env args = ReadOk fs ∧
       Run true fs (int_option Workers fs) = Ok r ∧ is_Some (run_self r) ∧ is_Some (run_main r)) ∧
  (∀ fs, Read [] ∅ [] = ReadOk fs →
     ∃ r, Run true fs (int_option Workers fs) = Ok r ∧ run_workers r = 2 ∧
       srv_Addr <$> run_main r = Some "[::]:9999" ∧
       srv_Addr <$> run_self r = Some "[::]:9998").
Proof.
  split; [|split].
  - intros code. unfold main. destruct (Read _ _ _) as [fs|c|] eqn:Hr; [| |done].
    + simpl. unfold main_body. repeat case_match; intros [= <-]; auto.
    + intros [= <-]. unfold Read in Hr. destruct (parse_args _ _) as [fs|c'] eqn:Hp.
      * exfalso. by apply visit_all_no_exit in Hr.
      * injection Hr as <-. apply parse_args_exit in Hp. naive_solver.
  - intros r. unfold main. destruct (Read _ _ _) as [fs|c|] eqn:Hr; [|done..].
    simpl. unfold main_body. destruct (_ && _); [done|]. repeat (case_match; try done).
    intros [= <-]. destruct caches_synced; [|done]. split; [done|]. exists fs.
    split; [done|]. split; [done|]. unfold Run in *. simpl in *. by simplify_eq.
  - vm_compute. intros fs [= <-]. eexists. split; [reflexivity|done].
Qed.
