(* ===== verification/Lifecycle.v ===== *)
(** * The life of the controller ([internal/controller.go])

    [NewController] and [Controller.Run] with what runs beside it: the informer
    factory of [Informers], the queue, the goroutines of the workers
    ([wait.UntilWithContext]) and the two servers ([net/http]).  A step is one of
    [Run], of a worker, of a server, of the factory, or of the environment; the
    context ends when its channel is closed.  What a worker does with an item is
    [Controller]; here it only gets items and finishes them. *)
From S2P Require Import Prelude GoStrings Strconv GoSort Values Resolver Metric Family Store Types Builder Events Clients Informers Workqueue.

#[local] Open Scope nat_scope.

(** ** [NewController] *)

Record Controller : Type := {
  c_crdmetricsInformerFactory : FWorld;
  c_informer : nat;
  c_workqueue : queue;
}.

(** [utilruntime.Must] panics with the error of the scheme; [FlushAndExit]. *)
Inductive created : Type :=
| Created (c : Controller)
| MustPanics (err : string)
| PanicsWith (p : panic)
| Exits (code : Z).

(** [AddEventHandler]: its error, of an informer that has stopped. *)
Definition AddEventHandler (l : nat) (w : FWorld) : option string :=
  match fw_heap w !! l with
  | Some i =>
    if inf_stopped i
    then Some "handler was not added to shared informer because it has stopped already"
    else None
  | None => None
  end.

Definition NewController (AddToGroupVersion : string * string → Scheme → result string Scheme)
    (scheme : Scheme) : created :=
  match AddToScheme [AddToScheme [addKnownTypes AddToGroupVersion]] scheme with
  | Err err => MustPanics err
  | Ok _ =>
    match crd_Informer (new_world (NewSharedInformerFactory 0)) with
    | (Panicked p, _) => PanicsWith p
    | (Done l, w) =>
      match AddEventHandler l w with
      | Some _ => Exits 1
      | None => Created {|
          c_crdmetricsInformerFactory := w; c_informer := l; c_workqueue := newQueue |}
      end
    end
  end.

(** ** The state of the process *)

(** Where [Run] is: before the factory starts, in [WaitForCacheSync] before and
    after its first poll, in the wait for the end of the context, about to shut
    down a server, after its return. *)
Inductive run_phase : Type :=
| Starting
| Syncing (polled : bool)
| Serving
| StoppingSelf
| StoppingMain
| Returned (err : option string).

(** An [http.Server]: before [ListenAndServe], after it failed, while it
    listens, after [Shutdown]; with the number of requests being served. *)
Inductive server_phase : Type := NotStarted | ListenFailed | Listening | Closed.

Record server_state : Type := Server {
  sv_phase : server_phase;
  sv_requests : nat;
}.

(** A goroutine of [wait.UntilWithContext]: at the top of its loop, in
    [processNextWorkItem] before and after [Get], in the wait of a second, or at
    its end. *)
Inductive worker_phase : Type :=
| AtTop
| Getting
| Handling (x : item)
| Sleeping
| Ended.

Record process : Type := Process {
  p_run : run_phase;
  p_factory : FWorld;
  p_queue : queue;
  p_workers : list worker_phase;
  p_self : server_state;
  p_main : server_state;
  p_logged : list string;
}.

Section lifecycle.
Context `{!MapRange}.
(** The channel of the context, the informer of the controller, and the number
    of workers. *)
Context (ctx : nat) (informer : nat) (workers : Z).

Definition ctx_done (p : process) : Prop := ctx ∈ fw_closed (p_factory p).

Definition synced (p : process) : bool :=
  match fw_heap (p_factory p) !! informer with
  | Some i => HasSynced i
  | None => false
  end.

(** *** [http.Server] *)

(** [ListenAndServe]: it fails, or listens, unless it was shut down. *)
Definition listen (ok : bool) (s : server_state) : server_state :=
  match sv_phase s with
  | NotStarted => Server (if ok then Listening else ListenFailed) (sv_requests s)
  | _ => s
  end.

(** [Shutdown] with a context that has ended: it closes the listeners and the
    idle connections, and does not wait for the requests; its error. *)
Definition shutdown (s : server_state) : option string * server_state :=
  (if sv_requests s =? 0 then None else Some "context canceled", Server Closed (sv_requests s)).

Definition begin_request (s : server_state) : server_state :=
  match sv_phase s with
  | Listening => Server Listening (S (sv_requests s))
  | _ => s
  end.

Definition end_request (s : server_state) : server_state :=
  Server (sv_phase s) (pred (sv_requests s)).

(** *** [Run] *)

Definition set_run (r : run_phase) (p : process) : process :=
  Process r (p_factory p) (p_queue p) (p_workers p) (p_self p) (p_main p) (p_logged p).

(** The return, with the deferred [ShutDown] of the queue. *)
Definition return_with (err : option string) (p : process) : process :=
  Process (Returned err) (p_factory p) (ShutDown (p_queue p)) (p_workers p) (p_self p) (p_main p)
    (p_logged p).

(** After the caches have synced: the workers and the servers are spawned. *)
Definition serve (p : process) : process :=
  Process Serving (p_factory p) (p_queue p) (replicate (Z.to_nat workers) AtTop) (p_self p)
    (p_main p) (p_logged p).

Definition log_error (what : string) (err : option string) (logged : list string) : list string :=
  match err with
  | Some err => logged ++ [what +:+ ": " +:+ err]
  | None => logged
  end.

Inductive run_step : process → process → Prop :=
| run_start site p :
  p_run p = Starting →
  run_step p (Process (Syncing false) (Start site ctx (p_factory p)) (p_queue p) (p_workers p)
                (p_self p) (p_main p) (p_logged p))
| run_first_poll p :
  p_run p = Syncing false → synced p = false → run_step p (set_run (Syncing true) p)
| run_synced polled p :
  p_run p = Syncing polled → synced p = true → run_step p (serve p)
| run_gives_up p :
  p_run p = Syncing true → ctx_done p →
  run_step p (return_with (Some "failed to wait for caches to sync") p)
| run_cancelled p :
  p_run p = Serving → ctx_done p → run_step p (set_run StoppingSelf p)
| run_stop_self p :
  p_run p = StoppingSelf →
  let '(err, self) := shutdown (p_self p) in
  run_step p (Process StoppingMain (p_factory p) (p_queue p) (p_workers p) self (p_main p)
                (log_error "error shutting down telemetry server" err (p_logged p)))
| run_stop_main p :
  p_run p = StoppingMain →
  let '(err, main) := shutdown (p_main p) in
  run_step p (return_with None (Process StoppingMain (p_factory p) (p_queue p) (p_workers p)
                (p_self p) main (log_error "error shutting down main server" err (p_logged p)))).

(** A later poll of [WaitForCacheSync] that finds the caches not synced: [Run]
    waits for the next one, or for the end of the context. *)
Inductive poll_step : process → process → Prop :=
| poll_unsynced p : p_run p = Syncing true → synced p = false → poll_step p p.

(** *** Workers *)

Inductive worker_step (cancelled : bool) : worker_phase * queue → worker_phase * queue → Prop :=
| worker_loops q : cancelled = false → worker_step cancelled (AtTop, q) (Getting, q)
| worker_ends q : cancelled = true → worker_step cancelled (AtTop, q) (Ended, q)
| worker_takes x q q' : Get q = Item x q' → worker_step cancelled (Getting, q) (Handling x, q')
| worker_shut_down q : Get q = Shutdown → worker_step cancelled (Getting, q) (Sleeping, q)
| worker_finishes x q : worker_step cancelled (Handling x, q) (Getting, Finish x (Forget x q))
| worker_retries x bucket q :
  worker_step cancelled (Handling x, q) (Getting, Finish x (AddRateLimited bucket x q))
| worker_wakes q : worker_step cancelled (Sleeping, q) (AtTop, q)
| worker_cancelled q : cancelled = true → worker_step cancelled (Sleeping, q) (Ended, q).

(** *** The rest *)

Definition spawned (r : run_phase) : bool :=
  match r with
  | Starting | Syncing _ | Returned (Some _) => false
  | _ => true
  end.

Inductive env_step : process → process → Prop :=
| env_factory w' p :
  factory_step (p_factory p) w' →
  env_step p (Process (p_run p) w' (p_queue p) (p_workers p) (p_self p) (p_main p) (p_logged p))
| env_add x p :
  env_step p (Process (p_run p) (p_factory p) (Add x (p_queue p)) (p_workers p) (p_self p)
                (p_main p) (p_logged p))
| env_fire i p :
  env_step p (Process (p_run p) (p_factory p) (fire i (p_queue p)) (p_workers p) (p_self p)
                (p_main p) (p_logged p))
| env_worker i wk wk' q' p :
  p_workers p !! i = Some wk →
  worker_step (bool_decide (ctx_done p)) (wk, p_queue p) (wk', q') →
  env_step p (Process (p_run p) (p_factory p) q' (<[i := wk']> (p_workers p)) (p_self p)
                (p_main p) (p_logged p))
| env_self f p :
  spawned (p_run p) = true → f ∈ [listen true; listen false; begin_request; end_request] →
  env_step p (Process (p_run p) (p_factory p) (p_queue p) (p_workers p) (f (p_self p))
                (p_main p) (p_logged p))
| env_main f p :
  spawned (p_run p) = true → f ∈ [listen true; listen false; begin_request; end_request] →
  env_step p (Process (p_run p) (p_factory p) (p_queue p) (p_workers p) (p_self p)
                (f (p_main p)) (p_logged p)).

Definition process_step (p p' : process) : Prop := run_step p p' ∨ poll_step p p' ∨ env_step p p'.

(** [Run] when it is called. *)
Definition starting (c : Controller) : process :=
  Process Starting (c_crdmetricsInformerFactory c) (c_workqueue c) [] (Server NotStarted 0)
    (Server NotStarted 0) [].
End lifecycle.

(** A run, with the number of steps of [Run] in it, its repeated polls apart. *)
Inductive process_run `{!MapRange} (ctx informer : nat) (workers : Z) : nat → process → process → Prop :=
| process_refl p : process_run ctx informer workers 0 p p
| process_env n p p' p'' :
  env_step ctx p p' → process_run ctx informer workers n p' p'' →
  process_run ctx informer workers n p p''
| process_poll n p p' p'' :
  poll_step informer p p' → process_run ctx informer workers n p' p'' →
  process_run ctx informer workers n p p''
| process_own n p p' p'' :
  run_step ctx informer workers p p' → process_run ctx informer workers n p' p'' →
  process_run ctx informer workers (S n) p p''.

(** ** Lemmas *)

Section lemmas.
Context `{!MapRange} (ctx informer : nat) (workers : Z).

Notation run_step := (run_step ctx informer workers).
Notation env_step := (env_step ctx).
Notation process_run := (process_run ctx informer workers).

Lemma synced_true p :
  synced informer p = true ↔ HasSynced <$> fw_heap (p_factory p) !! informer = Some true.
Proof.
  unfold synced. destruct (fw_heap (p_factory p) !! informer) as [i|]; [|by split].
  cbn. split; [by intros ->|by intros [= ->]].
Qed.

Definition idle_server : server_state := Server NotStarted 0.

(** Nothing runs until the caches have synced, and the queue is shut down at the
    return. *)
Record process_ok (p : process) : Prop := {
  po_factory : factory_ok (p_factory p);
  po_idle : spawned (p_run p) = false →
    p_workers p = [] ∧ p_self p = idle_server ∧ p_main p = idle_server;
  po_synced : spawned (p_run p) = true → synced informer p = true;
  po_returned : ∀ err, p_run p = Returned err → q_shuttingDown (p_queue p) = true;
}.

Lemma run_step_ok p p' : run_step p p' → process_ok p → process_ok p'.
Proof.
  intros Hs [Hf Hi Hsy Hr].
  destruct Hs as [site p Hp|p Hp Hn|polled p Hp Hy|p Hp Hd|p Hp Hd|p Hp|p Hp];
    rewrite Hp in *; simpl in *.
  - split; simpl; try done. by apply Start_ok.
  - by split.
  - split; simpl; try done; intros _; exact Hy.
  - split; simpl; try done.
  - split; simpl; try done; intros _; by apply Hsy.
  - destruct (p_self p) as [ph n]. split; simpl; try done; intros _; by apply Hsy.
  - destruct (p_main p) as [ph n]. split; simpl; try done; intros _; by apply Hsy.
Qed.

Lemma Add_shuttingDown x q : q_shuttingDown q = true → Add x q = q.
Proof. intros Hq. unfold Add. by rewrite Hq. Qed.

Lemma Get_shuttingDown x q q' : Get q = Item x q' → q_shuttingDown q' = q_shuttingDown q.
Proof.
  unfold Get. destruct (q_queue q) as [|y rest]; [by destruct (q_shuttingDown q)|]. by intros [= _ <-].
Qed.

Lemma Finish_shuttingDown x q : q_shuttingDown (Finish x q) = q_shuttingDown q.
Proof. unfold Finish. by case_decide. Qed.

Lemma worker_step_shuttingDown b s s' :
  worker_step b s s' → q_shuttingDown s.2 = true → q_shuttingDown s'.2 = true.
Proof.
  intros [q Hb|q Hb|x q q' Hg|q Hg|x q|x bucket q|q|q Hb] Hq; try done; cbn [snd] in *.
  - by rewrite (Get_shuttingDown _ _ _ Hg).
  - by rewrite Finish_shuttingDown.
  - rewrite Finish_shuttingDown. unfold AddRateLimited, AddAfter, When. simpl. by rewrite Hq.
Qed.

Lemma env_step_ok p p' : env_step p p' → process_ok p → process_ok p'.
Proof.
  intros Hs [Hf Hi Hsy Hr].
  destruct Hs as [w' p Hw|x p|i p|i wk wk' q' p Hwk Hw|f p Hsp Hin|f p Hsp Hin].
  - destruct (factory_step_ok _ _ Hw Hf) as [Hf' Hle]. split; simpl; try done.
    intros Hsp. apply synced_true. simpl. by apply (le_synced _ _ Hle), synced_true, Hsy.
  - split; simpl; try done. intros err Hret. by rewrite Add_shuttingDown; eauto.
  - split; simpl; try done. intros err Hret. unfold fire.
    destruct (q_waiting (p_queue p) !! i) as [[x d]|]; [|by eauto].
    rewrite Add_shuttingDown; simpl; eauto.
  - split; simpl; try done.
    + intros Hsp. destruct (Hi Hsp) as (Hws & _). by rewrite Hws in Hwk.
    + intros err Hret. apply (worker_step_shuttingDown _ _ _ Hw). by eapply Hr.
  - split; simpl; try done; intros Hsp'; congruence.
  - split; simpl; try done; intros Hsp'; congruence.
Qed.

Lemma poll_step_same p p' : poll_step informer p p' → p' = p.
Proof. by intros []. Qed.

Lemma process_run_ok n p p' : process_run n p p' → process_ok p → process_ok p'.
Proof.
  induction 1 as [| |n p p1 p' ->%poll_step_same|]; eauto using run_step_ok, env_step_ok.
Qed.

(** The steps that [Run] still makes. *)
Definition rank (r : run_phase) : nat :=
  match r with
  | Starting => 6
  | Syncing false => 5
  | Syncing true => 4
  | Serving => 3
  | StoppingSelf => 2
  | StoppingMain => 1
  | Returned _ => 0
  end.

Lemma run_step_rank p p' : run_step p p' → rank (p_run p') < rank (p_run p).
Proof.
  intros Hs. destruct Hs as [site p Hp|p Hp Hn|polled p Hp Hy|p Hp Hd|p Hp Hd|p Hp|p Hp];
    rewrite Hp; simpl; try lia. destruct polled; lia.
Qed.

Lemma env_step_run p p' : env_step p p' → p_run p' = p_run p.
Proof. by intros []. Qed.

Lemma process_run_rank n p p' : process_run n p p' → n + rank (p_run p') <= rank (p_run p).
Proof.
  induction 1 as [p|n p p1 p' He _ IH|n p p1 p' ->%poll_step_same _ IH|n p p1 p' Hr _ IH]; [done| |done|].
  - by rewrite <- (env_step_run _ _ He).
  - apply run_step_rank in Hr. lia.
Qed.

(** Once the context has ended, [Run] can always go on. *)
Lemma run_enabled p : ctx_done ctx p → (∃ p', run_step p p') ∨ ∃ err, p_run p = Returned err.
Proof.
  intros Hd. destruct (p_run p) as [|polled| | | |err] eqn:Hp.
  - left. eexists. by apply (run_start _ _ _ []).
  - left. destruct (synced informer p) eqn:Hy; [by eexists; eapply run_synced|].
    destruct polled; [by eexists; apply run_gives_up|by eexists; apply run_first_poll].
  - left. eexists. by apply run_cancelled.
  - left. eexists. by apply (run_stop_self ctx informer workers p).
  - left. eexists. by apply (run_stop_main ctx informer workers p).
  - right. by exists err.
Qed.
End lemmas.

Lemma NewController_Created AddToGroupVersion scheme c :
  NewController AddToGroupVersion scheme = Created c →
  c = {| c_crdmetricsInformerFactory := InformersExample.w_made; c_informer := 0;
         c_workqueue := newQueue |}.
Proof.
  unfold NewController. destruct (AddToScheme _ scheme); [|done].
  change (crd_Informer (new_world (NewSharedInformerFactory 0)))
    with (Done 0 : outcome nat, InformersExample.w_made). cbv iota beta.
  change (AddEventHandler 0 InformersExample.w_made) with (None : option string). cbv iota.
  by intros [= <-].
Qed.

Lemma starting_ok `{!MapRange} AddToGroupVersion scheme c :
  NewController AddToGroupVersion scheme = Created c → process_ok (c_informer c) (starting c).
Proof.
  intros ->%NewController_Created. split; simpl; try done.
  apply (reachable_factory_ok InformersExample.controller_factory).
  - apply InformersExample.controller_factory_fresh.
  - apply rtc_once. right.
    by apply (step_InformerFor CRDType InformersExample.crd_mk 0).
Qed.

(** ** Properties *)

Section properties.
Context `{!MapRange} (ctx : nat) (workers : Z).

(** C25: Nothing runs before the caches have synced.  From [NewController] on,
    through any steps of [Run], the factory, the workers, the servers and the
    context, there is no worker, no server listens and no request is served
    while the informer of managed resources has not synced, nor after [Run]
    returned an error; and a return means that the queue is shut down. *)
Theorem no_work_before_sync AddToGroupVersion scheme c n p :
  NewController AddToGroupVersion scheme = Created c →
  process_run ctx (c_informer c) workers n (starting c) p →
  (synced (c_informer c) p = false ∨ (∃ err, p_run p = Returned (Some err)) →
     p_workers p = [] ∧ p_self p = idle_server ∧ p_main p = idle_server) ∧
  (∀ err, p_run p = Returned err → q_shuttingDown (p_queue p) = true).
Proof.
  intros Hc Hrun.
  pose proof (process_run_ok _ _ _ _ _ _ Hrun (starting_ok _ _ _ Hc)) as [_ Hi Hsy Hr].
  split; [|exact Hr]. intros Hn. apply Hi. destruct Hn as [Hn|[err Hret]].
  - destruct (spawned (p_run p)); [|done]. rewrite Hsy in Hn by done. done.
  - by rewrite Hret.
Qed.

(** C34: [Run] returns.  Besides the polls that find the caches not synced, it
    takes at most six steps of its own, whatever the rest does; once the context
    has ended it can take its next one at any time, until it has returned.  No
    worker, no request and no cache can hold it. *)
Theorem Run_returns informer n p p' :
  p_run p = Starting → process_run ctx informer workers n p p' →
  n <= 6 ∧
  (ctx_done ctx p' →
     (∃ p'', run_step ctx informer workers p' p'') ∨ ∃ err, p_run p' = Returned err).
Proof.
  intros Hp Hrun. apply process_run_rank in Hrun. rewrite Hp in Hrun. simpl in Hrun.
  split; [lia|]. apply run_enabled.
Qed.

(** The shutdown does not wait for the requests that are being served.  Both
    servers are shut down with the context whose end started the shutdown: each
    that still serves requests gives an error, which is logged, and [Run]
    returns nil while they are served. *)
Lemma shutdown_drops_requests informer p :
  p_run p = Serving → ctx_done ctx p →
  ∃ p', nsteps (run_step ctx informer workers) 3 p p' ∧ p_run p' = Returned None ∧
    sv_requests (p_self p') = sv_requests (p_self p) ∧
    sv_requests (p_main p') = sv_requests (p_main p) ∧
    p_workers p' = p_workers p ∧
    p_logged p' = p_logged p ++
      (if sv_requests (p_self p) =? 0 then []
       else ["error shutting down telemetry server: context canceled"]) ++
      (if sv_requests (p_main p) =? 0 then []
       else ["error shutting down main server: context canceled"]).
Proof.
  intros Hp Hd. eexists. split.
  - eapply nsteps_l; [by apply run_cancelled|].
    eapply nsteps_l; [by apply (run_stop_self ctx informer workers (set_run StoppingSelf p))|].
    eapply nsteps_l; [|apply nsteps_O]. by apply (run_stop_main ctx informer workers (Process _ _ _ _ _ _ _)).
  - simpl. split_and!; try done. unfold log_error.
    destruct (sv_requests (p_self p) =? 0), (sv_requests (p_main p) =? 0);
      simpl; by rewrite ?app_nil_r, <- ?app_assoc.
Qed.
End properties.

(** ** Witnesses *)

Module LifecycleExample.

Definition no_meta (gv : string * string) (s : Scheme) : result string Scheme := Ok s.

Definition controller : Controller := {|
  c_crdmetricsInformerFactory := InformersExample.w_made; c_informer := 0; c_workqueue := newQueue;
|}.

Lemma controller_created : NewController no_meta ∅ = Created controller.
Proof. reflexivity. Qed.

(** The context ends before the caches have synced. *)
Definition closed_factory : FWorld :=
  let w := Start [] 7 InformersExample.w_made in
  MkFWorld (fw_factory w) (fw_heap w) (fw_next w) (fw_goroutines w) (fw_waiters w)
    ({[7]} ∪ fw_closed w).

Definition gave_up : process :=
  Process (Returned (Some "failed to wait for caches to sync")) closed_factory (ShutDown newQueue)
    [] idle_server idle_server [].

Lemma gave_up_reachable : process_run 7 0 2 3 (starting controller) gave_up.
Proof.
  eapply process_own; [by apply (run_start 7 0 2 [])|].
  eapply process_own; [by apply run_first_poll|].
  eapply process_poll; [by apply poll_unsynced|].
  eapply process_env; [apply env_factory; right; apply (step_close 7)|].
  eapply process_own; [apply run_gives_up; [reflexivity|]|apply process_refl].
  unfold ctx_done. simpl. set_solver.
Qed.

Lemma no_work_before_sync_witness :
  p_workers gave_up = [] ∧ p_main gave_up = idle_server ∧
  q_shuttingDown (p_queue gave_up) = true.
Proof.
  destruct (no_work_before_sync 7 2 no_meta ∅ controller 3 gave_up controller_created
    gave_up_reachable) as [Hi Hr].
  destruct Hi as (Hw & _ & Hm); [right; by eexists|]. split; [exact Hw|].
  split; [exact Hm|]. by apply (Hr _ eq_refl).
Defined.

Lemma Run_returns_witness : 3 <= 6 ∧ (∃ err, p_run gave_up = Returned err).
Proof.
  destruct (Run_returns 7 2 0 3 (starting controller) gave_up eq_refl gave_up_reachable) as [Hn _].
  split; [exact Hn|by eexists].
Defined.

(** A scrape is being served when the context ends. *)
Definition scraping : process :=
  Process Serving closed_factory newQueue [AtTop] (Server Listening 0) (Server Listening 1) [].

Lemma shutdown_drops_requests_witness :
  ∃ p', p_run p' = Returned None ∧ sv_requests (p_main p') = 1 ∧
    p_logged p' = ["error shutting down main server: context canceled"].
Proof.
  destruct (shutdown_drops_requests 7 2 0 scraping) as (p' & _ & Hr & _ & Hm & _ & Hl).
  - reflexivity.
  - unfold ctx_done. simpl. set_solver.
  - exists p'. split; [exact Hr|]. split; [exact Hm|exact Hl].
Defined.
End LifecycleExample.
